(* ===== verification/_CoqProject ===== *)
-Q . S2P
Prelude.v
Endianness.v
ByteBuffer.v
Time.v
RingQueue.v
OrderedMap.v
Http.v
Codec.v
Timers.v
TimerDeadlines.v
Pollers.v
EpollEvents.v
LoopIterations.v
PipeBench.v
LoopObjects.v
Loops.v
TcpConnections.v
ConnectionRaces.v
StreamServers.v
HttpConnections.v
CodecServers.v
Dialogues.v
LatencyClients.v
PingPongClients.v
PingPongRuns.v
Connectors.v
TcpClients.v
TcpServers.v
ThreadPools.v
Threads.v
CriticalSections.v
LogStreams.v
LoggerGlobals.v
ThreadInfos.v
LogFiles.v
AsyncLoggers.v
LogPipelines.v
Addresses.v
Sockets.v
