(* ===== verification/Prelude.v ===== *)
(** * suduo, a C++ network library: a verification development

    suduo is a multi-threaded network library in the style of muduo: event loops, one
    to a thread, watch descriptors through a poller and call back the channels that
    are ready; connections, servers, clients and timers are built on channels; other
    threads reach a loop by queueing functors in it. Beside it stand a logging
    library, blocking queues and a thread pool, an HTTP server and a framing codec.
    Source files are named below as under src/suduo/.

    ** The files

    Every component has a Module with the class's data and operations, a Module
    [...Spec] with its invariant and lemmas, and a Module [...Props] (or the end of
    the file) with its properties and their witnesses.

    - Prelude (this file): outcomes, machine integers, objects as byte lists,
      decimal text, step relations, shared tactics.
    - Endianness: net/Endian.h; integers in memory, on either byte order.
    - ByteBuffer: net/Buffer.h/.cpp. The vector and both indices; [content]
      abstracts a buffer to its readable bytes.
    - Time: base/Timestamp.h/.cpp; nanoseconds, IEEE doubles, texts.
    - RingQueue: base/CircularBuffer.h, BoundedBlockingQueue.h, BlockingQueue.h; both
      queues behind [Class BlockingFifo], and the threads that share one.
    - OrderedMap: [std::map] and [std::set], with iterators as keys.
    - Http: bench/http; request, incremental parser, response, handlers.
    - Codec: bench/zeromq/codec.h.
    - Timers: net/Timer.h, TimerQueue.h/.cpp. The map of timers, with its moved-from
      nodes, the index of references to them, and what callbacks do to both.
      TimerDeadlines: the queue with its descriptor over time.
    - Pollers: net/Channel, Poller, poller/EPollPoller and PollPoller; the two
      pollers behind [Class PollerOps], over a heap of channels. EpollEvents: the array
      of [epoll_wait] and more ready descriptors than it holds. LoopIterations: a turn
      of the loop over the pollers, whatever the callbacks do to channels.
    - LoopObjects: the EventLoop as an object: constructor and destructor, the
      thread's pointer to it, its two channels, poller/DefaultPoller. Loops:
      net/EventLoop, EventLoopThread, EventLoopThreadPool; the loop's thread step by
      step, interleaved with the threads that call it.
    - TcpConnections: net/TcpConnection; one connection in its loop: the state
      machine, both buffers, the user's callbacks. ConnectionRaces: the connection
      shared by threads: their calls in pieces between the loop's steps, the pointers
      that keep it alive, and its destructor.
    - StreamServers: what user code makes of a connection: a handler with a context,
      behind [Class Handler], and the ping-pong server (bench/pingpong/server.cpp).
      HttpConnections puts bench/http/HttpServer.cpp on it, CodecServers the server
      of bench/zeromq/local_lat.cpp.
    - PipeBench: bench/pingpong/bench.cpp as a whole. Dialogues: two programs behind
      [Class Peer] and the two streams between them; on it LatencyClients
      (bench/zeromq/remote_lat.cpp with its server) and PingPongClients
      (bench/pingpong/client.cpp with its server, and the count of its sessions).
      PingPongRuns: that client from its constructor, over the loops of its threads
      and its time-out, to its end.
    - Connectors: net/Connector; TcpClients: net/TcpClient over a connector and the
      connections it makes; TcpServers: net/Acceptor and TcpServer over connections
      in several loops.
    - ThreadPools: base/ThreadPool and CountDownLatch.h; Threads: base/Mutex.h,
      Condition.h, Thread.h/.cpp, one pthread call or field access a step;
      CriticalSections: what runs under a mutex, access by access.
    - LogStreams: base/LogStream.h and Logger; LogFiles: base/FileUtil and LogFile;
      AsyncLoggers: base/AsyncLogger, over any sink of LogFiles' [Class LogSink].
      LoggerGlobals: the Logger's global functions and level, and their setters.
      LogPipelines: the three together, from a statement to the disk.
    - ThreadInfos: base/CurrentThreadInfo, Exception.h, ProcessInfo.h.
    - Addresses: net/InetAddress, the address functions of SocketOpt and
      [Socket::accept]. Sockets: net/Socket, its options and TCP_INFO, and the
      acceptor's socket.

    ** How the code is translated

    A method is a function from the object's state (a record, with the source's field
    names) to [res] of its result and the state after it; [Stop] is where the program
    goes no further: a failed assert, undefined behaviour, an exception, [abort()].
    Whether asserts are compiled in is [Class Build], the machine's byte order
    [Class Host]; theorems hold for both values unless they say otherwise. [size_t]
    wraps ([u64]), signed overflow is undefined ([i64_checked], [i32_checked]). A
    pointer into a vector is an offset; objects that others point to are in a map
    from addresses.

    System calls and the C library are parameters: a class of functions ([Kernel],
    [Sockets], [Epoll], [Stdio], [Text], [Calendar]) with a class of the documented
    laws that the theorems use; each witness instantiates them. What may happen from
    outside (a descriptor is ready, a timer expires, another thread calls) is a list
    of inputs, or a step relation; [allowed] says which inputs the environment may
    give in a state (poll reports what was asked for, a connection is established
    once), and theorems hold for all allowed sequences. User callbacks are arbitrary:
    the calls they make, as a function of what they have seen.

    Threads: a critical section is one step, from the acquisition of the mutex to
    its release or to [wait]; a step relation interleaves the sections of all
    threads. CriticalSections.v proves that it is enough: the accesses of a section
    under a [MutexLock], one by one and in any interleaving, come to that step. A
    loop's own state is touched by its thread only, which [assert_in_loop_thread]
    checks in the code: LoopObjects.v models the check, the other files take for granted
    that it holds. An assert that depends on what another component does wrong is an
    argument ([held] in ThreadPools.v: what [_mutex.assert_locked()] finds).

    Memory nobody has initialised is an argument too, and may hold anything: local
    addresses and arrays of characters ([to_Ip]), the counter of the ping-pong client.

    Loops that are not structural have fuel, and theorems show that what they are
    given is enough: the parser of HTTP and the codec one more than the readable
    bytes, since each round takes a line or a header ([loop_returns], [decode_fuel]);
    [FileAppender::append] two rounds, since a short count other than at the end is
    an error; [TimerQueue::handle_read] any number above that of the due timers
    ([handle_read_fires_due]), and where callbacks keep it from returning it runs out
    of any fuel ([self_rescheduling_never_returns]). Decimal and hexadecimal digits
    have the fuel of the number's length.

    ** What is shown

    - Data: buffers refine a byte queue and integers survive the wire; the ring
      refines a list; queues lose nothing and wake whom they must; the memory of an
      address is what its family claims, and prints as that when the text is short.
    - Protocols: parsers end on every input, do not care how TCP cuts it, and invert
      the printers.
    - Timers fire when due, once and in order, are cancelled exactly and never
      forgotten ([timers_fire_in_time]), as long as callbacks add timers only behind
      those firing; and what goes wrong otherwise.
    - Loops: functors run once and in order, no wakeup is lost once the loop polls
      (before that, [queued_before_loop_sleeps] and [early_quit_is_lost]); a loop is
      constructed, used and destroyed by its own thread, or the program is aborted
      ([loop_of_its_thread]). Both pollers implement
      one specification of channels, and the loop over them that of a loop without
      either: every event reported is handled once ([loop_dispatches_events]), and a
      channel deleted while it is active is used ([deleted_channel_called]).
    - Connections: bytes go out in order, FIN after the last of them, callbacks come
      in order; shared by threads, a connection outlives every functor queued for it
      ([shared_connection]), unless it closes in the middle of a call
      ([disturbed_calls]) or another thread stops reading ([start_read_elsewhere]). A
      hang-up that the poller reports of a connection already closed
      ([late_hang_up]) runs the closing again. On top of it, while the peer is there: a server's client is sent what the handler
      makes of the bytes it sent ([stream_server]); an HTTP request gets its response,
      a message comes back; the latency benchmark ends with all its round trips, the
      ping-pong client's block goes round for ever, and the client ends when its time
      is up ([pingpong_run_ends]).
    - Clients, servers, connectors: whatever the interleaving, connections are known,
      removed and destroyed once, and no descriptor is lost or closed twice, as long
      as [connect()] and [start()] come when the connector is idle, a client is
      destroyed in its loop's thread, system calls that may not fail do not, and no
      late hang-up comes; theorems beside these show what happens otherwise.
    - Threads and pools: one at a time inside a mutex, whose sections are atomic
      ([sections_are_atomic]); tasks run once and in order,
      stop and join end; a thread knows its id and its loop.
    - Logging: a line is put together within its buffer, a pointer at its very end
      apart; files and the asynchronous logger keep every message, in order, until
      stop or until too many buffers wait; and the lines of all enabled statements but
      a fatal one, whatever thread they are in, come to the files in order and untorn
      ([logged_lines_reach_files]).
    - Where the code does less than it means to, a theorem shows how.

    ** Not modelled

    The command lines of the programs under bench/ and what they print; names of
    threads and connections where nothing depends on them; [strerror_tl], and
    [EventLoop::has_channel], which has no body; type-only mixins (copyable.h,
    noncopyable.h). The logging statements inside components change
    nothing the models hold. Memory is not freed in the models; where the code uses
    an object after its end, that is a state of the object and a [Stop]. *)

From Stdlib Require Import ZArith Lia.
From Stdlib Require Export Strings.Byte.
From stdpp Require Export base tactics numbers list strings gmap.

#[global] Open Scope Z_scope.

(** ** Outcomes of a C++ computation

    A call either returns or stops the program: a failed [assert], undefined
    behaviour (an access outside an object, signed overflow, a null
    dereference), an exception the code does not catch, a [LOG_FATAL] or
    [LOG_SYSFATAL] line, whose destructor calls [abort()], a blocking system call
    that waits for the calling thread itself, or a loop that has used up the fuel the
    model gives it. *)
Inductive fault :=
  | AssertionFailed
  | UndefinedBehaviour
  | LengthError
  | Aborted
  | Blocked
  | FuelExhausted.

Inductive res (A : Type) :=
  | Ret (a : A)
  | Stop (f : fault).
Arguments Ret {A} a.
Arguments Stop {A} f.

#[export] Instance fault_eq_dec : EqDecision fault.
Proof. solve_decision. Defined.

#[export] Instance res_ret : MRet res := @Ret.
#[export] Instance res_bind : MBind res := fun A B k m =>
  match m with
  | Ret a => k a
  | Stop f => Stop f
  end.

(** [assert(c)] is compiled out by [-DNDEBUG], the default (Release) build of
    CMakeLists.txt, and aborts the program otherwise; theorems quantify over
    the build. *)
Class Build := { ndebug : bool }.

Definition assert_ {B : Build} (c : bool) : res unit :=
  if ndebug || c then Ret tt else Stop AssertionFailed.

(** The outcome of a call that returns. *)
Definition returns {A} (m : res A) : Prop := exists a, m = Ret a.

Lemma res_bind_Ret {A B} (k : A -> res B) a : (Ret a ≫= k) = k a.
Proof. reflexivity. Qed.

Lemma res_bind_inv {A B} (k : A -> res B) m b :
  (m ≫= k) = Ret b -> exists a, m = Ret a /\ k a = Ret b.
Proof. destruct m; cbn; [eauto | discriminate]. Qed.

Lemma assert_true {B : Build} c : c = true -> assert_ c = Ret tt.
Proof. intros ->. unfold assert_. by rewrite orb_true_r. Qed.

Lemma assert_release c : @assert_ {| ndebug := true |} c = Ret tt.
Proof. reflexivity. Qed.

(** Turns hypotheses [(m ≫= k) = Ret b] into the intermediate results. *)
Ltac res_inv :=
  repeat match goal with
  | H : (_ ≫= _) = Ret _ |- _ =>
      let a := fresh "r" in
      let E := fresh "Er" in
      apply res_bind_inv in H; destruct H as (a & E & H)
  | H : Ret _ = Ret _ |- _ => injection H as H; subst
  | H : mret _ = Ret _ |- _ => injection H as H; subst
  | H : Stop _ = Ret _ |- _ => discriminate H
  end.

(** Takes a call that returned apart. *)
Ltac returned :=
  repeat (res_inv; try match goal with
    | H : (if ?b then _ else _) = Ret _ |- _ => destruct b eqn:?
    | H : (match ?x with _ => _ end) = Ret _ |- _ => destruct x eqn:?; try discriminate H
    end).

(** ** Machine integers: a w-bit value as a [Z], wrap-around written out *)

Definition to_unsigned (w z : Z) : Z := z mod 2 ^ w.
Definition to_signed (w z : Z) : Z := (z + 2 ^ (w - 1)) mod 2 ^ w - 2 ^ (w - 1).

(** [size_t] and [uint64_t] arithmetic. *)
Definition u64 (z : Z) : Z := z mod 18446744073709551616.

Definition int32_max : Z := 2147483647.
Definition int64_max : Z := 9223372036854775807.

(** Signed arithmetic overflow is undefined behaviour. *)
Definition i64_checked (z : Z) : res Z :=
  if (- int64_max - 1 <=? z) && (z <=? int64_max) then Ret z
  else Stop UndefinedBehaviour.
Definition i32_checked (z : Z) : res Z :=
  if (- int32_max - 1 <=? z) && (z <=? int32_max) then Ret z
  else Stop UndefinedBehaviour.

Lemma u64_small z : 0 <= z < 18446744073709551616 -> u64 z = z.
Proof. intros. unfold u64. by apply Z.mod_small. Qed.

Lemma u64_range z : 0 <= u64 z < 18446744073709551616.
Proof. by apply Z.mod_pos_bound. Qed.

Lemma to_unsigned_range w z : 0 <= w -> 0 <= to_unsigned w z < 2 ^ w.
Proof. intros. apply Z.mod_pos_bound. by apply Z.pow_pos_nonneg. Qed.

Lemma to_signed_unsigned w z :
  0 < w -> to_signed w (to_unsigned w z) = to_signed w z.
Proof.
  intros. unfold to_signed, to_unsigned.
  by rewrite Zplus_mod_idemp_l.
Qed.

Lemma to_unsigned_signed w z :
  0 < w -> to_unsigned w (to_signed w z) = to_unsigned w z.
Proof.
  intros. unfold to_signed, to_unsigned.
  rewrite Zminus_mod_idemp_l. f_equal. lia.
Qed.

Lemma to_signed_small w z :
  0 < w -> - 2 ^ (w - 1) <= z < 2 ^ (w - 1) -> to_signed w z = z.
Proof.
  intros Hw Hz. unfold to_signed.
  assert (2 ^ w = 2 * 2 ^ (w - 1)) as ->.
  { rewrite <- Z.pow_succ_r by lia. f_equal. lia. }
  rewrite Z.mod_small; lia.
Qed.

Lemma i32_checked_Ret z : - 2147483648 <= z <= 2147483647 -> i32_checked z = Ret z.
Proof.
  intros []. unfold i32_checked, int32_max.
  by rewrite !(proj2 (Z.leb_le _ _)) by lia.
Qed.

(** [u64_tac] removes the wrap-around of a sum or difference that [lia] can
    bound. *)
Ltac u64_tac :=
  repeat match goal with
  | |- context [u64 ?z] => rewrite (u64_small z) by lia
  | H : context [u64 ?z] |- _ => rewrite (u64_small z) in H by lia
  end.
Ltac zbool :=
  repeat match goal with
  | H : _ && _ = true |- _ => apply andb_prop in H; destruct H
  | H : (_ <=? _)%Z = true |- _ => apply Z.leb_le in H
  | H : (_ <=? _)%Z = false |- _ => apply Z.leb_gt in H
  | H : (_ <? _)%Z = true |- _ => apply Z.ltb_lt in H
  | H : (_ <? _)%Z = false |- _ => apply Z.ltb_ge in H
  | H : (_ =? _)%Z = true |- _ => apply Z.eqb_eq in H
  | H : (_ =? _)%Z = false |- _ => apply Z.eqb_neq in H
  end.
(** Case analysis on the integer comparisons a goal branches on. *)
Ltac zcase :=
  match goal with
  | |- context [(?a <=? ?b)%Z] => destruct (Z.leb_spec a b)
  | |- context [(?a <? ?b)%Z] => destruct (Z.ltb_spec a b)
  | |- context [(?a =? ?b)%Z] => destruct (Z.eqb_spec a b)
  end.

(** ** Memory: a [std::vector<char>], or any object, as a list of bytes *)

Abbreviation zlen l := (Z.of_nat (length l)).

(** Elements [lo .. hi) of [l]. *)
Definition slice {A} (lo hi : Z) (l : list A) : list A :=
  take (Z.to_nat (hi - lo)) (drop (Z.to_nat lo) l).

(** Reading the pointer range [lo, hi) of an object; writing [d] at [at]. *)
Definition read_range {A} (l : list A) (lo hi : Z) : res (list A) :=
  if (0 <=? lo) && (lo <=? hi) && (hi <=? zlen l) then Ret (slice lo hi l)
  else Stop UndefinedBehaviour.

Definition write_range {A} (l : list A) (pos : Z) (d : list A) : res (list A) :=
  if (0 <=? pos) && (pos + zlen d <=? zlen l)
  then Ret (take (Z.to_nat pos) l ++ d ++ drop (Z.to_nat pos + length d) l)
  else Stop UndefinedBehaviour.

Create Rewrite HintDb zlist.

Lemma slice_nil {A} lo hi : slice lo hi (@nil A) = [].
Proof. unfold slice. by rewrite drop_nil, take_nil. Qed.

Lemma slice_empty {A} lo hi (l : list A) : hi <= lo -> slice lo hi l = [].
Proof. intros. unfold slice. by replace (Z.to_nat (hi - lo)) with 0%nat by lia. Qed.

Lemma slice_full {A} (l : list A) n : n = zlen l -> slice 0 n l = l.
Proof.
  intros ->. unfold slice. rewrite Z.sub_0_r, Nat2Z.id.
  by rewrite drop_0, firstn_all.
Qed.

Lemma slice_length {A} lo hi (l : list A) :
  0 <= lo -> lo <= hi -> hi <= zlen l -> zlen (slice lo hi l) = hi - lo.
Proof. intros. unfold slice. rewrite length_take, length_drop. lia. Qed.

Lemma slice_slice {A} a b lo hi (l : list A) :
  0 <= a -> 0 <= lo -> lo + b <= hi ->
  slice a b (slice lo hi l) = slice (lo + a) (lo + b) l.
Proof.
  intros. unfold slice. rewrite skipn_firstn_comm, take_take, drop_drop.
  f_equal; [lia | f_equal; lia].
Qed.

Lemma slice_app {A} lo mid hi (l : list A) :
  0 <= lo -> lo <= mid -> mid <= hi ->
  slice lo mid l ++ slice mid hi l = slice lo hi l.
Proof.
  intros. unfold slice.
  replace (Z.to_nat (hi - lo)) with (Z.to_nat (mid - lo) + Z.to_nat (hi - mid))%nat by lia.
  rewrite <- (take_drop (Z.to_nat (mid - lo)) (take (_ + _) _)).
  rewrite take_take, skipn_firstn_comm, drop_drop.
  f_equal; [f_equal; lia |]. f_equal; [lia |]. f_equal. lia.
Qed.

Lemma slice_take_drop {A} lo n (l : list A) :
  0 <= lo -> slice lo n l = drop (Z.to_nat lo) (take (Z.to_nat n) l).
Proof.
  intros. unfold slice. rewrite skipn_firstn_comm. f_equal. lia.
Qed.

Lemma read_range_Ret {A} (l : list A) lo hi :
  0 <= lo -> lo <= hi -> hi <= zlen l -> read_range l lo hi = Ret (slice lo hi l).
Proof.
  intros. unfold read_range.
  by rewrite !(proj2 (Z.leb_le _ _)) by lia.
Qed.

Lemma read_range_inv {A} (l : list A) lo hi r :
  read_range l lo hi = Ret r ->
  0 <= lo /\ lo <= hi /\ hi <= zlen l /\ r = slice lo hi l.
Proof.
  unfold read_range. destruct (_ && _) eqn:E; [| discriminate].
  intros [= <-]. zbool. eauto.
Qed.

Lemma write_range_Ret {A} (l : list A) pos d :
  0 <= pos -> pos + zlen d <= zlen l ->
  exists l', write_range l pos d = Ret l' /\ zlen l' = zlen l /\
    slice pos (pos + zlen d) l' = d /\
    (forall lo hi, 0 <= lo -> hi <= pos -> slice lo hi l' = slice lo hi l) /\
    (forall lo hi, pos + zlen d <= lo -> slice lo hi l' = slice lo hi l).
Proof.
  intros Hp Hl. unfold write_range.
  rewrite !(proj2 (Z.leb_le _ _)) by lia. eexists; split; [reflexivity |].
  assert (length (take (Z.to_nat pos) l) = Z.to_nat pos) as Ht
    by (rewrite length_take; lia).
  split; [rewrite !length_app, length_drop, Ht; lia |].
  split.
  { unfold slice. rewrite drop_app_length' by done.
    rewrite take_app_length' by lia. done. }
  split.
  - intros lo hi Hlo Hhi. rewrite !slice_take_drop by lia.
    rewrite take_app_le by lia. rewrite take_take. do 2 f_equal. lia.
  - intros lo hi Hlo. unfold slice. f_equal.
    rewrite drop_app_ge by lia. rewrite drop_app_ge by lia.
    rewrite drop_drop. f_equal. lia.
Qed.

#[export] Hint Rewrite @length_app @length_take @length_drop @length_replicate
  @slice_nil @app_nil_r : zlist.

(** ** Bytes *)

Definition Z_of_byte (b : byte) : Z := Z.of_N (Byte.to_N b).
Definition byte_of_Z (z : Z) : byte :=
  match Byte.of_N (Z.to_N (z mod 256)) with Some b => b | None => x00 end.

#[export] Instance byte_eq_dec : EqDecision byte := Byte.byte_eq_dec.

Lemma Z_of_byte_range b : 0 <= Z_of_byte b < 256.
Proof.
  unfold Z_of_byte. pose proof (Byte.to_N_bounded b). lia.
Qed.

Lemma Z_of_byte_of_Z z : Z_of_byte (byte_of_Z z) = z mod 256.
Proof.
  unfold Z_of_byte, byte_of_Z.
  pose proof (Z.mod_pos_bound z 256 eq_refl) as Hb.
  destruct (Byte.of_N _) as [b|] eqn:E.
  - apply Byte.to_of_N in E. rewrite E. lia.
  - apply Byte.of_N_None_iff in E. lia.
Qed.

Lemma byte_of_Z_of_byte b : byte_of_Z (Z_of_byte b) = b.
Proof.
  unfold byte_of_Z, Z_of_byte.
  rewrite Z.mod_small by apply Z_of_byte_range.
  by rewrite N2Z.id, Byte.of_to_N.
Qed.

(** Byte strings written as Rocq strings. *)
Definition bytes (s : String.string) : list byte := String.list_byte_of_string s.
Arguments bytes s%_string.

(** [std::find] and [std::search] over a range: the offset of the first match
    from the start of the range, [None] for the end of the range. *)
Fixpoint std_find {A} `{EqDecision A} (c : A) (l : list A) : option nat :=
  match l with
  | [] => None
  | x :: l' => if decide (x = c) then Some 0%nat else S <$> std_find c l'
  end.

Fixpoint std_search {A} `{EqDecision A} (pat l : list A) : option nat :=
  if decide (take (length pat) l = pat) then Some 0%nat
  else match l with
       | [] => None
       | _ :: l' => S <$> std_search pat l'
       end.

Lemma std_find_Some {A} `{EqDecision A} (c : A) l k :
  std_find c l = Some k <-> l !! k = Some c /\ c ∉ take k l.
Proof.
  revert k. induction l as [|x l IH]; intros k; cbn.
  { rewrite lookup_nil. naive_solver. }
  case_decide as Hx.
  - subst. split.
    + intros [= <-]. split; [done | cbn; apply not_elem_of_nil].
    + intros [Hk Hn]. destruct k; [done |].
      cbn in Hn. by apply not_elem_of_cons in Hn as [].
  - rewrite fmap_Some. split.
    + intros (k' & Hk & ->). apply IH in Hk as [? Hn]. split; [done |].
      cbn. apply not_elem_of_cons. split; [congruence | done].
    + intros [Hk Hn]. destruct k as [|k]; cbn in *; [congruence |].
      apply not_elem_of_cons in Hn as [? Hn].
      exists k. split; [apply IH; done | done].
Qed.

Lemma std_find_None {A} `{EqDecision A} (c : A) l :
  std_find c l = None <-> c ∉ l.
Proof.
  induction l as [|x l IH]; cbn.
  { split; [intros; apply not_elem_of_nil | done]. }
  rewrite not_elem_of_cons. case_decide as Hx.
  - naive_solver.
  - rewrite fmap_None, IH. naive_solver.
Qed.

Lemma std_find_lt {A} `{EqDecision A} (c : A) l k :
  std_find c l = Some k -> (k < length l)%nat.
Proof. intros H%std_find_Some. apply lookup_lt_is_Some. naive_solver. Qed.

Lemma std_find_app {A} `{EqDecision A} (c : A) l1 l2 :
  c ∉ l1 -> std_find c (l1 ++ c :: l2) = Some (length l1).
Proof.
  intros. apply std_find_Some. split.
  - by rewrite list_lookup_middle.
  - rewrite take_app_length. done.
Qed.

(** [pat] stands at offset [k] of [l]. *)
Definition matches_at {A} (pat l : list A) (k : nat) : Prop :=
  take (length pat) (drop k l) = pat.

Lemma std_search_Some {A} `{EqDecision A} (pat l : list A) k :
  std_search pat l = Some k <->
  (k <= length l)%nat /\ matches_at pat l k /\
  forall j, (j < k)%nat -> ~ matches_at pat l j.
Proof.
  revert k. induction l as [|x l IH]; intros k.
  - cbn. case_decide as Hd.
    + split; [intros [= <-]; repeat split; [done | done | lia] |].
      intros (Hk & ? & _). cbn in Hk. f_equal. lia.
    + split; [done |]. intros (Hk & Hm & _). unfold matches_at in Hm.
      rewrite drop_nil in Hm. done.
  - cbn. case_decide as Hd.
    + split.
      * intros [= <-]. repeat split; [lia | exact Hd | lia].
      * intros (_ & _ & Hmin). destruct k; [done |].
        destruct (Hmin 0%nat); [lia | exact Hd].
    + rewrite fmap_Some. split.
      * intros (k' & Hk & ->). apply IH in Hk as (? & ? & Hmin).
        split; [lia |]. split; [done |]. intros [|j] Hj; [exact Hd |].
        apply Hmin. lia.
      * intros (Hk & Hm & Hmin). destruct k as [|k]; [done |].
        exists k. split; [| done]. apply IH. split; [lia |]. split; [exact Hm |].
        intros j Hj. apply (Hmin (S j)). lia.
Qed.

Lemma std_search_None {A} `{EqDecision A} (pat l : list A) :
  std_search pat l = None <->
  forall j, (j <= length l)%nat -> ~ matches_at pat l j.
Proof.
  induction l as [|x l IH].
  - cbn. case_decide as Hd.
    + split; [done |]. intros Hn. destruct (Hn 0%nat); [lia | exact Hd].
    + split; [| done]. intros _ j Hj. unfold matches_at. by rewrite drop_nil.
  - cbn. case_decide as Hd.
    + split; [done |]. intros Hn. destruct (Hn 0%nat); [lia | exact Hd].
    + rewrite fmap_None, IH. split.
      * intros Hn [|j] Hj; [exact Hd | apply Hn; lia].
      * intros Hn j Hj. apply (Hn (S j)). lia.
Qed.

Lemma filter_keep_all {A} (P : A -> Prop) `{!forall x, Decision (P x)} l :
  Forall P l -> filter P l = l.
Proof. induction 1 as [|x l Hx _ IH]; [done |]. by rewrite filter_cons_True, IH. Qed.
Lemma filter_keep_none {A} (P : A -> Prop) `{!forall x, Decision (P x)} l :
  Forall (fun x => ~ P x) l -> filter P l = [].
Proof. induction 1 as [|x l Hx _ IH]; [done |]. by rewrite filter_cons_False, IH. Qed.

(** ** Counting, and transition systems *)

(** Association lists: a key has one value; images are distinct. *)
Lemma NoDup_fst_inj {A B} (l : list (A * B)) a b b' :
  NoDup l.*1 -> (a, b) ∈ l -> (a, b') ∈ l -> b = b'.
Proof.
  induction l as [|[x y] l IH]; intros Hnd; [by intros ?%elem_of_nil |].
  apply NoDup_cons in Hnd as [Hx Hnd].
  intros [Hb|Hb]%elem_of_cons [Hb'|Hb']%elem_of_cons; simplify_eq; try done; try by apply IH.
  all: exfalso; apply Hx, list_elem_of_fmap; eexists; (split; [| eassumption]; done).
Qed.

Lemma NoDup_omap {A B} (f : A -> option B) (l : list A) :
  (forall i j a b x, l !! i = Some a -> l !! j = Some b -> f a = Some x -> f b = Some x -> i = j) ->
  NoDup (omap f l).
Proof.
  induction l as [|a l IH]; intros Hinj; [constructor |].
  assert (NoDup (omap f l)).
  { apply IH. intros i j b b' x Hi Hj Hb Hb'.
    enough (S i = S j) by lia. by apply (Hinj (S i) (S j) b b' x). }
  cbn. destruct (f a) as [y|] eqn:Ha; [| done]. apply NoDup_cons. split; [| done].
  intros (b & [j Hj]%list_elem_of_lookup_1 & Hb)%list_elem_of_omap.
  enough (0%nat = S j) by lia. by apply (Hinj 0%nat (S j) a b y).
Qed.

Fixpoint count {A} (p : A -> bool) (l : list A) : nat :=
  match l with
  | [] => 0
  | x :: l' => (if p x then 1 else 0) + count p l'
  end%nat.

Lemma count_le {A} (p q : A -> bool) l :
  (forall x, p x -> q x) -> (count p l <= count q l)%nat.
Proof.
  intros Hpq. induction l as [|x l IH]; cbn; [lia |]. specialize (Hpq x).
  destruct (p x), (q x); cbn in *; lia.
Qed.

Lemma count_insert {A} (p : A -> bool) l i x y :
  l !! i = Some x ->
  (count p (<[i:=y]> l) + (if p x then 1 else 0)
   = count p l + (if p y then 1 else 0))%nat.
Proof.
  revert i; induction l as [|z l IH]; intros [|i] Hi; cbn in Hi; simplify_eq; [cbn; lia |].
  change (<[S i:=y]> (z :: l)) with (z :: <[i:=y]> l).
  cbn [count]. apply IH in Hi. lia.
Qed.

Lemma count_pos {A} (p : A -> bool) l i x :
  l !! i = Some x -> p x = true -> (0 < count p l)%nat.
Proof.
  revert i; induction l as [|z l IH]; intros [|i] Hi Hp; cbn in Hi; simplify_eq; cbn [count].
  - rewrite Hp. lia.
  - specialize (IH _ Hi Hp). lia.
Qed.

Lemma count_inv {A} (p : A -> bool) l :
  (0 < count p l)%nat -> exists i x, l !! i = Some x /\ p x = true.
Proof.
  induction l as [|z l IH]; cbn; [lia |]. destruct (p z) eqn:E.
  - intros _. by exists 0%nat, z.
  - intros (i & x & Hi & Hx)%IH. by exists (S i), x.
Qed.

Lemma count_replicate {A} (p : A -> bool) n x :
  p x = false -> count p (replicate n x) = 0%nat.
Proof. intros Hx. induction n; cbn; [done |]. by rewrite Hx. Qed.

(** Reachability in a step relation, and rule induction for invariants. *)
Inductive reachable {S : Type} (init : S -> Prop) (step : S -> S -> Prop) : S -> Prop :=
  | reach_init s : init s -> reachable init step s
  | reach_step s s' : reachable init step s -> step s s' -> reachable init step s'.

Lemma reachable_invariant {S : Type} (init : S -> Prop) (step : S -> S -> Prop) (I : S -> Prop) :
  (forall s, init s -> I s) ->
  (forall s s', I s -> step s s' -> I s') ->
  forall s, reachable init step s -> I s.
Proof. intros Hi Hs s. induction 1; eauto. Qed.

(** ** Decimal text, as [%d] and [std::to_string] print integers *)

Definition digit (z : Z) : byte := byte_of_Z (48 + z).
Fixpoint digits (fuel : nat) (z : Z) : list byte :=
  match fuel with
  | O => [digit (z mod 10)]
  | S fuel' => if z <? 10 then [digit z] else digits fuel' (z / 10) ++ [digit (z mod 10)]
  end.
(** An integer has at most as many decimal as binary digits. *)
Definition decimal (z : Z) : list byte :=
  if z <? 0 then x2d :: digits (S (Z.to_nat (Z.log2 (- z)))) (- z)
  else digits (S (Z.to_nat (Z.log2 z))) z.

Definition digits_value (l : list byte) : Z :=
  foldl (fun acc b => 10 * acc + (Z_of_byte b - 48)) 0 l.
Definition decimal_value (l : list byte) : Z :=
  match l with
  | x2d :: l' => - digits_value l'
  | _ => digits_value l
  end.

Lemma digit_value z : 0 <= z < 10 -> Z_of_byte (digit z) - 48 = z.
Proof. intros. unfold digit. rewrite Z_of_byte_of_Z, Z.mod_small; lia. Qed.

Lemma digits_value_app l b : digits_value (l ++ [b]) = 10 * digits_value l + (Z_of_byte b - 48).
Proof. unfold digits_value. by rewrite foldl_app. Qed.

Lemma digits_correct fuel z :
  0 <= z < 2 ^ Z.of_nat fuel -> digits_value (digits fuel z) = z.
Proof.
  revert z; induction fuel as [|fuel IH]; intros z Hz.
  { cbn in Hz. assert (z = 0) as -> by lia. reflexivity. }
  cbn [digits]. rewrite Nat2Z.inj_succ, Z.pow_succ_r in Hz by lia.
  zcase; [unfold digits_value; cbn [foldl]; rewrite digit_value by lia; lia |].
  assert (0 < 2 ^ Z.of_nat fuel) by (apply Z.pow_pos_nonneg; lia).
  pose proof (Z.div_mod z 10). pose proof (Z.mod_pos_bound z 10).
  assert (z / 10 < 2 ^ Z.of_nat fuel) by (apply Z.div_lt_upper_bound; lia).
  assert (0 <= z / 10) by (apply Z.div_pos; lia).
  rewrite digits_value_app, digit_value, IH by lia. lia.
Qed.

Lemma digits_head fuel z : 0 <= z -> exists d l, digits fuel z = digit d :: l /\ 0 <= d < 10.
Proof.
  revert z; induction fuel as [|fuel IH]; intros z Hz; cbn [digits].
  { exists (z mod 10), []. split; [done | by apply Z.mod_pos_bound]. }
  zcase; [by exists z, [] |].
  destruct (IH (z / 10)) as (d & l & -> & ?); [by apply Z.div_pos|].
  by exists d, (l ++ [digit (z mod 10)]).
Qed.

Lemma digits_length fuel z n :
  0 <= z < 10 ^ Z.of_nat (S n) -> (length (digits fuel z) <= S n)%nat.
Proof.
  revert z n; induction fuel as [|fuel IH]; intros z n Hz; cbn [digits]; [cbn; lia |].
  zcase; [cbn; lia |]. rewrite length_app. cbn [length].
  destruct n as [|n]; [cbn in Hz; lia |].
  rewrite Nat2Z.inj_succ, Z.pow_succ_r in Hz by lia.
  assert (0 <= z / 10) by (apply Z.div_pos; lia).
  assert (z / 10 < 10 ^ Z.of_nat (S n)) by (apply Z.div_lt_upper_bound; lia).
  specialize (IH (z / 10) n). lia.
Qed.

Lemma log2_fuel z : 0 <= z -> z < 2 ^ Z.of_nat (S (Z.to_nat (Z.log2 z))).
Proof.
  intros Hz. rewrite Nat2Z.inj_succ, Z2Nat.id by apply Z.log2_nonneg.
  destruct (Z.eq_dec z 0) as [->|]; [done |]. by apply Z.log2_spec; lia.
Qed.

Lemma decimal_roundtrip z : decimal_value (decimal z) = z.
Proof.
  unfold decimal. zcase.
  - cbn [decimal_value]. rewrite digits_correct by (split; [lia | apply log2_fuel; lia]). lia.
  - pose proof (digits_correct (S (Z.to_nat (Z.log2 z))) z) as E.
    destruct (digits_head (S (Z.to_nat (Z.log2 z))) z) as (d & l & El & Hd); [done |].
    rewrite El in *. rewrite <- E by (split; [done | by apply log2_fuel]).
    unfold decimal_value. pose proof (digit_value d Hd) as Hv.
    destruct (digit d); try reflexivity. exfalso. vm_compute in Hv. lia.
Qed.

Lemma decimal_length z n :
  0 <= z < 10 ^ Z.of_nat (S n) -> (length (decimal z) <= S n)%nat.
Proof.
  intros Hz. unfold decimal. rewrite (proj2 (Z.ltb_ge _ _)) by lia. by apply digits_length.
Qed.

Example decimal_examples :
  decimal 0 = bytes "0" /\ decimal 9050 = bytes "9050" /\ decimal (-47) = bytes "-47".
Proof. by vm_compute. Qed.

(** [snprintf(buf, size, ...)] followed by reading [buf] as a C string. *)
Definition snprintf (size : nat) (text : list byte) : list byte := take (size - 1) text.
Lemma snprintf_fits n text : (length text < n)%nat -> snprintf n text = text.
Proof. intros. unfold snprintf. apply take_ge. lia. Qed.

(** A C string ends at the first NUL. *)
Fixpoint c_string (l : list byte) : list byte :=
  match l with
  | [] => []
  | x00 :: _ => []
  | c :: l' => c :: c_string l'
  end.
Lemma c_string_id l : x00 ∉ l -> c_string l = l.
Proof.
  induction l as [|c l IH]; [done |]. intros [Hc Hl]%not_elem_of_cons. cbn.
  rewrite IH by done. by destruct c.
Qed.

(** A number is written with digits only. *)
Lemma digits_not_in fuel z c : 0 <= z -> Z_of_byte c < 48 \/ 57 < Z_of_byte c -> c ∉ digits fuel z.
Proof.
  intros Hz Hc.
  assert (Hd : forall d, 0 <= d < 10 -> c <> digit d).
  { intros d Hd E. pose proof (digit_value d Hd) as Hv. rewrite <- E in Hv. lia. }
  revert z Hz. induction fuel as [|fuel IH]; intros z Hz; cbn [digits].
  - rewrite list_elem_of_singleton. apply Hd. by apply Z.mod_pos_bound.
  - zcase; [by rewrite list_elem_of_singleton; apply Hd |].
    rewrite not_elem_of_app, list_elem_of_singleton. split; [apply IH; by apply Z.div_pos |].
    apply Hd. by apply Z.mod_pos_bound.
Qed.
Lemma decimal_not_in z c : 0 <= z -> Z_of_byte c < 48 \/ 57 < Z_of_byte c -> c ∉ decimal z.
Proof. intros Hz Hc. unfold decimal. rewrite (proj2 (Z.ltb_ge _ _)) by done. by apply digits_not_in. Qed.
