(* ===== verification/Endianness.v ===== *)
(** Byte order (suduo/net/Endian.h) and the memory representation of the
    fixed-width integers that Buffer.h copies with [memcpy].

    The byte order of the machine is a parameter: every theorem holds on
    little- and on big-endian hosts. *)

From S2P Require Import Prelude.

(** The host's byte order ([__BYTE_ORDER], which <endian.h> tests). *)
Class Host := { little_endian : bool }.

(** The [n] low bytes of an integer, least significant first, and back. *)
Fixpoint le_bytes (n : nat) (z : Z) : list byte :=
  match n with
  | O => []
  | S n' => byte_of_Z z :: le_bytes n' (z / 256)
  end.

Fixpoint le_value (l : list byte) : Z :=
  match l with
  | [] => 0
  | b :: l' => Z_of_byte b + 256 * le_value l'
  end.

(** Most significant byte first: the network's order. *)
Definition be_bytes (n : nat) (z : Z) : list byte := rev (le_bytes n z).
Definition be_value (l : list byte) : Z := le_value (rev l).

Lemma length_le_bytes n z : length (le_bytes n z) = n.
Proof. revert z; induction n; intros; cbn; auto. Qed.

Lemma length_be_bytes n z : length (be_bytes n z) = n.
Proof. unfold be_bytes. by rewrite length_rev, length_le_bytes. Qed.

Lemma le_value_bytes n z : le_value (le_bytes n z) = z mod 2 ^ (8 * Z.of_nat n).
Proof.
  revert z; induction n as [|n IH]; intros z.
  { cbn. by rewrite Z.mod_1_r. }
  cbn [le_bytes le_value]. rewrite IH, Z_of_byte_of_Z.
  replace (2 ^ (8 * Z.of_nat (S n))) with (256 * 2 ^ (8 * Z.of_nat n)).
  2:{ change 256 with (2 ^ 8). rewrite <- Z.pow_add_r by lia. f_equal. lia. }
  rewrite Z.rem_mul_r by lia. done.
Qed.

Lemma le_value_range l : 0 <= le_value l < 2 ^ (8 * zlen l).
Proof.
  induction l as [|b l IH]; cbn [le_value length]; [cbn; lia |].
  pose proof (Z_of_byte_range b).
  replace (2 ^ (8 * Z.of_nat (S (length l)))) with (256 * 2 ^ (8 * zlen l)).
  2:{ change 256 with (2 ^ 8). rewrite <- Z.pow_add_r by lia. f_equal. lia. }
  lia.
Qed.

Lemma byte_of_Z_mod z : byte_of_Z (z mod 256) = byte_of_Z z.
Proof. unfold byte_of_Z. by rewrite Z.mod_mod by lia. Qed.

Lemma le_bytes_value l : le_bytes (length l) (le_value l) = l.
Proof.
  induction l as [|b l IH]; cbn [le_value le_bytes length]; [done |].
  pose proof (Z_of_byte_range b). f_equal.
  - rewrite <- byte_of_Z_mod, (Z.mul_comm 256), Z.mod_add, byte_of_Z_mod by lia.
    apply byte_of_Z_of_byte.
  - rewrite (Z.mul_comm 256), Z.div_add, Z.div_small by lia. exact IH.
Qed.

Lemma be_value_bytes n z : be_value (be_bytes n z) = z mod 2 ^ (8 * Z.of_nat n).
Proof.
  unfold be_value, be_bytes. rewrite rev_involutive. apply le_value_bytes.
Qed.

Lemma be_bytes_value l : be_bytes (length l) (be_value l) = l.
Proof.
  unfold be_value, be_bytes.
  rewrite <- (length_rev l), le_bytes_value. apply rev_involutive.
Qed.

Lemma le_bytes_mod n z : le_bytes n (z mod 2 ^ (8 * Z.of_nat n)) = le_bytes n z.
Proof.
  rewrite <- le_value_bytes. rewrite <- (length_le_bytes n z) at 1.
  apply le_bytes_value.
Qed.

Section with_host.
Context {H : Host}.

(** [memcpy(p, &x, n)] and [memcpy(&x, p, n)] for an n-byte integer. *)
Definition store (n : nat) (z : Z) : list byte :=
  if little_endian then le_bytes n z else be_bytes n z.
Definition load (l : list byte) : Z :=
  if little_endian then le_value l else be_value l.

(** [htobe16/32/64] and [be16/32/64toh] of <endian.h>: byte reversal on a
    little-endian host, the identity on a big-endian one. *)
Definition bswap (n : nat) (z : Z) : Z := le_value (rev (le_bytes n z)).
Definition htobe (n : nat) (z : Z) : Z :=
  if little_endian then bswap n z else z.
Definition betoh (n : nat) (z : Z) : Z :=
  if little_endian then bswap n z else z.
End with_host.

Module Endian.
Section with_host.
Context {H : Host}.

Definition host_to_network_64 (host : Z) : Z := htobe 8 host.
Definition host_to_network_32 (host : Z) : Z := htobe 4 host.
Definition host_to_network_16 (host : Z) : Z := htobe 2 host.
Definition network_to_host_64 (network : Z) : Z := betoh 8 network.
Definition network_to_host_32 (network : Z) : Z := betoh 4 network.
Definition network_to_host_16 (network : Z) : Z := betoh 2 network.
End with_host.
End Endian.

Section facts.
Context {H : Host}.

Lemma bswap_range n z : 0 <= bswap n z < 2 ^ (8 * Z.of_nat n).
Proof.
  unfold bswap. pose proof (le_value_range (rev (le_bytes n z))) as Hr.
  by rewrite length_rev, length_le_bytes in Hr.
Qed.

Lemma bswap_involutive n z : bswap n (bswap n z) = z mod 2 ^ (8 * Z.of_nat n).
Proof.
  unfold bswap.
  replace (le_bytes n (le_value (rev (le_bytes n z)))) with (rev (le_bytes n z)).
  2:{ pose proof (le_bytes_value (rev (le_bytes n z))) as E.
      by rewrite length_rev, length_le_bytes in E. }
  by rewrite rev_involutive, le_value_bytes.
Qed.

Lemma length_store n z : length (store n z) = n.
Proof.
  unfold store. destruct little_endian;
    [apply length_le_bytes | apply length_be_bytes].
Qed.

(** What reaches memory after [htobe] is big-endian on either host. *)
Lemma store_htobe n z : store n (htobe n z) = be_bytes n z.
Proof.
  unfold store, htobe, bswap. destruct little_endian; [| done].
  fold (be_bytes n z). pose proof (le_bytes_value (be_bytes n z)) as E.
  by rewrite length_be_bytes in E.
Qed.

Lemma betoh_load l : betoh (length l) (load l) = be_value l.
Proof.
  unfold betoh, load, bswap, be_value. destruct little_endian; [| done].
  by rewrite le_bytes_value.
Qed.

Lemma store_mod n z : store n (z mod 2 ^ (8 * Z.of_nat n)) = store n z.
Proof.
  unfold store, be_bytes. by rewrite le_bytes_mod.
Qed.
End facts.
