(* ===== verification/ByteBuffer.v ===== *)
(** The network buffer (suduo/net/Buffer.h, Buffer.cpp).

    [Module Buffer] holds the class as the source has it: a [std::vector<char>]
    and two [size_t] indices. A pointer into the vector is its offset from
    [begin()]; reading or writing outside the vector is undefined behaviour.
    [content] is the abstraction: the readable bytes. *)

From S2P Require Import Prelude.
From S2P Require Import Endianness.

(** The result of [readv(2)]: the bytes read, scattered over the [iovec]s in
    order, or [errno]. *)
Inductive io_result :=
  | IoData (d : list byte)
  | IoError (errno : Z).

(** [std::vector<char>::max_size()]. *)
Definition vector_max_size : Z := int64_max.

Definition vector_resize (l : list byte) (n : Z) : res (list byte) :=
  if vector_max_size <? n then Stop LengthError
  else Ret (take (Z.to_nat n) l ++ replicate (Z.to_nat (n - zlen l)) x00).

(** [std::copy] of [first, last) to [d_first] inside one object; the standard
    excludes a destination that lies in the source range. *)
Definition std_copy_within (l : list byte) (first last d_first : Z) : res (list byte) :=
  if (first <=? d_first) && (d_first <? last) then Stop UndefinedBehaviour
  else s ← read_range l first last; write_range l d_first s.

Module Buffer.

Definition init_size : Z := 1024.
Definition pre_append_size : Z := 8.
Definition CRLF : list byte := [x0d; x0a].
Definition extrabuf_size : Z := 65536.

Record t := mk {
  _buffer : list byte;
  read_index : Z;
  write_index : Z
}.

(** The constructor: its argument [size] is not used. *)
Definition make (size : Z) : t :=
  mk (replicate (Z.to_nat (pre_append_size + init_size)) x00)
     pre_append_size pre_append_size.

Definition readable_bytes (b : t) : Z := u64 (write_index b - read_index b).
Definition writeadble_bytes (b : t) : Z := u64 (zlen (_buffer b) - write_index b).
Definition pre_append_bytes (b : t) : Z := read_index b.
Definition peek (b : t) : Z := read_index b.
Definition write_begin (b : t) : Z := write_index b.

(** The bytes of the pointer range [p, q). *)
Definition mem (b : t) (p q : Z) : res (list byte) := read_range (_buffer b) p q.

Definition find_CRLF_from (b : t) (start : Z) : res (option Z) :=
  s ← mem b start (write_begin b);
  mret ((fun k => start + Z.of_nat k) <$> std_search CRLF s).
Definition find_CRLF (b : t) : res (option Z) := find_CRLF_from b (peek b).

Definition find_EOL_from (b : t) (start : Z) : res (option Z) :=
  s ← mem b start (write_begin b);
  mret ((fun k => start + Z.of_nat k) <$> std_find x0a s).
Definition find_EOL (b : t) : res (option Z) := find_EOL_from b (peek b).

Definition retrieve_all (b : t) : t :=
  mk (_buffer b) pre_append_size pre_append_size.
Definition retrieve (b : t) (len : Z) : t :=
  if len <? readable_bytes b
  then mk (_buffer b) (u64 (read_index b + len)) (write_index b)
  else retrieve_all b.
Definition retrieve_until (b : t) (end_ : Z) : t :=
  retrieve b (u64 (end_ - peek b)).
Definition retrieve_int_64 (b : t) : t := retrieve b 8.
Definition retrieve_int_32 (b : t) : t := retrieve b 4.
Definition retrieve_int_16 (b : t) : t := retrieve b 2.
Definition retrieve_int_8 (b : t) : t := retrieve b 1.

Definition retrieve_as_string (b : t) (len : Z) : res (list byte * t) :=
  result ← mem b (peek b) (peek b + len);
  mret (result, retrieve b len).
Definition retrieve_all_as_string (b : t) : res (list byte * t) :=
  retrieve_as_string b (readable_bytes b).

Definition make_space (b : t) (len : Z) : res t :=
  if u64 (writeadble_bytes b + pre_append_bytes b) <? u64 (len + pre_append_size) then
    buf ← vector_resize (_buffer b) (u64 (write_index b + len));
    mret (mk buf (read_index b) (write_index b))
  else
    let readable := readable_bytes b in
    buf ← std_copy_within (_buffer b) (read_index b) (write_index b) pre_append_size;
    mret (mk buf pre_append_size (u64 (pre_append_size + readable))).

Definition ensure_writeable_bytes (b : t) (len : Z) : res t :=
  if writeadble_bytes b <? len then make_space b len else mret b.

Definition has_written (b : t) (len : Z) : t :=
  mk (_buffer b) (read_index b) (u64 (write_index b + len)).
Definition unwrite (b : t) (len : Z) : t :=
  mk (_buffer b) (read_index b) (u64 (write_index b - len)).

(** The three overloads of [append] (a string, a [char] range, raw memory). *)
Definition append (b : t) (data : list byte) : res t :=
  b1 ← ensure_writeable_bytes b (zlen data);
  buf ← write_range (_buffer b1) (write_begin b1) data;
  mret (has_written (mk buf (read_index b1) (write_index b1)) (zlen data)).

Definition prepend (b : t) (data : list byte) : res t :=
  let r := u64 (read_index b - zlen data) in
  buf ← write_range (_buffer b) r data;
  mret (mk buf r (write_index b)).

Definition to_string (b : t) : res (list byte) :=
  mem b (peek b) (peek b + readable_bytes b).
Definition swap (b rhs : t) : t * t := (rhs, b).
Definition shrink (b : t) (reserve : Z) : res t :=
  other ← ensure_writeable_bytes (make init_size) (u64 (readable_bytes b + reserve));
  s ← to_string b;
  other ← append other s;
  mret (swap b other).1.

(** The [iovec] lengths [read_fd] offers: the writable tail of the vector and,
    when that is shorter, the 64 KiB array [extrabuf] on the stack. *)
Definition read_fd_vec (b : t) : list Z :=
  if writeadble_bytes b <? extrabuf_size then [writeadble_bytes b; extrabuf_size]
  else [writeadble_bytes b].

(** [read_fd]: the kernel's [readv] is a parameter; the result is the return
    value, the [errno] stored through [saved_errno], and the buffer. *)
Definition read_fd (readv : Z -> list Z -> io_result) (b : t) (fd : Z)
    : res (Z * option Z * t) :=
  let writeable := writeadble_bytes b in
  match readv fd (read_fd_vec b) with
  | IoError errno => mret (-1, Some errno, b)
  | IoData d =>
      let n := zlen d in
      buf ← write_range (_buffer b) (write_index b) (take (Z.to_nat writeable) d);
      if n <=? writeable then
        mret (n, None, mk buf (read_index b) (u64 (write_index b + n)))
      else
        b' ← append (mk buf (read_index b) (zlen buf)) (drop (Z.to_nat writeable) d);
        mret (n, None, b')
  end.

Section integers.
Context {H : Host} {B : Build}.

Definition append_int_64 (b : t) (x : Z) : res t :=
  let data := to_signed 64 (Endian.host_to_network_64 (to_unsigned 64 x)) in
  append b (store 8 data).
Definition append_int_32 (b : t) (x : Z) : res t :=
  let data := to_signed 32 (Endian.host_to_network_32 (to_unsigned 32 x)) in
  append b (store 4 data).
Definition append_int_16 (b : t) (x : Z) : res t :=
  let data := to_signed 16 (Endian.host_to_network_16 (to_unsigned 16 x)) in
  append b (store 2 data).
Definition append_int_8 (b : t) (x : Z) : res t := append b (store 1 x).

Definition peek_int_64 (b : t) : res Z :=
  d ← mem b (peek b) (peek b + 8);
  mret (to_signed 64 (Endian.network_to_host_64 (to_unsigned 64 (to_signed 64 (load d))))).
Definition peek_int_32 (b : t) : res Z :=
  d ← mem b (peek b) (peek b + 4);
  mret (to_signed 32 (Endian.network_to_host_32 (to_unsigned 32 (to_signed 32 (load d))))).
Definition peek_int_16 (b : t) : res Z :=
  _ ← assert_ (2 <=? readable_bytes b);
  d ← mem b (peek b) (peek b + 2);
  mret (to_signed 16 (Endian.network_to_host_16 (to_unsigned 16 (to_signed 16 (load d))))).
Definition peek_int_8 (b : t) : res Z :=
  d ← mem b (peek b) (peek b + 1);
  mret (to_signed 8 (load d)).

Definition read_int_64 (b : t) : res (Z * t) :=
  result ← peek_int_64 b; mret (result, retrieve_int_64 b).
Definition read_int_32 (b : t) : res (Z * t) :=
  result ← peek_int_32 b; mret (result, retrieve_int_32 b).
Definition read_int_16 (b : t) : res (Z * t) :=
  result ← peek_int_16 b; mret (result, retrieve_int_16 b).
Definition read_int_8 (b : t) : res (Z * t) :=
  result ← peek_int_8 b; mret (result, retrieve_int_8 b).

Definition prepend_int_64 (b : t) (x : Z) : res t :=
  let data := to_signed 64 (Endian.host_to_network_64 (to_unsigned 64 x)) in
  prepend b (store 8 data).
Definition prepend_int_32 (b : t) (x : Z) : res t :=
  let data := to_signed 32 (Endian.host_to_network_32 (to_unsigned 32 x)) in
  prepend b (store 4 data).
Definition prepend_int_16 (b : t) (x : Z) : res t :=
  let data := to_signed 16 (Endian.host_to_network_16 (to_unsigned 16 x)) in
  prepend b (store 2 data).
Definition prepend_int_8 (b : t) (x : Z) : res t := prepend b (store 1 x).
End integers.

(** ** The abstraction: the readable bytes, and the invariant *)

Definition content (b : t) : list byte := slice (read_index b) (write_index b) (_buffer b).
Definition storage (b : t) : Z := zlen (_buffer b).

Record wf (b : t) : Prop := mk_wf {
  wf_read : 0 <= read_index b;
  wf_order : read_index b <= write_index b;
  wf_write : write_index b <= storage b;
  wf_prepend : pre_append_size <= storage b;
  wf_max : storage b <= vector_max_size
}.
End Buffer.

Module BufferSpec.
Import Buffer.

Ltac buf_unfold :=
  unfold retrieve_all, storage, vector_max_size, int64_max, pre_append_size, init_size in *;
  cbn [_buffer read_index write_index] in *.

(** Opens the invariant of a buffer into [lia]-ready facts. *)
Ltac open_wf H :=
  let h1 := fresh "Hr" in let h2 := fresh "Ho" in let h3 := fresh "Hw" in
  let h4 := fresh "Hp" in let h5 := fresh "Hm" in
  pose proof (wf_read _ H) as h1; pose proof (wf_order _ H) as h2;
  pose proof (wf_write _ H) as h3; pose proof (wf_prepend _ H) as h4;
  pose proof (wf_max _ H) as h5; buf_unfold.

Lemma content_length b : wf b -> zlen (content b) = write_index b - read_index b.
Proof. intros Hb. open_wf Hb. unfold content. apply slice_length; lia. Qed.

Lemma readable_bytes_content b : wf b -> readable_bytes b = zlen (content b).
Proof.
  intros Hb. rewrite content_length by done. open_wf Hb.
  unfold readable_bytes. u64_tac. done.
Qed.

Lemma writeadble_bytes_wf b :
  wf b -> writeadble_bytes b = storage b - write_index b.
Proof. intros Hb. open_wf Hb. unfold writeadble_bytes. u64_tac. done. Qed.

Lemma make_wf size : wf (make size).
Proof.
  unfold make; constructor; buf_unfold; rewrite ?length_replicate; lia.
Qed.

Lemma make_content size : content (make size) = [].
Proof. by apply slice_empty. Qed.

Lemma make_storage size : storage (make size) = 1032.
Proof. unfold make; buf_unfold. by rewrite length_replicate. Qed.

Lemma mem_content b i j :
  wf b -> 0 <= i -> i <= j -> j <= zlen (content b) ->
  mem b (peek b + i) (peek b + j) = Ret (slice i j (content b)).
Proof.
  intros Hb Hi Hij Hj. rewrite content_length in Hj by done. open_wf Hb.
  unfold mem, peek, content. rewrite read_range_Ret by lia.
  f_equal. symmetry. apply slice_slice; lia.
Qed.

Lemma mem_take b n :
  wf b -> 0 <= n <= zlen (content b) ->
  mem b (peek b) (peek b + n) = Ret (take (Z.to_nat n) (content b)).
Proof.
  intros Hb Hn. pose proof (mem_content b 0 n Hb) as E. rewrite Z.add_0_r in E.
  rewrite E by lia. by rewrite slice_take_drop by lia.
Qed.

Lemma find_CRLF_spec b :
  wf b ->
  find_CRLF b = Ret ((fun k => peek b + Z.of_nat k) <$> std_search CRLF (content b)).
Proof.
  intros Hb. open_wf Hb.
  unfold find_CRLF, find_CRLF_from, mem, peek, write_begin.
  by rewrite read_range_Ret by lia.
Qed.

Lemma find_EOL_spec b :
  wf b ->
  find_EOL b = Ret ((fun k => peek b + Z.of_nat k) <$> std_find x0a (content b)).
Proof.
  intros Hb. open_wf Hb.
  unfold find_EOL, find_EOL_from, mem, peek, write_begin.
  by rewrite read_range_Ret by lia.
Qed.

Lemma retrieve_all_wf b : wf b -> wf (retrieve_all b).
Proof. intros Hb. open_wf Hb. constructor; buf_unfold; lia. Qed.

Lemma retrieve_all_content b : content (retrieve_all b) = [].
Proof. by apply slice_empty. Qed.

Lemma retrieve_wf b n : wf b -> 0 <= n -> wf (retrieve b n).
Proof.
  intros Hb Hn. unfold retrieve. rewrite readable_bytes_content, content_length by done.
  zcase; [| by apply retrieve_all_wf].
  open_wf Hb. constructor; buf_unfold; u64_tac; lia.
Qed.

Lemma retrieve_content b n :
  wf b -> 0 <= n -> content (retrieve b n) = drop (Z.to_nat n) (content b).
Proof.
  intros Hb Hn. unfold retrieve. rewrite readable_bytes_content by done.
  zcase.
  - rewrite content_length in H by done. open_wf Hb.
    unfold content; buf_unfold. u64_tac.
    rewrite !slice_take_drop by lia. rewrite drop_drop. f_equal. lia.
  - rewrite retrieve_all_content. symmetry. apply drop_ge. lia.
Qed.

Lemma retrieve_storage b n : storage (retrieve b n) = storage b.
Proof. unfold retrieve. by destruct (_ <? _). Qed.

Lemma retrieve_until_content b k :
  wf b -> 0 <= k -> k < 18446744073709551616 ->
  retrieve_until b (peek b + k) = retrieve b k.
Proof.
  intros Hb Hk Hk'. unfold retrieve_until. f_equal.
  rewrite u64_small; lia.
Qed.

Lemma retrieve_as_string_spec b n :
  wf b -> 0 <= n <= zlen (content b) ->
  retrieve_as_string b n = Ret (take (Z.to_nat n) (content b), retrieve b n).
Proof.
  intros Hb Hn. unfold retrieve_as_string.
  rewrite <- (Z.add_0_r (peek b)) at 1.
  rewrite mem_content by (done || lia).
  rewrite slice_take_drop by lia. done.
Qed.

Lemma retrieve_all_as_string_spec b :
  wf b -> retrieve_all_as_string b = Ret (content b, retrieve_all b).
Proof.
  intros Hb. unfold retrieve_all_as_string.
  rewrite retrieve_as_string_spec by (rewrite ?readable_bytes_content by done; lia || done).
  rewrite readable_bytes_content by done.
  rewrite Nat2Z.id, firstn_all. do 2 f_equal.
  unfold retrieve. by rewrite readable_bytes_content, Z.ltb_irrefl by done.
Qed.

Lemma to_string_spec b : wf b -> to_string b = Ret (content b).
Proof.
  intros Hb. unfold to_string. rewrite readable_bytes_content by done.
  rewrite <- (Z.add_0_r (peek b)) at 1.
  rewrite mem_content by (done || lia). by rewrite slice_full.
Qed.

Lemma slice_app_l {A} lo hi (l k : list A) :
  0 <= lo -> hi <= zlen l -> slice lo hi (l ++ k) = slice lo hi l.
Proof.
  intros. rewrite !slice_take_drop by lia. by rewrite take_app_le by lia.
Qed.

Lemma vector_resize_grow l n :
  zlen l <= n <= vector_max_size ->
  vector_resize l n = Ret (l ++ replicate (Z.to_nat (n - zlen l)) x00).
Proof.
  intros. unfold vector_resize.
  rewrite (proj2 (Z.ltb_ge _ _)) by lia. by rewrite take_ge by lia.
Qed.

(** [make_space] keeps the readable bytes, makes room for [len] more, and
    grows the vector only when the free space at both ends is too small. *)
(** [b'] is [b] with room for [len] more bytes. *)
Definition roomier (b b' : t) (len : Z) : Prop :=
  wf b' /\ content b' = content b /\ storage b <= storage b' <= storage b + len /\
  write_index b' + len <= storage b' /\
  (zlen (content b) + len + pre_append_size <= storage b -> storage b' = storage b).

Lemma make_space_total b len :
  wf b -> 0 <= len <= int64_max -> storage b - write_index b < len ->
  (exists b', make_space b len = Ret b' /\ roomier b b' len) \/
  (make_space b len = Stop LengthError /\ vector_max_size < storage b + len).
Proof.
  intros Hb Hlen Hshort. unfold make_space, roomier.
  rewrite writeadble_bytes_wf, readable_bytes_content, content_length by done.
  open_wf Hb. unfold pre_append_bytes. u64_tac. zcase.
  - destruct (Z.ltb_spec 9223372036854775807 (write_index b + len)).
    { right. unfold vector_resize. rewrite (proj2 (Z.ltb_lt _ _)) by done. split; [done | lia]. }
    left. rewrite vector_resize_grow by (unfold vector_max_size, int64_max; lia). cbn.
    eexists; split; [reflexivity |].
    assert (zlen (_buffer b ++ replicate (Z.to_nat (write_index b + len - zlen (_buffer b))) x00)
            = write_index b + len) as Hl
      by (rewrite length_app, length_replicate; lia).
    repeat split; buf_unfold; try lia.
    unfold content; buf_unfold. apply slice_app_l; lia.
  - left. unfold std_copy_within.
    rewrite (proj2 (Z.leb_gt _ _)) by lia. cbn.
    rewrite read_range_Ret by lia. cbn.
    pose proof (slice_length (read_index b) (write_index b) (_buffer b)) as Hs.
    destruct (write_range_Ret (_buffer b) 8 (slice (read_index b) (write_index b) (_buffer b)))
      as (l' & -> & Hl' & Hmid & _ & _); [lia | lia |]. cbn.
    eexists; split; [reflexivity |].
    repeat split; buf_unfold; try lia.
    unfold content; buf_unfold. rewrite <- Hmid. f_equal. lia.
Qed.

Lemma ensure_writeable_bytes_total b len :
  wf b -> 0 <= len <= int64_max ->
  (exists b', ensure_writeable_bytes b len = Ret b' /\ roomier b b' len) \/
  (ensure_writeable_bytes b len = Stop LengthError /\ vector_max_size < storage b + len).
Proof.
  intros Hb Hlen. unfold ensure_writeable_bytes.
  rewrite writeadble_bytes_wf by done. zcase.
  - by apply make_space_total.
  - left. exists b. split; [done |]. split_and!; done || lia.
Qed.

Lemma ensure_writeable_bytes_spec b len :
  wf b -> 0 <= len -> storage b + len <= vector_max_size ->
  exists b', ensure_writeable_bytes b len = Ret b' /\ wf b' /\
    content b' = content b /\ storage b <= storage b' <= storage b + len /\
    write_index b' + len <= storage b' /\
    (zlen (content b) + len + pre_append_size <= storage b -> storage b' = storage b).
Proof.
  intros Hb Hlen Hmax. pose proof Hb as Hb0. open_wf Hb0.
  destruct (ensure_writeable_bytes_total b len Hb) as [(b' & E & H)|[_ ?]]; [buf_unfold; lia | |].
  - by exists b'.
  - buf_unfold; lia.
Qed.

(** Writing [d] at [write_index] extends the readable bytes by [d]. *)
Lemma write_at_end b d :
  wf b -> write_index b + zlen d <= storage b ->
  exists buf, write_range (_buffer b) (write_index b) d = Ret buf /\
    zlen buf = storage b /\
    slice (read_index b) (write_index b + zlen d) buf = content b ++ d.
Proof.
  intros Hb Hd. open_wf Hb.
  destruct (write_range_Ret (_buffer b) (write_index b) d)
    as (buf & -> & Hl & Hmid & Hlo & _); [lia | lia |].
  exists buf. split; [done |]. split; [done |].
  rewrite <- (slice_app _ (write_index b)) by lia.
  by rewrite Hmid, Hlo by lia.
Qed.

(** [b'] is [b] with [d] appended. *)
Definition extended (b b' : t) (d : list byte) : Prop :=
  wf b' /\ content b' = content b ++ d /\ storage b <= storage b' <= storage b + zlen d /\
  (zlen (content b) + zlen d + pre_append_size <= storage b -> storage b' = storage b).

(** [append] fails only when the vector would exceed its maximal size. *)
Lemma append_total b d :
  wf b -> zlen d <= int64_max ->
  (exists b', append b d = Ret b' /\ extended b b' d) \/
  (append b d = Stop LengthError /\ vector_max_size < storage b + zlen d).
Proof.
  intros Hb Hmax. unfold append, write_begin.
  destruct (ensure_writeable_bytes_total b (zlen d))
    as [(b1 & -> & Hb1 & Hc & Hs & Hw & Hn)|[-> ?]]; [done | lia | | by right]. cbn. left.
  destruct (write_at_end b1 d) as (buf & -> & Hl & Hcd); [done | done |]. cbn.
  open_wf Hb1. eexists; split; [reflexivity |].
  unfold has_written; buf_unfold. u64_tac.
  repeat split; buf_unfold; try lia.
  unfold content at 1; buf_unfold. by rewrite Hcd, Hc.
Qed.

Lemma append_spec b d :
  wf b -> storage b + zlen d <= vector_max_size ->
  exists b', append b d = Ret b' /\ extended b b' d.
Proof.
  intros Hb Hmax. pose proof Hb as Hb0. open_wf Hb0.
  destruct (append_total b d Hb) as [(b' & E & H)|[_ ?]]; [buf_unfold; lia | by exists b' |].
  buf_unfold; lia.
Qed.

Lemma prepend_spec b d :
  wf b -> zlen d <= read_index b ->
  exists b', prepend b d = Ret b' /\ wf b' /\ content b' = d ++ content b /\
    storage b' = storage b /\ read_index b' = read_index b - zlen d.
Proof.
  intros Hb Hd. open_wf Hb. unfold prepend. u64_tac.
  destruct (write_range_Ret (_buffer b) (read_index b - zlen d) d)
    as (buf & -> & Hl & Hmid & _ & Hhi); [lia | lia |]. cbn.
  eexists; split; [reflexivity |].
  repeat split; buf_unfold; try lia.
  unfold content; buf_unfold.
  rewrite <- (slice_app _ (read_index b)) by lia. f_equal.
  - rewrite <- Hmid at 2. f_equal. lia.
  - apply Hhi. lia.
Qed.

(** Prepending more bytes than the space in front of the data wraps
    [read_index] around and writes outside the vector. *)
Lemma prepend_too_long b d :
  wf b -> read_index b < zlen d -> zlen d <= vector_max_size ->
  prepend b d = Stop UndefinedBehaviour.
Proof.
  intros Hb Hd Hdm. open_wf Hb. unfold prepend.
  assert (u64 (read_index b - zlen d) = read_index b - zlen d + 18446744073709551616) as ->.
  { unfold u64. rewrite <- (Z.mod_add _ 1) by lia. apply Z.mod_small. lia. }
  unfold write_range. rewrite (proj2 (Z.leb_le _ _)) by lia.
  rewrite (proj2 (Z.leb_gt _ _)) by lia. done.
Qed.


Lemma append_fits b d :
  wf b -> write_index b + zlen d <= storage b ->
  exists b', append b d = Ret b' /\ wf b' /\ content b' = content b ++ d /\
    storage b' = storage b /\ read_index b' = read_index b.
Proof.
  intros Hb Hd. unfold append, ensure_writeable_bytes, write_begin.
  rewrite writeadble_bytes_wf by done.
  rewrite (proj2 (Z.ltb_ge _ _)) by lia. cbn.
  destruct (write_at_end b d) as (buf & -> & Hl & Hcd); [done | done |]. cbn.
  open_wf Hb. eexists; split; [reflexivity |].
  unfold has_written; buf_unfold. u64_tac.
  repeat split; buf_unfold; try lia. exact Hcd.
Qed.

Lemma ensure_fresh n :
  0 <= n -> 1032 + n <= vector_max_size ->
  exists b', ensure_writeable_bytes (make init_size) n = Ret b' /\ wf b' /\
    content b' = [] /\ storage b' = Z.max 1032 (pre_append_size + n) /\
    read_index b' = pre_append_size /\ write_index b' = pre_append_size.
Proof.
  intros Hn Hmax. pose proof (make_wf init_size) as Hb.
  unfold ensure_writeable_bytes, make_space.
  rewrite writeadble_bytes_wf, make_storage by done.
  unfold pre_append_bytes, make, pre_append_size.
  cbn [write_index read_index _buffer].
  unfold vector_max_size, int64_max in Hmax. zcase.
  - u64_tac. rewrite (proj2 (Z.ltb_lt _ _)) by lia.
    rewrite vector_resize_grow;
      [| unfold vector_max_size, int64_max, init_size;
         rewrite length_replicate; lia].
    eexists; split; [reflexivity |]. split_and!; try done.
    + constructor; buf_unfold; rewrite ?length_app, ?length_replicate; lia.
    + buf_unfold. rewrite length_app, !length_replicate. lia.
  - eexists; split; [reflexivity |]. split_and!; try done.
    + buf_unfold. rewrite length_replicate. lia.
Qed.

Lemma shrink_spec b reserve :
  wf b -> 0 <= reserve -> 1032 + storage b + reserve <= vector_max_size ->
  exists b', shrink b reserve = Ret b' /\ wf b' /\ content b' = content b /\
    storage b' = Z.max 1032 (pre_append_size + zlen (content b) + reserve) /\
    read_index b' = pre_append_size.
Proof.
  intros Hb Hr Hmax. unfold shrink.
  rewrite readable_bytes_content, to_string_spec by done.
  pose proof (content_length b Hb) as Hcl.
  assert (u64 (zlen (content b) + reserve) = zlen (content b) + reserve) as ->.
  { open_wf Hb. apply u64_small. lia. }
  destruct (ensure_fresh (zlen (content b) + reserve)) as (o & -> & Ho & Hc & Hs & Hri & Hwi);
    [lia | open_wf Hb; lia |]. cbn.
  destruct (append_fits o (content b)) as (o' & -> & Ho' & Hc' & Hs' & Hr');
    [done | lia |]. cbn.
  eexists; split; [reflexivity |]. split_and!; try done.
  - by rewrite Hc', Hc.
  - rewrite Hs', Hs. f_equal. lia.
  - by rewrite Hr'.
Qed.

(** [readv(2)] never returns more bytes than the buffers offered can hold. *)
Definition readv_bounded (readv : Z -> list Z -> io_result) : Prop :=
  forall fd vec d, readv fd vec = IoData d -> zlen d <= foldr Z.add 0 vec.

(** The storage [read_fd] may need. *)
Lemma read_fd_total readv b fd d :
  wf b -> readv fd (read_fd_vec b) = IoData d ->
  zlen d <= foldr Z.add 0 (read_fd_vec b) ->
  (exists b', read_fd readv b fd = Ret (zlen d, None, b') /\ wf b' /\
     content b' = content b ++ d /\ storage b' <= storage b + extrabuf_size) \/
  (read_fd readv b fd = Stop LengthError /\ vector_max_size < storage b + extrabuf_size).
Proof.
  intros Hb Hd Hlen. unfold read_fd. rewrite Hd. unfold read_fd_vec in Hlen.
  rewrite writeadble_bytes_wf in * by done.
  assert (zlen d <= storage b - write_index b + extrabuf_size) as Hlen'.
  { unfold extrabuf_size in *. destruct (_ <? _); cbn in Hlen; lia. }
  destruct (write_at_end b (take (Z.to_nat (storage b - write_index b)) d))
    as (buf & -> & Hl & Hcd);
    [done | open_wf Hb; rewrite length_take; lia |]. cbn.
  open_wf Hb. zcase.
  - left. eexists; split; [reflexivity |].
    rewrite take_ge in Hcd by (buf_unfold; lia).
    unfold extrabuf_size in *. split_and!.
    + constructor; buf_unfold; u64_tac; lia.
    + unfold content at 1. cbn. rewrite <- Hcd. f_equal. buf_unfold. u64_tac. done.
    + buf_unfold. lia.
  - assert (wf (mk buf (read_index b) (zlen buf))) as Hb'
      by (constructor; buf_unfold; lia).
    destruct (append_total (mk buf (read_index b) (zlen buf))
                (drop (Z.to_nat (zlen (_buffer b) - write_index b)) d))
      as [(b' & Hap & Hwf' & Hc' & Hs' & _)|[Hap Hmax]].
    { done. }
    { buf_unfold; unfold extrabuf_size in *. rewrite length_drop. lia. }
    + rewrite Hap. cbn. left. exists b'. split_and!; try done.
      * rewrite Hc'. unfold content at 1; cbn.
        replace (zlen buf) with (write_index b + zlen (take (Z.to_nat (zlen (_buffer b) - write_index b)) d))
          by (buf_unfold; rewrite length_take; lia).
        rewrite Hcd, <- app_assoc, take_drop. done.
      * buf_unfold. rewrite length_drop in Hs'. lia.
    + rewrite Hap. cbn. right. split; [done |]. buf_unfold. rewrite length_drop in Hmax. lia.
Qed.

Lemma read_fd_data readv b fd d :
  wf b -> storage b + extrabuf_size <= vector_max_size ->
  readv fd (read_fd_vec b) = IoData d ->
  zlen d <= foldr Z.add 0 (read_fd_vec b) ->
  exists b', read_fd readv b fd = Ret (zlen d, None, b') /\ wf b' /\
    content b' = content b ++ d /\ storage b' <= storage b + extrabuf_size.
Proof.
  intros Hb Hmax Hd Hlen.
  destruct (read_fd_total readv b fd d Hb Hd Hlen) as [?|[_ ?]]; [done | lia].
Qed.

Section integers.
Context {H : Host} {B : Build}.

(** The bytes an integer puts on the wire: big-endian on either host. *)
Lemma int_wire n x :
  (0 < n)%nat ->
  store n (to_signed (8 * Z.of_nat n) (htobe n (to_unsigned (8 * Z.of_nat n) x)))
  = be_bytes n x.
Proof.
  intros Hn. rewrite <- store_mod.
  fold (to_unsigned (8 * Z.of_nat n) (to_signed (8 * Z.of_nat n)
    (htobe n (to_unsigned (8 * Z.of_nat n) x)))).
  rewrite to_unsigned_signed by lia. unfold to_unsigned at 1.
  rewrite store_mod, store_htobe. unfold be_bytes, to_unsigned.
  by rewrite le_bytes_mod.
Qed.

Lemma int_unwire n d :
  (0 < n)%nat -> length d = n ->
  to_signed (8 * Z.of_nat n)
    (betoh n (to_unsigned (8 * Z.of_nat n) (to_signed (8 * Z.of_nat n) (load d))))
  = to_signed (8 * Z.of_nat n) (be_value d).
Proof.
  intros Hn <-. rewrite to_unsigned_signed by lia.
  assert (to_unsigned (8 * zlen d) (load d) = load d) as ->.
  { apply Z.mod_small. unfold load, be_value.
    pose proof (le_value_range d). pose proof (le_value_range (rev d)) as Hr.
    rewrite length_rev in Hr. by destruct little_endian. }
  by rewrite betoh_load.
Qed.

Lemma append_int_64_wire b x : append_int_64 b x = append b (be_bytes 8 x).
Proof. unfold append_int_64, Endian.host_to_network_64. by rewrite <- (int_wire 8) by lia. Qed.
Lemma append_int_32_wire b x : append_int_32 b x = append b (be_bytes 4 x).
Proof. unfold append_int_32, Endian.host_to_network_32. by rewrite <- (int_wire 4) by lia. Qed.
Lemma append_int_16_wire b x : append_int_16 b x = append b (be_bytes 2 x).
Proof. unfold append_int_16, Endian.host_to_network_16. by rewrite <- (int_wire 2) by lia. Qed.
Lemma store_1 x : store 1 x = be_bytes 1 x.
Proof. unfold store. by destruct little_endian. Qed.
Lemma append_int_8_wire b x : append_int_8 b x = append b (be_bytes 1 x).
Proof. unfold append_int_8. by rewrite store_1. Qed.

Lemma prepend_int_64_wire b x : prepend_int_64 b x = prepend b (be_bytes 8 x).
Proof. unfold prepend_int_64, Endian.host_to_network_64. by rewrite <- (int_wire 8) by lia. Qed.
Lemma prepend_int_32_wire b x : prepend_int_32 b x = prepend b (be_bytes 4 x).
Proof. unfold prepend_int_32, Endian.host_to_network_32. by rewrite <- (int_wire 4) by lia. Qed.
Lemma prepend_int_16_wire b x : prepend_int_16 b x = prepend b (be_bytes 2 x).
Proof. unfold prepend_int_16, Endian.host_to_network_16. by rewrite <- (int_wire 2) by lia. Qed.
Lemma prepend_int_8_wire b x : prepend_int_8 b x = prepend b (be_bytes 1 x).
Proof. unfold prepend_int_8. by rewrite store_1. Qed.

(** Reading the first [n] readable bytes. *)
Lemma mem_front b d rest :
  wf b -> content b = d ++ rest -> mem b (peek b) (peek b + zlen d) = Ret d.
Proof.
  intros Hb Hc. rewrite <- (Z.add_0_r (peek b)) at 1.
  rewrite mem_content by (rewrite ?Hc, ?length_app; lia || done).
  rewrite Hc, slice_take_drop, drop_0, Nat2Z.id by lia. by rewrite take_app_length.
Qed.

Lemma peek_int_64_spec b d rest :
  wf b -> length d = 8%nat -> content b = d ++ rest ->
  peek_int_64 b = Ret (to_signed 64 (be_value d)).
Proof.
  intros Hb Hd Hc. unfold peek_int_64.
  replace 8 with (zlen d) at 1 by lia. rewrite (mem_front _ _ rest) by done. cbn [mbind res_bind].
  unfold Endian.network_to_host_64. by rewrite (int_unwire 8) by (lia || done).
Qed.
Lemma peek_int_32_spec b d rest :
  wf b -> length d = 4%nat -> content b = d ++ rest ->
  peek_int_32 b = Ret (to_signed 32 (be_value d)).
Proof.
  intros Hb Hd Hc. unfold peek_int_32.
  replace 4 with (zlen d) at 1 by lia. rewrite (mem_front _ _ rest) by done. cbn [mbind res_bind].
  unfold Endian.network_to_host_32. by rewrite (int_unwire 4) by (lia || done).
Qed.
Lemma peek_int_16_spec b d rest :
  wf b -> length d = 2%nat -> content b = d ++ rest ->
  peek_int_16 b = Ret (to_signed 16 (be_value d)).
Proof.
  intros Hb Hd Hc. unfold peek_int_16.
  rewrite assert_true.
  2:{ rewrite readable_bytes_content, Hc, length_app by done. apply Z.leb_le. lia. }
  cbn [mbind res_bind].
  replace 2 with (zlen d) at 1 by lia. rewrite (mem_front _ _ rest) by done. cbn [mbind res_bind].
  unfold Endian.network_to_host_16. by rewrite (int_unwire 2) by (lia || done).
Qed.
Lemma peek_int_8_spec b d rest :
  wf b -> length d = 1%nat -> content b = d ++ rest ->
  peek_int_8 b = Ret (to_signed 8 (be_value d)).
Proof.
  intros Hb Hd Hc. unfold peek_int_8.
  replace 1 with (zlen d) at 1 by lia. rewrite (mem_front _ _ rest) by done. cbn [mbind res_bind].
  destruct d as [|x [|]]; try done. unfold load, be_value. by destruct little_endian.
Qed.
End integers.
End BufferSpec.

(** ** Refinement: any sequence of calls behaves as on a plain byte queue *)

Module ByteQueue.

(** The widths of the integer calls. *)
Inductive width := W64 | W32 | W16 | W8.
Definition size_of (w : width) : Z := match w with W64 => 8 | W32 => 4 | W16 => 2 | W8 => 1 end.

(** The calls on one buffer. Positions are counted from [peek()]. [ReadFd] carries what
    the kernel's [readv] hands over, [HasWritten] what the caller has stored behind
    [write_begin()]. *)
Inductive op :=
  | Append (d : list byte)
  | AppendInt (w : width) (x : Z)
  | Prepend (d : list byte)
  | PrependInt (w : width) (x : Z)
  | Retrieve (n : Z)
  | RetrieveUntil (n : Z)
  | RetrieveInt (w : width)
  | RetrieveAll
  | RetrieveAsString (n : Z)
  | RetrieveAllAsString
  | PeekInt (w : width)
  | ReadInt (w : width)
  | EnsureWriteable (n : Z)
  | HasWritten (d : list byte)
  | Unwrite (n : Z)
  | Shrink (reserve : Z)
  | ReadFd (r : io_result)
  | FindCRLF (start : Z)
  | FindEOL (start : Z)
  | ToString
  | ReadableBytes.
Inductive answer := Nothing | Bytes (d : list byte) | Int (x : Z) | At (pos : option Z).

(** The specification: a queue of bytes, with the room in front that prepending may use
    and the room behind that was asked for. *)
Record queue := mk_queue {
  bytes_ : list byte;
  front : Z;
  behind : Z
}.
Definition value (w : width) (d : list byte) : Z := to_signed (8 * size_of w) (be_value d).
Definition wire (w : width) (x : Z) : list byte := be_bytes (Z.to_nat (size_of w)) x.

(** Taking [n] bytes frees their room, up to the 8 bytes every buffer has; the last byte
    taken, the buffer starts anew. *)
Definition taken (n : Z) (q : queue) : queue :=
  mk_queue (drop (Z.to_nat n) (bytes_ q))
    (if n <? zlen (bytes_ q) then Z.min Buffer.pre_append_size (front q + n) else Buffer.pre_append_size) 0.
Definition put (d : list byte) (q : queue) : queue := mk_queue (bytes_ q ++ d) (front q) 0.
Definition put_front (d : list byte) (q : queue) : queue :=
  mk_queue (d ++ bytes_ q) (front q - zlen d) (behind q).
Definition found (start : Z) (k : option nat) : option Z := (fun k => start + Z.of_nat k) <$> k.

Definition spec (o : op) (q : queue) : answer * queue :=
  match o with
  | Append d => (Nothing, put d q)
  | AppendInt w x => (Nothing, put (wire w x) q)
  | Prepend d => (Nothing, put_front d q)
  | PrependInt w x => (Nothing, put_front (wire w x) q)
  | Retrieve n | RetrieveUntil n => (Nothing, taken n q)
  | RetrieveInt w => (Nothing, taken (size_of w) q)
  | RetrieveAll => (Nothing, taken (zlen (bytes_ q)) q)
  | RetrieveAsString n => (Bytes (take (Z.to_nat n) (bytes_ q)), taken n q)
  | RetrieveAllAsString => (Bytes (bytes_ q), taken (zlen (bytes_ q)) q)
  | PeekInt w => (Int (value w (take (Z.to_nat (size_of w)) (bytes_ q))), q)
  | ReadInt w => (Int (value w (take (Z.to_nat (size_of w)) (bytes_ q))), taken (size_of w) q)
  | EnsureWriteable n => (Nothing, mk_queue (bytes_ q) (front q) (Z.max (behind q) n))
  | HasWritten d => (Nothing, mk_queue (bytes_ q ++ d) (front q) (behind q - zlen d))
  | Unwrite n => (Nothing, mk_queue (take (Z.to_nat (zlen (bytes_ q) - n)) (bytes_ q)) (front q) (behind q))
  | Shrink _ => (Nothing, mk_queue (bytes_ q) Buffer.pre_append_size 0)
  | ReadFd (IoData d) => (Int (zlen d), put d q)
  | ReadFd (IoError _) => (Int (-1), q)
  | FindCRLF start => (At (found start (std_search Buffer.CRLF (drop (Z.to_nat start) (bytes_ q)))), q)
  | FindEOL start => (At (found start (std_find x0a (drop (Z.to_nat start) (bytes_ q)))), q)
  | ToString => (Bytes (bytes_ q), q)
  | ReadableBytes => (Int (zlen (bytes_ q)), q)
  end.

(** The calls' preconditions, on the specification's state. *)
Definition ok (o : op) (q : queue) : Prop :=
  match o with
  | Prepend d => zlen d <= front q
  | PrependInt w _ => size_of w <= front q
  | Retrieve n | EnsureWriteable n => 0 <= n
  | RetrieveUntil n => 0 <= n <= zlen (bytes_ q)
  | RetrieveAsString n | Unwrite n => 0 <= n <= zlen (bytes_ q)
  | PeekInt w | ReadInt w => size_of w <= zlen (bytes_ q)
  | HasWritten d => zlen d <= behind q
  | Shrink reserve => 0 <= reserve
  | ReadFd (IoData d) => zlen d <= Buffer.extrabuf_size
  | FindCRLF start | FindEOL start => 0 <= start <= zlen (bytes_ q)
  | _ => True
  end.

(** What a call may add to the vector. *)
Definition cost (o : op) : Z :=
  match o with
  | Append d => zlen d
  | AppendInt w _ => size_of w
  | EnsureWriteable n => n
  | Shrink reserve => 1032 + reserve
  | ReadFd _ => Buffer.extrabuf_size
  | _ => 0
  end.

Section run.
Context {H : Host} {B : Build}.

Definition append_int (w : width) : Buffer.t -> Z -> res Buffer.t :=
  match w with
  | W64 => Buffer.append_int_64 | W32 => Buffer.append_int_32 | W16 => Buffer.append_int_16 | W8 => Buffer.append_int_8
  end.
Definition prepend_int (w : width) : Buffer.t -> Z -> res Buffer.t :=
  match w with
  | W64 => Buffer.prepend_int_64 | W32 => Buffer.prepend_int_32 | W16 => Buffer.prepend_int_16 | W8 => Buffer.prepend_int_8
  end.
Definition peek_int (w : width) : Buffer.t -> res Z :=
  match w with
  | W64 => Buffer.peek_int_64 | W32 => Buffer.peek_int_32 | W16 => Buffer.peek_int_16 | W8 => Buffer.peek_int_8
  end.
Definition read_int (w : width) : Buffer.t -> res (Z * Buffer.t) :=
  match w with
  | W64 => Buffer.read_int_64 | W32 => Buffer.read_int_32 | W16 => Buffer.read_int_16 | W8 => Buffer.read_int_8
  end.
Definition retrieve_int (w : width) : Buffer.t -> Buffer.t :=
  match w with
  | W64 => Buffer.retrieve_int_64 | W32 => Buffer.retrieve_int_32 | W16 => Buffer.retrieve_int_16 | W8 => Buffer.retrieve_int_8
  end.

Definition silent (m : res Buffer.t) : res (answer * Buffer.t) := b ← m; mret (Nothing, b).
(** A pointer into the buffer, as an offset from [peek()]. *)
Definition position (b : Buffer.t) (p : option Z) : answer := At ((fun p => p - Buffer.peek b) <$> p).
Definition step (o : op) (b : Buffer.t) : res (answer * Buffer.t) :=
  match o with
  | Append d => silent (Buffer.append b d)
  | AppendInt w x => silent (append_int w b x)
  | Prepend d => silent (Buffer.prepend b d)
  | PrependInt w x => silent (prepend_int w b x)
  | Retrieve n => mret (Nothing, Buffer.retrieve b n)
  | RetrieveUntil n => mret (Nothing, Buffer.retrieve_until b (Buffer.peek b + n))
  | RetrieveInt w => mret (Nothing, retrieve_int w b)
  | RetrieveAll => mret (Nothing, Buffer.retrieve_all b)
  | RetrieveAsString n => '(d, b) ← Buffer.retrieve_as_string b n; mret (Bytes d, b)
  | RetrieveAllAsString => '(d, b) ← Buffer.retrieve_all_as_string b; mret (Bytes d, b)
  | PeekInt w => x ← peek_int w b; mret (Int x, b)
  | ReadInt w => '(x, b) ← read_int w b; mret (Int x, b)
  | EnsureWriteable n => silent (Buffer.ensure_writeable_bytes b n)
  | HasWritten d =>
      buf ← write_range (Buffer._buffer b) (Buffer.write_begin b) d;
      mret (Nothing, Buffer.has_written (Buffer.mk buf (Buffer.read_index b) (Buffer.write_index b)) (zlen d))
  | Unwrite n => mret (Nothing, Buffer.unwrite b n)
  | Shrink reserve => silent (Buffer.shrink b reserve)
  | ReadFd r => '(n, _, b) ← Buffer.read_fd (fun _ _ => r) b 0; mret (Int n, b)
  | FindCRLF start => p ← Buffer.find_CRLF_from b (Buffer.peek b + start); mret (position b p, b)
  | FindEOL start => p ← Buffer.find_EOL_from b (Buffer.peek b + start); mret (position b p, b)
  | ToString => d ← Buffer.to_string b; mret (Bytes d, b)
  | ReadableBytes => mret (Int (Buffer.readable_bytes b), b)
  end.

Fixpoint run (os : list op) (b : Buffer.t) : res (list answer * Buffer.t) :=
  match os with
  | [] => mret ([], b)
  | o :: os' =>
      '(out, b') ← step o b;
      '(outs, b'') ← run os' b';
      mret (out :: outs, b'')
  end.
End run.

Fixpoint run_spec (os : list op) (q : queue) : list answer * queue :=
  match os with
  | [] => ([], q)
  | o :: os' =>
      let '(out, q') := spec o q in
      let '(outs, q'') := run_spec os' q' in
      (out :: outs, q'')
  end.

Fixpoint all_ok (os : list op) (q : queue) : Prop :=
  match os with
  | [] => True
  | o :: os' => ok o q /\ all_ok os' (spec o q).2
  end.

Definition total_cost (os : list op) : Z := foldr (fun o n => cost o + n) 0 os.

Lemma size_of_pos w : 0 < size_of w.
Proof. by destruct w. Qed.
Lemma cost_nonneg o q : ok o q -> 0 <= cost o.
Proof. destruct o as [| w x | | | | | | | | | | | | | | | | | | |]; cbn; unfold Buffer.extrabuf_size; try lia. pose proof (size_of_pos w). lia. Qed.

Lemma total_cost_nonneg os q : all_ok os q -> 0 <= total_cost os.
Proof.
  revert q; induction os as [|o os IH]; intros q; [cbn; lia |].
  intros [Ho Hos]. apply cost_nonneg in Ho. apply IH in Hos.
  change (0 <= cost o + total_cost os). lia.
Qed.

Lemma zlen_wire w x : zlen (wire w x) = size_of w.
Proof. unfold wire. rewrite length_be_bytes. pose proof (size_of_pos w). lia. Qed.

Section refinement.
Context {H : Host} {B : Build}.
Implicit Types (b : Buffer.t) (q : queue).

(** A buffer holds the queue's bytes and has at least its room. *)
Record refines b q : Prop := mk_refines {
  r_wf : Buffer.wf b;
  r_content : Buffer.content b = bytes_ q;
  r_front : front q <= Buffer.read_index b /\ front q <= Buffer.pre_append_size;
  r_behind : Buffer.write_index b + behind q <= Buffer.storage b
}.

(** What is appended moves the data to the front, or not at all. *)
Lemma make_space_front b n b' : Buffer.make_space b n = Ret b' ->
  Buffer.read_index b' = Buffer.read_index b \/ Buffer.read_index b' = Buffer.pre_append_size.
Proof.
  unfold Buffer.make_space. case_match; intros E; apply res_bind_inv in E as (? & _ & [= <-]); [by left | by right].
Qed.
Lemma append_front b d b' : Buffer.append b d = Ret b' ->
  Buffer.read_index b' = Buffer.read_index b \/ Buffer.read_index b' = Buffer.pre_append_size.
Proof.
  unfold Buffer.append, Buffer.ensure_writeable_bytes. intros E.
  apply res_bind_inv in E as (b1 & E1 & E). apply res_bind_inv in E as (buf & _ & [= <-]). cbn.
  case_match; [by eapply make_space_front | by injection E1 as <-; left].
Qed.
Lemma read_fd_front readv b fd n e b' : Buffer.read_fd readv b fd = Ret (n, e, b') ->
  Buffer.read_index b' = Buffer.read_index b \/ Buffer.read_index b' = Buffer.pre_append_size.
Proof.
  unfold Buffer.read_fd. case_match; [| by intros [= _ _ <-]; left].
  intros E. apply res_bind_inv in E as (buf & _ & E). case_match; [by injection E as _ _ <-; left |].
  apply res_bind_inv in E as (b1 & E1 & [= _ _ <-]). by apply append_front in E1.
Qed.

Lemma refines_put b q d b' :
  refines b q -> Buffer.wf b' -> Buffer.content b' = Buffer.content b ++ d ->
  Buffer.read_index b' = Buffer.read_index b \/ Buffer.read_index b' = Buffer.pre_append_size ->
  refines b' (put d q).
Proof.
  intros [Hwf Hc [Hf Hf8] Hb] Hwf' Hc' Hr. constructor; cbn; [done | congruence | split; [lia | done] |].
  pose proof (Buffer.wf_write _ Hwf'). lia.
Qed.
Lemma append_refines b q d :
  refines b q -> Buffer.storage b + zlen d <= vector_max_size ->
  exists b', Buffer.append b d = Ret b' /\ refines b' (put d q) /\ Buffer.storage b' <= Buffer.storage b + zlen d.
Proof.
  intros Hr Hmax. destruct (BufferSpec.append_spec b d (r_wf _ _ Hr) Hmax) as (b' & E & Hwf & Hc & Hs & _).
  exists b'. split_and!; [done | | lia]. eapply refines_put; [done | done | done | by eapply append_front].
Qed.
Lemma prepend_refines b q d :
  refines b q -> zlen d <= front q ->
  exists b', Buffer.prepend b d = Ret b' /\ refines b' (put_front d q) /\ Buffer.storage b' = Buffer.storage b.
Proof.
  intros [Hwf Hc [Hf Hf8] Hb] Hd.
  destruct (BufferSpec.prepend_spec b d) as (b' & E & Hwf' & Hc' & Hs & Hri); [done | lia |].
  exists b'. split_and!; [done | | done]. constructor; cbn; [done | congruence | lia |].
  pose proof (BufferSpec.content_length b Hwf) as L. pose proof (BufferSpec.content_length b' Hwf') as L'.
  rewrite Hc', length_app in L'. lia.
Qed.

Lemma retrieve_refines b q n :
  refines b q -> 0 <= n -> refines (Buffer.retrieve b n) (taken n q).
Proof.
  intros [Hwf Hc [Hf Hf8] Hb] Hn. pose proof (BufferSpec.retrieve_wf b n Hwf Hn) as Hwf'.
  constructor; cbn; [done | by rewrite BufferSpec.retrieve_content, Hc | |];
    [| rewrite BufferSpec.retrieve_storage; pose proof (Buffer.wf_write _ Hwf'); rewrite BufferSpec.retrieve_storage in *; lia].
  rewrite <- Hc, <- (BufferSpec.readable_bytes_content b Hwf). unfold Buffer.retrieve.
  pose proof (BufferSpec.readable_bytes_content b Hwf) as L. rewrite BufferSpec.content_length in L by done.
  destruct (Z.ltb_spec n (Buffer.readable_bytes b)) as [Hlt|_]; [| cbn; unfold Buffer.pre_append_size; lia].
  cbn. BufferSpec.open_wf Hwf. rewrite u64_small; lia.
Qed.
Lemma retrieve_all_taken b : Buffer.wf b -> Buffer.retrieve_all b = Buffer.retrieve b (zlen (Buffer.content b)).
Proof. intros Hb. unfold Buffer.retrieve. by rewrite BufferSpec.readable_bytes_content, Z.ltb_irrefl. Qed.

Lemma ensure_refines b q n :
  refines b q -> 0 <= n -> Buffer.storage b + n <= vector_max_size ->
  exists b', Buffer.ensure_writeable_bytes b n = Ret b' /\
    refines b' (mk_queue (bytes_ q) (front q) (Z.max (behind q) n)) /\ Buffer.storage b' <= Buffer.storage b + n.
Proof.
  intros [Hwf Hc [Hf Hf8] Hb] Hn Hmax.
  destruct (BufferSpec.ensure_writeable_bytes_spec b n) as (b' & E & Hwf' & Hc' & Hs & Hw & _); [done..|].
  exists b'. split_and!; [done | | lia]. unfold Buffer.ensure_writeable_bytes in E.
  rewrite BufferSpec.writeadble_bytes_wf in E by done.
  destruct (Z.ltb_spec (Buffer.storage b - Buffer.write_index b) n).
  - pose proof (make_space_front _ _ _ E). constructor; cbn; [done | congruence | split; [lia | done] | lia].
  - injection E as <-. constructor; cbn; [done | congruence | done | lia].
Qed.
Lemma has_written_refines b q d :
  refines b q -> zlen d <= behind q ->
  exists b', step (HasWritten d) b = Ret (Nothing, b') /\
    refines b' (mk_queue (bytes_ q ++ d) (front q) (behind q - zlen d)) /\ Buffer.storage b' = Buffer.storage b.
Proof.
  intros [Hwf Hc Hf Hb] Hd. destruct (BufferSpec.write_at_end b d Hwf) as (buf & E & Hl & Hs); [lia |].
  cbn [step]. unfold Buffer.write_begin. rewrite E. cbn [mbind res_bind]. eexists. split; [done |].
  pose proof (Buffer.wf_max _ Hwf). BufferSpec.open_wf Hwf. unfold Buffer.has_written. cbn.
  rewrite u64_small by lia. split; [| done].
  constructor; cbn; [constructor; cbn; BufferSpec.buf_unfold; lia | | done | BufferSpec.buf_unfold; lia].
  unfold Buffer.content at 1. cbn. by rewrite Hs, Hc.
Qed.
Lemma unwrite_refines b q n :
  refines b q -> 0 <= n <= zlen (bytes_ q) ->
  refines (Buffer.unwrite b n)
    (mk_queue (take (Z.to_nat (zlen (bytes_ q) - n)) (bytes_ q)) (front q) (behind q)) /\
  Buffer.storage (Buffer.unwrite b n) = Buffer.storage b.
Proof.
  intros [Hwf Hc Hf Hb] Hn. rewrite <- Hc in *. rewrite BufferSpec.content_length in * by done.
  BufferSpec.open_wf Hwf. unfold Buffer.unwrite. rewrite u64_small by lia. split; [| done].
  constructor; cbn; [constructor; cbn; BufferSpec.buf_unfold; lia | | done | BufferSpec.buf_unfold; lia].
  unfold Buffer.content, slice. cbn. rewrite take_take. f_equal. lia.
Qed.

Lemma find_from_mem b q start :
  refines b q -> 0 <= start <= zlen (bytes_ q) ->
  Buffer.mem b (Buffer.peek b + start) (Buffer.write_begin b) = Ret (drop (Z.to_nat start) (bytes_ q)).
Proof.
  intros [Hwf Hc _ _] Hs. rewrite <- Hc in *. pose proof (BufferSpec.content_length b Hwf) as L.
  replace (Buffer.write_begin b) with (Buffer.peek b + zlen (Buffer.content b)) by (unfold Buffer.write_begin, Buffer.peek; lia).
  rewrite BufferSpec.mem_content by (done || lia). f_equal. rewrite slice_take_drop by lia.
  by rewrite take_ge by lia.
Qed.
Lemma position_found b start k :
  position b ((fun k => Buffer.peek b + start + Z.of_nat k) <$> k) = At (found start k).
Proof. unfold position, found. destruct k; cbn; [| done]. do 2 f_equal. lia. Qed.

Lemma peek_int_spec w b q :
  refines b q -> size_of w <= zlen (bytes_ q) ->
  peek_int w b = Ret (value w (take (Z.to_nat (size_of w)) (bytes_ q))).
Proof.
  intros [Hwf Hc _ _] Hn. set (d := take _ _).
  assert (Hsplit : Buffer.content b = d ++ drop (Z.to_nat (size_of w)) (bytes_ q)) by (unfold d; by rewrite Hc, take_drop).
  assert (Hd : length d = Z.to_nat (size_of w)) by (unfold d; rewrite length_take; lia).
  destruct w; cbn [peek_int size_of] in *; unfold value; cbn [size_of];
    [eapply BufferSpec.peek_int_64_spec | eapply BufferSpec.peek_int_32_spec
    | eapply BufferSpec.peek_int_16_spec | eapply BufferSpec.peek_int_8_spec]; done.
Qed.
Lemma read_int_peek w b : read_int w b = (x ← peek_int w b; mret (x, retrieve_int w b)).
Proof. by destruct w. Qed.
Lemma retrieve_int_eq w b : retrieve_int w b = Buffer.retrieve b (size_of w).
Proof. by destruct w. Qed.
Lemma append_int_wire w b x : append_int w b x = Buffer.append b (wire w x).
Proof.
  destruct w; [apply BufferSpec.append_int_64_wire | apply BufferSpec.append_int_32_wire
  | apply BufferSpec.append_int_16_wire | apply BufferSpec.append_int_8_wire].
Qed.
Lemma prepend_int_wire w b x : prepend_int w b x = Buffer.prepend b (wire w x).
Proof.
  destruct w; [apply BufferSpec.prepend_int_64_wire | apply BufferSpec.prepend_int_32_wire
  | apply BufferSpec.prepend_int_16_wire | apply BufferSpec.prepend_int_8_wire].
Qed.

Lemma shrink_refines b q reserve :
  refines b q -> 0 <= reserve -> Buffer.storage b + (1032 + reserve) <= vector_max_size ->
  exists b', Buffer.shrink b reserve = Ret b' /\
    refines b' (mk_queue (bytes_ q) Buffer.pre_append_size 0) /\ Buffer.storage b' <= Buffer.storage b + (1032 + reserve).
Proof.
  intros [Hwf Hc _ _] Hr Hmax. destruct (BufferSpec.shrink_spec b reserve) as (b' & E & Hwf' & Hc' & Hs & Hri);
    [done | done | lia |].
  exists b'. split_and!; [done | |].
  - constructor; cbn; [done | congruence | by rewrite Hri |]. pose proof (Buffer.wf_write _ Hwf'). lia.
  - pose proof (BufferSpec.content_length b Hwf). BufferSpec.open_wf Hwf. lia.
Qed.
Lemma read_fd_refines b q r :
  refines b q -> ok (ReadFd r) q -> Buffer.storage b + Buffer.extrabuf_size <= vector_max_size ->
  exists b', step (ReadFd r) b = Ret ((spec (ReadFd r) q).1, b') /\ refines b' (spec (ReadFd r) q).2 /\
    Buffer.storage b' <= Buffer.storage b + Buffer.extrabuf_size.
Proof.
  intros Hr Hok Hmax. pose proof (r_wf _ _ Hr) as Hwf. destruct r as [d|e]; cbn [ok step spec fst snd] in *.
  - destruct (BufferSpec.read_fd_data (fun _ _ => IoData d) b 0 d) as (b' & E & Hwf' & Hc' & Hs); [done | done | done | |].
    { unfold Buffer.read_fd_vec, Buffer.extrabuf_size, Buffer.writeadble_bytes in *.
      pose proof (u64_range (zlen (Buffer._buffer b) - Buffer.write_index b)). zcase; cbn [foldr]; lia. }
    exists b'. rewrite E. split_and!; [done | | done].
    eapply refines_put; [done | done | done | by eapply read_fd_front].
  - unfold Buffer.read_fd. exists b. split_and!; [done | done |]. unfold Buffer.extrabuf_size. lia.
Qed.

(** One call: returns, keeps the invariant, and does what [spec] says. *)
Lemma step_refines o b q :
  refines b q -> ok o q -> Buffer.storage b + cost o <= vector_max_size ->
  exists b', step o b = Ret ((spec o q).1, b') /\ refines b' (spec o q).2 /\
    Buffer.storage b' <= Buffer.storage b + cost o.
Proof.
  intros Hr Hok Hc. pose proof (r_wf _ _ Hr) as Hwf. pose proof (r_content _ _ Hr) as Hq.
  assert (Hret : forall n, 0 <= n -> exists b', mret (Nothing, Buffer.retrieve b n) = Ret (Nothing, b') /\
    refines b' (taken n q) /\ Buffer.storage b' <= Buffer.storage b + 0).
  { intros n Hn. eexists. split_and!; [done | by apply retrieve_refines | rewrite BufferSpec.retrieve_storage; lia]. }
  destruct o as [d|w x|d|w x|n|n|w| |n| |w|w|n|d|n|r|r|start|start| |];
    cbn [cost] in *; try exact (read_fd_refines b q r Hr Hok Hc); cbn [ok spec step fst snd] in *.
  - destruct (append_refines b q d Hr Hc) as (b' & -> & ? & ?). by exists b'.
  - rewrite append_int_wire. destruct (append_refines b q (wire w x) Hr) as (b' & -> & ? & Hs); [by rewrite zlen_wire |].
    rewrite zlen_wire in Hs. by exists b'.
  - destruct (prepend_refines b q d Hr Hok) as (b' & -> & ? & ?). exists b'. split_and!; [done | done | lia].
  - rewrite prepend_int_wire. destruct (prepend_refines b q (wire w x) Hr) as (b' & -> & ? & ?); [by rewrite zlen_wire |].
    exists b'. split_and!; [done | done | lia].
  - by apply Hret.
  - rewrite BufferSpec.retrieve_until_content; [apply Hret; lia | done | lia |].
    rewrite <- Hq, BufferSpec.content_length in Hok by done. BufferSpec.open_wf Hwf. lia.
  - rewrite retrieve_int_eq. apply Hret. pose proof (size_of_pos w). lia.
  - rewrite retrieve_all_taken, Hq by done. apply Hret. lia.
  - rewrite BufferSpec.retrieve_as_string_spec, Hq by (rewrite ?Hq; done). cbn [mbind res_bind].
    eexists. split_and!; [done | apply retrieve_refines; [done | lia] | rewrite BufferSpec.retrieve_storage; lia].
  - rewrite BufferSpec.retrieve_all_as_string_spec, retrieve_all_taken, Hq by done. cbn [mbind res_bind].
    eexists. split_and!; [done | apply retrieve_refines; [done | lia] | rewrite BufferSpec.retrieve_storage; lia].
  - rewrite (peek_int_spec w b q) by done. exists b. split_and!; [done | done | lia].
  - rewrite read_int_peek, (peek_int_spec w b q), retrieve_int_eq by done. cbn [mbind res_bind].
    pose proof (size_of_pos w). eexists. split_and!; [done | apply retrieve_refines; [done | lia] | rewrite BufferSpec.retrieve_storage; lia].
  - destruct (ensure_refines b q n Hr Hok Hc) as (b' & -> & ? & ?). by exists b'.
  - destruct (has_written_refines b q d Hr Hok) as (b' & E & ? & ?). cbn [step] in E. rewrite E.
    exists b'. split_and!; [done | done | lia].
  - destruct (unwrite_refines b q n Hr Hok) as [? ?]. eexists. split_and!; [done | done | lia].
  - destruct (shrink_refines b q r Hr Hok Hc) as (b' & -> & ? & ?). by exists b'.
  - unfold Buffer.find_CRLF_from. rewrite (find_from_mem b q start) by done. cbn [mbind res_bind mret res_ret].
    exists b. rewrite position_found. split_and!; [done | done | lia].
  - unfold Buffer.find_EOL_from. rewrite (find_from_mem b q start) by done. cbn [mbind res_bind mret res_ret].
    exists b. rewrite position_found. split_and!; [done | done | lia].
  - rewrite BufferSpec.to_string_spec, Hq by done. exists b. split_and!; [done | done | lia].
  - rewrite BufferSpec.readable_bytes_content, Hq by done. exists b. split_and!; [done | done | lia].
Qed.

Lemma run_refines os b q :
  refines b q -> all_ok os q -> Buffer.storage b + total_cost os <= vector_max_size ->
  exists b', run os b = Ret ((run_spec os q).1, b') /\ refines b' (run_spec os q).2.
Proof.
  revert b q. induction os as [|o os IH]; intros b q Hr Hok Hcost; [by exists b |].
  destruct Hok as [Ho Hos]. pose proof (total_cost_nonneg _ _ Hos).
  change (Buffer.storage b + (cost o + total_cost os) <= vector_max_size) in Hcost.
  destruct (step_refines o b q) as (b1 & Hst & Hr1 & Hs1); [done | done | lia |].
  destruct (IH b1 (spec o q).2) as (b2 & Hrun & Hr2); [done | done | lia |].
  exists b2. cbn [run run_spec]. rewrite Hst. cbn [mbind res_bind]. rewrite Hrun. cbn [mbind res_bind].
  destruct (spec o q) as [out q1]. cbn [snd fst] in *. by destruct (run_spec os q1).
Qed.
End refinement.
End ByteQueue.

(** * Properties *)

(** C1: every sequence of calls on a buffer, each within its precondition (what is
    prepended fits the room in front, of which a buffer has 8 bytes; what is read,
    retrieved as a string or unwritten is there; what [has_written] counts has room that
    was asked for) and together within the vector's maximal size, returns: no access
    outside the vector, no failed assertion. It answers what a plain byte queue would,
    and leaves a well-formed buffer that holds that queue's bytes, with at least the room
    in front and behind that the specification counts. [swap], which takes two buffers,
    is the only call left out. *)
Theorem buffer_refines_byte_queue {H : Host} {B : Build} (os : list ByteQueue.op) (b : Buffer.t) (q : ByteQueue.queue)
    (Hrefines : ByteQueue.refines b q) (Hok : ByteQueue.all_ok os q)
    (Hcost : Buffer.storage b + ByteQueue.total_cost os <= vector_max_size) :
  exists b', ByteQueue.run os b = Ret ((ByteQueue.run_spec os q).1, b') /\
    Buffer.wf b' /\ Buffer.content b' = ByteQueue.bytes_ (ByteQueue.run_spec os q).2 /\
    ByteQueue.front (ByteQueue.run_spec os q).2 <= Buffer.read_index b' /\
    Buffer.write_index b' + ByteQueue.behind (ByteQueue.run_spec os q).2 <= Buffer.storage b'.
Proof.
  destruct (ByteQueue.run_refines os b q Hrefines Hok Hcost) as (b' & E & [Hwf Hc [Hf _] Hb]).
  by exists b'.
Qed.

(** A new buffer is the empty queue with room for 8 bytes in front and 1024 behind. *)
Lemma new_buffer size : ByteQueue.refines (Buffer.make size) (ByteQueue.mk_queue [] Buffer.pre_append_size Buffer.init_size).
Proof.
  constructor; [apply BufferSpec.make_wf | apply BufferSpec.make_content | done |].
  rewrite BufferSpec.make_storage. by vm_compute.
Qed.

Definition example_calls : list ByteQueue.op :=
  [ByteQueue.Append (bytes "hello"); ByteQueue.PrependInt ByteQueue.W32 (-3); ByteQueue.ReadInt ByteQueue.W32;
   ByteQueue.RetrieveAsString 2; ByteQueue.ReadFd (IoData (bytes "!")); ByteQueue.EnsureWriteable 2;
   ByteQueue.HasWritten Buffer.CRLF; ByteQueue.FindCRLF 0; ByteQueue.Unwrite 1; ByteQueue.Shrink 0;
   ByteQueue.Prepend (bytes "<"); ByteQueue.RetrieveAllAsString].
Lemma buffer_refines_byte_queue_witness :
  let H := {| little_endian := true |} in let B := {| ndebug := false |} in
  exists b', ByteQueue.run example_calls (Buffer.make 0)
      = Ret ([ByteQueue.Nothing; ByteQueue.Nothing; ByteQueue.Int (-3); ByteQueue.Bytes (bytes "he"); ByteQueue.Int 1;
               ByteQueue.Nothing; ByteQueue.Nothing; ByteQueue.At (Some 4); ByteQueue.Nothing; ByteQueue.Nothing;
               ByteQueue.Nothing; ByteQueue.Bytes (bytes "<llo!" ++ [x0d])], b') /\
    Buffer.wf b' /\ Buffer.content b' = [].
Proof.
  destruct (@buffer_refines_byte_queue {| little_endian := true |} {| ndebug := false |} example_calls (Buffer.make 0)
    (ByteQueue.mk_queue [] Buffer.pre_append_size Buffer.init_size)) as (b' & E & Hwf & Hc & _).
  - apply new_buffer.
  - vm_compute. intuition congruence.
  - vm_compute. congruence.
  - exists b'. split_and!; [exact E | exact Hwf | exact Hc].
Defined.

Lemma retrieve_front b d rest :
  Buffer.wf b -> Buffer.content b = d ++ rest ->
  Buffer.wf (Buffer.retrieve b (zlen d)) /\
  Buffer.content (Buffer.retrieve b (zlen d)) = rest.
Proof.
  intros Hb Hc. split; [apply BufferSpec.retrieve_wf; [done | lia] |].
  rewrite BufferSpec.retrieve_content, Hc, Nat2Z.id by (done || lia).
  apply drop_app_length.
Qed.

Lemma be_bytes_roundtrip n x :
  (0 < n)%nat -> - 2 ^ (8 * Z.of_nat n - 1) <= x < 2 ^ (8 * Z.of_nat n - 1) ->
  to_signed (8 * Z.of_nat n) (be_value (be_bytes n x)) = x.
Proof.
  intros Hn Hx. rewrite be_value_bytes. fold (to_unsigned (8 * Z.of_nat n) x).
  rewrite to_signed_unsigned by lia. apply to_signed_small; lia.
Qed.

(** What reading a [n]-byte integer that stands first in the buffer does. *)
Lemma read_front {H : Host} {B : Build} (b : Buffer.t) (rest : list byte) :
  Buffer.wf b ->
  (forall x, Buffer.content b = be_bytes 8 x ++ rest -> - 2 ^ 63 <= x < 2 ^ 63 ->
     exists b', Buffer.read_int_64 b = Ret (x, b') /\ Buffer.wf b' /\ Buffer.content b' = rest) /\
  (forall x, Buffer.content b = be_bytes 4 x ++ rest -> - 2 ^ 31 <= x < 2 ^ 31 ->
     exists b', Buffer.read_int_32 b = Ret (x, b') /\ Buffer.wf b' /\ Buffer.content b' = rest) /\
  (forall x, Buffer.content b = be_bytes 2 x ++ rest -> - 2 ^ 15 <= x < 2 ^ 15 ->
     exists b', Buffer.read_int_16 b = Ret (x, b') /\ Buffer.wf b' /\ Buffer.content b' = rest) /\
  (forall x, Buffer.content b = be_bytes 1 x ++ rest -> - 2 ^ 7 <= x < 2 ^ 7 ->
     exists b', Buffer.read_int_8 b = Ret (x, b') /\ Buffer.wf b' /\ Buffer.content b' = rest).
Proof.
  intros Hb. split_and!; intros x Hc Hx;
    destruct (retrieve_front b _ rest Hb Hc) as [Hwf' Hc'];
    rewrite length_be_bytes in Hwf', Hc'; eexists; (split; [| split; [exact Hwf' | exact Hc']]).
  - unfold Buffer.read_int_64.
    rewrite (BufferSpec.peek_int_64_spec b (be_bytes 8 x) rest) by done.
    by rewrite (be_bytes_roundtrip 8) by lia.
  - unfold Buffer.read_int_32.
    rewrite (BufferSpec.peek_int_32_spec b (be_bytes 4 x) rest) by done.
    by rewrite (be_bytes_roundtrip 4) by lia.
  - unfold Buffer.read_int_16.
    rewrite (BufferSpec.peek_int_16_spec b (be_bytes 2 x) rest) by done.
    by rewrite (be_bytes_roundtrip 2) by lia.
  - unfold Buffer.read_int_8.
    rewrite (BufferSpec.peek_int_8_spec b (be_bytes 1 x) rest) by done.
    by rewrite (be_bytes_roundtrip 1) by lia.
Qed.

(** C2: an integer of any of the four widths prepended to a buffer with room in
    front goes on the wire in network byte order, on little- and big-endian
    hosts alike, and the matching [read_int_*] gives back the same signed value
    and leaves exactly the bytes that were there before. *)
Theorem buffer_integer_roundtrip {H : Host} {B : Build} (b : Buffer.t)
    (Hwf : Buffer.wf b) (Hroom : 8 <= Buffer.read_index b) :
  (forall x, - 2 ^ 63 <= x < 2 ^ 63 -> exists b1 b2,
     Buffer.prepend_int_64 b x = Ret b1 /\ Buffer.content b1 = be_bytes 8 x ++ Buffer.content b /\
     Buffer.read_int_64 b1 = Ret (x, b2) /\ Buffer.content b2 = Buffer.content b) /\
  (forall x, - 2 ^ 31 <= x < 2 ^ 31 -> exists b1 b2,
     Buffer.prepend_int_32 b x = Ret b1 /\ Buffer.content b1 = be_bytes 4 x ++ Buffer.content b /\
     Buffer.read_int_32 b1 = Ret (x, b2) /\ Buffer.content b2 = Buffer.content b) /\
  (forall x, - 2 ^ 15 <= x < 2 ^ 15 -> exists b1 b2,
     Buffer.prepend_int_16 b x = Ret b1 /\ Buffer.content b1 = be_bytes 2 x ++ Buffer.content b /\
     Buffer.read_int_16 b1 = Ret (x, b2) /\ Buffer.content b2 = Buffer.content b) /\
  (forall x, - 2 ^ 7 <= x < 2 ^ 7 -> exists b1 b2,
     Buffer.prepend_int_8 b x = Ret b1 /\ Buffer.content b1 = be_bytes 1 x ++ Buffer.content b /\
     Buffer.read_int_8 b1 = Ret (x, b2) /\ Buffer.content b2 = Buffer.content b).
Proof.
  split_and!; intros x Hx;
    rewrite ?BufferSpec.prepend_int_64_wire, ?BufferSpec.prepend_int_32_wire,
      ?BufferSpec.prepend_int_16_wire, ?BufferSpec.prepend_int_8_wire;
    match goal with |- context [Buffer.prepend b (be_bytes ?n x)] =>
         destruct (BufferSpec.prepend_spec b (be_bytes n x)) as (b1 & -> & Hwf1 & Hc1 & _ & _);
         [done | rewrite length_be_bytes; lia |];
         exists b1; destruct (read_front b1 (Buffer.content b) Hwf1) as (R8 & R4 & R2 & R1)
       end.
  - destruct (R8 x) as (b2 & ? & ? & ?); [done..|]. by exists b2.
  - destruct (R4 x) as (b2 & ? & ? & ?); [done..|]. by exists b2.
  - destruct (R2 x) as (b2 & ? & ? & ?); [done..|]. by exists b2.
  - destruct (R1 x) as (b2 & ? & ? & ?); [done..|]. by exists b2.
Qed.

Lemma buffer_integer_roundtrip_witness :
  exists b1 b2, let H := {| little_endian := true |} in let B := {| ndebug := false |} in
    Buffer.prepend_int_32 (Buffer.make 0) (-3) = Ret b1 /\
    Buffer.content b1 = [xff; xff; xff; xfd] /\
    Buffer.read_int_32 b1 = Ret (-3, b2).
Proof.
  destruct (@buffer_integer_roundtrip {| little_endian := true |} {| ndebug := false |}
              (Buffer.make 0)) as (_ & R & _).
  - apply BufferSpec.make_wf.
  - vm_compute. congruence.
  - destruct (R (-3)) as (b1 & b2 & E1 & E2 & E3 & _); [vm_compute; intuition congruence |].
    exists b1, b2. split; [exact E1 |]. split; [| exact E3].
    rewrite E2. vm_compute. reflexivity.
Defined.

(** [read_fd] with any kernel that respects [readv]'s contract appends to
    the buffer exactly the bytes the kernel delivered, in order, whether they
    fit the vector's tail or spill into the 64 KiB stack buffer, and returns
    their number; on an error it returns -1, reports [errno], and leaves the
    buffer as it was. *)
Theorem buffer_read_fd (readv : Z -> list Z -> io_result) (b : Buffer.t) (fd : Z)
    (Hkernel : BufferSpec.readv_bounded readv) (Hwf : Buffer.wf b)
    (Hroom : Buffer.storage b + Buffer.extrabuf_size <= vector_max_size) :
  match readv fd (Buffer.read_fd_vec b) with
  | IoData d => exists b', Buffer.read_fd readv b fd = Ret (zlen d, None, b') /\
      Buffer.wf b' /\ Buffer.content b' = Buffer.content b ++ d /\
      Buffer.storage b' <= Buffer.storage b + Buffer.extrabuf_size
  | IoError e => Buffer.read_fd readv b fd = Ret (-1, Some e, b)
  end.
Proof.
  destruct (readv fd (Buffer.read_fd_vec b)) as [d|e] eqn:E.
  - apply BufferSpec.read_fd_data; [done..|]. by apply (Hkernel fd).
  - unfold Buffer.read_fd. by rewrite E.
Qed.

Lemma buffer_read_fd_witness :
  exists b', Buffer.read_fd (fun _ vec => if foldr Z.add 0 vec <? 5 then IoError 11
                                          else IoData (bytes "hello")) (Buffer.make 0) 3
    = Ret (5, None, b') /\ Buffer.content b' = bytes "hello".
Proof.
  pose proof (buffer_read_fd (fun _ vec => if foldr Z.add 0 vec <? 5 then IoError 11
                                          else IoData (bytes "hello")) (Buffer.make 0) 3) as T.
  destruct T as (b' & E & _ & C & _).
  - intros fd vec d. destruct (Z.ltb_spec (foldr Z.add 0 vec) 5); [discriminate |].
    intros [= <-]. cbn. lia.
  - apply BufferSpec.make_wf.
  - vm_compute. congruence.
  - exists b'. split; [exact E | exact C].
Defined.
