(* ===== verification/Time.v ===== *)
(** Time points and durations (suduo/base/Timestamp.h), and the IEEE doubles
    the timer interfaces take their delays in.

    A [Timestamp] is a [time_point<system_clock, nanoseconds>]: a signed 64-bit
    count of nanoseconds since the epoch. A [double] is a binary64 value of the
    Standard Library's [SpecFloat], so every conversion evaluates. *)

From Stdlib Require Import SpecFloat.
From S2P Require Import Prelude.

Module Double.
Definition t : Type := spec_float.
Definition prec : Z := 53.
Definition emax : Z := 1024.

(** [static_cast<double>(z)], [x * y], [x / y], [x > 0]. *)
Definition of_Z (z : Z) : t := binary_normalize prec emax z 0 false.
Definition mul (x y : t) : t := SFmul prec emax x y.
Definition div (x y : t) : t := SFdiv prec emax x y.
Definition is_positive (x : t) : bool := SFltb (of_Z 0) x.

(** [static_cast<int64_t>(x)]: truncation toward zero, undefined out of range. *)
Definition to_int64 (x : t) : res Z :=
  match x with
  | S754_zero _ => Ret 0
  | S754_finite s m e =>
      let a := if 0 <=? e then Z.pos m * 2 ^ e else Z.pos m / 2 ^ (- e) in
      i64_checked (if s then - a else a)
  | S754_infinity _ | S754_nan => Stop UndefinedBehaviour
  end.
End Double.

Module Timestamp.

Definition MICROSECOND_TO_NANOSECOND : Z := 1000.
Definition MILLISECOND_TO_MICROSECOND : Z := 1000.
Definition SECOND_TO_MILLISECOND : Z := 1000.
Definition SECOND_TO_MICROSECOND : Z :=
  MILLISECOND_TO_MICROSECOND * SECOND_TO_MILLISECOND.
Definition SECOND_TO_NANOSECOND : Z :=
  SECOND_TO_MICROSECOND * MICROSECOND_TO_NANOSECOND.

(** The member [_time_point], nanoseconds since the epoch. *)
Definition t : Type := Z.

(** The duration types as numbers of nanoseconds per tick. *)
Definition Nanoseconds : Z := 1.
Definition Microseconds : Z := 1000.
Definition Milliseconds : Z := 1000000.
Definition Seconds : Z := 1000000000.
Definition Mintues : Z := 60 * 1000000000.
Definition Hours : Z := 3600 * 1000000000.

(** Constructing a [Timestamp] from an integral duration of a coarser unit: the
    implicit conversion multiplies, and overflow is undefined. *)
Definition of_duration (unit count : Z) : res t := i64_checked (count * unit).

Definition get_invalid : t := 0.
Definition valid (self : t) : bool := negb (self =? 0).

(** [duration_cast] to a coarser integral unit truncates toward zero. *)
Definition get_val_in_int64 (unit : Z) (self : t) : Z := Z.quot self unit.
Definition get_hours_in_int64 : t -> Z := get_val_in_int64 Hours.
Definition get_minutes_in_int64 : t -> Z := get_val_in_int64 Mintues.
Definition get_seconds_in_int64 : t -> Z := get_val_in_int64 Seconds.
Definition get_milliseconds_in_int64 : t -> Z := get_val_in_int64 Milliseconds.
Definition get_microseconds_in_int64 : t -> Z := get_val_in_int64 Microseconds.
Definition get_nanoseconds_in_int64 : t -> Z := get_val_in_int64 Nanoseconds.

Definition get_val_in_double (unit : Z) (self : t) : Double.t :=
  Double.div (Double.of_Z self) (Double.of_Z unit).
Definition get_hours_in_double : t -> Double.t := get_val_in_double Hours.
Definition get_minutes_in_double : t -> Double.t := get_val_in_double Mintues.
Definition get_seconds_in_double : t -> Double.t := get_val_in_double Seconds.
Definition get_milliseconds_in_double : t -> Double.t := get_val_in_double Milliseconds.
Definition get_microseconds_in_double : t -> Double.t := get_val_in_double Microseconds.

(** [time_t] and [timespec]. *)
Definition from_unix_time (time : Z) : res t := of_duration Seconds time.
Definition to_unix_time (time : t) : Z := Z.quot time Seconds.

Record timespec := mk_timespec { tv_sec : Z; tv_nsec : Z }.
Definition to_time_spec (time : t) : timespec :=
  mk_timespec (get_seconds_in_int64 time)
              (Z.rem (get_nanoseconds_in_int64 time) SECOND_TO_NANOSECOND).

(** The operators. [add]/[sub] take a [Nanoseconds] count, [add_us]/[sub_us] a
    [MicrosecondsDouble], [diff] two time points. *)
Definition add (lhs : t) (rhs : Z) : res t := i64_checked (lhs + rhs).
Definition sub (lhs : t) (rhs : Z) : res t := i64_checked (lhs - rhs).
Definition diff (lhs rhs : t) : res t := i64_checked (lhs - rhs).

(** [duration_cast<Nanoseconds>] of a [MicrosecondsDouble]. *)
Definition ns_of_us_double (us : Double.t) : res Z :=
  Double.to_int64 (Double.mul us (Double.of_Z 1000)).
Definition add_us (lhs : t) (rhs : Double.t) : res t :=
  ns ← ns_of_us_double rhs; add lhs ns.
Definition sub_us (lhs : t) (rhs : Double.t) : res t :=
  ns ← ns_of_us_double rhs; sub lhs ns.

(** A [SecondsDouble] converts to [MicrosecondsDouble] on its way to [+]. *)
Definition add_seconds_double (lhs : t) (s : Double.t) : res t :=
  add_us lhs (Double.mul s (Double.of_Z 1000000)).

Definition lt (lhs rhs : t) : bool := lhs <? rhs.
Definition le (lhs rhs : t) : bool := lhs <=? rhs.
Definition gt (lhs rhs : t) : bool := rhs <? lhs.
Definition ge (lhs rhs : t) : bool := rhs <=? lhs.
Definition eq (lhs rhs : t) : bool := lhs =? rhs.
Definition ne (lhs rhs : t) : bool := negb (eq lhs rhs).

Definition swap (self that : t) : t * t := (that, self).

(** [Current_thread_info::sleep_us] and [sleep_ms]: the [timespec] they give
    [nanosleep]. *)
Definition sleep_us (us : Z) : res timespec :=
  time ← of_duration Microseconds us; mret (to_time_spec time).
Definition sleep_ms (ms : Z) : res timespec :=
  us ← i64_checked (ms * MILLISECOND_TO_MICROSECOND); sleep_us us.

Definition representable (time : t) : Prop := - int64_max - 1 <= time <= int64_max.

(** The assignments [+=] and [-=], by a [Nanoseconds] or a [MicrosecondsDouble]. *)
Definition add_assign (self : t) (duration : Z) : res t := i64_checked (self + duration).
Definition sub_assign (self : t) (duration : Z) : res t := i64_checked (self - duration).
Definition add_assign_us (self : t) (duration : Double.t) : res t :=
  ns ← ns_of_us_double duration; add_assign self ns.
Definition sub_assign_us (self : t) (duration : Double.t) : res t :=
  ns ← ns_of_us_double duration; sub_assign self ns.
End Timestamp.

(** ** Time points as text

    localtime(3) is a parameter, with the year as people count it. *)
Record tm := mk_tm { tm_year : Z; tm_mon : Z; tm_mday : Z; tm_hour : Z; tm_min : Z; tm_sec : Z }.
Class Calendar := { k_localtime : Z -> tm; k_conversion : byte -> tm -> list byte }.

(** The years a count of nanoseconds can fall in, and the usual ranges. *)
Class CalendarLaws `{Calendar} : Prop := {
  k_localtime_ranges time : - 9223372037 <= time <= 9223372036 ->
    let d := k_localtime time in
    1677 <= tm_year d <= 2262 /\ 1 <= tm_mon d <= 12 /\ 1 <= tm_mday d <= 31 /\
    0 <= tm_hour d <= 23 /\ 0 <= tm_min d <= 59 /\ 0 <= tm_sec d <= 60
}.

Module TimeText.
Section calendar.
Context `{Calendar}.

Definition two (z : Z) : list byte := [digit (z / 10); digit (z mod 10)].
Definition date (d : tm) : list byte :=
  decimal (tm_year d) ++ bytes "-" ++ two (tm_mon d) ++ bytes "-" ++ two (tm_mday d).
Definition time_of_day (d : tm) : list byte :=
  two (tm_hour d) ++ bytes ":" ++ two (tm_min d) ++ bytes ":" ++ two (tm_sec d).

(** strftime(3): %F is %Y-%m-%d and %T is %H:%M:%S; the other conversions are the
    C library's. *)
Definition conversion (c : byte) (d : tm) : list byte :=
  match c with
  | x46 => date d
  | x54 => time_of_day d
  | _ => k_conversion c d
  end.
Fixpoint strftime (format : list byte) (d : tm) : list byte :=
  match format with
  | [] => []
  | x25 :: c :: format => conversion c d ++ strftime format d
  | c :: format => c :: strftime format d
  end.

(** What does not fit [str], with its NUL, leaves it unspecified. *)
Definition format_string (format : list byte) (self : Timestamp.t) : res (list byte) :=
  let text := strftime format (k_localtime (Timestamp.to_unix_time self)) in
  if zlen text <? 20 then mret (c_string text) else Stop UndefinedBehaviour.

Definition _time_format_string : list byte := bytes "%F %T".
Definition _log_time_format_string : list byte := bytes "%F-%T".
Definition to_string : Timestamp.t -> res (list byte) := format_string _time_format_string.
Definition to_log_string : Timestamp.t -> res (list byte) := format_string _log_time_format_string.
End calendar.
End TimeText.

Example half_second : Timestamp.add_seconds_double 7
    (Double.div (Double.of_Z 1) (Double.of_Z 2)) = Ret 500000007.
Proof. vm_compute. reflexivity. Qed.

Lemma i64_checked_Ret z : Timestamp.representable z -> i64_checked z = Ret z.
Proof.
  intros []. unfold i64_checked. by rewrite !(proj2 (Z.leb_le _ _)) by done.
Qed.
Lemma i64_checked_inv z r :
  i64_checked z = Ret r -> r = z /\ Timestamp.representable z.
Proof.
  unfold i64_checked, Timestamp.representable.
  destruct (_ && _) eqn:E; [| discriminate]. intros [= <-]. zbool. lia.
Qed.
#[export] Hint Resolve i64_checked_Ret : core.

(** * Properties *)

(** For a time point at or after the epoch [to_time_spec] gives a normal
    timespec (nanoseconds in [0, 10^9)) that denotes exactly that time point,
    [time_t] conversion agrees with its seconds, and the order of time points
    is the lexicographic order of the timespecs. *)
Theorem to_time_spec_exact (a b : Timestamp.t) (Ha : 0 <= a) (Hb : 0 <= b) :
  let ta := Timestamp.to_time_spec a in
  let tb := Timestamp.to_time_spec b in
  0 <= Timestamp.tv_nsec ta < Timestamp.SECOND_TO_NANOSECOND /\
  Timestamp.tv_sec ta * Timestamp.SECOND_TO_NANOSECOND + Timestamp.tv_nsec ta = a /\
  Timestamp.to_unix_time a = Timestamp.tv_sec ta /\
  (Timestamp.lt a b = true <->
     Timestamp.tv_sec ta < Timestamp.tv_sec tb \/
     Timestamp.tv_sec ta = Timestamp.tv_sec tb /\ Timestamp.tv_nsec ta < Timestamp.tv_nsec tb).
Proof.
  unfold Timestamp.to_time_spec, Timestamp.to_unix_time, Timestamp.lt,
    Timestamp.get_seconds_in_int64, Timestamp.get_nanoseconds_in_int64,
    Timestamp.get_val_in_int64, Timestamp.Seconds, Timestamp.Nanoseconds,
    Timestamp.SECOND_TO_NANOSECOND, Timestamp.SECOND_TO_MICROSECOND,
    Timestamp.MILLISECOND_TO_MICROSECOND, Timestamp.SECOND_TO_MILLISECOND,
    Timestamp.MICROSECOND_TO_NANOSECOND; cbn [Timestamp.tv_sec Timestamp.tv_nsec].
  rewrite !Z.quot_1_r. change (1000 * 1000 * 1000) with 1000000000.
  pose proof (Z.quot_rem' a 1000000000). pose proof (Z.quot_rem' b 1000000000).
  pose proof (Z.rem_bound_pos a 1000000000 Ha eq_refl).
  pose proof (Z.rem_bound_pos b 1000000000 Hb eq_refl).
  rewrite Z.ltb_lt. lia.
Qed.

Lemma to_time_spec_exact_witness :
  Timestamp.to_time_spec 1500000003 = Timestamp.mk_timespec 1 500000003 /\
  0 <= Timestamp.tv_nsec (Timestamp.to_time_spec 1500000003) < Timestamp.SECOND_TO_NANOSECOND.
Proof.
  split; [reflexivity |].
  apply (to_time_spec_exact 1500000003 2000000000); lia.
Defined.

Lemma digit_plain z c : 0 <= z < 10 -> Z_of_byte c < 48 \/ 57 < Z_of_byte c -> c <> digit z.
Proof. intros Hz Hc ->. pose proof (digit_value z Hz). lia. Qed.

Lemma two_plain z c : 0 <= z < 100 -> Z_of_byte c < 48 \/ 57 < Z_of_byte c -> c ∉ TimeText.two z.
Proof.
  intros Hz Hc. unfold TimeText.two. rewrite !not_elem_of_cons.
  pose proof (Z.mod_pos_bound z 10). assert (0 <= z / 10 < 10) by (split; [apply Z.div_pos | apply Z.div_lt_upper_bound]; lia).
  split_and!; [apply digit_plain .. | apply not_elem_of_nil]; try lia; done.
Qed.

Lemma date_time_plain (d : tm) (sep : byte) :
  1677 <= tm_year d <= 2262 -> 1 <= tm_mon d <= 12 -> 1 <= tm_mday d <= 31 ->
  0 <= tm_hour d <= 23 -> 0 <= tm_min d <= 59 -> 0 <= tm_sec d <= 60 -> sep <> x00 ->
  let text := TimeText.date d ++ [sep] ++ TimeText.time_of_day d in (length text <= 19)%nat /\ (x00 ∉ text).
Proof.
  intros Hy Hmo Hd Hh Hmi Hs Hsep text. unfold text, TimeText.date, TimeText.time_of_day. split.
  - pose proof (decimal_length (tm_year d) 3). rewrite !length_app. cbn [length TimeText.two bytes]. cbn. lia.
  - assert (H0 : forall z, 0 <= z < 100 -> x00 ∉ TimeText.two z) by (intros; apply two_plain; [lia | by left]).
    assert (x00 ∉ decimal (tm_year d)) by (apply decimal_not_in; [lia | by left]).
    rewrite !not_elem_of_app. split_and!; try (apply H0; lia); try done;
      first [by apply (bool_decide_unpack _) | by rewrite list_elem_of_singleton; auto].
Qed.

(** Every time point has a text, of at most 19 characters, which fit the array of 20;
    the two texts differ in the character between date and time only. *)
Theorem time_strings `{CalendarLaws} (self : Timestamp.t) (Hself : Timestamp.representable self) :
  let d := k_localtime (Timestamp.to_unix_time self) in
  TimeText.to_string self = Ret (TimeText.date d ++ bytes " " ++ TimeText.time_of_day d) /\
  TimeText.to_log_string self = Ret (TimeText.date d ++ bytes "-" ++ TimeText.time_of_day d) /\
  (length (TimeText.date d ++ bytes " " ++ TimeText.time_of_day d) <= 19)%nat.
Proof.
  intros d. unfold Timestamp.representable, int64_max in Hself.
  destruct (k_localtime_ranges (Timestamp.to_unix_time self)) as (Hy & Hmo & Hd & Hh & Hmi & Hs).
  { unfold Timestamp.to_unix_time, Timestamp.Seconds. Z.to_euclidean_division_equations. lia. }
  fold d in Hy, Hmo, Hd, Hh, Hmi, Hs.
  assert (Hfit : forall sep, sep <> x00 -> let text := TimeText.date d ++ [sep] ++ TimeText.time_of_day d in
    (if zlen text <? 20 then mret (c_string text) else Stop UndefinedBehaviour) = Ret text).
  { intros sep Hsep text. destruct (date_time_plain d sep) as [Hl Hn]; try done. fold text in Hl, Hn.
    rewrite (proj2 (Z.ltb_lt _ _)) by lia. by rewrite c_string_id. }
  assert (Ef : forall sep, sep <> x25 -> TimeText.strftime [x25; x46; sep; x25; x54] d
    = TimeText.date d ++ [sep] ++ TimeText.time_of_day d).
  { intros sep Hsep. cbn [TimeText.strftime TimeText.conversion]. f_equal.
    destruct sep; try done; cbn; by rewrite app_nil_r. }
  unfold TimeText.to_string, TimeText.to_log_string, TimeText.format_string. fold d.
  change TimeText._time_format_string with [x25; x46; x20; x25; x54].
  change TimeText._log_time_format_string with [x25; x46; x2d; x25; x54].
  rewrite !Ef by done. split_and!; [by apply Hfit | by apply Hfit | by apply date_time_plain].
Qed.
