(* ===== verification/RingQueue.v ===== *)
(** The queues of suduo/base: CircularBuffer.h, BoundedBlockingQueue.h and
    BlockingQueue.h.

    [Module CircularBuffer] is the fixed-size ring as the source has it: a
    vector and three [int] fields. [contents] abstracts it to the list of its
    elements, oldest first. *)

From S2P Require Import Prelude.

(** [v[i]] on a [std::vector]: undefined out of range. *)
Definition vec_get {A} (l : list A) (i : Z) : res A :=
  if 0 <=? i then match l !! Z.to_nat i with Some x => Ret x | None => Stop UndefinedBehaviour end
  else Stop UndefinedBehaviour.
Definition vec_set {A} (l : list A) (i : Z) (x : A) : res (list A) :=
  if (0 <=? i) && (i <? zlen l) then Ret (<[Z.to_nat i := x]> l)
  else Stop UndefinedBehaviour.

Module CircularBuffer.
Section elements.
Context {T : Type} (default_value : T).

Record t := mk {
  _buffer : list T;
  _begin : Z;
  _end : Z;
  _size : Z
}.

(** The constructor: [std::vector<T>(max_size)]; a negative [int] converts to a
    [size_t] larger than any vector. *)
Definition make (max_size : Z) : res t :=
  if max_size <? 0 then Stop LengthError
  else Ret (mk (replicate (Z.to_nat max_size) default_value) 0 0 0).

Definition full (b : t) : bool := u64 (_size b) =? zlen (_buffer b).
Definition empty (b : t) : bool := _size b =? 0.
Definition size (b : t) : Z := _size b.
Definition capacity (b : t) : Z := to_signed 32 (u64 (zlen (_buffer b) - u64 (_size b))).

Definition push (b : t) (val : T) : res t :=
  if full b then mret b
  else
    buf ← vec_set (_buffer b) (_end b) val;
    e ← i32_checked (_end b + 1);
    s ← i32_checked (_size b + 1);
    mret (mk buf (_begin b) (if zlen buf <=? u64 e then 0 else e) s).

Definition pop (b : t) : res (T * t) :=
  val ← vec_get (_buffer b) (_begin b);
  bg ← i32_checked (_begin b + 1);
  s ← i32_checked (_size b - 1);
  mret (val, mk (_buffer b) (if zlen (_buffer b) <=? u64 bg then 0 else bg) (_end b) s).

(** The abstraction: [k] elements from index [pos], wrapping at the end. *)
Definition ring_lookup (l : list T) (pos : nat) (i : nat) : option T :=
  l !! ((pos + i) mod length l)%nat.
Definition ring_read (l : list T) (pos k : nat) : list T :=
  omap (ring_lookup l pos) (seq 0 k).
Definition contents (b : t) : list T :=
  ring_read (_buffer b) (Z.to_nat (_begin b)) (Z.to_nat (_size b)).

Record wf (b : t) : Prop := mk_wf {
  wf_len : zlen (_buffer b) <= int32_max;
  wf_size : 0 <= _size b <= zlen (_buffer b);
  wf_begin : 0 <= _begin b /\ (_begin b < zlen (_buffer b) \/ _begin b = 0);
  wf_end : _buffer b <> [] -> _end b = (_begin b + _size b) mod zlen (_buffer b)
}.
End elements.
Arguments t : clear implicits.
End CircularBuffer.

Module RingSpec.
Import CircularBuffer.
Section elements.
Context {T : Type}.
Implicit Types (l : list T) (b : t T).

Lemma ring_read_S l pos k :
  (0 < length l)%nat ->
  exists x, l !! ((pos + k) mod length l)%nat = Some x /\
    ring_read l pos (S k) = ring_read l pos k ++ [x].
Proof.
  intros Hl.
  destruct (lookup_lt_is_Some_2 l ((pos + k) mod length l)) as [x Hx];
    [apply Nat.mod_upper_bound; lia |].
  exists x. split; [done |]. unfold ring_read.
  rewrite seq_S, omap_app. cbn. unfold ring_lookup at 2. by rewrite Hx.
Qed.

Lemma ring_read_cons l pos k :
  (0 < length l)%nat -> (pos < length l)%nat ->
  exists x, l !! pos = Some x /\
    ring_read l pos (S k) = x :: ring_read l (if decide (S pos = length l) then 0 else S pos) k.
Proof.
  intros Hl Hp. destruct (lookup_lt_is_Some_2 l pos Hp) as [x Hx].
  exists x. split; [done |]. unfold ring_read. cbn [seq omap list_omap].
  unfold ring_lookup at 1. rewrite Nat.add_0_r, Nat.mod_small, Hx by done. f_equal.
  apply list_omap_ext, Forall2_same_length_lookup.
  split; [by rewrite !length_seq |].
  intros i a a' [-> _]%lookup_seq [-> _]%lookup_seq. unfold ring_lookup. f_equal.
  case_decide as Hd.
  - replace (pos + (1 + i))%nat with (0 + i + 1 * length l)%nat by lia.
    by rewrite Nat.Div0.mod_add.
  - f_equal. lia.
Qed.

Lemma length_ring_read l pos k :
  (0 < length l)%nat -> length (ring_read l pos k) = k.
Proof.
  intros Hl. induction k as [|k IH]; [done |].
  destruct (ring_read_S l pos k Hl) as (x & _ & ->).
  rewrite length_app, IH. cbn. lia.
Qed.

(** A slot outside the occupied part may be overwritten. *)
Lemma ring_read_insert l pos k j v :
  (forall i, (i < k)%nat -> j <> ((pos + i) mod length l)%nat) ->
  ring_read (<[j:=v]> l) pos k = ring_read l pos k.
Proof.
  intros Hj. unfold ring_read. apply list_omap_ext.
  apply Forall2_same_length_lookup. split; [done |].
  intros i a ? Ha Ha'. simplify_eq. apply lookup_seq in Ha as [-> Ha]. cbn in *.
  unfold ring_lookup. rewrite length_insert.
  rewrite list_lookup_insert_ne by (apply Hj; lia). done.
Qed.

Lemma mod_wrap_nat (a n : nat) :
  (0 < n)%nat -> (a < 2 * n)%nat ->
  (a mod n)%nat = if decide (a < n)%nat then a else (a - n)%nat.
Proof.
  intros. case_decide; [by apply Nat.mod_small |].
  replace a with (a - n + 1 * n)%nat at 1 by lia.
  rewrite Nat.Div0.mod_add. apply Nat.mod_small. lia.
Qed.
Lemma mod_wrap (a n : Z) :
  0 <= a < 2 * n -> a mod n = if decide (a < n) then a else a - n.
Proof.
  intros. case_decide; [apply Z.mod_small; lia |].
  symmetry. apply (Z.mod_unique_pos _ _ 1); lia.
Qed.

(** Unpacks [wf] together with the wrapped position of [_end]. *)
Ltac open_ring H :=
  let h1 := fresh "Hlen" in let h2 := fresh "Hsize" in let h3 := fresh "Hbeg" in
  pose proof (wf_len _ H) as h1; pose proof (wf_size _ H) as h2;
  pose proof (wf_begin _ H) as h3; unfold int32_max in *.

Lemma full_spec b : wf b -> full b = (size b =? zlen (_buffer b)).
Proof. intros Hb. open_ring Hb. unfold full, size. by rewrite u64_small by lia. Qed.

Lemma contents_length b : wf b -> zlen (contents b) = size b.
Proof.
  intros Hb. open_ring Hb. unfold contents, size.
  destruct (_buffer b) as [|x l] eqn:E.
  - cbn [length] in Hsize. assert (_size b = 0) as -> by lia. done.
  - rewrite length_ring_read by (cbn; lia). lia.
Qed.

Lemma push_spec b v :
  wf b -> full b = false ->
  exists b', push b v = Ret b' /\ wf b' /\ contents b' = contents b ++ [v] /\
    length (_buffer b') = length (_buffer b).
Proof.
  intros Hb Hf. unfold push. rewrite Hf. rewrite full_spec in Hf by done.
  apply Z.eqb_neq in Hf. unfold size in Hf. open_ring Hb.
  assert (Hne : _buffer b <> []) by (intros E; rewrite E in *; cbn in *; lia).
  pose proof (wf_end _ Hb Hne) as He. rewrite mod_wrap in He by lia.
  assert (0 <= _end b < zlen (_buffer b)) as Hend by (case_decide; lia).
  unfold vec_set. rewrite (proj2 (Z.leb_le _ _)), (proj2 (Z.ltb_lt _ _)) by lia. cbn.
  rewrite !i32_checked_Ret by lia. cbn. rewrite length_insert, u64_small by lia.
  eexists; split; [reflexivity |]. cbn. split_and!; [| | by rewrite length_insert].
  - constructor; cbn; rewrite ?length_insert; unfold int32_max; try lia. intros _.
    rewrite mod_wrap by lia. zcase; case_decide; case_decide; lia.
  - unfold contents; cbn.
    replace (Z.to_nat (_size b + 1)) with (S (Z.to_nat (_size b))) by lia.
    edestruct (ring_read_S (<[Z.to_nat (_end b):=v]> (_buffer b))) as (x & Hx & ->);
      [rewrite length_insert; lia |].
    rewrite length_insert in Hx. rewrite ring_read_insert.
    2:{ intros i Hi. rewrite mod_wrap_nat by lia. repeat case_decide; lia. }
    rewrite mod_wrap_nat in Hx by lia.
    rewrite list_lookup_insert in Hx.
    rewrite decide_True in Hx by (repeat case_decide; lia). congruence.
Qed.

Lemma push_full b v : full b = true -> push b v = Ret b.
Proof. intros Hf. unfold push. by rewrite Hf. Qed.

Lemma pop_spec b x q :
  wf b -> contents b = x :: q ->
  exists b', pop b = Ret (x, b') /\ wf b' /\ contents b' = q /\
    length (_buffer b') = length (_buffer b).
Proof.
  intros Hb Hc. pose proof (contents_length b Hb) as Hl. rewrite Hc in Hl.
  cbn [length] in Hl. unfold size in Hl. open_ring Hb.
  assert (Hne : _buffer b <> []) by (intros E; rewrite E in *; cbn in *; lia).
  assert (0 <= _begin b < zlen (_buffer b)) as Hbeg' by lia.
  unfold contents in Hc.
  replace (Z.to_nat (_size b)) with (S (Z.to_nat (_size b - 1))) in Hc by lia.
  destruct (ring_read_cons (_buffer b) (Z.to_nat (_begin b)) (Z.to_nat (_size b - 1)))
    as (x' & Hx & E); [lia | lia |].
  rewrite Hc in E. injection E as <- Hq.
  unfold pop, vec_get. rewrite (proj2 (Z.leb_le _ _)) by lia. rewrite Hx. cbn.
  rewrite !i32_checked_Ret by lia. cbn. rewrite u64_small by lia.
  eexists; split; [reflexivity |]. split_and!; [| | done].
  - constructor; cbn; unfold int32_max; try lia; [zcase; lia |]. intros _.
    rewrite (wf_end _ Hb Hne), !mod_wrap by (try zcase; lia).
    zcase; repeat case_decide; lia.
  - unfold contents; cbn. rewrite Hq. f_equal.
    zcase; case_decide; (reflexivity || lia).
Qed.
End elements.

Lemma make_spec {T} (d : T) n :
  0 <= n <= int32_max ->
  exists b, make d n = Ret b /\ wf b /\ contents b = [] /\ zlen (_buffer b) = n.
Proof.
  intros Hn. unfold make. rewrite (proj2 (Z.ltb_ge _ _)) by lia.
  eexists; split; [reflexivity |]. cbn. rewrite length_replicate.
  split_and!; [| done | lia].
  constructor; cbn; rewrite ?length_replicate; unfold int32_max in *; try lia.
  intros Hne. rewrite Z.mod_0_l; [done |].
  destruct (Z.to_nat n) eqn:E; [done | lia].
Qed.
End RingSpec.

(** ** The monitors

    A thread inside [push] or [pop] holds the queue's mutex from the moment it
    acquires it (on entry, or on return from [wait]) until it waits or leaves.
    A [pass] is what one such critical section does. *)

Inductive pass (Q R : Type) :=
  | Wait
  | Leave (q : Q) (r : R).
Arguments Wait {Q R}.
Arguments Leave {Q R} q r.

(** What a blocking queue promises to the threads that share it. [bf_room] is
    the number of free slots, [None] for an unbounded queue. *)
Class BlockingFifo (T Q : Type) := {
  bf_push : Q -> T -> res (pass Q unit);
  bf_pop : Q -> res (pass Q T);
  bf_wf : Q -> Prop;
  bf_contents : Q -> list T;
  bf_room : Q -> option nat
}.

Class BlockingFifoLaws (T Q : Type) {F : BlockingFifo T Q} : Prop := {
  bf_push_wait (q : Q) (v : T) :
    bf_wf q -> bf_room q = Some 0%nat -> bf_push q v = Ret Wait;
  bf_push_leave (q : Q) (v : T) :
    bf_wf q -> bf_room q <> Some 0%nat ->
    exists q', bf_push q v = Ret (Leave q' tt) /\ bf_wf q' /\
      bf_contents q' = bf_contents q ++ [v] /\ bf_room q' = pred <$> bf_room q;
  bf_pop_wait (q : Q) :
    bf_wf q -> bf_contents q = [] -> bf_pop q = Ret Wait;
  bf_pop_leave (q : Q) (x : T) (l : list T) :
    bf_wf q -> bf_contents q = x :: l ->
    exists q', bf_pop q = Ret (Leave q' x) /\ bf_wf q' /\
      bf_contents q' = l /\ bf_room q' = S <$> bf_room q
}.

Module BoundedBlockingQueue.
Section elements.
Context {T : Type}.

(** [push]: [while (_queue.full()) _not_full.wait();] then push and notify. *)
Definition push (q : CircularBuffer.t T) (val : T)
    : res (pass (CircularBuffer.t T) unit) :=
  if CircularBuffer.full q then mret Wait
  else q' ← CircularBuffer.push q val; mret (Leave q' tt).
Definition pop (q : CircularBuffer.t T) : res (pass (CircularBuffer.t T) T) :=
  if CircularBuffer.empty q then mret Wait
  else '(val, q') ← CircularBuffer.pop q; mret (Leave q' val).

(** The accessors, one critical section each; [capacity] is the ring's, the
    number of free slots. *)
Definition empty (q : CircularBuffer.t T) : bool := CircularBuffer.empty q.
Definition full (q : CircularBuffer.t T) : bool := CircularBuffer.full q.
Definition size (q : CircularBuffer.t T) : Z := CircularBuffer.size q.
Definition capacity (q : CircularBuffer.t T) : Z := CircularBuffer.capacity q.
End elements.
End BoundedBlockingQueue.

Module BlockingQueue.
Section elements.
Context {T : Type}.

(** The [std::deque] as the list of its elements, front first. *)
Definition push (q : list T) (value : T) : res (pass (list T) unit) :=
  mret (Leave (q ++ [value]) tt).
Definition pop (q : list T) : res (pass (list T) T) :=
  match q with
  | [] => mret Wait
  | front :: q' => mret (Leave q' front)
  end.
Definition drain (q : list T) : list T * list T := (q, []).
Definition size (q : list T) : Z := zlen q.
Definition empty (q : list T) : bool := match q with [] => true | _ => false end.
Definition swap (q other : list T) : list T * list T := (other, q).
End elements.
End BlockingQueue.

Section instances.
Context {T : Type}.

#[export] Instance bounded_fifo : BlockingFifo T (CircularBuffer.t T) := {|
  bf_push := BoundedBlockingQueue.push;
  bf_pop := BoundedBlockingQueue.pop;
  bf_wf := CircularBuffer.wf;
  bf_contents := CircularBuffer.contents;
  bf_room q := Some (length (CircularBuffer._buffer q) - length (CircularBuffer.contents q))%nat
|}.

#[export] Instance bounded_fifo_laws : BlockingFifoLaws T (CircularBuffer.t T).
Proof.
  constructor; cbn; unfold BoundedBlockingQueue.push, BoundedBlockingQueue.pop.
  - intros q v Hq [= Hr]. rewrite RingSpec.full_spec by done.
    pose proof (RingSpec.contents_length q Hq). pose proof (CircularBuffer.wf_size _ Hq).
    unfold CircularBuffer.size in *. by rewrite (proj2 (Z.eqb_eq _ _)) by lia.
  - intros q v Hq Hr. destruct (CircularBuffer.full q) eqn:Hf.
    + destruct Hr. f_equal. rewrite RingSpec.full_spec in Hf by done.
      pose proof (RingSpec.contents_length q Hq). zbool. lia.
    + destruct (RingSpec.push_spec q v Hq Hf) as (q' & -> & Hq' & Hc & Hl).
      exists q'. cbn. split_and!; try done. rewrite Hc, Hl, length_app. cbn. f_equal. lia.
  - intros q Hq Hc. pose proof (RingSpec.contents_length q Hq) as Hl.
    rewrite Hc in Hl. unfold CircularBuffer.empty, CircularBuffer.size in *.
    by rewrite (proj2 (Z.eqb_eq _ _)) by (cbn in Hl; lia).
  - intros q x l Hq Hc. pose proof (RingSpec.contents_length q Hq) as Hl.
    pose proof (CircularBuffer.wf_size _ Hq).
    rewrite Hc in Hl. unfold CircularBuffer.empty, CircularBuffer.size in *. cbn in Hl.
    rewrite (proj2 (Z.eqb_neq _ _)) by lia.
    destruct (RingSpec.pop_spec q x l Hq Hc) as (q' & -> & Hq' & Hc' & Hl').
    exists q'. cbn. split_and!; try done. rewrite Hc', Hl', Hc. cbn. f_equal. lia.
Qed.

#[export] Instance unbounded_fifo : BlockingFifo T (list T) := {|
  bf_push := BlockingQueue.push;
  bf_pop := BlockingQueue.pop;
  bf_wf _ := True;
  bf_contents q := q;
  bf_room _ := None
|}.

#[export] Instance unbounded_fifo_laws : BlockingFifoLaws T (list T).
Proof. constructor; cbn; try naive_solver. Qed.
End instances.

(** ** Threads sharing a blocking queue *)

Module BlockingSystem.
Section system.
Context {T Q : Type} {F : BlockingFifo T Q}.

Inductive call :=
  | Push (v : T)
  | Pop.

(** A thread is outside the queue's methods, ready to run its next critical
    section, or blocked in [pthread_cond_wait] ([Push] on [_not_full], [Pop] on
    [_not_empty]). *)
Inductive status :=
  | Idle
  | Running (c : call)
  | Waiting (c : call).

Definition waits_push (s : status) : bool :=
  match s with Waiting (Push _) => true | _ => false end.
Definition waits_pop (s : status) : bool :=
  match s with Waiting Pop => true | _ => false end.
Definition runs_push (s : status) : bool :=
  match s with Running (Push _) => true | _ => false end.
Definition runs_pop (s : status) : bool :=
  match s with Running Pop => true | _ => false end.

(** The shared queue, the threads, and the values that went in and came out,
    in the order of the critical sections. *)
Record sys := mk_sys {
  queue : Q;
  threads : list status;
  pushed : list T;
  popped : list T
}.

(** [pthread_cond_signal]: wakes one of the threads that wait, if any does. *)
Inductive signal (waits : status -> bool) (ths : list status) : list status -> Prop :=
  | signal_none : count waits ths = 0%nat -> signal waits ths ths
  | signal_one w c : ths !! w = Some (Waiting c) -> waits (Waiting c) = true ->
      signal waits ths (<[w := Running c]> ths).

Inductive step : sys -> sys -> Prop :=
  | step_call q ths ins outs t c :
      ths !! t = Some Idle ->
      step (mk_sys q ths ins outs) (mk_sys q (<[t := Running c]> ths) ins outs)
  | step_push q ths ins outs t v q' ths' :
      ths !! t = Some (Running (Push v)) -> bf_push q v = Ret (Leave q' tt) ->
      signal waits_pop (<[t := Idle]> ths) ths' ->
      step (mk_sys q ths ins outs) (mk_sys q' ths' (ins ++ [v]) outs)
  | step_push_wait q ths ins outs t v :
      ths !! t = Some (Running (Push v)) -> bf_push q v = Ret Wait ->
      step (mk_sys q ths ins outs) (mk_sys q (<[t := Waiting (Push v)]> ths) ins outs)
  | step_pop q ths ins outs t v q' ths' :
      ths !! t = Some (Running Pop) -> bf_pop q = Ret (Leave q' v) ->
      signal waits_push (<[t := Idle]> ths) ths' ->
      step (mk_sys q ths ins outs) (mk_sys q' ths' ins (outs ++ [v]))
  | step_pop_wait q ths ins outs t :
      ths !! t = Some (Running Pop) -> bf_pop q = Ret Wait ->
      step (mk_sys q ths ins outs) (mk_sys q (<[t := Waiting Pop]> ths) ins outs)
  | step_spurious q ths ins outs t c :
      ths !! t = Some (Waiting c) ->
      step (mk_sys q ths ins outs) (mk_sys q (<[t := Running c]> ths) ins outs).

Definition init (q0 : Q) (s : sys) : Prop :=
  queue s = q0 /\ (exists n, threads s = replicate n Idle) /\ pushed s = [] /\ popped s = [].

(** FIFO without loss or duplication, and no lost wakeup: while a consumer
    waits, as many consumers are awake as there are elements; while a producer
    waits, as many producers are awake as there are free slots. *)
Record inv (s : sys) : Prop := mk_inv {
  inv_wf : bf_wf (queue s);
  inv_fifo : pushed s = popped s ++ bf_contents (queue s);
  inv_pop : (0 < count waits_pop (threads s))%nat ->
    (length (bf_contents (queue s)) <= count runs_pop (threads s))%nat;
  inv_push :
    match bf_room (queue s) with
    | Some r => (0 < count waits_push (threads s))%nat ->
        (r <= count runs_push (threads s))%nat
    | None => count waits_push (threads s) = 0%nat
    end
}.

(** Poses the effect of an update of thread [t] on the four counters. *)
Ltac count_update ths t y H :=
  pose proof (count_insert waits_push ths t _ y H);
  pose proof (count_insert waits_pop ths t _ y H);
  pose proof (count_insert runs_push ths t _ y H);
  pose proof (count_insert runs_pop ths t _ y H);
  cbn [waits_push waits_pop runs_push runs_pop] in *.

Lemma init_inv q0 s :
  bf_wf q0 -> bf_contents q0 = [] -> init q0 s -> inv s.
Proof.
  intros Hwf Hc (<- & [n Ht] & Hi & Ho). constructor; rewrite ?Ht, ?Hi, ?Ho, ?Hc.
  - done.
  - done.
  - rewrite count_replicate by done. lia.
  - rewrite count_replicate by done. destruct (bf_room _); [lia | done].
Qed.

(** The counters after [pthread_cond_signal]. *)
Lemma signal_pop_counts ths ths' :
  signal waits_pop ths ths' ->
  count waits_push ths' = count waits_push ths /\
  count runs_push ths' = count runs_push ths /\
  (count waits_pop ths = 0%nat /\ count waits_pop ths' = 0%nat \/
   S (count waits_pop ths') = count waits_pop ths /\
   count runs_pop ths' = S (count runs_pop ths)).
Proof.
  destruct 1 as [|w [v|] Hw Hc]; [lia | done |].
  count_update ths w (Running Pop) Hw. lia.
Qed.
Lemma signal_push_counts ths ths' :
  signal waits_push ths ths' ->
  count waits_pop ths' = count waits_pop ths /\
  count runs_pop ths' = count runs_pop ths /\
  (count waits_push ths = 0%nat /\ count waits_push ths' = 0%nat \/
   S (count waits_push ths') = count waits_push ths /\
   count runs_push ths' = S (count runs_push ths)).
Proof.
  destruct 1 as [|w [v|] Hw Hc]; [lia | | done].
  count_update ths w (Running (Push v)) Hw. lia.
Qed.

Context {L : BlockingFifoLaws T Q}.

Lemma push_leave_effect (q q' : Q) (v : T) :
  bf_wf q -> bf_push q v = Ret (Leave q' tt) ->
  bf_wf q' /\ bf_contents q' = bf_contents q ++ [v] /\
  bf_room q' = pred <$> bf_room q /\ bf_room q <> Some 0%nat.
Proof.
  intros Hwf Hp. destruct (decide (bf_room q = Some 0%nat)) as [E|E].
  - by rewrite (bf_push_wait q v Hwf E) in Hp.
  - destruct (bf_push_leave q v Hwf E) as (q1 & Hp' & ? & ? & ?).
    rewrite Hp in Hp'. by injection Hp' as ->.
Qed.
Lemma push_wait_effect (q : Q) (v : T) :
  bf_wf q -> bf_push q v = Ret Wait -> bf_room q = Some 0%nat.
Proof.
  intros Hwf Hp. destruct (decide (bf_room q = Some 0%nat)) as [E|E]; [done |].
  destruct (bf_push_leave q v Hwf E) as (q1 & Hp' & _). congruence.
Qed.
Lemma pop_leave_effect (q q' : Q) (v : T) :
  bf_wf q -> bf_pop q = Ret (Leave q' v) ->
  bf_wf q' /\ bf_contents q = v :: bf_contents q' /\ bf_room q' = S <$> bf_room q.
Proof.
  intros Hwf Hp. destruct (bf_contents q) as [|x l] eqn:E.
  - by rewrite (bf_pop_wait q Hwf E) in Hp.
  - destruct (bf_pop_leave q x l Hwf E) as (q1 & Hp' & ? & ? & ?).
    rewrite Hp in Hp'. injection Hp' as -> ->. split_and!; [done | congruence | done].
Qed.
Lemma pop_wait_effect (q : Q) :
  bf_wf q -> bf_pop q = Ret Wait -> bf_contents q = [].
Proof.
  intros Hwf Hp. destruct (bf_contents q) as [|x l] eqn:E; [done |].
  destruct (bf_pop_leave q x l Hwf E) as (q1 & Hp' & _). congruence.
Qed.

(** Closes an invariant goal once the counters are known. *)
Ltac solve_inv :=
  constructor; cbn [queue threads pushed popped] in *;
  [ done || congruence | done || congruence | lia
  | repeat match goal with |- context [bf_room ?q] => destruct (bf_room q) eqn:?; cbn in *; simplify_eq end;
    lia ].

Lemma step_inv s s' : inv s -> step s s' -> inv s'.
Proof.
  intros [Hwf Hfifo Hpop Hpush] Hstep.
  destruct Hstep as [q ths ins outs t c Ht|q ths ins outs t v q' ths' Ht Hp Hs
    |q ths ins outs t v Ht Hp|q ths ins outs t v q' ths' Ht Hp Hs
    |q ths ins outs t Ht Hp|q ths ins outs t c Ht]; cbn in *.
  - count_update ths t (Running c) Ht. destruct c; solve_inv.
  - apply push_leave_effect in Hp as (Hwf' & Hc & Hr & _); [| done].
    count_update ths t Idle Ht. apply signal_pop_counts in Hs.
    constructor; cbn; rewrite ?Hc, ?Hr, ?length_app; cbn [length].
    + done.
    + by rewrite Hfifo, app_assoc.
    + lia.
    + destruct (bf_room q); cbn; lia.
  - apply push_wait_effect in Hp as Hr; [| done].
    count_update ths t (Waiting (Push v)) Ht.
    constructor; cbn; try done; [lia |]. rewrite Hr. lia.
  - apply pop_leave_effect in Hp as (Hwf' & Hc & Hr); [| done].
    count_update ths t Idle Ht. apply signal_push_counts in Hs.
    rewrite Hc in *. cbn [length] in *.
    constructor; cbn; rewrite ?Hr.
    + done.
    + by rewrite Hfifo, <- app_assoc.
    + lia.
    + destruct (bf_room q); cbn; lia.
  - apply pop_wait_effect in Hp as Hc; [| done].
    count_update ths t (Waiting Pop) Ht.
    constructor; cbn; try done; rewrite ?Hc; cbn [length]; [lia |].
    destruct (bf_room q); lia.
  - count_update ths t (Running c) Ht. destruct c; solve_inv.
Qed.

(** Free slots and elements add up to the same total for ever. *)
Definition total (s : sys) : option nat :=
  (fun r => r + length (bf_contents (queue s)))%nat <$> bf_room (queue s).

Lemma step_total s s' : bf_wf (queue s) -> step s s' -> total s' = total s.
Proof.
  intros Hwf Hstep. unfold total.
  destruct Hstep as [| q ths ins outs t v q' ths' Ht Hp Hs|
    | q ths ins outs t v q' ths' Ht Hp Hs| |]; cbn in *; try done.
  - apply push_leave_effect in Hp as (_ & Hc & Hr & Hr0); [| done].
    rewrite Hc, Hr. destruct (bf_room q) as [r|]; cbn; [| done].
    f_equal. rewrite length_app. cbn. destruct r; [done | lia].
  - apply pop_leave_effect in Hp as (_ & Hc & Hr); [| done].
    rewrite Hc, Hr. destruct (bf_room q) as [r|]; cbn; [| done]. f_equal. lia.
Qed.

Lemma reachable_inv q0 s :
  bf_wf q0 -> bf_contents q0 = [] -> reachable (init q0) step s ->
  inv s /\ total s = bf_room q0.
Proof.
  intros Hwf Hc. revert s. apply reachable_invariant.
  - intros s Hs. split; [by apply (init_inv q0) |].
    destruct Hs as [Hq _]. unfold total. rewrite Hq, Hc. cbn.
    destruct (bf_room q0); cbn; [f_equal; lia | done].
  - intros s s' [Hi Ht] Hst. split; [by eapply step_inv |].
    rewrite <- Ht. apply step_total; [apply Hi | done].
Qed.

(** No critical section of a well-formed queue faults. *)
Lemma passes_return (q : Q) :
  bf_wf q -> (forall v : T, returns (bf_push q v)) /\ returns (bf_pop q).
Proof.
  intros Hwf. split.
  - intros v. destruct (decide (bf_room q = Some 0%nat)) as [E|E].
    + exists Wait. by apply bf_push_wait.
    + destruct (bf_push_leave q v Hwf E) as (q' & Hp & _). by eexists.
  - destruct (bf_contents q) as [|x l] eqn:E.
    + exists Wait. by apply bf_pop_wait.
    + destruct (bf_pop_leave q x l Hwf E) as (q' & Hp & _). by eexists.
Qed.
End system.
End BlockingSystem.

(** * Properties *)

(** The ring refines a FIFO list of bounded length: [push] appends, or drops
    its argument when the ring is full; [pop] removes the oldest element;
    [size], [full], [empty] and [capacity] (the number of free slots) report
    the list's length; no call reads or writes outside the vector, and the
    [int] indices do not overflow. *)
Theorem circular_buffer_refines_list {T : Type} (b : CircularBuffer.t T)
    (Hwf : CircularBuffer.wf b) :
  let n := zlen (CircularBuffer._buffer b) in
  let q := CircularBuffer.contents b in
  (forall v, exists b', CircularBuffer.push b v = Ret b' /\ CircularBuffer.wf b' /\
     zlen (CircularBuffer._buffer b') = n /\
     CircularBuffer.contents b' = if zlen q <? n then q ++ [v] else q) /\
  (forall x q', q = x :: q' -> exists b', CircularBuffer.pop b = Ret (x, b') /\
     CircularBuffer.wf b' /\ zlen (CircularBuffer._buffer b') = n /\
     CircularBuffer.contents b' = q') /\
  CircularBuffer.size b = zlen q /\ zlen q <= n /\
  CircularBuffer.full b = (zlen q =? n) /\ CircularBuffer.empty b = (zlen q =? 0) /\
  CircularBuffer.capacity b = n - zlen q.
Proof.
  cbn zeta. rewrite !RingSpec.contents_length by done.
  pose proof (CircularBuffer.wf_size _ Hwf). pose proof (CircularBuffer.wf_len _ Hwf).
  unfold CircularBuffer.size, int32_max in *. split_and!; try done; try lia.
  - intros v. zcase.
    + destruct (RingSpec.push_spec b v Hwf) as (b' & ? & ? & ? & ?).
      { rewrite RingSpec.full_spec by done. apply Z.eqb_neq. unfold CircularBuffer.size. lia. }
      exists b'. split_and!; done || lia.
    + exists b. split_and!; try done. apply RingSpec.push_full.
      rewrite RingSpec.full_spec by done. apply Z.eqb_eq. unfold CircularBuffer.size. lia.
  - intros x q' Hq. destruct (RingSpec.pop_spec b x q' Hwf Hq) as (b' & ? & ? & ? & ?).
    exists b'. split_and!; done || lia.
  - by apply RingSpec.full_spec.
  - unfold CircularBuffer.capacity.
    rewrite (u64_small (CircularBuffer._size b)), u64_small by lia.
    apply to_signed_small; lia.
Qed.

Lemma circular_buffer_refines_list_witness :
  let b := CircularBuffer.mk [10; 0; 8; 9]%Z 2 1 3 in
  CircularBuffer.contents b = [8; 9; 10]%Z /\
  exists b', CircularBuffer.pop b = Ret (8, b') /\ CircularBuffer.contents b' = [9; 10]%Z.
Proof.
  split; [reflexivity |].
  destruct (circular_buffer_refines_list (CircularBuffer.mk [10; 0; 8; 9]%Z 2 1 3))
    as (_ & Hpop & _).
  - constructor; cbn; unfold int32_max; try lia. reflexivity.
  - destruct (Hpop 8 [9; 10]%Z eq_refl) as (b' & E & _ & _ & C). by exists b'.
Defined.

(** C3: any number of threads calling [push] and [pop] on a
    [BoundedBlockingQueue] of size [n]: in every reachable state the values
    popped and then the queued ones are the values pushed, in order; at most
    [n] are queued; no critical section can fault; and no wakeup is lost: when
    no thread is about to run, consumers wait only on an empty queue and
    producers only on a full one. *)
Theorem bounded_queue_threads {T : Type} (d : T) (n : Z) (q0 : CircularBuffer.t T)
    (Hn : 0 <= n <= int32_max) (Hq0 : CircularBuffer.make d n = Ret q0)
    (s : BlockingSystem.sys)
    (Hs : reachable (BlockingSystem.init q0) BlockingSystem.step s) :
  BlockingSystem.pushed s
    = BlockingSystem.popped s ++ CircularBuffer.contents (BlockingSystem.queue s) /\
  zlen (CircularBuffer.contents (BlockingSystem.queue s)) <= n /\
  (forall v, returns (BoundedBlockingQueue.push (BlockingSystem.queue s) v)) /\
  returns (BoundedBlockingQueue.pop (BlockingSystem.queue s)) /\
  (count BlockingSystem.runs_pop (BlockingSystem.threads s) = 0%nat ->
   (0 < count BlockingSystem.waits_pop (BlockingSystem.threads s))%nat ->
   CircularBuffer.contents (BlockingSystem.queue s) = []) /\
  (count BlockingSystem.runs_push (BlockingSystem.threads s) = 0%nat ->
   (0 < count BlockingSystem.waits_push (BlockingSystem.threads s))%nat ->
   zlen (CircularBuffer.contents (BlockingSystem.queue s)) = n).
Proof.
  destruct (RingSpec.make_spec d n Hn) as (q & E & Hwf & Hc & Hl).
  rewrite Hq0 in E. injection E as ->.
  destruct (BlockingSystem.reachable_inv (F:=bounded_fifo) q s Hwf Hc Hs) as [[Hw Hf Hpop Hpush] Ht].
  unfold BlockingSystem.total in Ht. cbn in *. rewrite Hc in Ht. injection Ht as Ht.
  cbn [length] in Ht.
  pose proof (RingSpec.contents_length _ Hw). pose proof (CircularBuffer.wf_size _ Hw).
  unfold CircularBuffer.size in *.
  destruct (BlockingSystem.passes_return (F:=bounded_fifo) _ Hw) as [? ?].
  split_and!; try done; [lia | |].
  - intros Hr0 Hw1. apply Hpop in Hw1. rewrite Hr0 in Hw1.
    apply nil_length_inv. lia.
  - intros Hr0 Hw1. apply Hpush in Hw1. lia.
Qed.

Lemma bounded_queue_threads_witness :
  let q0 := CircularBuffer.mk [0; 0]%Z 0 0 0 in
  let s := BlockingSystem.mk_sys q0 [BlockingSystem.Waiting BlockingSystem.Pop] [] [] in
  BlockingSystem.pushed s = BlockingSystem.popped s ++ CircularBuffer.contents q0.
Proof.
  refine (proj1 (bounded_queue_threads 0 2 (CircularBuffer.mk [0; 0]%Z 0 0 0)
    ltac:(unfold int32_max; lia) eq_refl
    (BlockingSystem.mk_sys (CircularBuffer.mk [0; 0]%Z 0 0 0)
       [BlockingSystem.Waiting BlockingSystem.Pop] [] []) _)).
  apply (reach_step _ _ (BlockingSystem.mk_sys (CircularBuffer.mk [0; 0]%Z 0 0 0)
    [BlockingSystem.Running BlockingSystem.Pop] [] [])).
  - eapply reach_step.
    + apply (reach_init _ _ (BlockingSystem.mk_sys (CircularBuffer.mk [0; 0]%Z 0 0 0)
        [BlockingSystem.Idle] [] [])). split_and!; try reflexivity. by exists 1%nat.
    + apply (BlockingSystem.step_call _ [BlockingSystem.Idle] _ _ 0 BlockingSystem.Pop).
      reflexivity.
  - apply (BlockingSystem.step_pop_wait _ [BlockingSystem.Running BlockingSystem.Pop] _ _ 0);
      reflexivity.
Defined.

(** The same for the unbounded [BlockingQueue]: threads get the values in
    the order they were pushed, none lost or duplicated, [push] never waits,
    and no consumer sleeps beside a value nobody is awake to take. *)
Theorem blocking_queue_threads {T : Type} (s : BlockingSystem.sys (T:=T) (Q:=list T))
    (Hs : reachable (BlockingSystem.init []) BlockingSystem.step s) :
  BlockingSystem.pushed s = BlockingSystem.popped s ++ BlockingSystem.queue s /\
  count BlockingSystem.waits_push (BlockingSystem.threads s) = 0%nat /\
  (forall v, exists q, BlockingQueue.push (BlockingSystem.queue s) v = Ret (Leave q tt)) /\
  (count BlockingSystem.runs_pop (BlockingSystem.threads s) = 0%nat ->
   (0 < count BlockingSystem.waits_pop (BlockingSystem.threads s))%nat ->
   BlockingQueue.empty (BlockingSystem.queue s) = true).
Proof.
  destruct (BlockingSystem.reachable_inv (F:=unbounded_fifo) [] s I eq_refl Hs) as [[_ Hf Hpop Hpush] _].
  cbn in *. split_and!; [done | done | eauto |].
  intros Hr0 Hw1. apply Hpop in Hw1. rewrite Hr0 in Hw1.
  destruct (BlockingSystem.queue s); [done | cbn in Hw1; lia].
Qed.

Lemma blocking_queue_threads_witness :
  let s := BlockingSystem.mk_sys (T:=Z) [7] [BlockingSystem.Idle] [7] [] in
  BlockingSystem.pushed s = BlockingSystem.popped s ++ BlockingSystem.queue s.
Proof.
  refine (proj1 (blocking_queue_threads
    (BlockingSystem.mk_sys [7] [BlockingSystem.Idle] [7] []) _)).
  apply (reach_step _ _ (BlockingSystem.mk_sys []
    [BlockingSystem.Running (BlockingSystem.Push 7)] [] [])).
  - eapply reach_step.
    + apply (reach_init _ _ (BlockingSystem.mk_sys [] [BlockingSystem.Idle] [] [])).
      split_and!; try reflexivity. by exists 1%nat.
    + apply (BlockingSystem.step_call _ [BlockingSystem.Idle] _ _ 0 (BlockingSystem.Push 7)).
      reflexivity.
  - apply (BlockingSystem.step_push [] [BlockingSystem.Running (BlockingSystem.Push 7)]
      [] [] 0 7 [7] [BlockingSystem.Idle]); try reflexivity.
    apply BlockingSystem.signal_none. reflexivity.
Defined.
