(* ===== verification/OrderedMap.v ===== *)
(** [std::map] and [std::set] as the source uses them: ordered association
    lists, so that iteration order, [begin()] and [lower_bound] are those of the
    C++ container. *)

From stdpp Require Import sorting.
From S2P Require Import Prelude.

(** A key type with [std::less]. *)
Class OrderedKey (K : Type) := {
  key_eq_dec :: EqDecision K;
  key_lt : K -> K -> Prop;
  key_lt_dec :: RelDecision key_lt;
  key_lt_irrefl (a : K) : ~ key_lt a a;
  key_lt_trans (a b c : K) : key_lt a b -> key_lt b c -> key_lt a c;
  key_lt_total (a b : K) : key_lt a b \/ a = b \/ key_lt b a
}.

#[export] Instance key_lt_Transitive {K} `{OrderedKey K} : Transitive key_lt.
Proof. intros a b c. apply key_lt_trans. Qed.

Module StdMap.
Section operations.
Context {K V : Type} `{OrderedKey K}.
Implicit Types (m : list (K * V)) (k : K) (v : V).

Fixpoint find k m : option V :=
  match m with
  | [] => None
  | (k', v) :: m' => if decide (k' = k) then Some v else find k m'
  end.

(** [m[k] = v]. *)
Fixpoint assign k v m : list (K * V) :=
  match m with
  | [] => [(k, v)]
  | (k', v') :: m' =>
      if decide (key_lt k k') then (k, v) :: m
      else if decide (k' = k) then (k, v) :: m'
      else (k', v') :: assign k v m'
  end.

(** [m.insert({k, v})]: no effect when the key is present; the flag says
    whether the insertion took place. *)
Definition insert k v m : list (K * V) * bool :=
  match find k m with
  | Some _ => (m, false)
  | None => (assign k v m, true)
  end.

(** [m.erase(k)], and the number of elements it removed. *)
Fixpoint erase k m : list (K * V) :=
  match m with
  | [] => []
  | (k', v') :: m' => if decide (k' = k) then m' else (k', v') :: erase k m'
  end.
Definition erase_count k m : Z := match find k m with Some _ => 1 | None => 0 end.

(** Iterators as keys, [None] for [end()]: [begin()], [++it],
    [lower_bound(k)], and [erase(begin(), it)]. *)
Definition begin_ m : option K := fst <$> head m.
Fixpoint next k m : option K :=
  match m with
  | [] => None
  | (k', _) :: m' => if decide (key_lt k k') then Some k' else next k m'
  end.
Fixpoint lower_bound k m : option K :=
  match m with
  | [] => None
  | (k', _) :: m' => if decide (key_lt k' k) then lower_bound k m' else Some k'
  end.
Fixpoint erase_before (it : option K) m : list (K * V) :=
  match m with
  | [] => []
  | (k', v') :: m' => if decide (it = Some k') then m else erase_before it m'
  end.

(** Sorted by strictly increasing key. *)
Definition sorted m : Prop := StronglySorted key_lt m.*1.
End operations.
End StdMap.

Section facts.
Context {K V : Type} `{OrderedKey K}.
Implicit Types (m : list (K * V)) (k : K) (v : V).
Import StdMap.

Lemma find_elem k v m : find k m = Some v -> (k, v) ∈ m.
Proof.
  induction m as [|[k' v'] m IH]; cbn; [done |].
  case_decide as Hk; intros Hf; simplify_eq; [left | right; auto].
Qed.

Lemma find_None k m : find k m = None <-> k ∉ m.*1.
Proof.
  induction m as [|[k' v'] m IH]; cbn.
  { split; [intros _; apply not_elem_of_nil | done]. }
  rewrite not_elem_of_cons. case_decide; naive_solver.
Qed.

Lemma sorted_cons k v m :
  sorted ((k, v) :: m) <-> sorted m /\ forall k', k' ∈ m.*1 -> key_lt k k'.
Proof.
  unfold sorted. cbn. rewrite StronglySorted_cons, Forall_forall. naive_solver.
Qed.

Lemma sorted_find k v m : sorted m -> (k, v) ∈ m -> find k m = Some v.
Proof.
  induction m as [|[k' v'] m IH]; [intros _ []%not_elem_of_nil |].
  rewrite sorted_cons. intros [Hs Hk] [E|Hin]%elem_of_cons; cbn.
  - simplify_eq. by rewrite decide_True by done.
  - rewrite decide_False; [auto |]. intros ->.
    apply (key_lt_irrefl k), Hk, list_elem_of_fmap. by exists (k, v).
Qed.

Lemma elem_of_assign k v m k' :
  k' ∈ (assign k v m).*1 <-> k' = k \/ k' ∈ m.*1.
Proof.
  induction m as [|[k1 v1] m IH]; cbn.
  { rewrite list_elem_of_singleton, elem_of_nil. naive_solver. }
  repeat case_decide; cbn; rewrite ?elem_of_cons, ?IH; naive_solver.
Qed.

Lemma sorted_assign k v m : sorted m -> sorted (assign k v m).
Proof.
  induction m as [|[k1 v1] m IH]; intros Hs; cbn.
  { by apply SSorted_cons; [apply SSorted_nil | apply Forall_nil]. }
  apply sorted_cons in Hs as Hs'. destruct Hs' as [Hs' Hk].
  case_decide as Hlt; [| case_decide as Heq].
  - apply sorted_cons. split; [done |]. cbn.
    intros k' [->|Hk']%elem_of_cons; [done |]. etrans; eauto.
  - subst. apply sorted_cons. auto.
  - apply sorted_cons. split; [auto |].
    intros k' [->|Hk']%elem_of_assign; [| auto].
    destruct (key_lt_total k1 k) as [|[|]]; done.
Qed.

Lemma find_assign_eq k v m : find k (assign k v m) = Some v.
Proof.
  induction m as [|[k1 v1] m IH]; cbn; [by rewrite decide_True by done |].
  case_decide; cbn; [by rewrite decide_True by done |].
  case_decide; cbn; [by rewrite decide_True by done |].
  by rewrite decide_False by done.
Qed.

Lemma find_assign_ne k k' v m : k <> k' -> find k' (assign k v m) = find k' m.
Proof.
  intros Hne. induction m as [|[k1 v1] m IH]; cbn; [by rewrite decide_False by done |].
  case_decide; cbn; [by rewrite decide_False by done |].
  case_decide; cbn; [subst; by rewrite !decide_False by done |].
  by rewrite IH.
Qed.

Lemma elem_of_erase k m k' : sorted m -> k' ∈ (erase k m).*1 <-> k' <> k /\ k' ∈ m.*1.
Proof.
  induction m as [|[k1 v1] m IH]; cbn; [rewrite elem_of_nil; naive_solver |].
  rewrite sorted_cons. intros [Hs Hk]. case_decide; cbn.
  - subst. rewrite elem_of_cons. split; [| naive_solver].
    intros Hin. split; [| auto]. intros ->. by apply (key_lt_irrefl k), Hk.
  - rewrite !elem_of_cons, IH by done. naive_solver.
Qed.

Lemma sorted_erase k m : sorted m -> sorted (erase k m).
Proof.
  induction m as [|[k1 v1] m IH]; cbn; [done |].
  intros Hs. apply sorted_cons in Hs as Hs'. destruct Hs' as [Hs' Hk].
  case_decide; [done |]. apply sorted_cons. split; [auto |].
  intros k' Hk'. apply elem_of_erase in Hk' as [_ ?]; auto.
Qed.

Lemma find_erase_eq k m : sorted m -> find k (erase k m) = None.
Proof. intros Hs. apply find_None. rewrite elem_of_erase by done. naive_solver. Qed.

Lemma find_erase_ne k k' m : k <> k' -> find k' (erase k m) = find k' m.
Proof.
  intros Hne. induction m as [|[k1 v1] m IH]; cbn; [done |].
  case_decide; cbn; [subst; by rewrite decide_False by done |].
  by rewrite IH.
Qed.

Lemma length_assign_new k v m : k ∉ m.*1 -> length (assign k v m) = S (length m).
Proof.
  induction m as [|[k1 v1] m IH]; cbn; [done |].
  rewrite not_elem_of_cons. intros [Hne Hn].
  case_decide; [done |]. case_decide; [naive_solver |]. cbn. by rewrite IH.
Qed.

Lemma length_erase k m v : find k m = Some v -> S (length (erase k m)) = length m.
Proof.
  induction m as [|[k1 v1] m IH]; cbn; [done |].
  case_decide; [done |]. cbn. intros Hf. by rewrite IH.
Qed.

Lemma sorted_app m1 m2 :
  sorted (m1 ++ m2) <->
  sorted m1 /\ sorted m2 /\ forall k1 k2, k1 ∈ m1.*1 -> k2 ∈ m2.*1 -> key_lt k1 k2.
Proof.
  unfold sorted. rewrite fmap_app. induction m1 as [|[k v] m1 IH]; cbn.
  - split; [intros ?; split_and!; [constructor | done | by intros ?? []%elem_of_nil] | naive_solver].
  - rewrite !StronglySorted_cons, Forall_app, IH, !Forall_forall. split.
    + intros [[H1 H2] (H3 & H4 & H5)]. split_and!; [done | done | done |].
      intros k1 k2 [->|]%elem_of_cons Hk2; auto.
    + intros ([H1 H2] & H3 & H4). split_and!; [done | | done | done |].
      * intros k2 Hk2. apply H4; [by left | done].
      * intros k1 k2 Hk1 Hk2. apply H4; [by right | done].
Qed.

Lemma find_app k m1 m2 : k ∉ m1.*1 -> find k (m1 ++ m2) = find k m2.
Proof.
  induction m1 as [|[k' v'] m1 IH]; cbn; [done |].
  rewrite not_elem_of_cons. intros [Hne Hn]. by rewrite decide_False by done; apply IH.
Qed.

Lemma assign_app k v m1 m2 :
  (forall k', k' ∈ m1.*1 -> key_lt k' k) -> assign k v (m1 ++ m2) = m1 ++ assign k v m2.
Proof.
  induction m1 as [|[k' v'] m1 IH]; cbn; [done |]. intros Hk.
  assert (key_lt k' k) as Hlt by (apply Hk; by left).
  rewrite decide_False by (intros ?; by apply (key_lt_irrefl k); etrans).
  rewrite decide_False by (intros ->; by apply (key_lt_irrefl k)).
  f_equal. apply IH. intros. apply Hk. by right.
Qed.

Lemma assign_head k v v' m : assign k v ((k, v') :: m) = (k, v) :: m.
Proof.
  cbn. rewrite decide_False by apply key_lt_irrefl. by rewrite decide_True by done.
Qed.

Lemma next_app k v m1 m2 :
  sorted (m1 ++ (k, v) :: m2) -> next k (m1 ++ (k, v) :: m2) = begin_ m2.
Proof.
  intros (H1 & [H2 Hk2]%sorted_cons & H12)%sorted_app.
  induction m1 as [|[k' v'] m1 IH]; cbn.
  - rewrite decide_False by apply key_lt_irrefl.
    destruct m2 as [|[k2 v2] m2]; [done |]. cbn. rewrite decide_True; [done |]. apply Hk2. by left.
  - assert (key_lt k' k) by (apply H12; by left).
    rewrite decide_False by (intros ?; by apply (key_lt_irrefl k); etrans).
    apply sorted_cons in H1 as [? _]. apply IH; [done |].
    intros. apply H12; [by right | done].
Qed.

(** [lower_bound] cuts the map in two. *)
Lemma lower_bound_split k m :
  sorted m -> exists m1 m2, m = m1 ++ m2 /\ lower_bound k m = begin_ m2 /\
    (forall k', k' ∈ m1.*1 -> key_lt k' k) /\ (forall k', k' ∈ m2.*1 -> ~ key_lt k' k).
Proof.
  induction m as [|[k' v'] m IH]; intros Hs.
  { exists [], []. cbn. split_and!; try done; by intros ? []%elem_of_nil. }
  apply sorted_cons in Hs as [Hs Hk]. cbn [lower_bound]. case_decide as Hlt.
  - destruct (IH Hs) as (m1 & m2 & -> & -> & H1 & H2).
    exists ((k', v') :: m1), m2. split_and!; [done | done | | done].
    intros k1 [->|]%elem_of_cons; [done | auto].
  - exists [], ((k', v') :: m). split_and!; [done | done | by intros ? []%elem_of_nil |].
    intros k1 [->|Hin]%elem_of_cons; [done |]. intros ?. apply Hlt. etrans; [by apply Hk | done].
Qed.

Lemma erase_before_app m1 m2 :
  sorted (m1 ++ m2) -> erase_before (begin_ m2) (m1 ++ m2) = m2.
Proof.
  induction m1 as [|[k' v'] m1 IH]; intros Hs; cbn.
  - destruct m2 as [|[k v] m2]; [done |]. cbn. by rewrite decide_True.
  - apply sorted_app in Hs as (Hs & Hs2 & H12). rewrite decide_False.
    + apply IH. apply sorted_app. apply sorted_cons in Hs as [? _]. split_and!; [done..|].
      intros. apply H12; [by right | done].
    + destruct m2 as [|[k v] m2]; [done |]. cbn. intros [= ->].
      apply (key_lt_irrefl k'), H12; by left.
Qed.

Lemma begin_app_ne m1 m2 :
  sorted (m1 ++ m2) -> m1 <> [] -> begin_ (m1 ++ m2) <> begin_ m2.
Proof.
  destruct m1 as [|[k v] m1]; [done |]. intros (_ & _ & H12)%sorted_app _. cbn.
  destruct m2 as [|[k2 v2] m2]; [done |]. cbn. intros [= ->].
  apply (key_lt_irrefl k2), H12; by left.
Qed.
End facts.

(** ** The key types: integers, pairs, and strings *)

#[export] Program Instance Z_key : OrderedKey Z := {| key_lt := Z.lt |}.
Next Obligation. intros a. lia. Qed.
Next Obligation. intros a b c. lia. Qed.
Next Obligation. intros a b. cbn. lia. Qed.

(** [std::pair]'s lexicographic order. *)
#[export] Program Instance pair_key : OrderedKey (Z * Z) := {|
  key_lt a b := a.1 < b.1 \/ a.1 = b.1 /\ a.2 < b.2
|}.
Next Obligation. intros [a1 a2] [b1 b2]. cbn. apply _. Defined.
Next Obligation. intros [a1 a2]. cbn. lia. Qed.
Next Obligation. intros [] [] []. cbn. lia. Qed.
Next Obligation.
  intros [a1 a2] [b1 b2]. cbn.
  destruct (Z.lt_trichotomy a1 b1) as [|[->|]]; [lia | | lia].
  destruct (Z.lt_trichotomy a2 b2) as [|[->|]]; auto; lia.
Qed.

(** [std::string]'s order: [char_traits<char>] compares unsigned bytes. *)
Fixpoint bytes_lt (a b : list byte) : Prop :=
  match a, b with
  | [], [] => False
  | [], _ :: _ => True
  | _ :: _, [] => False
  | x :: a', y :: b' =>
      Z_of_byte x < Z_of_byte y \/ x = y /\ bytes_lt a' b'
  end.

Fixpoint bytes_lt_dec (a b : list byte) : Decision (bytes_lt a b).
Proof. destruct a, b; cbn; apply _. Defined.

Lemma Z_of_byte_inj x y : Z_of_byte x = Z_of_byte y -> x = y.
Proof. intros E. by rewrite <- (byte_of_Z_of_byte x), E, byte_of_Z_of_byte. Qed.

#[export] Program Instance string_key : OrderedKey (list byte) := {|
  key_lt := bytes_lt; key_lt_dec := bytes_lt_dec
|}.
Next Obligation. intros a. induction a; cbn; [auto |]. lia || (intros [|[_ ?]]; [lia | auto]). Qed.
Next Obligation.
  intros a. induction a as [|x a IH]; intros [|y b] [|z c]; cbn; try done.
  intros [|[-> ?]] [|[-> ?]]; try (left; lia). right. split; [done |]. eauto.
Qed.
Next Obligation.
  intros a. induction a as [|x a IH]; intros [|y b]; cbn; auto.
  destruct (Z.lt_trichotomy (Z_of_byte x) (Z_of_byte y)) as [|[E|]]; [auto | | auto].
  apply Z_of_byte_inj in E as ->. destruct (IH b) as [|[->|]]; auto.
Qed.
