(* ===== verification/Http.v ===== *)
(** The HTTP server (suduo/bench/http): HttpRequest.h, HttpContext.h/.cpp,
    HttpResponse.h/.cpp and HttpServer.cpp.

    The parser works on [Buffer]; [Module HttpSpec] relates it to a loop over
    plain byte lists, on which chunking and parse/print are proved. What the
    server does to its connection is a list of [action]s. *)

From S2P Require Import Prelude.
From S2P Require Import Endianness.
From S2P Require Import ByteBuffer.
From S2P Require Import Time.
From S2P Require Import OrderedMap.

(** [std::find(start, last, c)] on offsets into one line. *)
Definition find_ptr (l : list byte) (start last : Z) (c : byte) : Z :=
  match std_find c (slice start last l) with
  | Some k => start + Z.of_nat k
  | None => last
  end.

(** [isspace] in the C locale. *)
Definition isspace (c : byte) : bool :=
  bool_decide (c = x20 \/ (9 <= Z_of_byte c <= 13)).

Fixpoint skip_space (l : list byte) : list byte :=
  match l with
  | [] => []
  | c :: l' => if isspace c then skip_space l' else l
  end.
Definition strip_back (l : list byte) : list byte := rev (skip_space (rev l)).

Module HttpRequest.

Inductive Method := kInvalid | kGet | kPost | kHead | kPut | kDelete.
Inductive Version := kUnknown | kHttp10 | kHttp11.

#[global] Instance Method_eq_dec : EqDecision Method.
Proof. solve_decision. Defined.
#[global] Instance Version_eq_dec : EqDecision Version.
Proof. solve_decision. Defined.

Record t := mk {
  method_ : Method;
  version_ : Version;
  path_ : list byte;
  query_ : list byte;
  receiveTime_ : Timestamp.t;
  headers_ : list (list byte * list byte)
}.

Definition make : t := mk kInvalid kUnknown [] [] 0 [].

Definition setVersion (r : t) (v : Version) : t :=
  mk (method_ r) v (path_ r) (query_ r) (receiveTime_ r) (headers_ r).

Definition method_of_string (m : list byte) : Method :=
  if bool_decide (m = bytes "GET") then kGet
  else if bool_decide (m = bytes "POST") then kPost
  else if bool_decide (m = bytes "HEAD") then kHead
  else if bool_decide (m = bytes "PUT") then kPut
  else if bool_decide (m = bytes "DELETE") then kDelete
  else kInvalid.

Definition setMethod {B : Build} (r : t) (m : list byte) : res (bool * t) :=
  _ ← assert_ (bool_decide (method_ r = kInvalid));
  let method := method_of_string m in
  mret (bool_decide (method <> kInvalid),
        mk method (version_ r) (path_ r) (query_ r) (receiveTime_ r) (headers_ r)).

Definition methodString (r : t) : list byte :=
  match method_ r with
  | kGet => bytes "GET"
  | kPost => bytes "POST"
  | kHead => bytes "HEAD"
  | kPut => bytes "PUT"
  | kDelete => bytes "DELETE"
  | kInvalid => bytes "UNKNOWN"
  end.

Definition setPath (r : t) (p : list byte) : t :=
  mk (method_ r) (version_ r) p (query_ r) (receiveTime_ r) (headers_ r).
Definition setQuery (r : t) (q : list byte) : t :=
  mk (method_ r) (version_ r) (path_ r) q (receiveTime_ r) (headers_ r).
Definition setReceiveTime (r : t) (time : Timestamp.t) : t :=
  mk (method_ r) (version_ r) (path_ r) (query_ r) time (headers_ r).

(** [addHeader(start, colon, end)]: [line] is [start, end), [colon] an offset. *)
Definition addHeader (r : t) (line : list byte) (colon : Z) : t :=
  let field := slice 0 colon line in
  let value := strip_back (skip_space (slice (colon + 1) (zlen line) line)) in
  mk (method_ r) (version_ r) (path_ r) (query_ r) (receiveTime_ r)
     (StdMap.assign field value (headers_ r)).

Definition getHeader (r : t) (field : list byte) : list byte :=
  default [] (StdMap.find field (headers_ r)).
Definition swap (r that : t) : t * t := (that, r).
End HttpRequest.

Module HttpContext.

Inductive HttpRequestParseState :=
  | kExpectRequestLine
  | kExpectHeaders
  | kExpectBody
  | kGotAll.

#[global] Instance state_eq_dec : EqDecision HttpRequestParseState.
Proof. solve_decision. Defined.

Record t := mk {
  state_ : HttpRequestParseState;
  request_ : HttpRequest.t
}.

Definition make : t := mk kExpectRequestLine HttpRequest.make.
Definition gotAll (c : t) : bool := bool_decide (state_ c = kGotAll).
Definition reset (c : t) : t :=
  mk kExpectRequestLine (HttpRequest.swap (request_ c) HttpRequest.make).1.

(** [processRequestLine(begin, end)] on the bytes of the line; the request is
    updated as far as parsing got, also when it fails. *)
Definition processRequestLine {B : Build} (req : HttpRequest.t) (line : list byte)
    : res (bool * HttpRequest.t) :=
  let end_ := zlen line in
  let space := find_ptr line 0 end_ x20 in
  if space =? end_ then mret (false, req) else
  '(known, req) ← HttpRequest.setMethod req (slice 0 space line);
  if negb known then mret (false, req) else
  let start := space + 1 in
  let space := find_ptr line start end_ x20 in
  if space =? end_ then mret (false, req) else
  let question := find_ptr line start space x3f in
  let req :=
    if negb (question =? space) then
      HttpRequest.setQuery (HttpRequest.setPath req (slice start question line))
        (slice question space line)
    else HttpRequest.setPath req (slice start space line) in
  let start := space + 1 in
  if (end_ - start =? 8) && bool_decide (slice start (end_ - 1) line = bytes "HTTP/1.") then
    if bool_decide (slice (end_ - 1) end_ line = bytes "1") then
      mret (true, HttpRequest.setVersion req HttpRequest.kHttp11)
    else if bool_decide (slice (end_ - 1) end_ line = bytes "0") then
      mret (true, HttpRequest.setVersion req HttpRequest.kHttp10)
    else mret (false, req)
  else mret (false, req).

(** One iteration of [parseRequest]'s loop: [hasMore], [ok] and the objects. *)
Definition parse_step {B : Build} (receiveTime : Timestamp.t) (ok : bool) (c : t)
    (buf : Buffer.t) : res (bool * bool * t * Buffer.t) :=
  match state_ c with
  | kExpectRequestLine =>
      crlf ← Buffer.find_CRLF buf;
      match crlf with
      | Some crlf =>
          line ← Buffer.mem buf (Buffer.peek buf) crlf;
          '(ok, req) ← processRequestLine (request_ c) line;
          if (ok : bool) then
            mret (true, true,
                  mk kExpectHeaders (HttpRequest.setReceiveTime req receiveTime),
                  Buffer.retrieve_until buf (crlf + 2))
          else mret (false, false, mk (state_ c) req, buf)
      | None => mret (false, ok, c, buf)
      end
  | kExpectHeaders =>
      crlf ← Buffer.find_CRLF buf;
      match crlf with
      | Some crlf =>
          line ← Buffer.mem buf (Buffer.peek buf) crlf;
          let colon := find_ptr line 0 (zlen line) x3a in
          let buf' := Buffer.retrieve_until buf (crlf + 2) in
          if negb (colon =? zlen line) then
            mret (true, ok, mk (state_ c) (HttpRequest.addHeader (request_ c) line colon), buf')
          else mret (false, ok, mk kGotAll (request_ c), buf')
      | None => mret (false, ok, c, buf)
      end
  | kExpectBody | kGotAll => mret (true, ok, c, buf)
  end.

(** [while (hasMore)], with fuel. *)
Fixpoint parse_loop {B : Build} (fuel : nat) (receiveTime : Timestamp.t) (ok : bool) (c : t)
    (buf : Buffer.t) : res (bool * t * Buffer.t) :=
  match fuel with
  | O => Stop FuelExhausted
  | S fuel' =>
      '(hasMore, ok, c, buf) ← parse_step receiveTime ok c buf;
      if (hasMore : bool) then parse_loop fuel' receiveTime ok c buf else mret (ok, c, buf)
  end.

(** Every iteration but the last consumes at least the two bytes of a CRLF, so
    one more than the readable bytes is fuel enough. *)
Definition parseRequest {B : Build} (c : t) (buf : Buffer.t) (receiveTime : Timestamp.t)
    : res (bool * t * Buffer.t) :=
  parse_loop (S (length (Buffer.content buf))) receiveTime true c buf.
End HttpContext.

(** ** The parser on plain byte lists *)

Module HttpSpec.
Import HttpContext.

Definition split_line (bs : list byte) : option (list byte * list byte) :=
  (fun k => (take k bs, drop (k + 2) bs)) <$> std_search Buffer.CRLF bs.

Definition step {B : Build} (time : Timestamp.t) (ok : bool) (c : t) (bs : list byte)
    : res (bool * bool * t * list byte) :=
  match state_ c with
  | kExpectRequestLine =>
      match split_line bs with
      | Some (line, rest) =>
          '(ok, req) ← processRequestLine (request_ c) line;
          if (ok : bool) then
            mret (true, true, mk kExpectHeaders (HttpRequest.setReceiveTime req time), rest)
          else mret (false, false, mk (state_ c) req, bs)
      | None => mret (false, ok, c, bs)
      end
  | kExpectHeaders =>
      match split_line bs with
      | Some (line, rest) =>
          let colon := find_ptr line 0 (zlen line) x3a in
          if negb (colon =? zlen line) then
            mret (true, ok, mk (state_ c) (HttpRequest.addHeader (request_ c) line colon), rest)
          else mret (false, ok, mk kGotAll (request_ c), rest)
      | None => mret (false, ok, c, bs)
      end
  | kExpectBody | kGotAll => mret (true, ok, c, bs)
  end.

Fixpoint loop {B : Build} (fuel : nat) (time : Timestamp.t) (ok : bool) (c : t)
    (bs : list byte) : res (bool * t * list byte) :=
  match fuel with
  | O => Stop FuelExhausted
  | S fuel' =>
      '(hasMore, ok, c, bs) ← step time ok c bs;
      if (hasMore : bool) then loop fuel' time ok c bs else mret (ok, c, bs)
  end.
Definition parse {B : Build} (c : t) (bs : list byte) (time : Timestamp.t)
    : res (bool * t * list byte) := loop (S (length bs)) time true c bs.

(** The states [parseRequest] may be called in; in a debug build [setMethod]
    also asserts that no method was set before. *)
Definition ready {B : Build} (c : t) : Prop :=
  (state_ c = kExpectRequestLine /\
   (ndebug = true \/ HttpRequest.method_ (request_ c) = HttpRequest.kInvalid))
  \/ state_ c = kExpectHeaders.

Lemma make_ready {B : Build} : ready make.
Proof. left. auto. Qed.

Lemma CRLF_found bs k :
  std_search Buffer.CRLF bs = Some k -> (k + 2 <= length bs)%nat.
Proof.
  intros (_ & Hm & _)%std_search_Some. unfold matches_at in Hm.
  apply (f_equal length) in Hm. rewrite length_take, length_drop in Hm. change (length Buffer.CRLF) with 2%nat in Hm. lia.
Qed.

Lemma matches_at_app (pat a b : list byte) k :
  (k + length pat <= length a)%nat -> matches_at pat (a ++ b) k <-> matches_at pat a k.
Proof.
  intros Hk. unfold matches_at.
  rewrite drop_app_le, take_app_le by (rewrite ?length_drop; lia). done.
Qed.

Lemma split_line_app a b line rest :
  split_line a = Some (line, rest) -> split_line (a ++ b) = Some (line, rest ++ b).
Proof.
  unfold split_line. rewrite !fmap_Some. intros (k & Hk & [= -> ->]).
  pose proof (CRLF_found _ _ Hk). exists k. split.
  - apply std_search_Some in Hk as (_ & Hm & Hmin). apply std_search_Some.
    split; [rewrite length_app; lia |]. split; [by rewrite matches_at_app by (cbn; lia) |].
    intros j Hj Hmj. apply (Hmin j Hj). by rewrite matches_at_app in Hmj by (cbn; lia).
  - by rewrite take_app_le, drop_app_le by lia.
Qed.

Lemma split_line_length bs line rest :
  split_line bs = Some (line, rest) -> (length rest + 2 <= length bs)%nat.
Proof.
  unfold split_line. rewrite fmap_Some. intros (k & Hk & [= -> ->]).
  pose proof (CRLF_found _ _ Hk). rewrite length_drop. lia.
Qed.

(** A line without a carriage return is found at its end. *)
Lemma split_line_intro line rest :
  x0d ∉ line -> split_line (line ++ Buffer.CRLF ++ rest) = Some (line, rest).
Proof.
  intros Hn. unfold split_line.
  assert (std_search Buffer.CRLF (line ++ Buffer.CRLF ++ rest) = Some (length line)) as ->.
  { apply std_search_Some. split; [rewrite length_app; lia |]. split.
    - unfold matches_at. by rewrite drop_app_length.
    - intros j Hj Hm. apply Hn. unfold matches_at in Hm.
      rewrite drop_app_le in Hm by lia.
      destruct (drop j line) as [|x l] eqn:E.
      { apply (f_equal length) in E. rewrite length_drop in E. cbn in E. lia. }
      cbn in Hm. injection Hm as -> _.
      apply list_elem_of_lookup. exists j.
      rewrite <- (Nat.add_0_r j), <- lookup_drop, E. done. }
  cbn. rewrite take_app_length. do 2 f_equal.
  rewrite drop_app_ge by lia. by replace (length line + 2 - length line)%nat with 2%nat by lia.
Qed.

Lemma processRequestLine_returns {B : Build} req line :
  ndebug = true \/ HttpRequest.method_ req = HttpRequest.kInvalid ->
  returns (processRequestLine req line).
Proof.
  intros Hm. unfold processRequestLine, HttpRequest.setMethod.
  assert (Ha : assert_ (bool_decide (HttpRequest.method_ req = HttpRequest.kInvalid)) = Ret tt).
  { destruct Hm as [Hn|Hm]; [| by rewrite assert_true by (by rewrite bool_decide_eq_true)].
    unfold assert_. by rewrite Hn. }
  rewrite Ha. cbn. repeat case_match; eexists; reflexivity.
Qed.

(** The buffer-level loop is the list-level loop on the readable bytes. *)
Lemma retrieve_line buf k :
  Buffer.wf buf -> std_search Buffer.CRLF (Buffer.content buf) = Some k ->
  let buf' := Buffer.retrieve_until buf (Buffer.peek buf + Z.of_nat k + 2) in
  Buffer.wf buf' /\ Buffer.content buf' = drop (k + 2) (Buffer.content buf) /\
  Buffer.storage buf' = Buffer.storage buf /\
  Buffer.mem buf (Buffer.peek buf) (Buffer.peek buf + Z.of_nat k)
    = Ret (take k (Buffer.content buf)).
Proof.
  intros Hb Hk buf'. subst buf'. pose proof (CRLF_found _ _ Hk) as Hl.
  pose proof (BufferSpec.content_length _ Hb). pose proof (Buffer.wf_write _ Hb).
  pose proof (Buffer.wf_max _ Hb). pose proof (Buffer.wf_read _ Hb).
  unfold vector_max_size, int64_max in *.
  rewrite <- Z.add_assoc, BufferSpec.retrieve_until_content by (done || lia).
  split_and!.
  - apply BufferSpec.retrieve_wf; [done | lia].
  - rewrite BufferSpec.retrieve_content by (done || lia). f_equal. lia.
  - apply BufferSpec.retrieve_storage.
  - rewrite <- (Z.add_0_r (Buffer.peek buf)) at 1.
    rewrite BufferSpec.mem_content by (done || lia).
    rewrite slice_take_drop by lia. by rewrite Nat2Z.id.
Qed.

Definition lift {X} (buf : Buffer.t) (m : res (X * list byte)) (m' : res (X * Buffer.t)) : Prop :=
  match m with
  | Ret (x, bs) => exists buf', m' = Ret (x, buf') /\ Buffer.wf buf' /\
      Buffer.content buf' = bs /\ Buffer.storage buf' = Buffer.storage buf
  | Stop f => m' = Stop f
  end.

Lemma parse_step_lift {B : Build} time ok c buf :
  Buffer.wf buf ->
  lift buf (step time ok c (Buffer.content buf)) (parse_step time ok c buf).
Proof.
  intros Hb. unfold step, parse_step, split_line.
  destruct (state_ c) eqn:Es; [..| by exists buf | by exists buf];
    rewrite BufferSpec.find_CRLF_spec by done;
    (destruct (std_search _ _) as [k|] eqn:Ek; [| by exists buf]);
    destruct (retrieve_line buf k Hb Ek) as (Hw & Hc & Hs & Hm);
    cbn [fmap option_fmap option_map mbind res_bind]; rewrite Hm;
    cbn [mbind res_bind].
  - destruct (processRequestLine _ _) as [[[] req]|f]; cbn; [.. | done].
    + eexists; split_and!; try done.
    + by exists buf.
  - case_match; eexists; split_and!; done.
Qed.

Lemma parse_loop_lift {B : Build} fuel time ok c buf :
  Buffer.wf buf ->
  lift buf (loop fuel time ok c (Buffer.content buf)) (parse_loop fuel time ok c buf).
Proof.
  revert ok c buf. induction fuel as [|fuel IH]; intros ok c buf Hb; [done |].
  cbn [loop parse_loop]. pose proof (parse_step_lift time ok c buf Hb) as Hs.
  destruct (step time ok c (Buffer.content buf)) as [[[[more ok'] c'] bs]|f]; cbn in Hs |- *.
  - destruct Hs as (buf' & -> & Hb' & <- & Hst). cbn. destruct more.
    + specialize (IH ok' c' buf' Hb').
      destruct (loop _ _ _ _ _) as [[]|]; cbn in *; [| done].
      destruct IH as (b2 & ? & ? & ? & ?). exists b2. split_and!; congruence.
    + by exists buf'.
  - by rewrite Hs.
Qed.

Lemma parseRequest_lift {B : Build} c buf time :
  Buffer.wf buf ->
  lift buf (parse c (Buffer.content buf) time) (parseRequest c buf time).
Proof. apply parse_loop_lift. Qed.

(** One iteration from a ready state: it never stops the program, and when the
    loop goes on it has consumed input and is ready again. *)
Lemma step_ready {B : Build} time c bs :
  ready c ->
  exists more ok c' rest, step time true c bs = Ret (more, ok, c', rest) /\
    (if more : bool then ok = true /\ state_ c' = kExpectHeaders /\ (length rest < length bs)%nat
     else ((ok = false /\ state_ c' = kExpectRequestLine) \/ (ok = true /\ gotAll c' = true) \/
           (split_line bs = None /\ ok = true /\ c' = c /\ rest = bs))).
Proof.
  intros Hc. unfold step.
  destruct (split_line bs) as [[line rest]|] eqn:El.
  - apply split_line_length in El.
    destruct Hc as [[-> Hm]| ->].
    + destruct (processRequestLine_returns (request_ c) line Hm) as [[[] req] ->]; cbn;
        do 4 eexists; (split; [reflexivity |]); cbn; [split_and!; (done || lia) | by left].
    + destruct (negb _); do 4 eexists; (split; [reflexivity |]); cbn;
        [split_and!; (done || lia) | right; by left].
  - destruct Hc as [[-> _]| ->]; do 4 eexists; (split; [reflexivity |]); right; right; done.
Qed.

Lemma ready_headers {B : Build} c : state_ c = kExpectHeaders -> ready c.
Proof. by right. Qed.

Lemma loop_fuel {B : Build} time n m c bs :
  ready c -> (length bs < n)%nat -> (length bs < m)%nat ->
  loop n time true c bs = loop m time true c bs.
Proof.
  revert m c bs. induction n as [|n IH]; intros m c bs Hc Hn Hm; [lia |].
  destruct m as [|m]; [lia |]. cbn [loop].
  destruct (step_ready time c bs Hc) as (more & ok & c' & rest & -> & Hr). cbn.
  destruct more; [| done]. destruct Hr as (-> & Hc' & Hl).
  apply IH; [by apply ready_headers | lia | lia].
Qed.

Lemma step_suffix {B : Build} time ok c bs more ok' c' rest :
  step time ok c bs = Ret (more, ok', c', rest) -> suffix rest bs.
Proof.
  assert (Hd : forall line r, split_line bs = Some (line, r) -> suffix r bs).
  { intros line r. unfold split_line. rewrite fmap_Some. intros (k & _ & [= -> ->]).
    apply suffix_drop. }
  unfold step. destruct (split_line bs) as [[line r]|] eqn:El.
  - specialize (Hd line r eq_refl). destruct (state_ c).
    + destruct (processRequestLine _ _) as [[[] req]|]; cbn; by intros [= <- <- <- <-].
    + destruct (negb _); cbn; by intros [= <- <- <- <-].
    + by intros [= <- <- <- <-].
    + by intros [= <- <- <- <-].
  - destruct (state_ c); by intros [= <- <- <- <-].
Qed.

Lemma loop_returns {B : Build} time n c bs :
  ready c -> (length bs < n)%nat ->
  exists ok c' rest, loop n time true c bs = Ret (ok, c', rest) /\
    (ok = true -> gotAll c' = false -> ready c' /\ split_line rest = None) /\
    (ok = false -> state_ c' = kExpectRequestLine) /\ suffix rest bs.
Proof.
  revert c bs. induction n as [|n IH]; intros c bs Hc Hn; [lia |]. cbn [loop].
  destruct (step_ready time c bs Hc) as (more & ok & c' & rest & E & Hr).
  apply step_suffix in E as Hs. rewrite E. cbn. destruct more.
  - destruct Hr as (-> & Hc' & Hl).
    destruct (IH c' rest) as (ok & c2 & r2 & -> & ? & ? & ?);
      [by apply ready_headers | lia |].
    do 3 eexists. split_and!; [done | done | done | by etrans].
  - do 3 eexists. split_and!; [done | | | done].
    + intros -> Hg. destruct Hr as [[]|[[]|(? & _ & -> & ->)]]; [done | congruence | done].
    + intros ->. by destruct Hr as [[]|[[]|(_ & ? & _)]].
Qed.

Lemma step_app {B : Build} time c bs d r :
  split_line bs <> None -> step time true c bs = Ret r ->
  state_ c = kExpectRequestLine \/ state_ c = kExpectHeaders ->
  step time true c (bs ++ d) = Ret (r.1, r.2 ++ d).
Proof.
  intros Hl E Hc. destruct (split_line bs) as [[line rest]|] eqn:El; [clear Hl | done].
  unfold step in *. rewrite El in E. rewrite (split_line_app _ d _ _ El).
  destruct Hc as [Hc|Hc]; rewrite Hc in *.
  - destruct (processRequestLine _ _) as [[[] req]|]; cbn in *; by inversion E.
  - destruct (negb _); by inversion E.
Qed.

(** What more input does to the loop: it resumes where it stopped. *)
Lemma loop_app {B : Build} time n c bs d ok c' rest :
  ready c -> (length (bs ++ d) < n)%nat ->
  loop n time true c bs = Ret (ok, c', rest) ->
  loop n time true c (bs ++ d) =
    if ok && negb (gotAll c') then parse c' (rest ++ d) time else Ret (ok, c', rest ++ d).
Proof.
  revert c bs. induction n as [|n IH]; intros c bs Hc Hn E; [lia |].
  destruct (step_ready time c bs Hc) as (more & ok1 & c1 & r1 & Es & Hr).
  cbn [loop] in E. rewrite Es in E. cbn in E.
  assert (Hst : state_ c = kExpectRequestLine \/ state_ c = kExpectHeaders)
    by (destruct Hc as [[]|]; auto).
  destruct (split_line bs) as [[line r]|] eqn:El.
  - cbn [loop]. rewrite (step_app _ _ _ d _ ltac:(by rewrite El) Es Hst). cbn.
    destruct more.
    + destruct Hr as (-> & Hc1 & Hl). apply IH; [by apply ready_headers | | done].
      rewrite length_app in *. lia.
    + injection E as -> -> ->.
      destruct Hr as [[-> _]|[[_ Hg]|[]]]; [done | by rewrite Hg, andb_false_r | done].
  - destruct more; [exfalso |].
    + unfold step in Es. rewrite El in Es. destruct Hst as [Hs|Hs]; rewrite Hs in Es; done.
    + injection E as -> -> ->. assert (ok = true /\ c' = c /\ rest = bs) as (-> & -> & ->).
      { unfold step in Es. rewrite El in Es. destruct Hst as [Hs|Hs]; rewrite Hs in Es;
          by injection Es as <- <- <-. }
      assert (gotAll c = false) as ->.
      { unfold gotAll. apply bool_decide_eq_false. destruct Hst as [->| ->]; done. }
      cbn [andb negb]. apply loop_fuel; [done | done | lia].
Qed.

(** Feeding the parser chunk by chunk, as the connection does, until it has a
    request or an error; the chunks not looked at are returned. *)
Fixpoint feed {B : Build} (time : Timestamp.t) (c : t) (buf : Buffer.t)
    (chunks : list (list byte)) : res (bool * t * Buffer.t * list (list byte)) :=
  match chunks with
  | [] => mret (true, c, buf, [])
  | d :: ds =>
      buf ← Buffer.append buf d;
      '(ok, c, buf) ← parseRequest c buf time;
      if ok && negb (gotAll c) then feed time c buf ds else mret (ok, c, buf, ds)
  end.

Lemma feed_parse {B : Build} time chunks c buf :
  ready c -> gotAll c = false -> Buffer.wf buf ->
  parse c (Buffer.content buf) time = Ret (true, c, Buffer.content buf) ->
  Buffer.storage buf + zlen (concat chunks) <= vector_max_size ->
  exists ok c' buf' ds, feed time c buf chunks = Ret (ok, c', buf', ds) /\ Buffer.wf buf' /\
    parse c (Buffer.content buf ++ concat chunks) time
      = Ret (ok, c', Buffer.content buf' ++ concat ds) /\
    (ok = false \/ gotAll c' = true \/ (ds = [] /\ ready c')).
Proof.
  revert c buf. induction chunks as [|d ds IH]; intros c buf Hc Hg Hb Hp Hs.
  { exists true, c, buf, []. cbn. rewrite !app_nil_r. split_and!; auto. }
  cbn [feed concat] in *. rewrite length_app in Hs.
  destruct (BufferSpec.append_spec buf d) as (b1 & -> & Hb1 & Hc1 & Hs1 & _); [done | lia |].
  cbn [mbind res_bind].
  pose proof (parseRequest_lift c b1 time Hb1) as Hl. rewrite Hc1 in Hl.
  destruct (loop_returns time (S (length (Buffer.content buf ++ d))) c
              (Buffer.content buf ++ d) Hc) as (ok & c' & rest & E & Hr & _); [lia |].
  unfold parse in Hl. rewrite E in Hl. destruct Hl as (b2 & -> & Hb2 & <- & Hs2).
  cbn [mbind res_bind].
  assert (E' : parse c (Buffer.content buf ++ d ++ concat ds) time =
    if ok && negb (gotAll c') then parse c' (Buffer.content b2 ++ concat ds) time
    else Ret (ok, c', Buffer.content b2 ++ concat ds)).
  { rewrite app_assoc. unfold parse at 1. apply loop_app; [done | lia |].
    rewrite <- E. apply loop_fuel; rewrite ?length_app; (done || lia). }
  rewrite E'. destruct ok; cbn [andb]; [destruct (gotAll c') eqn:Hg'; cbn [negb] |].
  - exists true, c', b2, ds. split_and!; try done. auto.
  - destruct (Hr eq_refl eq_refl) as [Hc' Hn].
    assert (parse c' (Buffer.content b2) time = Ret (true, c', Buffer.content b2)) as Hp'.
    { unfold parse. cbn [loop]. unfold step. rewrite Hn.
      by destruct Hc' as [[-> _]| ->]. }
    apply IH; [done | done | done | done |]. lia.
  - exists false, c', b2, ds. split_and!; try done. auto.
Qed.
End HttpSpec.

(** ** Requests on the wire *)

Module HttpWire.
Import HttpContext.

Definition print_method (m : HttpRequest.Method) : list byte :=
  HttpRequest.methodString (HttpRequest.mk m HttpRequest.kUnknown [] [] 0 []).
Definition print_version (v : HttpRequest.Version) : list byte :=
  bytes "HTTP/1." ++ match v with HttpRequest.kHttp11 => bytes "1" | _ => bytes "0" end.
Definition request_line m path query v : list byte :=
  print_method m ++ [x20] ++ path ++ query ++ [x20] ++ print_version v.
Definition header_line (h : list byte * list byte) : list byte :=
  h.1 ++ bytes ": " ++ h.2.
Definition print_headers (hs : list (list byte * list byte)) : list byte :=
  concat (map (fun h => header_line h ++ Buffer.CRLF) hs).
Definition print_request m path query v hs : list byte :=
  request_line m path query v ++ Buffer.CRLF ++ print_headers hs ++ Buffer.CRLF.

(** What may stand in each field. *)
Definition header_ok (h : list byte * list byte) : Prop :=
  (x3a ∉ h.1) /\ (x0d ∉ h.1) /\ (x0d ∉ h.2) /\ skip_space h.2 = h.2 /\ strip_back h.2 = h.2.
Record request_ok (m : HttpRequest.Method) (path query : list byte)
    (v : HttpRequest.Version) (hs : list (list byte * list byte)) : Prop := mk_ok {
  ok_method : m <> HttpRequest.kInvalid;
  ok_version : v <> HttpRequest.kUnknown;
  ok_path : (x20 ∉ path) /\ (x3f ∉ path) /\ (x0d ∉ path);
  ok_query : (x20 ∉ query) /\ (x0d ∉ query) /\ (query = [] \/ head query = Some x3f);
  ok_headers : Forall header_ok hs
}.

Definition assign_all (hs m : list (list byte * list byte)) : list (list byte * list byte) :=
  foldl (fun m h => StdMap.assign h.1 h.2 m) m hs.
Definition expected m path query v time hs : HttpRequest.t :=
  HttpRequest.mk m v path query time (assign_all hs []).

Lemma find_ptr_mid (p a q : list byte) c start last :
  start = zlen p -> c ∉ a -> zlen (p ++ a) < last -> last <= zlen (p ++ a ++ c :: q) ->
  find_ptr (p ++ a ++ c :: q) start last c = zlen (p ++ a).
Proof.
  intros -> Hn Hl Hu. unfold find_ptr. rewrite !length_app in *. cbn in *.
  assert (slice (zlen p) last (p ++ a ++ c :: q)
    = a ++ c :: take (Z.to_nat last - length p - length a - 1) q) as ->.
  { unfold slice. rewrite drop_app_length' by lia. rewrite take_app_ge by lia. f_equal.
    replace (Z.to_nat (last - zlen p) - length a)%nat
      with (S (Z.to_nat last - length p - length a - 1)) by lia. done. }
  rewrite std_find_app by done. lia.
Qed.

Lemma find_ptr_none (p a q : list byte) c start last :
  start = zlen p -> last = zlen (p ++ a) -> c ∉ a ->
  find_ptr (p ++ a ++ q) start last c = last.
Proof.
  intros -> -> Hn. unfold find_ptr.
  assert (slice (zlen p) (zlen (p ++ a)) (p ++ a ++ q) = a) as ->.
  { unfold slice. rewrite drop_app_length' by lia.
    rewrite length_app. apply take_app_length'. lia. }
  by rewrite (proj2 (std_find_None c a)).
Qed.

Lemma slice_mid (p a q : list byte) lo hi :
  lo = zlen p -> hi = zlen (p ++ a) -> slice lo hi (p ++ a ++ q) = a.
Proof.
  intros -> ->. unfold slice. rewrite drop_app_length' by lia.
  rewrite length_app. apply take_app_length'. lia.
Qed.

Lemma print_method_spec m :
  m <> HttpRequest.kInvalid ->
  HttpRequest.method_of_string (print_method m) = m /\ (x20 ∉ print_method m) /\
  (x0d ∉ print_method m).
Proof.
  intros Hm. split; [by destruct m|].
  destruct m; (done || split; apply (bool_decide_unpack _); vm_compute; done).
Qed.

(** Where [processRequestLine]'s searches stop on a printed request line. *)
Section scan.
Context (M path query V : list byte).
Context (HM : x20 ∉ M) (Hp : x20 ∉ path) (Hp' : x3f ∉ path) (Hq : x20 ∉ query)
  (Hq' : query = [] \/ head query = Some x3f).
Let L := M ++ [x20] ++ path ++ query ++ [x20] ++ V.
Let p1 := zlen M + 1.
Let p2 := p1 + zlen path.
Let p3 := p2 + zlen query.

Lemma scan_length : zlen L = p3 + 1 + zlen V.
Proof. unfold L, p3, p2, p1. rewrite !length_app. cbn. lia. Qed.

Lemma scan_method : find_ptr L 0 (zlen L) x20 = zlen M /\ slice 0 (zlen M) L = M.
Proof.
  pose proof scan_length. split.
  - apply (find_ptr_mid [] M); [done | done | | reflexivity].
    unfold p3, p2, p1 in *. change (zlen M < zlen L). lia.
  - by apply (slice_mid [] M).
Qed.

Lemma scan_space : find_ptr L p1 (zlen L) x20 = p3.
Proof.
  pose proof scan_length as HL. unfold p3, p2, p1 in *.
  replace L with ((M ++ [x20]) ++ (path ++ query) ++ x20 :: V) in *
    by (unfold L; by rewrite <- !app_assoc).
  rewrite find_ptr_mid; rewrite ?elem_of_app; rewrite ?length_app in *; cbn in *;
    (lia || naive_solver).
Qed.

Lemma scan_path : slice p1 p2 L = path /\ slice p2 p3 L = query.
Proof.
  unfold p3, p2, p1, L. split.
  - rewrite app_assoc. apply slice_mid; rewrite !length_app; cbn; lia.
  - rewrite (app_assoc M), (app_assoc _ path).
    apply slice_mid; rewrite !length_app; cbn; lia.
Qed.

Lemma scan_question : find_ptr L p1 p3 x3f = p2.
Proof.
  unfold p3, p2, p1, L. rewrite app_assoc.
  destruct Hq' as [->|Hh].
  - rewrite find_ptr_none; [cbn; lia | | | done]; rewrite !length_app; cbn; lia.
  - destruct query as [|c q]; [done |]. injection Hh as ->.
    change ((x3f :: q) ++ [x20] ++ V) with (x3f :: q ++ [x20] ++ V).
    rewrite find_ptr_mid; try done; rewrite !length_app; cbn; rewrite ?length_app; cbn; lia.
Qed.

Lemma scan_version :
  (0 < length V)%nat ->
  slice (p3 + 1) (zlen L - 1) L = take (length V - 1) V /\
  slice (zlen L - 1) (zlen L) L = drop (length V - 1) V.
Proof.
  intros HV. pose proof scan_length as HL. unfold p3, p2, p1 in *.
  set (Pre := M ++ [x20] ++ path ++ query ++ [x20]).
  assert (Hn : zlen Pre = zlen L - zlen V) by (unfold Pre; rewrite HL, !length_app; cbn; lia).
  assert (E : L = Pre ++ take (length V - 1) V ++ drop (length V - 1) V).
  { rewrite take_drop. unfold L, Pre. by rewrite <- !app_assoc. }
  split.
  - rewrite E at 2. apply slice_mid; [lia |].
    rewrite length_app, length_take. lia.
  - rewrite E at 3. rewrite app_assoc, <- (app_nil_r (drop _ _)) at 1.
    apply slice_mid; rewrite ?app_nil_r, ?length_app, ?length_take, ?length_drop; lia.
Qed.
End scan.

(** The version field, as the source decides it. *)
Definition version_of (V : list byte) : option HttpRequest.Version :=
  if decide (V = bytes "HTTP/1.1") then Some HttpRequest.kHttp11
  else if decide (V = bytes "HTTP/1.0") then Some HttpRequest.kHttp10 else None.

Lemma version_fields V :
  (length V =? 8)%nat && bool_decide (take 7 V = bytes "HTTP/1.")
    && bool_decide (drop 7 V = bytes "1") = bool_decide (V = bytes "HTTP/1.1") /\
  (length V =? 8)%nat && bool_decide (take 7 V = bytes "HTTP/1.")
    && bool_decide (drop 7 V = bytes "0") = bool_decide (V = bytes "HTTP/1.0").
Proof.
  assert (H : forall c, length c = 1%nat ->
    (length V =? 8)%nat && bool_decide (take 7 V = bytes "HTTP/1.")
      && bool_decide (drop 7 V = c) = bool_decide (V = bytes "HTTP/1." ++ c)).
  { intros c Hc. apply Bool.eq_iff_eq_true.
    rewrite !andb_true_iff, !bool_decide_eq_true, Nat.eqb_eq. split.
    - intros [[_ Ht] Hd]. by rewrite <- (take_drop 7 V), Ht, Hd.
    - intros ->. cbn. by rewrite Hc. }
  split; [apply (H (bytes "1")) | apply (H (bytes "0"))]; done.
Qed.

Lemma processRequestLine_scan {B : Build} req m path query V :
  assert_ (bool_decide (HttpRequest.method_ req = HttpRequest.kInvalid)) = Ret tt ->
  (query = [] -> HttpRequest.query_ req = []) ->
  m <> HttpRequest.kInvalid ->
  x20 ∉ path -> x3f ∉ path -> x20 ∉ query -> (query = [] \/ head query = Some x3f) ->
  processRequestLine req (print_method m ++ [x20] ++ path ++ query ++ [x20] ++ V)
    = Ret (match version_of V with Some _ => true | None => false end,
           HttpRequest.mk m (default (HttpRequest.version_ req) (version_of V)) path query
             (HttpRequest.receiveTime_ req) (HttpRequest.headers_ req)).
Proof.
  intros Hreq Hq0 Hm Hp Hp' Hq Hq'.
  destruct (print_method_spec m Hm) as (Hms & Hmn & _). unfold processRequestLine.
  pose proof (scan_length (print_method m) path query V) as HL.
  destruct (scan_method (print_method m) path query V Hmn) as [F1 S1].
  pose proof (scan_space (print_method m) path query V Hp Hq) as F2.
  pose proof (scan_question (print_method m) path query V Hp' Hq Hq') as F3.
  destruct (scan_path (print_method m) path query V) as [S2 S3].
  pose proof (scan_version (print_method m) path query V) as S45.
  set (L := print_method m ++ _) in *.
  rewrite F1, S1, (proj2 (Z.eqb_neq _ _)) by (rewrite HL; lia).
  unfold HttpRequest.setMethod.
  rewrite Hreq, Hms. cbn [mbind res_bind].
  rewrite (bool_decide_eq_true_2 (m <> HttpRequest.kInvalid)) by done.
  cbn [mret res_ret mbind res_bind negb].
  rewrite F2, (proj2 (Z.eqb_neq _ _)), F3, S3 by (rewrite HL; lia).
  set (r := if negb _ then _ else _).
  assert (r = HttpRequest.mk m (HttpRequest.version_ req) path query
             (HttpRequest.receiveTime_ req) (HttpRequest.headers_ req)) as ->.
  { subst r. destruct query as [|c q]; cbn [length].
    - by rewrite Z.add_0_r, Z.eqb_refl, S2, <- Hq0 by done.
    - by rewrite S2, (proj2 (Z.eqb_neq _ _)) by lia. }
  destruct (version_fields V) as [V1 V0]. unfold version_of.
  rewrite !decide_bool_decide.
  destruct (Nat.eqb_spec (length V) 8) as [H8|H8].
  - rewrite (proj2 (Z.eqb_eq _ _)) by (rewrite HL; lia).
    destruct (S45 ltac:(lia)) as [-> ->]. rewrite H8. cbn [Nat.sub andb] in *.
    destruct (bool_decide (take 7 V = _)); cbn [andb] in *.
    + rewrite V1, V0. by repeat destruct (bool_decide _).
    + by rewrite <- V1, <- V0.
  - rewrite (proj2 (Z.eqb_neq _ _)) by (rewrite HL; lia).
    cbn [andb] in *. by rewrite <- V1, <- V0.
Qed.

Lemma processRequestLine_print {B : Build} req m path query v :
  HttpRequest.method_ req = HttpRequest.kInvalid -> HttpRequest.query_ req = [] ->
  m <> HttpRequest.kInvalid -> v <> HttpRequest.kUnknown ->
  x20 ∉ path -> x3f ∉ path -> x20 ∉ query -> (query = [] \/ head query = Some x3f) ->
  processRequestLine req (request_line m path query v)
    = Ret (true, HttpRequest.mk m v path query (HttpRequest.receiveTime_ req)
                   (HttpRequest.headers_ req)).
Proof.
  intros ??? Hv ????. unfold request_line.
  rewrite processRequestLine_scan by (done || (apply assert_true; by rewrite bool_decide_eq_true)).
  assert (version_of (print_version v) = Some v) as -> by (by destruct v). done.
Qed.

Definition with_headers (r : HttpRequest.t) hs : HttpRequest.t :=
  HttpRequest.mk (HttpRequest.method_ r) (HttpRequest.version_ r) (HttpRequest.path_ r)
    (HttpRequest.query_ r) (HttpRequest.receiveTime_ r) hs.

Lemma addHeader_print r h :
  header_ok h ->
  find_ptr (header_line h) 0 (zlen (header_line h)) x3a = zlen h.1 /\
  zlen h.1 <> zlen (header_line h) /\
  HttpRequest.addHeader r (header_line h) (zlen h.1)
    = with_headers r (StdMap.assign h.1 h.2 (HttpRequest.headers_ r)).
Proof.
  destruct h as [f v]. unfold header_line. cbn [fst snd].
  intros (Hf & _ & _ & Hs & Hb). cbn [fst snd] in *.
  assert (Hl : zlen (f ++ bytes ": " ++ v) = zlen f + 2 + zlen v)
    by (rewrite !length_app; cbn; lia).
  split_and!.
  - apply (find_ptr_mid [] f); [done | done | | reflexivity]. change (zlen f < zlen (f ++ bytes ": " ++ v)). lia.
  - lia.
  - unfold HttpRequest.addHeader, with_headers. f_equal. f_equal.
    + apply (slice_mid [] f); done.
    + change (bytes ": " ++ v) with ([x3a] ++ x20 :: v) in *. rewrite Hl, app_assoc.
      rewrite <- (app_nil_r (x20 :: v)), slice_mid by (rewrite !length_app; cbn; lia).
      change (skip_space (x20 :: v)) with (skip_space v). by rewrite Hs, Hb.
Qed.

Lemma header_line_no_CR h : header_ok h -> x0d ∉ header_line h.
Proof.
  intros (_ & H1 & H2 & _). unfold header_line. rewrite !elem_of_app.
  intros [|[Hin|]]; [done | | done]. revert Hin. apply (bool_decide_unpack _). vm_compute. done.
Qed.

Lemma loop_headers {B : Build} time n r hs rest :
  Forall header_ok hs ->
  (length (print_headers hs ++ Buffer.CRLF ++ rest) < n)%nat ->
  HttpSpec.loop n time true (mk kExpectHeaders r) (print_headers hs ++ Buffer.CRLF ++ rest)
    = Ret (true, mk kGotAll (with_headers r (assign_all hs (HttpRequest.headers_ r))), rest).
Proof.
  revert n r. induction hs as [|h hs IH]; intros [|n] r Hok Hn; try lia; cbn [HttpSpec.loop].
  - change (print_headers [] ++ Buffer.CRLF ++ rest) with ([] ++ Buffer.CRLF ++ rest).
    unfold HttpSpec.step. cbn [state_].
    rewrite (HttpSpec.split_line_intro [] rest) by apply not_elem_of_nil. by destruct r.
  - apply Forall_cons in Hok as [Hh Hok].
    assert (E : print_headers (h :: hs) ++ Buffer.CRLF ++ rest
      = header_line h ++ Buffer.CRLF ++ print_headers hs ++ Buffer.CRLF ++ rest)
      by (unfold print_headers; cbn [map concat]; by rewrite <- !app_assoc).
    rewrite E in Hn |- *. unfold HttpSpec.step. cbn [state_].
    rewrite HttpSpec.split_line_intro by (by apply header_line_no_CR).
    destruct (addHeader_print r h Hh) as (-> & Hne & Ea).
    rewrite (proj2 (Z.eqb_neq _ _)) by done. cbn [negb request_ mret res_ret mbind res_bind].
    rewrite Ea, IH; [by destruct r | done |].
    rewrite !length_app in *. change (length Buffer.CRLF) with 2%nat in *. lia.
Qed.

Lemma parse_print {B : Build} time m path query v hs rest :
  request_ok m path query v hs ->
  HttpSpec.parse HttpContext.make (print_request m path query v hs ++ rest) time
    = Ret (true, mk kGotAll (expected m path query v time hs), rest).
Proof.
  intros [Hm Hv (Hp & Hp' & Hpc) (Hq & Hqc & Hq') Hh].
  unfold HttpSpec.parse, print_request. rewrite <- !app_assoc.
  cbn [HttpSpec.loop]. unfold HttpSpec.step. cbn [state_ HttpContext.make].
  rewrite HttpSpec.split_line_intro.
  2:{ unfold request_line. rewrite !elem_of_app, list_elem_of_singleton.
      destruct (print_method_spec m Hm) as (_ & _ & ?).
      assert (x0d ∉ print_version v).
      { destruct v; apply (bool_decide_unpack _); vm_compute; done. }
      naive_solver. }
  cbn [request_]. rewrite processRequestLine_print by done.
  cbn [mret res_ret mbind res_bind].
  rewrite loop_headers; [done | done |].
  rewrite !length_app. cbn. lia.
Qed.
End HttpWire.

(** ** Responses *)

Module HttpResponse.

Inductive HttpStatusCode :=
  | kUnknown
  | k200Ok
  | k301MovedPermanently
  | k400BadRequest
  | k404NotFound.
Definition code_value (c : HttpStatusCode) : Z :=
  match c with
  | kUnknown => 0
  | k200Ok => 200
  | k301MovedPermanently => 301
  | k400BadRequest => 400
  | k404NotFound => 404
  end.

Record t := mk {
  headers_ : list (list byte * list byte);
  statusCode_ : HttpStatusCode;
  statusMessage_ : list byte;
  closeConnection_ : bool;
  body_ : list byte
}.

Definition make (close : bool) : t := mk [] kUnknown [] close [].
Definition setStatusCode (r : t) (code : HttpStatusCode) : t :=
  mk (headers_ r) code (statusMessage_ r) (closeConnection_ r) (body_ r).
Definition setStatusMessage (r : t) (message : list byte) : t :=
  mk (headers_ r) (statusCode_ r) message (closeConnection_ r) (body_ r).
Definition setCloseConnection (r : t) (on : bool) : t :=
  mk (headers_ r) (statusCode_ r) (statusMessage_ r) on (body_ r).
Definition closeConnection (r : t) : bool := closeConnection_ r.
Definition addHeader (r : t) (key value : list byte) : t :=
  mk (StdMap.assign key value (headers_ r)) (statusCode_ r) (statusMessage_ r)
     (closeConnection_ r) (body_ r).
Definition setContentType (r : t) (contentType : list byte) : t :=
  addHeader r (bytes "Content-Type") contentType.
Definition setBody (r : t) (body : list byte) : t :=
  mk (headers_ r) (statusCode_ r) (statusMessage_ r) (closeConnection_ r) body.

Definition CRLF : list byte := [x0d; x0a].

Fixpoint append_headers (hs : list (list byte * list byte)) (output : Buffer.t) : res Buffer.t :=
  match hs with
  | [] => mret output
  | header :: hs' =>
      output ← Buffer.append output header.1;
      output ← Buffer.append output (bytes ": ");
      output ← Buffer.append output header.2;
      output ← Buffer.append output CRLF;
      append_headers hs' output
  end.

Definition appendToBuffer (r : t) (output : Buffer.t) : res Buffer.t :=
  let buf := snprintf 32 (bytes "HTTP/1.1 " ++ decimal (code_value (statusCode_ r)) ++ [x20]) in
  output ← Buffer.append output buf;
  output ← Buffer.append output (statusMessage_ r);
  output ← Buffer.append output CRLF;
  output ←
    (if closeConnection_ r then
       Buffer.append output (bytes "Connection: close" ++ CRLF)
     else
       let buf := snprintf 32 (bytes "Content-Length: " ++ decimal (zlen (body_ r)) ++ CRLF) in
       output ← Buffer.append output buf;
       Buffer.append output (bytes "Connection: Keep-Alive" ++ CRLF));
  output ← append_headers (headers_ r) output;
  output ← Buffer.append output CRLF;
  Buffer.append output (body_ r).
End HttpResponse.

(** ** The server's handlers *)

Module HttpServer.

(** What a handler does to its connection, in order ([send], [shutdown]). *)
Inductive action :=
  | Send (d : list byte)
  | Shutdown.

Definition defaultHttpCallback (req : HttpRequest.t) (resp : HttpResponse.t) : HttpResponse.t :=
  HttpResponse.setCloseConnection
    (HttpResponse.setStatusMessage
       (HttpResponse.setStatusCode resp HttpResponse.k404NotFound) (bytes "Not Found")) true.

Section handlers.
Context {B : Build} (httpCallback_ : HttpRequest.t -> HttpResponse.t -> HttpResponse.t).

(** [onConnection]: the context of a new connection, [None] when it goes down. *)
Definition onConnection (connected : bool) (context : option HttpContext.t) : option HttpContext.t :=
  if connected then Some HttpContext.make else context.

Definition onRequest (req : HttpRequest.t) : res (list action) :=
  let connection := HttpRequest.getHeader req (bytes "Connection") in
  let close := bool_decide (connection = bytes "close")
    || (bool_decide (HttpRequest.version_ req = HttpRequest.kHttp10)
        && bool_decide (connection <> bytes "Keep-Alive")) in
  let response := httpCallback_ req (HttpResponse.make close) in
  buf ← HttpResponse.appendToBuffer response (Buffer.make Buffer.init_size);
  text ← Buffer.to_string buf;
  mret (Send text :: (if HttpResponse.closeConnection response then [Shutdown] else [])).

Definition onMessage (context : HttpContext.t) (buf : Buffer.t) (receiveTime : Timestamp.t)
    : res (list action * HttpContext.t * Buffer.t) :=
  '(ok, context, buf) ← HttpContext.parseRequest context buf receiveTime;
  let bad := if ok : bool then [] else
    [Send (bytes "HTTP/1.1 400 Bad Request" ++ Buffer.CRLF ++ Buffer.CRLF); Shutdown] in
  if HttpContext.gotAll context then
    answer ← onRequest (HttpContext.request_ context);
    mret (bad ++ answer, HttpContext.reset context, buf)
  else mret (bad, context, buf).

(** A connection that receives [chunks], one message event each. *)
Fixpoint serve (receiveTime : Timestamp.t) (context : HttpContext.t) (buf : Buffer.t)
    (chunks : list (list byte)) : res (list action * HttpContext.t * Buffer.t) :=
  match chunks with
  | [] => mret ([], context, buf)
  | d :: ds =>
      buf ← Buffer.append buf d;
      '(acts, context, buf) ← onMessage context buf receiveTime;
      '(more, context, buf) ← serve receiveTime context buf ds;
      mret (acts ++ more, context, buf)
  end.
End handlers.
End HttpServer.

Module HttpServerSpec.
Import HttpServer.

(** The text of a response. *)
Definition render_headers (hs : list (list byte * list byte)) : list byte :=
  concat (map (fun h => h.1 ++ bytes ": " ++ h.2 ++ HttpResponse.CRLF) hs).
Definition render (r : HttpResponse.t) : list byte :=
  bytes "HTTP/1.1 " ++ decimal (HttpResponse.code_value (HttpResponse.statusCode_ r)) ++ [x20]
  ++ HttpResponse.statusMessage_ r ++ HttpResponse.CRLF
  ++ (if HttpResponse.closeConnection_ r then bytes "Connection: close" ++ HttpResponse.CRLF
      else bytes "Content-Length: " ++ decimal (zlen (HttpResponse.body_ r)) ++ HttpResponse.CRLF
           ++ bytes "Connection: Keep-Alive" ++ HttpResponse.CRLF)
  ++ render_headers (HttpResponse.headers_ r)
  ++ HttpResponse.CRLF ++ HttpResponse.body_ r.

(** A Content-Length of at most 13 digits fits [char buf[32]]. *)
Definition body_limit : Z := 10000000000000.

(** Appends, in sequence. *)
Definition appended (b : Buffer.t) (d : list byte) (m : res Buffer.t) : Prop :=
  exists b', m = Ret b' /\ Buffer.wf b' /\ Buffer.content b' = Buffer.content b ++ d /\
    Buffer.storage b' <= Buffer.storage b + zlen d.

Lemma appended_append b d :
  Buffer.wf b -> Buffer.storage b + zlen d <= vector_max_size ->
  appended b d (Buffer.append b d).
Proof.
  intros Hb Hs. destruct (BufferSpec.append_spec b d) as (b' & ? & ? & ? & ? & _); [done..|].
  exists b'. split_and!; (done || lia).
Qed.

Lemma appended_nil b : Buffer.wf b -> appended b [] (mret b).
Proof. intros Hb. exists b. rewrite app_nil_r. split_and!; (done || cbn; lia). Qed.

Lemma appended_bind b d1 d2 m k :
  appended b d1 m ->
  (forall b1, Buffer.wf b1 -> Buffer.storage b1 <= Buffer.storage b + zlen d1 ->
     appended b1 d2 (k b1)) ->
  appended b (d1 ++ d2) (m ≫= k).
Proof.
  intros (b1 & -> & Hb1 & Hc1 & Hs1) Hk.
  destruct (Hk b1 Hb1 Hs1) as (b2 & E & Hb2 & Hc2 & Hs2).
  exists b2. rewrite length_app. split_and!; [exact E | done | | lia].
  by rewrite Hc2, Hc1, app_assoc.
Qed.

Ltac append_step :=
  apply appended_bind; [apply appended_append; [done | lia] |];
  let b1 := fresh "b" in let H1 := fresh "Hb" in let H2 := fresh "Hs" in
  intros b1 H1 H2.

Lemma append_headers_spec hs b :
  Buffer.wf b -> Buffer.storage b + zlen (render_headers hs) <= vector_max_size ->
  appended b (render_headers hs) (HttpResponse.append_headers hs b).
Proof.
  revert b; induction hs as [|h hs IH]; intros b Hb Hs; [by apply appended_nil|].
  unfold render_headers in *. cbn [map concat HttpResponse.append_headers] in *.
  rewrite <- !app_assoc in *. rewrite !length_app in Hs.
  append_step. append_step. append_step. append_step. apply IH; [done | lia].
Qed.

Lemma appendToBuffer_spec r b :
  Buffer.wf b -> zlen (HttpResponse.body_ r) < body_limit ->
  Buffer.storage b + zlen (render r) <= vector_max_size ->
  appended b (render r) (HttpResponse.appendToBuffer r b).
Proof.
  intros Hb Hl Hs. unfold HttpResponse.appendToBuffer.
  rewrite (snprintf_fits 32 (bytes "HTTP/1.1 " ++ _)), (snprintf_fits 32 (bytes "Content-Length: " ++ _)).
  2:{ pose proof (decimal_length (zlen (HttpResponse.body_ r)) 12) as Hd.
      rewrite !length_app. unfold body_limit in Hl. cbn [length bytes].
      change (10 ^ Z.of_nat 13) with 10000000000000 in Hd.
      specialize (Hd ltac:(lia)). cbn. lia. }
  2:{ apply Nat.ltb_lt. by destruct (HttpResponse.statusCode_ r). }
  set (status := bytes "HTTP/1.1 " ++ _) in *.
  set (len := bytes "Content-Length: " ++ _) in *.
  assert (E : render r = status ++ HttpResponse.statusMessage_ r ++ HttpResponse.CRLF ++
    (if HttpResponse.closeConnection_ r then bytes "Connection: close" ++ HttpResponse.CRLF
     else len ++ bytes "Connection: Keep-Alive" ++ HttpResponse.CRLF) ++
    render_headers (HttpResponse.headers_ r) ++ HttpResponse.CRLF ++ HttpResponse.body_ r).
  { unfold render, status, len. by rewrite <- !(app_assoc (bytes _)), <- !app_assoc. }
  rewrite E in *. clear E. rewrite !(length_app status), !(length_app (HttpResponse.statusMessage_ r)),
    !(length_app HttpResponse.CRLF) in Hs.
  do 3 append_step. rewrite !length_app in Hs. apply appended_bind.
  - destruct (HttpResponse.closeConnection_ r); rewrite ?length_app in Hs;
      [| append_step]; apply appended_append; try done; rewrite ?length_app; lia.
  - intros b3 Hb3 Hs3. apply appended_bind; [apply append_headers_spec; [done | lia] |].
    intros b4 Hb4 Hs4. append_step. apply appended_append; [done | lia].
Qed.

Section answers.
Context {B : Build} (cb : HttpRequest.t -> HttpResponse.t -> HttpResponse.t).

(** The connection is closed after the answer for [Connection: close], and for
    HTTP/1.0 without [Connection: Keep-Alive]. *)
Definition wants_close (req : HttpRequest.t) : bool :=
  let connection := HttpRequest.getHeader req (bytes "Connection") in
  bool_decide (connection = bytes "close") ||
  (bool_decide (HttpRequest.version_ req = HttpRequest.kHttp10) &&
   bool_decide (connection <> bytes "Keep-Alive")).
Definition response_to (req : HttpRequest.t) : HttpResponse.t :=
  cb req (HttpResponse.make (wants_close req)).
Definition answer (req : HttpRequest.t) : list action :=
  Send (render (response_to req)) ::
  if HttpResponse.closeConnection (response_to req) then [Shutdown] else [].
Definition answerable (req : HttpRequest.t) : Prop :=
  zlen (HttpResponse.body_ (response_to req)) < body_limit /\
  1032 + zlen (render (response_to req)) <= vector_max_size.

Lemma onRequest_spec req : answerable req -> onRequest cb req = Ret (answer req).
Proof.
  intros [Hl Hs]. unfold onRequest. fold (wants_close req). fold (response_to req).
  destruct (appendToBuffer_spec (response_to req) (Buffer.make Buffer.init_size))
    as (b & -> & Hb & Hc & _); [apply BufferSpec.make_wf | done | by rewrite BufferSpec.make_storage |].
  cbn [mbind res_bind]. rewrite BufferSpec.to_string_spec by done. by rewrite Hc.
Qed.

Lemma serve_feed time chunks c buf c' buf' ds acts :
  HttpSpec.feed time c buf chunks = Ret (true, c', buf', ds) ->
  HttpContext.gotAll c' = true -> HttpContext.gotAll c = false ->
  onRequest cb (HttpContext.request_ c') = Ret acts ->
  serve cb time c buf chunks =
    ('(more, c2, b2) ← serve cb time HttpContext.make buf' ds; mret (acts ++ more, c2, b2)).
Proof.
  intros Hf Hg Hg0 Ha. revert c buf Hf Hg0.
  induction chunks as [|d chunks IH]; intros c buf Hf Hg0; cbn [HttpSpec.feed serve] in *;
    [injection Hf; intros; congruence |].
  destruct (Buffer.append buf d) as [b1|]; [| done]. cbn [mbind res_bind] in *.
  unfold onMessage. destruct (HttpContext.parseRequest c b1 time) as [[[ok c1] b2]|]; [| done].
  cbn [mbind res_bind] in *.
  destruct ok; cbn [andb] in Hf; [destruct (HttpContext.gotAll c1) eqn:Hg1; cbn [negb] in Hf |].
  - injection Hf as -> -> ->. rewrite Ha. cbn [mbind res_bind mret res_ret app]. done.
  - cbn [mbind res_bind mret res_ret app]. rewrite (IH c1 b2) by done.
    by destruct (serve cb time HttpContext.make buf' ds) as [[[]]|].
  - by injection Hf.
Qed.

Lemma feed_rest (time : Timestamp.t) (P : list byte -> Prop) chunks c b r :
  HttpSpec.feed time c b chunks = Ret r -> Forall P chunks -> Forall P r.2.
Proof.
  revert c b r. induction chunks as [|d chunks IH]; intros c b r; cbn [HttpSpec.feed].
  - by intros [= <-] _.
  - intros E [_ Hne]%Forall_cons. res_inv. destruct r1 as [[[] c1] b1]; cbn [andb] in *.
    + destruct (negb _); [by eapply IH | by injection E as <-].
    + by injection E as <-.
Qed.

(** A client's request, however the network cuts it into chunks, gets exactly one
    answer: the response the callback built, rendered, with the connection shut down
    behind it when the response says so; the parser is then ready for the next
    request, and the buffer empty. *)
Lemma serve_answers (time : Timestamp.t)
    (chunks : list (list byte)) (buf : Buffer.t)
    (m : HttpRequest.Method) (path query : list byte) (v : HttpRequest.Version)
    (hs : list (list byte * list byte))
    (Hbuf : Buffer.wf buf) (Hempty : Buffer.content buf = [])
    (Hok : HttpWire.request_ok m path query v hs)
    (Hchunks : concat chunks = HttpWire.print_request m path query v hs)
    (Hnonempty : Forall (fun d => d <> []) chunks)
    (Hroom : Buffer.storage buf + zlen (concat chunks) <= vector_max_size)
    (Hanswer : answerable (HttpWire.expected m path query v time hs)) :
  exists buf', serve cb time HttpContext.make buf chunks
      = Ret (answer (HttpWire.expected m path query v time hs),
             HttpContext.make, buf') /\
    Buffer.wf buf' /\ Buffer.content buf' = [].
Proof.
  destruct (HttpSpec.feed_parse time chunks HttpContext.make buf)
    as (ok & c' & buf' & ds & Hf & Hwf & Hp & _);
    [apply HttpSpec.make_ready | done | done | by rewrite Hempty | done |].
  rewrite Hempty, Hchunks in Hp. cbn [app] in Hp.
  rewrite <- (app_nil_r (HttpWire.print_request _ _ _ _ _)), HttpWire.parse_print in Hp by done.
  injection Hp as <- <- Hc. symmetry in Hc. apply app_nil in Hc as [Hc Hds].
  assert (ds = []) as ->.
  { destruct ds as [|d ds]; [done |]. cbn in Hds. apply app_nil in Hds as [-> _].
    pose proof (feed_rest time _ _ _ _ _ Hf Hnonempty) as Hin. cbn in Hin. by apply Forall_cons in Hin as [? _]. }
  exists buf'. split_and!; [| done | done].
  rewrite (serve_feed time _ _ _ _ _ _
    (answer (HttpWire.expected m path query v time hs)) Hf);
    [cbn; by rewrite app_nil_r | done | done |].
  by apply onRequest_spec.
Qed.
End answers.
End HttpServerSpec.

(** * Properties *)

Lemma make_parse_empty {B : Build} time :
  HttpSpec.parse HttpContext.make [] time = Ret (true, HttpContext.make, []).
Proof. reflexivity. Qed.


(** C8: the parser terminates without undefined behaviour or failed assertion
    on every input, and how the input is cut into chunks does not matter: fed
    chunk by chunk from a fresh connection it reaches the same verdict, state
    and request as on the whole input at once, and the bytes it leaves are the
    same. *)
Theorem http_parse_in_chunks {B : Build} (time : Timestamp.t) (chunks : list (list byte))
    (buf whole : Buffer.t) (Hbuf : Buffer.wf buf) (Hempty : Buffer.content buf = [])
    (Hroom : Buffer.storage buf + zlen (concat chunks) <= vector_max_size)
    (Hwhole : Buffer.wf whole) (Hcontent : Buffer.content whole = concat chunks) :
  exists ok c' buf' ds whole',
    HttpSpec.feed time HttpContext.make buf chunks = Ret (ok, c', buf', ds) /\
    HttpContext.parseRequest HttpContext.make whole time = Ret (ok, c', whole') /\
    Buffer.content whole' = Buffer.content buf' ++ concat ds /\
    (ds <> [] -> ok = false \/ HttpContext.gotAll c' = true).
Proof.
  destruct (HttpSpec.feed_parse time chunks HttpContext.make buf)
    as (ok & c' & buf' & ds & Hf & _ & Hp & Hend);
    [apply HttpSpec.make_ready | done | done | by rewrite Hempty | done |].
  pose proof (HttpSpec.parseRequest_lift HttpContext.make whole time Hwhole) as Hl.
  rewrite Hempty, <- Hcontent in Hp. cbn [app] in Hp. rewrite Hp in Hl.
  destruct Hl as (whole' & Hw & _ & Hc & _).
  exists ok, c', buf', ds, whole'. split_and!; [done | done | done | naive_solver].
Qed.

Lemma http_parse_in_chunks_witness :
  let B := {| ndebug := false |} in
  exists ok c' buf' ds whole',
    HttpSpec.feed 7 HttpContext.make (Buffer.make 0) [bytes "GET / HTT"; bytes "P/1.1"; [x0d]; [x0a]]
      = Ret (ok, c', buf', ds) /\
    HttpContext.parseRequest HttpContext.make
      (Buffer.mk (bytes "GET / HTTP/1.1" ++ Buffer.CRLF) 0 16) 7 = Ret (ok, c', whole') /\
    Buffer.content whole' = Buffer.content buf' ++ concat ds /\
    (ds <> [] -> ok = false \/ HttpContext.gotAll c' = true).
Proof.
  apply (@http_parse_in_chunks {| ndebug := false |}).
  - apply BufferSpec.make_wf.
  - reflexivity.
  - vm_compute. congruence.
  - constructor; vm_compute; congruence.
  - reflexivity.
Defined.

(** C9: parsing inverts printing: a request whose fields are well formed,
    followed by any bytes, is parsed into exactly its method, version, path,
    query and headers, and the parser stops behind its empty line, leaving the
    bytes that follow for the next request. *)
Theorem http_request_roundtrip {B : Build} (time : Timestamp.t) (buf : Buffer.t)
    (m : HttpRequest.Method) (path query : list byte) (v : HttpRequest.Version)
    (hs : list (list byte * list byte)) (rest : list byte)
    (Hbuf : Buffer.wf buf) (Hok : HttpWire.request_ok m path query v hs)
    (Hcontent : Buffer.content buf = HttpWire.print_request m path query v hs ++ rest) :
  exists buf', HttpContext.parseRequest HttpContext.make buf time
      = Ret (true, HttpContext.mk HttpContext.kGotAll (HttpWire.expected m path query v time hs), buf')
    /\ Buffer.content buf' = rest.
Proof.
  pose proof (HttpSpec.parseRequest_lift HttpContext.make buf time Hbuf) as Hl.
  rewrite Hcontent, HttpWire.parse_print in Hl by done.
  destruct Hl as (buf' & ? & _ & ? & _). by exists buf'.
Qed.

Definition sample_headers : list (list byte * list byte) :=
  [(bytes "Host", bytes "example.com:80"); (bytes "Connection", bytes "Keep-Alive")].

Lemma sample_request_ok :
  HttpWire.request_ok HttpRequest.kGet (bytes "/index") (bytes "?a=1") HttpRequest.kHttp10
    sample_headers.
Proof.
  constructor; [done | done | | |];
    [.. | repeat constructor]; try (split_and!); try (right; reflexivity);
    try reflexivity; try (apply (bool_decide_unpack _); vm_compute; exact I).
Defined.

Lemma http_request_roundtrip_witness :
  let buf := Buffer.mk (HttpWire.print_request HttpRequest.kGet (bytes "/index") (bytes "?a=1")
    HttpRequest.kHttp10 sample_headers ++ bytes "next") 0 77 in
  exists buf', @HttpContext.parseRequest {| ndebug := false |} HttpContext.make buf 7
      = Ret (true, HttpContext.mk HttpContext.kGotAll
          (HttpRequest.mk HttpRequest.kGet HttpRequest.kHttp10 (bytes "/index") (bytes "?a=1") 7
             [(bytes "Connection", bytes "Keep-Alive"); (bytes "Host", bytes "example.com:80")]), buf')
    /\ Buffer.content buf' = bytes "next".
Proof.
  apply (@http_request_roundtrip {| ndebug := false |} 7 _ HttpRequest.kGet (bytes "/index")
    (bytes "?a=1") HttpRequest.kHttp10 sample_headers (bytes "next")).
  - constructor; vm_compute; congruence.
  - apply sample_request_ok.
  - reflexivity.
Defined.

(** A keep-alive response delimits its body: it is appended as its status
    line, a Content-Length line whose number reads back as the body's length,
    the other headers, an empty line and the body, and nothing else is touched. *)
Theorem http_response_framing (r : HttpResponse.t) (b : Buffer.t)
    (Hb : Buffer.wf b) (Hkeep : HttpResponse.closeConnection_ r = false)
    (Hbody : zlen (HttpResponse.body_ r) < HttpServerSpec.body_limit)
    (Hroom : Buffer.storage b + zlen (HttpServerSpec.render r) <= vector_max_size) :
  exists b' status number headers,
    HttpResponse.appendToBuffer r b = Ret b' /\ Buffer.wf b' /\
    Buffer.content b' = Buffer.content b ++ status ++
      bytes "Content-Length: " ++ number ++ HttpResponse.CRLF ++ headers ++ HttpResponse.CRLF ++
      HttpResponse.body_ r /\
    decimal_value number = zlen (HttpResponse.body_ r) /\
    status = bytes "HTTP/1.1 " ++ decimal (HttpResponse.code_value (HttpResponse.statusCode_ r)) ++
      [x20] ++ HttpResponse.statusMessage_ r ++ HttpResponse.CRLF.
Proof.
  destruct (HttpServerSpec.appendToBuffer_spec r b) as (b' & E & Hb' & Hc & _); [done..|].
  eexists b', _, (decimal (zlen (HttpResponse.body_ r))),
    ((bytes "Connection: Keep-Alive" ++ HttpResponse.CRLF) ++
      HttpServerSpec.render_headers (HttpResponse.headers_ r)).
  split_and!; [done | done | | apply decimal_roundtrip | reflexivity].
  rewrite Hc. unfold HttpServerSpec.render. rewrite Hkeep.
  by rewrite <- !(app_assoc (bytes _)), <- !app_assoc.
Qed.

Lemma http_response_framing_witness :
  exists b' status number headers,
    HttpResponse.appendToBuffer (HttpResponse.setBody (HttpResponse.make false) (bytes "hi"))
      (Buffer.make 0) = Ret b' /\ Buffer.wf b' /\
    Buffer.content b' = [] ++ status ++
      bytes "Content-Length: " ++ number ++ HttpResponse.CRLF ++ headers ++ HttpResponse.CRLF ++
      bytes "hi" /\
    decimal_value number = 2 /\
    status = bytes "HTTP/1.1 0 " ++ HttpResponse.CRLF.
Proof.
  apply (http_response_framing (HttpResponse.setBody (HttpResponse.make false) (bytes "hi"))
    (Buffer.make 0)).
  - apply BufferSpec.make_wf.
  - reflexivity.
  - reflexivity.
  - vm_compute. congruence.
Defined.

(** A line the parser rejects, at the front of the buffer. *)
Lemma bad_line {B : Build} cb c buf time line rest req :
  Buffer.wf buf -> HttpContext.state_ c = HttpContext.kExpectRequestLine ->
  x0d ∉ line -> Buffer.content buf = line ++ Buffer.CRLF ++ rest ->
  HttpContext.processRequestLine (HttpContext.request_ c) line = Ret (false, req) ->
  HttpServer.onMessage cb c buf time
    = Ret ([HttpServer.Send (bytes "HTTP/1.1 400 Bad Request" ++ Buffer.CRLF ++ Buffer.CRLF);
            HttpServer.Shutdown], HttpContext.mk HttpContext.kExpectRequestLine req, buf).
Proof.
  intros Hb Hs Hcr Hc Hp. unfold HttpServer.onMessage, HttpContext.parseRequest.
  cbn [HttpContext.parse_loop]. unfold HttpContext.parse_step. rewrite Hs.
  rewrite BufferSpec.find_CRLF_spec by done.
  pose proof (HttpSpec.split_line_intro line rest Hcr) as Hl. rewrite <- Hc in Hl.
  unfold HttpSpec.split_line in Hl. apply fmap_Some in Hl as (k & Hk & [= Hk1 Hk2]).
  destruct (HttpSpec.retrieve_line buf k Hb Hk) as (_ & _ & _ & Hm).
  rewrite Hk. cbn [fmap option_fmap option_map mbind res_bind]. rewrite Hm, <- Hk1.
  cbn [mbind res_bind]. rewrite Hp. reflexivity.
Qed.

(** A request line with a known method and an unsupported version is
    answered with 400 and a shutdown, and is left in the buffer with its method
    recorded: when the peer, whose half of the connection stays open, sends
    anything more, a release build answers 400 again, and a debug build fails
    the assertion of [setMethod] and aborts. *)
Theorem http_bad_version {B : Build} (cb : HttpRequest.t -> HttpResponse.t -> HttpResponse.t)
    (time : Timestamp.t) (buf : Buffer.t) (m : HttpRequest.Method)
    (path query V rest more : list byte)
    (Hbuf : Buffer.wf buf) (Hm : m <> HttpRequest.kInvalid)
    (Hp : (x20 ∉ path) /\ (x3f ∉ path) /\ (x0d ∉ path)) (Hq : (x20 ∉ query) /\ (x0d ∉ query))
    (Hq' : query = [] \/ head query = Some x3f)
    (HV : HttpWire.version_of V = None) (HVc : x0d ∉ V)
    (Hcontent : Buffer.content buf = HttpWire.print_method m ++ [x20] ++ path ++ query ++ [x20]
       ++ V ++ Buffer.CRLF ++ rest)
    (Hroom : Buffer.storage buf + zlen more <= vector_max_size) :
  let bad := [HttpServer.Send (bytes "HTTP/1.1 400 Bad Request" ++ Buffer.CRLF ++ Buffer.CRLF);
              HttpServer.Shutdown] in
  exists c', HttpServer.onMessage cb HttpContext.make buf time = Ret (bad, c', buf) /\
    exists buf', Buffer.append buf more = Ret buf' /\
      (if ndebug then exists c2 b2, HttpServer.onMessage cb c' buf' time = Ret (bad, c2, b2)
       else HttpServer.onMessage cb c' buf' time = Stop AssertionFailed).
Proof.
  destruct Hp as (Hp & Hp' & Hpc), Hq as (Hq & Hqc). intros bad.
  set (line := HttpWire.print_method m ++ [x20] ++ path ++ query ++ [x20] ++ V).
  assert (Hcr : x0d ∉ line).
  { unfold line. rewrite !elem_of_app, !list_elem_of_singleton.
    destruct (HttpWire.print_method_spec m Hm) as (_ & _ & ?). naive_solver. }
  assert (Hline : Buffer.content buf = line ++ Buffer.CRLF ++ rest)
    by (rewrite Hcontent; unfold line; by rewrite <- !app_assoc).
  set (req := HttpRequest.mk m HttpRequest.kUnknown path query 0 []).
  set (c' := HttpContext.mk HttpContext.kExpectRequestLine req).
  exists c'. split.
  - apply (bad_line cb HttpContext.make buf time line rest); [done | done | done | done |].
    cbn [HttpContext.request_ HttpContext.make]. unfold line.
    rewrite HttpWire.processRequestLine_scan by (done || by apply assert_true).
    by rewrite HV.
  - destruct (BufferSpec.append_spec buf more) as (b1 & -> & Hb1 & Hc1 & _); [done | done |].
    exists b1. split; [done |]. rewrite Hline, <- !app_assoc in Hc1.
    destruct B as [[]]; cbn [ndebug].
    + exists c', b1. apply (bad_line cb c' b1 time line (rest ++ more)); [done..|].
      cbn [HttpContext.request_ c']. unfold line.
      rewrite HttpWire.processRequestLine_scan by done. by rewrite HV.
    + pose proof (@HttpSpec.parseRequest_lift {| ndebug := false |} c' b1 time Hb1) as Hl.
      rewrite Hc1 in Hl. unfold HttpSpec.parse in Hl. cbn [HttpSpec.loop] in Hl.
      unfold HttpSpec.step in Hl. cbn [HttpContext.state_ c'] in Hl.
      rewrite HttpSpec.split_line_intro in Hl by done.
      unfold HttpServer.onMessage.
      assert (E : @HttpContext.processRequestLine {| ndebug := false |}
        (HttpContext.request_ c') line = Stop AssertionFailed).
      { unfold HttpContext.processRequestLine.
        destruct (HttpWire.scan_method (HttpWire.print_method m) path query V) as [F1 _];
          [by apply HttpWire.print_method_spec |].
        pose proof (HttpWire.scan_length (HttpWire.print_method m) path query V) as HL.
        fold line in F1, HL. rewrite F1, (proj2 (Z.eqb_neq _ _)) by (rewrite HL; lia).
        unfold HttpRequest.setMethod.
        replace (bool_decide (HttpRequest.method_ (HttpContext.request_ c') = HttpRequest.kInvalid))
          with false by (symmetry; by apply bool_decide_eq_false).
        reflexivity. }
      rewrite E in Hl. cbn [mbind res_bind HttpSpec.lift] in Hl. by rewrite Hl.
Qed.

Lemma http_bad_version_witness :
  let B := {| ndebug := false |} in
  let buf := Buffer.mk (bytes "GET / HTTP/2.0" ++ Buffer.CRLF) 0 16 in
  exists c' buf',
    HttpServer.onMessage HttpServer.defaultHttpCallback HttpContext.make buf 7
      = Ret ([HttpServer.Send (bytes "HTTP/1.1 400 Bad Request" ++ Buffer.CRLF ++ Buffer.CRLF);
              HttpServer.Shutdown], c', buf) /\
    Buffer.append buf (bytes "x") = Ret buf' /\
    HttpServer.onMessage HttpServer.defaultHttpCallback c' buf' 7 = Stop AssertionFailed.
Proof.
  destruct (@http_bad_version {| ndebug := false |} HttpServer.defaultHttpCallback 7
    (Buffer.mk (bytes "GET / HTTP/2.0" ++ Buffer.CRLF) 0 16) HttpRequest.kGet (bytes "/") []
    (bytes "HTTP/2.0") [] (bytes "x")) as (c' & E & buf' & E1 & E2).
  - constructor; vm_compute; congruence.
  - discriminate.
  - split_and!; apply (bool_decide_unpack _); vm_compute; exact I.
  - split_and!; apply (bool_decide_unpack _); vm_compute; exact I.
  - by left.
  - reflexivity.
  - apply (bool_decide_unpack _); vm_compute; exact I.
  - reflexivity.
  - vm_compute. congruence.
  - exists c', buf'. split_and!; [exact E | exact E1 | exact E2].
Defined.

(** In [kExpectBody] or [kGotAll] no branch of the loop clears [hasMore]: called there,
    [parseRequest] never returns. *)
Theorem parse_after_all_never_returns {B : Build} fuel receiveTime ok c buf
    (Hdone : HttpContext.state_ c = HttpContext.kExpectBody \/ HttpContext.state_ c = HttpContext.kGotAll) :
  HttpContext.parse_loop fuel receiveTime ok c buf = Stop FuelExhausted.
Proof.
  induction fuel as [|fuel IH]; [done |]. cbn [HttpContext.parse_loop]. unfold HttpContext.parse_step.
  by destruct Hdone as [E|E]; rewrite E; cbn [mbind res_bind].
Qed.

(** A header line without a colon ends the request as the empty line does, and what
    follows is taken for the next one. *)
Definition colonless : list byte :=
  bytes "GET / HTTP/1.1" ++ Buffer.CRLF ++ bytes "Host" ++ Buffer.CRLF ++ bytes "Connection: close" ++ Buffer.CRLF ++ Buffer.CRLF.
Theorem colonless_header_ends_request (B : Build) :
  exists c buf, HttpContext.parseRequest HttpContext.make (Buffer.mk colonless 0 (zlen colonless)) 7 = Ret (true, c, buf) /\
    HttpContext.gotAll c = true /\ HttpRequest.headers_ (HttpContext.request_ c) = [] /\
    Buffer.content buf = bytes "Connection: close" ++ Buffer.CRLF ++ Buffer.CRLF.
Proof. destruct B as [[]]; do 2 eexists; (split; [vm_compute; reflexivity | by vm_compute]). Qed.
