(* ===== verification/Codec.v ===== *)
(** The length-header codec (suduo/bench/zeromq/codec.h): framing of messages
    by a 4-byte big-endian length, and its inverse on a byte stream that arrives
    in arbitrary pieces. *)

From S2P Require Import Prelude.
From S2P Require Import Endianness.
From S2P Require Import ByteBuffer.

Module LengthHeaderCodec.
Section with_host.
Context {H : Host}.

Definition kHeaderLen : Z := 4.

(** What [onMessage] does: [messageCallback_(conn, message, ...)] and
    [conn->shutdown()], in order. *)
Inductive event :=
  | Message (message : list byte)
  | Shutdown.

(** [while (buf->readable_bytes() >= kHeaderLen)], with fuel. [len] is an
    [int32_t]; in [len + kHeaderLen] it converts to [size_t]. *)
Fixpoint onMessage_loop (fuel : nat) (buf : Buffer.t) : res (list event * Buffer.t) :=
  match fuel with
  | O => Stop FuelExhausted
  | S fuel' =>
      if kHeaderLen <=? Buffer.readable_bytes buf then
        data ← Buffer.mem buf (Buffer.peek buf) (Buffer.peek buf + 4);
        let be32 := to_signed 32 (load data) in
        let len := to_signed 32 (Endian.network_to_host_32 (to_unsigned 32 be32)) in
        if (65536 <? len) || (len <? 0) then mret ([Shutdown], buf)
        else if u64 (len + kHeaderLen) <=? Buffer.readable_bytes buf then
          let buf := Buffer.retrieve buf kHeaderLen in
          message ← Buffer.mem buf (Buffer.peek buf) (Buffer.peek buf + len);
          let buf := Buffer.retrieve buf len in
          '(events, buf) ← onMessage_loop fuel' buf;
          mret (Message message :: events, buf)
        else mret ([], buf)
      else mret ([], buf)
  end.

(** Every iteration that goes on takes at least the header. *)
Definition onMessage (buf : Buffer.t) : res (list event * Buffer.t) :=
  onMessage_loop (S (length (Buffer.content buf))) buf.

(** [send]: the bytes handed to [conn->send(&buf)]. *)
Definition send (message : list byte) : res (list byte) :=
  buf ← Buffer.append (Buffer.make Buffer.init_size) message;
  let len := to_signed 32 (zlen message) in
  let be32 := to_signed 32 (Endian.host_to_network_32 (to_unsigned 32 len)) in
  buf ← Buffer.prepend buf (store 4 be32);
  Buffer.to_string buf.

(** A connection that receives [chunks], one message event each. *)
Fixpoint receive (buf : Buffer.t) (chunks : list (list byte)) : res (list event * Buffer.t) :=
  match chunks with
  | [] => mret ([], buf)
  | d :: ds =>
      buf ← Buffer.append buf d;
      '(events, buf) ← onMessage buf;
      '(more, buf) ← receive buf ds;
      mret (events ++ more, buf)
  end.

Fixpoint send_all (messages : list (list byte)) : res (list byte) :=
  match messages with
  | [] => mret []
  | m :: ms => d ← send m; rest ← send_all ms; mret (d ++ rest)
  end.
End with_host.
End LengthHeaderCodec.

(** ** The framing on plain byte lists *)

Module CodecSpec.
Import LengthHeaderCodec.

Definition max_len : Z := 65536.

Inductive verdict :=
  | More
  | Bad
  | Frame (message rest : list byte).

Definition next (bs : list byte) : verdict :=
  if zlen bs <? 4 then More
  else
    let len := to_signed 32 (be_value (take 4 bs)) in
    if (max_len <? len) || (len <? 0) then Bad
    else if zlen bs <? len + 4 then More
    else Frame (take (Z.to_nat len) (drop 4 bs)) (drop (Z.to_nat len) (drop 4 bs)).

Fixpoint decode (fuel : nat) (bs : list byte) : list event * list byte :=
  match fuel with
  | O => ([], bs)
  | S fuel' =>
      match next bs with
      | More => ([], bs)
      | Bad => ([Shutdown], bs)
      | Frame m rest => let '(es, r) := decode fuel' rest in (Message m :: es, r)
      end
  end.
Definition decode_all (bs : list byte) : list event * list byte := decode (S (length bs)) bs.

Definition encode (m : list byte) : list byte := be_bytes 4 (zlen m) ++ m.

Lemma next_frame_length bs m rest :
  next bs = Frame m rest -> zlen bs = 4 + zlen m + zlen rest.
Proof.
  unfold next. do 2 (zcase; [done |]). cbn [orb]. 
  destruct (_ <? 0) eqn:E; [done |]. cbn [orb]. zcase; [done |]. intros [= <- <-]. zbool.
  rewrite !length_drop, length_take, length_drop. lia.
Qed.

Lemma next_frame_app bs m rest d :
  next bs = Frame m rest -> next (bs ++ d) = Frame m (rest ++ d).
Proof.
  intros E. pose proof E as E'. apply next_frame_length in E'.
  unfold next in *. destruct (Z.ltb_spec (zlen bs) 4); [done |].
  rewrite length_app, (proj2 (Z.ltb_ge _ _)) by lia. rewrite take_app_le by lia.
  destruct (_ || _) eqn:Eb; [done |].
  apply orb_false_iff in Eb as [? ?]. zbool.
  destruct (Z.ltb_spec (zlen bs) (to_signed 32 (be_value (take 4 bs)) + 4)); [done |].
  injection E as <- <-. rewrite (proj2 (Z.ltb_ge _ _)) by lia.
  rewrite drop_app_le, take_app_le, drop_app_le by (rewrite ?length_drop; lia). done.
Qed.

Lemma next_bad_app bs d : next bs = Bad -> next (bs ++ d) = Bad.
Proof.
  unfold next. intros E. destruct (Z.ltb_spec (zlen bs) 4); [done |].
  rewrite length_app, (proj2 (Z.ltb_ge _ _)) by lia. rewrite take_app_le by lia.
  destruct (_ || _); [done |]. by destruct (_ <? _).
Qed.

Lemma decode_fuel n k bs :
  (length bs < n)%nat -> (length bs < k)%nat -> decode n bs = decode k bs.
Proof.
  revert k bs; induction n as [|n IH]; intros [|k] bs Hn Hk; try lia; cbn [decode].
  destruct (next bs) as [| |m rest] eqn:E; [done | done |].
  apply next_frame_length in E. rewrite (IH k); [done | lia | lia].
Qed.

(** Decoding resumes where it stopped, unless it saw a bad length. *)
Lemma decode_app n bs d es r :
  (length (bs ++ d) < n)%nat -> decode n bs = (es, r) -> Shutdown ∉ es ->
  decode n (bs ++ d) = ((es ++ (decode_all (r ++ d)).1), (decode_all (r ++ d)).2).
Proof.
  revert bs es; induction n as [|n IH]; intros bs es Hn E Hs; [lia |].
  cbn [decode] in E. destruct (next bs) as [| |m rest] eqn:En.
  - injection E as <- <-. unfold decode_all.
    rewrite (decode_fuel (S n) (S (length (bs ++ d)))) by lia.
    by destruct (decode _ _).
  - injection E as <- <-. destruct Hs. by left.
  - destruct (decode n rest) as [es' r'] eqn:Ed. injection E as <- <-.
    apply not_elem_of_cons in Hs as [_ Hs]. cbn [decode]. rewrite (next_frame_app _ _ _ _ En).
    rewrite (IH rest es'); [done | | done | done].
    apply next_frame_length in En. rewrite length_app in *. lia.
Qed.

Lemma next_encode m rest : zlen m <= max_len -> next (encode m ++ rest) = Frame m rest.
Proof.
  intros Hm. unfold next, encode, max_len in *. rewrite <- app_assoc, !length_app, length_be_bytes.
  rewrite (proj2 (Z.ltb_ge _ _)) by lia.
  rewrite take_app_length', drop_app_length' by (by rewrite length_be_bytes).
  rewrite be_value_bytes. change (8 * Z.of_nat 4) with 32.
  fold (to_unsigned 32 (zlen m)). rewrite to_signed_unsigned, to_signed_small by (cbn; lia).
  rewrite !(proj2 (Z.ltb_ge _ _)) by lia. cbn [orb].
  by rewrite Nat2Z.id, take_app_length, drop_app_length.
Qed.

Lemma decode_encode ms n :
  Forall (fun m => zlen m <= max_len) ms -> (length (concat (map encode ms)) < n)%nat ->
  decode n (concat (map encode ms)) = (map Message ms, []).
Proof.
  revert n; induction ms as [|m ms IH]; intros [|n] Hms Hn; try lia; cbn [decode map concat].
  - done.
  - apply Forall_cons in Hms as [Hm Hms]. rewrite next_encode by done.
    rewrite IH; [done | done |]. cbn [map concat] in Hn.
    unfold encode in Hn at 1. rewrite !length_app, length_be_bytes in Hn. lia.
Qed.

Lemma decode_bad_app n bs d :
  Shutdown ∈ (decode n bs).1 -> Shutdown ∈ (decode n (bs ++ d)).1.
Proof.
  revert bs; induction n as [|n IH]; intros bs; cbn [decode]; [by intros []%elem_of_nil |].
  destruct (next bs) as [| |m rest] eqn:En.
  - by intros []%elem_of_nil.
  - by rewrite (next_bad_app _ _ En).
  - rewrite (next_frame_app _ _ _ _ En). specialize (IH rest).
    destruct (decode n rest), (decode n (rest ++ d)). cbn in *.
    intros [|]%elem_of_cons; [done |]. right. auto.
Qed.

Lemma decode_stable n bs es r :
  (length bs < n)%nat -> decode n bs = (es, r) -> Shutdown ∉ es -> next r = More.
Proof.
  revert bs es; induction n as [|n IH]; intros bs es Hn E Hs; [lia |].
  cbn [decode] in E. destruct (next bs) as [| |m rest] eqn:En.
  - by injection E as <- <-.
  - injection E as <- <-. destruct Hs. by left.
  - apply next_frame_length in En. destruct (decode n rest) as [es' r'] eqn:Ed.
    injection E as <- <-. apply not_elem_of_cons in Hs as [_ Hs]. apply (IH rest es'); [lia | done..].
Qed.

Lemma decode_all_app bs d :
  Shutdown ∉ (decode_all (bs ++ d)).1 ->
  decode_all (bs ++ d) =
    let '(es, r) := decode_all bs in
    (es ++ (decode_all (r ++ d)).1, (decode_all (r ++ d)).2).
Proof.
  intros Hs. destruct (decode_all bs) as [es r] eqn:E. unfold decode_all in E, Hs.
  rewrite (decode_fuel _ (S (length (bs ++ d)))) in E by (rewrite ?length_app; lia).
  unfold decode_all at 1. apply decode_app; [lia | done |].
  intros Hin. apply Hs. apply decode_bad_app. by rewrite E.
Qed.

(** The code's loop is [decode] on the readable bytes. *)
Section with_host.
Context {H : Host}.

Lemma int_unwire_32 d :
  length d = 4%nat ->
  to_signed 32 (Endian.network_to_host_32 (to_unsigned 32 (to_signed 32 (load d))))
  = to_signed 32 (be_value d).
Proof. intros Hd. apply (BufferSpec.int_unwire 4); [lia | done]. Qed.

Lemma onMessage_loop_spec n buf :
  Buffer.wf buf -> (length (Buffer.content buf) < n)%nat ->
  exists buf', onMessage_loop n buf = Ret ((decode n (Buffer.content buf)).1, buf') /\
    Buffer.wf buf' /\ Buffer.content buf' = (decode n (Buffer.content buf)).2 /\
    Buffer.storage buf' = Buffer.storage buf.
Proof.
  revert buf; induction n as [|n IH]; intros buf Hb Hn; [lia |].
  cbn [onMessage_loop decode]. rewrite BufferSpec.readable_bytes_content by done.
  unfold next, kHeaderLen, max_len. rewrite Z.leb_antisym.
  destruct (Z.ltb_spec (zlen (Buffer.content buf)) 4) as [|H4]; cbn [negb]; [by exists buf |].
  rewrite BufferSpec.mem_take by (done || lia).
  change (Z.to_nat 4) with 4%nat. cbn [mbind res_bind].
  rewrite (int_unwire_32 (take 4 (Buffer.content buf))) by (rewrite length_take; lia).
  set (len := to_signed 32 _).
  destruct (_ || _) eqn:Eb; [by exists buf |].
  apply orb_false_iff in Eb as [? ?]. zbool.
  rewrite u64_small, Z.leb_antisym by lia.
  destruct (Z.ltb_spec (zlen (Buffer.content buf)) (len + 4)); cbn [negb]; [by exists buf |].
  assert (Hb1 : Buffer.wf (Buffer.retrieve buf 4)) by (apply BufferSpec.retrieve_wf; [done | lia]).
  assert (Hc1 : Buffer.content (Buffer.retrieve buf 4) = drop 4 (Buffer.content buf))
    by (rewrite BufferSpec.retrieve_content by (done || lia); done).
  rewrite BufferSpec.mem_take by (try done; rewrite ?Hc1, ?length_drop; lia).
  cbn [mbind res_bind]. rewrite Hc1.
  destruct (IH (Buffer.retrieve (Buffer.retrieve buf 4) len)) as (b2 & E & Hb2 & Hc2 & Hs2).
  { apply BufferSpec.retrieve_wf; [done | lia]. }
  { rewrite BufferSpec.retrieve_content, Hc1, !length_drop by (done || lia). lia. }
  rewrite BufferSpec.retrieve_content, Hc1 in E, Hc2 by (done || lia). rewrite E.
  destruct (decode n _) as [es r]. cbn [mbind res_bind fst snd] in *.
  exists b2. split_and!; [done | done | done |].
  by rewrite Hs2, !BufferSpec.retrieve_storage.
Qed.

Lemma onMessage_spec buf :
  Buffer.wf buf ->
  exists buf', onMessage buf = Ret ((decode_all (Buffer.content buf)).1, buf') /\
    Buffer.wf buf' /\ Buffer.content buf' = (decode_all (Buffer.content buf)).2 /\
    Buffer.storage buf' = Buffer.storage buf.
Proof. intros Hb. apply onMessage_loop_spec; [done | lia]. Qed.

Lemma receive_spec chunks buf :
  Buffer.wf buf -> next (Buffer.content buf) = More ->
  Buffer.storage buf + zlen (concat chunks) <= vector_max_size ->
  Shutdown ∉ (decode_all (Buffer.content buf ++ concat chunks)).1 ->
  exists buf', receive buf chunks
      = Ret ((decode_all (Buffer.content buf ++ concat chunks)).1, buf') /\
    Buffer.wf buf' /\
    Buffer.content buf' = (decode_all (Buffer.content buf ++ concat chunks)).2.
Proof.
  revert buf; induction chunks as [|d ds IH]; intros buf Hb Hn Hr Hs; cbn [receive concat] in *.
  { rewrite app_nil_r. exists buf. unfold decode_all. cbn [decode]. rewrite Hn. done. }
  rewrite length_app in Hr.
  destruct (BufferSpec.append_spec buf d) as (b1 & -> & Hb1 & Hc1 & Hs1 & _); [done | lia |].
  cbn [mbind res_bind].
  destruct (onMessage_spec b1 Hb1) as (b2 & -> & Hb2 & Hc2 & Hs2). cbn [mbind res_bind].
  rewrite app_assoc, <- Hc1 in Hs |- *. rewrite decode_all_app in Hs |- * by done.
  destruct (decode_all (Buffer.content b1)) as [es r] eqn:E. cbn [fst snd] in *.
  rewrite not_elem_of_app in Hs. destruct Hs as [He Hs].
  rewrite <- Hc2 in *. destruct (IH b2) as (b3 & -> & Hb3 & Hc3); [done | | lia | done |].
  { apply (decode_stable (S (length (Buffer.content b1))) (Buffer.content b1) es);
      [lia | exact E | done]. }
  exists b3. by cbn.
Qed.

(** Appending leaves at least the 8 bytes of [pre_append_size] in front. *)
Lemma append_read_index b d b' :
  Buffer.append b d = Ret b' -> 8 <= Buffer.read_index b -> 8 <= Buffer.read_index b'.
Proof.
  unfold Buffer.append, Buffer.ensure_writeable_bytes, Buffer.make_space.
  destruct (_ <? zlen d); [destruct (_ <? _) |]; intros E Hb; res_inv;
    unfold Buffer.has_written, Buffer.pre_append_size; cbn [Buffer.read_index]; lia.
Qed.

Lemma send_spec m :
  zlen m < 2147483648 -> send m = Ret (encode m).
Proof.
  intros Hm. unfold send.
  destruct (BufferSpec.append_spec (Buffer.make Buffer.init_size) m)
    as (b1 & E1 & Hb1 & Hc1 & _ & _);
    [apply BufferSpec.make_wf | rewrite BufferSpec.make_storage; unfold vector_max_size, int64_max; lia |].
  assert (8 <= Buffer.read_index b1) as Hr1
    by (by apply (append_read_index _ _ _ E1)).
  rewrite E1. cbn [mbind res_bind]. unfold Endian.host_to_network_32.
  rewrite (to_signed_small 32 (zlen m)) by (cbn; lia).
  rewrite (BufferSpec.int_wire 4) by lia.
  destruct (BufferSpec.prepend_spec b1 (be_bytes 4 (zlen m))) as (b2 & -> & Hb2 & Hc2 & _);
    [done | rewrite length_be_bytes; lia |].
  cbn [mbind res_bind]. rewrite BufferSpec.to_string_spec by done.
  by rewrite Hc2, Hc1.
Qed.

Lemma send_all_spec ms :
  Forall (fun m => zlen m <= max_len) ms -> send_all ms = Ret (concat (map encode ms)).
Proof.
  induction 1 as [|m ms Hm _ IH]; [done |]. cbn [send_all map concat].
  rewrite send_spec by (unfold max_len in *; lia). cbn [mbind res_bind]. by rewrite IH.
Qed.
End with_host.
End CodecSpec.

(** * Properties *)

(** Framing survives the stream: messages of up to 65536 bytes, sent with
    [send] and received in chunks cut anywhere, come out of [onMessage] complete,
    unchanged and in order, with no spurious shutdown, and leave the receive
    buffer empty. *)
Theorem codec_roundtrip {H : Host} (messages : list (list byte))
    (Hlen : Forall (fun m => zlen m <= CodecSpec.max_len) messages) :
  exists stream, LengthHeaderCodec.send_all messages = Ret stream /\
    forall (chunks : list (list byte)) (buf : Buffer.t),
      concat chunks = stream -> Buffer.wf buf -> Buffer.content buf = [] ->
      Buffer.storage buf + zlen stream <= vector_max_size ->
      exists buf', LengthHeaderCodec.receive buf chunks
          = Ret (map LengthHeaderCodec.Message messages, buf') /\
        Buffer.wf buf' /\ Buffer.content buf' = [].
Proof.
  eexists. split; [by apply CodecSpec.send_all_spec|].
  intros chunks buf Hc Hb He Hr.
  assert (Hd : CodecSpec.decode_all (Buffer.content buf ++ concat chunks)
    = (map LengthHeaderCodec.Message messages, [])).
  { rewrite He, Hc. cbn [app]. apply CodecSpec.decode_encode; [done | lia]. }
  destruct (CodecSpec.receive_spec chunks buf) as (buf' & -> & Hb' & Hc').
  - done.
  - by rewrite He.
  - by rewrite Hc.
  - rewrite Hd. cbn [fst]. rewrite list_elem_of_fmap. by intros (? & ? & _).
  - rewrite Hd in *. by exists buf'.
Qed.

Lemma codec_roundtrip_witness :
  let H := {| little_endian := true |} in
  let messages := [bytes "hello"; []; bytes "x"] in
  exists stream, LengthHeaderCodec.send_all messages = Ret stream /\
    exists buf', LengthHeaderCodec.receive (Buffer.make 0) [take 6 stream; drop 6 stream]
      = Ret (map LengthHeaderCodec.Message messages, buf').
Proof.
  destruct (@codec_roundtrip {| little_endian := true |} [bytes "hello"; []; bytes "x"])
    as (stream & E & R).
  - repeat constructor; vm_compute; congruence.
  - exists stream. split; [exact E |].
    assert (Hs : stream = [x00; x00; x00; x05] ++ bytes "hello" ++ [x00; x00; x00; x00]
       ++ [x00; x00; x00; x01] ++ bytes "x")
      by (vm_compute in E; injection E as <-; reflexivity).
    destruct (R [take 6 stream; drop 6 stream] (Buffer.make 0)) as (b & E' & _).
    + subst stream. reflexivity.
    + apply BufferSpec.make_wf.
    + reflexivity.
    + subst stream. vm_compute. congruence.
    + exists b. exact E'.
Defined.

(** [send] does not check what [onMessage] demands: a message longer than
    65536 bytes is sent without an error, and the receiver answers its header by
    shutting the connection down, without consuming it and without delivering
    anything that stands behind it. *)
Theorem codec_oversize_message {H : Host} (message rest : list byte) (buf : Buffer.t)
    (Hlen : CodecSpec.max_len < zlen message < 2147483648) (Hwf : Buffer.wf buf) :
  exists data, LengthHeaderCodec.send message = Ret data /\
    (Buffer.content buf = data ++ rest ->
     exists buf', LengthHeaderCodec.onMessage buf = Ret ([LengthHeaderCodec.Shutdown], buf') /\
       Buffer.content buf' = Buffer.content buf).
Proof.
  unfold CodecSpec.max_len in *.
  exists (CodecSpec.encode message). split; [apply CodecSpec.send_spec; lia |].
  intros Hc. destruct (CodecSpec.onMessage_spec buf Hwf) as (buf' & -> & _ & Hc' & _).
  assert (Hn : CodecSpec.next (Buffer.content buf) = CodecSpec.Bad).
  { rewrite Hc. unfold CodecSpec.encode, CodecSpec.next. rewrite <- app_assoc.
    rewrite length_app, length_be_bytes, (proj2 (Z.ltb_ge _ _)) by lia.
    rewrite take_app_length' by (by rewrite length_be_bytes).
    rewrite be_value_bytes. fold (to_unsigned (8 * Z.of_nat 4) (zlen message)).
    rewrite to_signed_unsigned, to_signed_small by (cbn; lia).
    unfold CodecSpec.max_len. by rewrite (proj2 (Z.ltb_lt _ _)) by lia. }
  unfold CodecSpec.decode_all in *. cbn [CodecSpec.decode] in *. rewrite Hn in *.
  by exists buf'.
Qed.

Definition big_message : list byte := replicate (Z.to_nat 65537) x61.
Definition big_buffer : Buffer.t := Buffer.mk (CodecSpec.encode big_message) 0 65541.

Lemma codec_oversize_message_witness :
  let H := {| little_endian := true |} in
  exists data, LengthHeaderCodec.send big_message = Ret data /\
    exists buf', LengthHeaderCodec.onMessage big_buffer
         = Ret ([LengthHeaderCodec.Shutdown], buf') /\
       Buffer.content buf' = Buffer.content big_buffer.
Proof.
  assert (Hlen : zlen big_message = 65537)
    by (unfold big_message; rewrite length_replicate; apply Z2Nat.id; lia).
  assert (Hl : zlen (CodecSpec.encode big_message) = 65541)
    by (unfold CodecSpec.encode; rewrite length_app, length_be_bytes; lia).
  destruct (@codec_oversize_message {| little_endian := true |} big_message [] big_buffer)
    as (data & E & R).
  - unfold CodecSpec.max_len. lia.
  - constructor; unfold Buffer.storage, vector_max_size, int64_max, Buffer.pre_append_size;
      cbn [Buffer._buffer Buffer.read_index Buffer.write_index big_buffer]; lia.
  - exists data. split; [exact E |]. apply R.
    pose proof E as E'. rewrite CodecSpec.send_spec in E' by lia. injection E' as <-.
    rewrite app_nil_r. unfold Buffer.content.
    cbn [Buffer._buffer Buffer.read_index Buffer.write_index big_buffer].
    apply slice_full. lia.
Defined.
