(* ===== verification/Timers.v ===== *)
(** Timers (suduo/net/Timer.h, TimerQueue.h/.cpp, and the timer interface of
    EventLoop.cpp).

    User callbacks are arbitrary: [script c s] lists the timer calls that
    callback [c] makes when it runs in state [s], so callbacks that add and
    cancel timers while [handle_read] is iterating are part of the model. The
    successive results of [Timestamp::now()] are the parameter [clock]. *)

From S2P Require Import Prelude.
From S2P Require Import Time.
From S2P Require Import OrderedMap.

Module Timer.

(** A callback is named by an integer. *)
Record t := mk {
  _callback : Z;
  _expertion_time : Timestamp.t;
  _interval : Double.t;
  _repeated : bool;
  _id : Z
}.

(** The constructor; [id] is what [_created.fetch_add(1)] returned. *)
Definition make (cb : Z) (expertion_time : Timestamp.t) (interval : Double.t) (id : Z) : t :=
  mk cb expertion_time interval (Double.is_positive interval) id.

Definition expertion_time (tm : t) : Timestamp.t := _expertion_time tm.
Definition repeated (tm : t) : bool := _repeated tm.
Definition id (tm : t) : Z := _id tm.

Definition restart (tm : t) (now : Timestamp.t) : res t :=
  if _repeated tm then
    time ← Timestamp.add_seconds_double now (_interval tm);
    mret (mk (_callback tm) time (_interval tm) (_repeated tm) (_id tm))
  else mret (mk (_callback tm) Timestamp.get_invalid (_interval tm) (_repeated tm) (_id tm)).
End Timer.

Module TimerQueue.

(** [TimerID = std::pair<Timestamp, uint64_t>]. *)
Definition TimerID : Type := Z * Z.

(** [UINT64_MAX]. *)
Definition uint64_max : Z := 18446744073709551615.
(** [{now, UINT64_MAX}]: behind every timer that is due. *)
Definition bound (now : Timestamp.t) : TimerID := (now, uint64_max).

(** The queue's members. A [unique_ptr<Timer>] is an [option Timer.t], [None]
    once it is moved from; [_active_timers] holds references into nodes of
    [_timers], here the node's key. [_created] is [Timer::_created], which
    here does not wrap after 2^64 timers: theorems that depend on it bound it. [queued]
    holds the [cancel_in_loop] functors handed to the loop's [queue_in_loop];
    [armed] is the last [it_value] given to [timerfd_settime] and when, until its
    expiration is read; [ticks] counts the
    clock readings and [fired] the timers whose callback was run. *)
Record t := mk {
  _timers : list (TimerID * option Timer.t);
  _active_timers : list (Z * TimerID);
  _calling_expired_timers : bool;
  _canceling_timers : list Z;
  _created : Z;
  queued : list Z;
  armed : option (Timestamp.t * Timestamp.timespec);
  ticks : nat;
  fired : list Z
}.

Definition set_maps (s : t) ts act : t :=
  mk ts act (_calling_expired_timers s) (_canceling_timers s) (_created s)
     (queued s) (armed s) (ticks s) (fired s).
Definition set_calling (s : t) (b : bool) (canceling : list Z) : t :=
  mk (_timers s) (_active_timers s) b canceling (_created s)
     (queued s) (armed s) (ticks s) (fired s).

(** A timer call a callback makes: [add_timer] and [cancel]. *)
Inductive call :=
  | AddTimer (cb : Z) (when : Timestamp.t) (interval : Double.t)
  | CancelTimer (timer_id : Z).

Section operations.
Context {B : Build} (clock : nat -> Timestamp.t) (script : Z -> t -> list call).

Definition make : t := mk [] [] false [] 1 [] None 0 [].

(** [Timestamp::now()]. *)
Definition now (s : t) : Timestamp.t * t :=
  (clock (ticks s),
   mk (_timers s) (_active_timers s) (_calling_expired_timers s) (_canceling_timers s)
      (_created s) (queued s) (armed s) (S (ticks s)) (fired s)).

Definition how_much_time_from_now (when now : Timestamp.t) : res Timestamp.timespec :=
  diff ← Timestamp.diff when now;
  if Timestamp.get_microseconds_in_int64 diff <? 100 then
    diff ← Timestamp.of_duration Timestamp.Microseconds 100;
    mret (Timestamp.to_time_spec diff)
  else mret (Timestamp.to_time_spec diff).

(** [reset_timer_fd]; a failing [timerfd_settime] is only logged. *)
Definition reset_timer_fd (s : t) (expiration : Timestamp.t) : res t :=
  let '(n, s) := now s in
  it_value ← how_much_time_from_now expiration n;
  mret (mk (_timers s) (_active_timers s) (_calling_expired_timers s) (_canceling_timers s)
           (_created s) (queued s) (Some (n, it_value)) (ticks s) (fired s)).

(** When the descriptor becomes readable. *)
Definition deadline (s : t) : option Timestamp.t :=
  (fun '(n, spec) => n + (Timestamp.tv_sec spec * 1000000000 + Timestamp.tv_nsec spec)) <$> armed s.
(** [read] takes the expiration, if there is one; what it returns is only logged. The
    descriptor has no interval: it stays disarmed. *)
Definition read_timer_fd (s : t) (now : Timestamp.t) : t :=
  match deadline s with
  | Some d =>
      if d <=? now
      then mk (_timers s) (_active_timers s) (_calling_expired_timers s) (_canceling_timers s)
             (_created s) (queued s) None (ticks s) (fired s)
      else s
  | None => s
  end.

Definition sizes_equal (s : t) : bool := zlen (_timers s) =? zlen (_active_timers s).

Definition insert (timer : Timer.t) (s : t) : res (bool * t) :=
  _ ← assert_ (sizes_equal s);
  let when := Timer.expertion_time timer in
  let earliestChanged :=
    match StdMap.begin_ (_timers s) with
    | None => true
    | Some k => Timestamp.lt when k.1
    end in
  let key : TimerID := (when, Timer.id timer) in
  let '(ts, inserted) := StdMap.insert key (Some timer) (_timers s) in
  _ ← assert_ inserted;
  match StdMap.find key ts with
  | Some (Some entry_timer) =>
      let '(act, inserted) := StdMap.insert (Timer.id entry_timer) key (_active_timers s) in
      _ ← assert_ inserted;
      mret (earliestChanged, set_maps s ts act)
  | _ => Stop UndefinedBehaviour
  end.

Definition add_timer (cb : Z) (when : Timestamp.t) (interval : Double.t) (s : t) : res (Z * t) :=
  let timer := Timer.make cb when interval (_created s) in
  let s := mk (_timers s) (_active_timers s) (_calling_expired_timers s) (_canceling_timers s)
              (_created s + 1) (queued s) (armed s) (ticks s) (fired s) in
  let id := Timer.id timer in
  let expertion_time := Timer.expertion_time timer in
  '(earlies_changed, s) ← insert timer s;
  if (earlies_changed : bool) then
    s ← reset_timer_fd s expertion_time; mret (id, s)
  else mret (id, s).

(** [cancel] queues [cancel_in_loop]. *)
Definition cancel (timer_id : Z) (s : t) : t :=
  mk (_timers s) (_active_timers s) (_calling_expired_timers s) (_canceling_timers s)
     (_created s) (queued s ++ [timer_id]) (armed s) (ticks s) (fired s).

Definition cancel_in_loop (timer_id : Z) (s : t) : res t :=
  s ←
    match StdMap.find timer_id (_active_timers s) with
    | Some node =>
        match StdMap.find node (_timers s) with
        | Some (Some timer) =>
            let key : TimerID := (Timer.expertion_time timer, timer_id) in
            let n := StdMap.erase_count key (_timers s) in
            _ ← assert_ (n =? 1);
            mret (set_maps s (StdMap.erase key (_timers s))
                    (StdMap.erase timer_id (_active_timers s)))
        | _ => Stop UndefinedBehaviour
        end
    | None =>
        if _calling_expired_timers s then
          mret (set_calling s true (timer_id :: _canceling_timers s))
        else mret s
    end;
  _ ← assert_ (sizes_equal s);
  mret s.

(** The queued cancellations, as [do_pending_functors] runs them. *)
Fixpoint run_queued (ids : list Z) (s : t) : res t :=
  match ids with
  | [] => mret s
  | id :: ids' => s ← cancel_in_loop id s; run_queued ids' s
  end.
Definition do_pending (s : t) : res t :=
  run_queued (queued s)
    (mk (_timers s) (_active_timers s) (_calling_expired_timers s) (_canceling_timers s)
        (_created s) [] (armed s) (ticks s) (fired s)).

(** Running a callback: its timer calls, in order. *)
Fixpoint run_calls (calls : list call) (s : t) : res t :=
  match calls with
  | [] => mret s
  | AddTimer cb when interval :: calls' =>
      '(_, s) ← add_timer cb when interval s; run_calls calls' s
  | CancelTimer timer_id :: calls' => run_calls calls' (cancel timer_id s)
  end.
Definition log_fired (timer : Timer.t) (s : t) : t :=
  mk (_timers s) (_active_timers s) (_calling_expired_timers s) (_canceling_timers s)
     (_created s) (queued s) (armed s) (ticks s) (fired s ++ [Timer.id timer]).
Definition run (timer : Timer.t) (s : t) : res t :=
  let s := log_fired timer s in
  run_calls (script (Timer._callback timer) s) s.

(** [while (ptr != iter)] of [handle_read], with fuel; iterators are keys, and
    [expired] collects the timers moved out of the map. *)
Fixpoint expire_loop (fuel : nat) (ptr iter : option TimerID) (expired : list Timer.t) (s : t)
    : res (list Timer.t * t) :=
  match fuel with
  | O => Stop FuelExhausted
  | S fuel' =>
      if decide (ptr = iter) then mret (expired, s) else
      match ptr with
      | None => Stop UndefinedBehaviour
      | Some k =>
          match StdMap.find k (_timers s) with
          | Some (Some timer) =>
              s ← run timer s;
              match StdMap.find k (_timers s) with
              | Some (Some timer) =>
                  let s := set_maps s (StdMap.assign k None (_timers s))
                             (StdMap.erase k.2 (_active_timers s)) in
                  expire_loop fuel' (StdMap.next k (_timers s)) iter (expired ++ [timer]) s
              | _ => Stop UndefinedBehaviour
              end
          | _ => Stop UndefinedBehaviour
          end
      end
  end.

Fixpoint reinsert (expired : list Timer.t) (now : Timestamp.t) (s : t) : res t :=
  match expired with
  | [] => mret s
  | it :: expired' =>
      if Timer.repeated it && bool_decide (Timer.id it ∉ _canceling_timers s) then
        it ← Timer.restart it now;
        '(_, s) ← insert it s;
        reinsert expired' now s
      else reinsert expired' now s
  end.

Definition reset (expired : list Timer.t) (now : Timestamp.t) (s : t) : res t :=
  s ← reinsert expired now s;
  next_expired ←
    match _timers s with
    | [] => mret Timestamp.get_invalid
    | (_, Some timer) :: _ => mret (Timer.expertion_time timer)
    | (_, None) :: _ => Stop UndefinedBehaviour
    end;
  if Timestamp.valid next_expired then reset_timer_fd s next_expired else mret s.

(** [handle_read], on the loop's thread. *)
Definition handle_read (fuel : nat) (s : t) : res t :=
  let '(now, s) := now s in
  let s := read_timer_fd s now in
  let iter := StdMap.lower_bound (bound now) (_timers s) in
  let s := set_calling s true [] in
  '(expired, s) ← expire_loop fuel (StdMap.begin_ (_timers s)) iter [] s;
  let s := set_maps s (StdMap.erase_before iter (_timers s)) (_active_timers s) in
  let s := set_calling s false (_canceling_timers s) in
  reset expired now s.

(** The loop's interface ([EventLoop::run_at], [run_after], [run_every]). *)
Definition run_at (time : Timestamp.t) (cb : Z) (s : t) : res (Z * t) :=
  add_timer cb time (Double.of_Z 0) s.
Definition run_after (delay : Double.t) (cb : Z) (s : t) : res (Z * t) :=
  let '(n, s) := now s in
  time ← Timestamp.add_seconds_double n delay;
  run_at time cb s.
Definition run_every (interval : Double.t) (cb : Z) (s : t) : res (Z * t) :=
  let '(n, s) := now s in
  time ← Timestamp.add_seconds_double n interval;
  add_timer cb time interval s.
End operations.
End TimerQueue.

(** ** The queue's invariant *)

Module TimerSpec.
Import TimerQueue.

Definition key_of (tm : Timer.t) : TimerID := (Timer.expertion_time tm, Timer.id tm).

(** Inside [handle_read] the nodes in [D] hold moved-from timers; elsewhere [D]
    is empty. The other nodes and the entries of [_active_timers] correspond one
    to one, and each timer sits under its own time and id. *)
Record wfx (D : list TimerID) (s : t) : Prop := mk_wfx {
  wf_sorted : StdMap.sorted (_timers s);
  wf_dead : forall k v, StdMap.find k (_timers s) = Some v -> k ∈ D -> v = None;
  wf_entry : forall k v, StdMap.find k (_timers s) = Some v -> k ∉ D ->
    exists tm, v = Some tm /\ k = key_of tm;
  wf_active_sorted : StdMap.sorted (_active_timers s);
  wf_active : forall id k, StdMap.find id (_active_timers s) = Some k <->
    k ∈ (_timers s).*1 /\ (k ∉ D) /\ k.2 = id;
  wf_ids : forall k, k ∈ (_timers s).*1 -> 0 <= k.2 < _created s;
  wf_created : 0 <= _created s;
  wf_size : length (_timers s) = (length D + length (_active_timers s))%nat
}.
Definition wf (s : t) : Prop := wfx [] s.

(** Clock readings and expiration times that keep differences in 64 bits: the
    first 146 years of the epoch, without its first instant, the invalid time. *)
Definition sane (time : Timestamp.t) : Prop := 0 < time < 4611686018427387904.

Lemma find_is_elem {K V} `{OrderedKey K} (k : K) (m : list (K * V)) :
  k ∈ m.*1 -> exists v, StdMap.find k m = Some v.
Proof.
  intros Hk. destruct (StdMap.find k m) as [v|] eqn:E; [eauto |].
  by apply find_None in E.
Qed.

Lemma find_in_keys {K V} `{OrderedKey K} (k : K) (v : V) m :
  StdMap.find k m = Some v -> k ∈ m.*1.
Proof. intros E%find_elem. apply list_elem_of_fmap. by exists (k, v). Qed.

Lemma find_assign_cases {K V} `{OrderedKey K} (k k' : K) (v v' : V) m :
  StdMap.find k' (StdMap.assign k v m) = Some v' ->
  (k' = k /\ v' = v) \/ (k' <> k /\ StdMap.find k' m = Some v').
Proof.
  destruct (decide (k' = k)) as [->|Hne].
  - rewrite find_assign_eq. naive_solver.
  - rewrite find_assign_ne by done. naive_solver.
Qed.

Lemma map_insert_new {K V} `{OrderedKey K} (k : K) (v : V) m :
  k ∉ m.*1 -> StdMap.insert k v m = (StdMap.assign k v m, true).
Proof. intros Hk. unfold StdMap.insert. by rewrite (proj2 (find_None k m)). Qed.

Section spec.
Context {B : Build}.

Definition set_created (s : t) n : t :=
  mk (_timers s) (_active_timers s) (_calling_expired_timers s) (_canceling_timers s)
     n (queued s) (armed s) (ticks s) (fired s).

Definition earliest (tm : Timer.t) (s : t) : bool :=
  match StdMap.begin_ (_timers s) with
  | None => true
  | Some k => Timestamp.lt (Timer.expertion_time tm) k.1
  end.

Lemma insert_spec D tm s :
  wfx D s -> (ndebug = true \/ D = []) ->
  StdMap.find (Timer.id tm) (_active_timers s) = None ->
  key_of tm ∉ (_timers s).*1 -> 0 <= Timer.id tm < _created s -> key_of tm ∉ D ->
  insert tm s = Ret (earliest tm s, set_maps s
      (StdMap.assign (key_of tm) (Some tm) (_timers s))
      (StdMap.assign (Timer.id tm) (key_of tm) (_active_timers s))) /\
    wfx D (set_maps s
      (StdMap.assign (key_of tm) (Some tm) (_timers s))
      (StdMap.assign (Timer.id tm) (key_of tm) (_active_timers s))).
Proof.
  intros Hw HD Ha Hk Hid HkD. unfold insert, sizes_equal.
  assert (assert_ (zlen (_timers s) =? zlen (_active_timers s)) = Ret tt) as ->.
  { destruct HD as [HD| ->]; [unfold assert_; by rewrite HD |].
    apply assert_true. apply Z.eqb_eq. rewrite (wf_size _ _ Hw). done. }
  cbn [mbind res_bind]. fold (key_of tm). rewrite map_insert_new by done.
  rewrite assert_true by done. cbn [mbind res_bind]. rewrite find_assign_eq.
  rewrite map_insert_new by (by apply find_None).
  rewrite assert_true by done. cbn [mbind res_bind].
  split; [reflexivity |].
  constructor; cbn [_timers _active_timers set_maps _created].
  - apply sorted_assign, Hw.
  - intros k v [[-> ->]|[_ Hf]]%find_assign_cases Hd; [done |]. by apply (wf_dead _ _ Hw k).
  - intros k v [[-> ->]|[_ Hf]]%find_assign_cases Hd; [by exists tm |]. by apply (wf_entry _ _ Hw).
  - apply sorted_assign, Hw.
  - intros id k. destruct (decide (id = Timer.id tm)) as [->|Hne].
    + rewrite find_assign_eq. split.
      * intros [= <-]. split_and!; [apply elem_of_assign; by left | done | done].
      * intros ([->|Hin]%elem_of_assign & Hd & E); [done |].
        assert (StdMap.find (Timer.id tm) (_active_timers s) = Some k) as Hf
          by (by apply (wf_active _ _ Hw)). congruence.
    + rewrite find_assign_ne by done. rewrite (wf_active _ _ Hw), elem_of_assign.
      split; [naive_solver |]. intros ([->|] & ? & E); [by cbn in E | done].
  - intros k [->|Hin]%elem_of_assign; [done |]. by apply (wf_ids _ _ Hw).
  - apply Hw.
  - rewrite !length_assign_new by (done || by apply find_None).
    rewrite (wf_size _ _ Hw). lia.
Qed.

(** The delay given to [timerfd_settime] is positive and normal. *)
Lemma how_much_spec when n :
  sane when -> sane n ->
  exists spec, how_much_time_from_now when n = Ret spec /\
    0 <= Timestamp.tv_sec spec /\ 0 <= Timestamp.tv_nsec spec < 1000000000 /\
    let delay := Timestamp.tv_sec spec * 1000000000 + Timestamp.tv_nsec spec in
    delay = if when - n <? 100000 then 100000 else when - n.
Proof.
  unfold sane. intros Hwhen Hn. unfold how_much_time_from_now, Timestamp.diff.
  rewrite i64_checked_Ret by (unfold Timestamp.representable, int64_max; lia).
  cbn [mbind res_bind]. unfold Timestamp.get_microseconds_in_int64, Timestamp.get_val_in_int64,
    Timestamp.Microseconds.
  assert (Hspec : forall d, 0 <= d ->
    let spec := Timestamp.to_time_spec d in
    0 <= Timestamp.tv_sec spec /\ 0 <= Timestamp.tv_nsec spec < 1000000000 /\
    Timestamp.tv_sec spec * 1000000000 + Timestamp.tv_nsec spec = d).
  { intros d Hd. unfold Timestamp.to_time_spec, Timestamp.get_seconds_in_int64,
      Timestamp.get_nanoseconds_in_int64, Timestamp.get_val_in_int64, Timestamp.Seconds,
      Timestamp.Nanoseconds. cbn [Timestamp.tv_sec Timestamp.tv_nsec].
    rewrite Z.quot_1_r. change Timestamp.SECOND_TO_NANOSECOND with 1000000000.
    pose proof (Z.quot_rem' d 1000000000). pose proof (Z.rem_bound_pos d 1000000000 Hd eq_refl).
    pose proof (Z.quot_pos d 1000000000 Hd eq_refl). lia. }
  pose proof (Z.quot_rem' (when - n) 1000) as Hq.
  destruct (Z.ltb_spec (when - n) 100000) as [Hlt|Hge].
  - rewrite (proj2 (Z.ltb_lt _ _)).
    2:{ clear Hspec Hq. Z.to_euclidean_division_equations. lia. }
    rewrite (eq_refl : Timestamp.of_duration 1000 100 = Ret 100000). cbn [mbind res_bind].
    eexists; split; [reflexivity |]. by apply (Hspec 100000).
  - rewrite (proj2 (Z.ltb_ge _ _)) by (pose proof (Z.rem_bound_pos (when - n) 1000 ltac:(lia) eq_refl); lia).
    eexists; split; [reflexivity |]. apply Hspec. lia.
Qed.

Context (clock : nat -> Timestamp.t) (Hclock : forall n, sane (clock n)).

Lemma reset_timer_fd_spec s when :
  sane when ->
  exists spec, how_much_time_from_now when (clock (ticks s)) = Ret spec /\
    reset_timer_fd clock s when
    = Ret (mk (_timers s) (_active_timers s) (_calling_expired_timers s) (_canceling_timers s)
             (_created s) (queued s) (Some (clock (ticks s), spec)) (S (ticks s)) (fired s)).
Proof.
  intros Hs. destruct (how_much_spec when (clock (ticks s)) Hs (Hclock _)) as (spec & E & _).
  exists spec. split; [done |]. unfold reset_timer_fd. cbn [now]. by rewrite E.
Qed.

Lemma read_timer_fd_eq s n : exists a,
  read_timer_fd s n
  = mk (_timers s) (_active_timers s) (_calling_expired_timers s) (_canceling_timers s)
      (_created s) (queued s) a (ticks s) (fired s).
Proof.
  unfold read_timer_fd. destruct (deadline s) as [d|]; [| by exists (armed s); destruct s].
  destruct (d <=? n); [by exists None | by exists (armed s); destruct s].
Qed.

(** Only the timers and their index matter to the invariant. *)
Lemma wfx_ext D s s' :
  _timers s' = _timers s -> _active_timers s' = _active_timers s -> _created s <= _created s' ->
  wfx D s -> wfx D s'.
Proof.
  intros Et Ea Ec Hw. destruct Hw as [H1 H2 H3 H4 H5 H6 H7 H8].
  constructor; rewrite ?Et, ?Ea; try done; [| lia].
  intros k Hk. specialize (H6 k Hk). lia.
Qed.

Lemma add_timer_spec D cb when interval s :
  wfx D s -> (ndebug = true \/ D = []) -> sane when ->
  (forall k, k ∈ D -> k ∈ (_timers s).*1) ->
  exists s', add_timer clock cb when interval s = Ret (_created s, s') /\
    let tm := Timer.make cb when interval (_created s) in
    _timers s' = StdMap.assign (key_of tm) (Some tm) (_timers s) /\
    _active_timers s' = StdMap.assign (_created s) (key_of tm) (_active_timers s) /\
    _created s' = _created s + 1 /\ queued s' = queued s /\ fired s' = fired s /\
    _calling_expired_timers s' = _calling_expired_timers s /\
    _canceling_timers s' = _canceling_timers s /\ wfx D s' /\
    (earliest tm s = true -> exists spec, armed s' = Some (clock (ticks s), spec) /\
       how_much_time_from_now when (clock (ticks s)) = Ret spec) /\
    (earliest tm s = false -> armed s' = armed s) /\
    (ticks s <= ticks s')%nat.
Proof.
  intros Hw HD Hs Hdead. unfold add_timer.
  set (tm := Timer.make cb when interval (_created s)).
  set (s1 := mk _ _ _ _ (_created s + 1) _ _ _ _).
  assert (Hfresh : key_of tm ∉ (_timers s).*1).
  { intros Hin. apply (wf_ids _ _ Hw) in Hin. cbn in Hin. lia. }
  pose proof (wf_created _ _ Hw) as Hc.
  assert (Hw1 : wfx D s1) by (apply (wfx_ext D s); cbn; (done || lia)).
  destruct (insert_spec D tm s1) as (-> & Hw2); try done.
  { destruct (StdMap.find _ _) as [k|] eqn:E; [| done].
    apply (wf_active _ _ Hw) in E as (Hin & _ & E). apply (wf_ids _ _ Hw) in Hin.
    cbn in E. lia. }
  { cbn. lia. }
  { intros Hin. by apply Hfresh, Hdead. }
  cbn [mbind res_bind]. change (earliest tm s1) with (earliest tm s).
  destruct (earliest tm s).
  - set (s2 := set_maps s1 _ _) in *.
    destruct (reset_timer_fd_spec s2 (Timer.expertion_time tm) Hs) as (spec & Es & ->).
    cbn [mbind res_bind]. eexists; split; [reflexivity |].
    split_and!; try done; [by apply (wfx_ext D s2) | intros _; by exists spec | cbn; lia].
  - eexists; split; [reflexivity |]. split_and!; done.
Qed.

(** A call a callback may make while [handle_read] stands before [iter]: a
    timer may be added if it sorts behind [iter] (a debug build does not survive
    even that, see [second_callback_adds_timer]); anything may be cancelled. *)
Definition late (iter : option TimerID) (c : call) : Prop :=
  match c with
  | AddTimer _ when _ => ndebug = true /\ sane when /\ exists k, iter = Some k /\ k.1 <= when
  | CancelTimer _ => True
  end.

Record same_frame (s s' : t) : Prop := mk_frame {
  sf_calling : _calling_expired_timers s' = _calling_expired_timers s;
  sf_canceling : _canceling_timers s' = _canceling_timers s;
  sf_fired : fired s' = fired s;
  sf_created : _created s <= _created s'
}.

Lemma same_frame_trans s1 s2 s3 : same_frame s1 s2 -> same_frame s2 s3 -> same_frame s1 s3.
Proof. intros [] []. constructor; (congruence || lia). Qed.

Definition keeps (R R' : list (TimerID * option Timer.t)) : Prop :=
  forall k v, StdMap.find k R = Some v -> StdMap.find k R' = Some v.

(** What a map may gain while callbacks run. *)
Definition only_new (s : t) (R R' : list (TimerID * option Timer.t)) : Prop :=
  forall k : TimerID, k ∈ R'.*1 -> k ∈ R.*1 \/ (sane k.1 /\ _created s <= k.2).

Lemma run_calls_spec D X R calls s :
  wfx D s -> _timers s = X ++ R -> (forall k, k ∈ D -> k ∈ X.*1) ->
  Forall (late (StdMap.begin_ R)) calls ->
  exists s' R', run_calls clock calls s = Ret s' /\ _timers s' = X ++ R' /\
    StdMap.begin_ R' = StdMap.begin_ R /\ keeps R R' /\ only_new s R R' /\
    wfx D s' /\ same_frame s s'.
Proof.
  revert R s. induction calls as [|c calls IH]; intros R s Hw Ht HD Hc; cbn [run_calls].
  { exists s, R. split_and!; [done | done | done | by intros k v | by left | done |].
    constructor; (done || lia). }
  apply Forall_cons in Hc as [Hc Hcs]. destruct c as [cb when interval|id].
  - destruct Hc as (Hnd & Hs & k0 & Hb & Hk0).
    destruct (add_timer_spec D cb when interval s Hw) as
      (s1 & -> & Ets & _ & Ec & _ & Ef & Ecal & Ecan & Hw1 & _); [by left | done | |].
    { intros k Hk. rewrite Ht, fmap_app, elem_of_app. left. auto. }
    cbn [mbind res_bind]. set (tm := Timer.make cb when interval (_created s)) in *.
    destruct R as [|[k v] R]; [done |]. injection Hb as ->.
    pose proof (wf_sorted _ _ Hw) as Hsort. rewrite Ht in Hsort.
    apply sorted_app in Hsort as (_ & HR & HXR).
    assert (Hlt : key_lt k0 (key_of tm)).
    { assert (k0.2 < _created s) by (apply (wf_ids _ _ Hw); rewrite Ht, fmap_app, elem_of_app;
        right; by left). cbn. lia. }
    assert (E : _timers s1 = X ++ (k0, v) :: StdMap.assign (key_of tm) (Some tm) R).
    { rewrite Ets, Ht, assign_app.
      - f_equal. cbn [StdMap.assign].
        rewrite decide_False by (intros ?; apply (key_lt_irrefl k0); by etrans).
        rewrite decide_False by (intros E; apply (key_lt_irrefl k0); by rewrite E at 2).
        done.
      - intros k' Hk'. etrans; [apply HXR; [done | by left] | done]. }
    destruct (IH ((k0, v) :: StdMap.assign (key_of tm) (Some tm) R) s1 Hw1 E HD)
      as (s2 & R' & E2 & Et2 & Eb2 & Hk2 & Hn2 & Hw2 & Hf2); [done |].
    exists s2, R'. split_and!; [done | done | done | | | done |].
    + intros k v' Hf. apply Hk2. cbn in *. case_decide; [done |].
      rewrite find_assign_ne; [done |]. intros <-. apply find_in_keys in Hf.
      assert (Hin : key_of tm ∈ (_timers s).*1)
        by (rewrite Ht, fmap_app, elem_of_app; right; by right).
      apply (wf_ids _ _ Hw) in Hin. cbn in Hin. lia.
    + intros k [[->|[->|]%elem_of_assign]%elem_of_cons|[? ?]]%Hn2.
      * left. by left.
      * right. split; [done | cbn; lia].
      * left. by right.
      * right. split; [done | lia].
    + eapply same_frame_trans; [| done]. constructor; (congruence || lia).
  - destruct (IH R (cancel id s)) as (s2 & R' & ? & ? & ? & ? & ? & ? & Hf); try done.
    { by apply (wfx_ext D s). }
    exists s2, R'. split_and!; try done. by destruct Hf; constructor.
Qed.

(** Moving a fired timer out of its node. *)
Lemma moved_spec D A k tm X s :
  wfx D s -> _timers s = A ++ (k, Some tm) :: X -> k ∉ D ->
  let s' := set_maps s (StdMap.assign k None (_timers s)) (StdMap.erase k.2 (_active_timers s)) in
  wfx (D ++ [k]) s' /\ _timers s' = (A ++ [(k, None)]) ++ X /\
  StdMap.next k (_timers s') = StdMap.begin_ X.
Proof.
  intros Hw Ht Hk s'. pose proof (wf_sorted _ _ Hw) as Hs.
  assert (Hin : k ∈ (_timers s).*1).
  { rewrite Ht, fmap_app, elem_of_app. right. by left. }
  assert (Et : _timers s' = A ++ (k, None) :: X).
  { cbn [_timers s' set_maps]. rewrite Ht in *. rewrite assign_app, assign_head; [done |].
    apply sorted_app in Hs as (_ & _ & HX). intros k' Hk'. apply HX; [done | by left]. }
  assert (Hs' : StdMap.sorted (A ++ (k, None) :: X)) by (rewrite <- Et; by apply sorted_assign).
  split_and!; [| by rewrite Et, <- app_assoc | by rewrite Et; apply next_app].
  assert (Hkeys : forall k', k' ∈ (_timers s').*1 <-> k' ∈ (_timers s).*1).
  { intros k'. rewrite Et, Ht, !fmap_app. done. }
  assert (Ha : StdMap.find k.2 (_active_timers s) = Some k) by (by apply (wf_active _ _ Hw)).
  constructor; cbn [_active_timers _created s' set_maps].
  - by rewrite Et.
  - intros k' v Hf Hd. apply elem_of_app in Hd as [Hd|Hd%list_elem_of_singleton].
    + apply find_assign_cases in Hf as [[-> ->]|[_ Hf]]; [done | by apply (wf_dead _ _ Hw k')].
    + subst k'. cbn [_timers s' set_maps] in Hf. rewrite find_assign_eq in Hf. by injection Hf.
  - intros k' v Hf Hd. rewrite elem_of_app, list_elem_of_singleton in Hd.
    apply find_assign_cases in Hf as [[-> ->]|[_ Hf]]; [naive_solver |].
    apply (wf_entry _ _ Hw); naive_solver.
  - apply sorted_erase, Hw.
  - intros id k'. rewrite Hkeys, elem_of_app, list_elem_of_singleton.
    destruct (decide (id = k.2)) as [->|Hne].
    + rewrite find_erase_eq by apply Hw. split; [done |]. intros (H1 & H2 & H3).
      assert (StdMap.find k.2 (_active_timers s) = Some k') as Hf
        by (apply (wf_active _ _ Hw); naive_solver). naive_solver.
    + rewrite find_erase_ne by done. rewrite (wf_active _ _ Hw). naive_solver.
  - intros k' Hk'. apply Hkeys in Hk'. by apply (wf_ids _ _ Hw).
  - apply Hw.
  - rewrite Et, length_app, (length_app D). pose proof (wf_size _ _ Hw) as Hz.
    rewrite Ht, length_app in Hz. pose proof (length_erase _ _ _ Ha). cbn in *. lia.
Qed.

Definition entry (tm : Timer.t) : TimerID * option Timer.t := (key_of tm, Some tm).
Definition moved (tm : Timer.t) : TimerID * option Timer.t := (key_of tm, None).

Lemma find_entry D A tm X s :
  wfx D s -> _timers s = A ++ entry tm :: X -> StdMap.find (key_of tm) (_timers s) = Some (Some tm).
Proof.
  intros Hw Ht. apply sorted_find; [apply Hw |].
  rewrite Ht, elem_of_app. right. by left.
Qed.

Lemma same_frame_refl s : same_frame s s.
Proof. constructor; (done || lia). Qed.

(** [_timers.erase(_timers.begin(), iter)] drops exactly the moved-from nodes. *)
Lemma erase_moved A R s :
  wfx A.*1 s -> _timers s = A ++ R ->
  wf (set_maps s (StdMap.erase_before (StdMap.begin_ R) (_timers s)) (_active_timers s)) /\
  StdMap.erase_before (StdMap.begin_ R) (_timers s) = R.
Proof.
  intros Hw Ht. pose proof (wf_sorted _ _ Hw) as Hs. rewrite Ht in Hs.
  assert (E : StdMap.erase_before (StdMap.begin_ R) (_timers s) = R)
    by (rewrite Ht; by apply erase_before_app).
  split; [| done]. rewrite E. apply sorted_app in Hs as (_ & HR & HX).
  assert (HnA : forall k, k ∈ R.*1 -> k ∉ A.*1).
  { intros k Hk HkA. by apply (key_lt_irrefl k), HX. }
  assert (Hfind : forall k v, StdMap.find k R = Some v -> StdMap.find k (_timers s) = Some v).
  { intros k v Hf. rewrite Ht, find_app; [done |]. apply HnA. by eapply find_in_keys. }
  constructor; cbn [_timers _active_timers _created set_maps].
  - done.
  - by intros k v _ []%elem_of_nil.
  - intros k v Hf _. apply (wf_entry _ _ Hw); [by apply Hfind |].
    apply HnA. by eapply find_in_keys.
  - apply Hw.
  - intros id k. rewrite (wf_active _ _ Hw), Ht, fmap_app, elem_of_app.
    rewrite elem_of_nil. naive_solver.
  - intros k Hk. apply (wf_ids _ _ Hw). rewrite Ht, fmap_app, elem_of_app. by right.
  - apply Hw.
  - pose proof (wf_size _ _ Hw) as Hz. rewrite Ht, length_app, length_fmap in Hz. cbn. lia.
Qed.

Context (script : Z -> t -> list call).

Lemma expire_loop_spec iter tms fuel A R s expired :
  wfx A.*1 s -> _timers s = A ++ map entry tms ++ R -> iter = StdMap.begin_ R ->
  (forall tm s', tm ∈ tms -> Forall (late iter) (script (Timer._callback tm) s')) ->
  (length tms < fuel)%nat ->
  exists s' R', expire_loop clock script fuel (StdMap.begin_ (map entry tms ++ R)) iter expired s
      = Ret (expired ++ tms, s') /\
    _timers s' = (A ++ map moved tms) ++ R' /\ StdMap.begin_ R' = StdMap.begin_ R /\
    keeps R R' /\ only_new s R R' /\ wfx (A ++ map moved tms).*1 s' /\
    fired s' = fired s ++ map Timer.id tms /\
    _canceling_timers s' = _canceling_timers s /\ _created s <= _created s'.
Proof.
  revert fuel A R s expired. induction tms as [|tm tms IH];
    intros [|fuel] A R s expired Hw Ht Hi Hlate Hf; cbn [length] in Hf; try lia;
    cbn [expire_loop map app] in *.
  { rewrite decide_True by done. exists s, R. rewrite !app_nil_r. split_and!; (done || lia || (by intros ?) || by left). }
  assert (Hsort : StdMap.sorted (A ++ entry tm :: map entry tms ++ R)) by (rewrite <- Ht; apply Hw).
  change (StdMap.begin_ (entry tm :: map entry tms ++ R)) with (Some (key_of tm)).
  rewrite decide_False.
  2:{ rewrite Hi. apply sorted_app in Hsort as (_ & Hsort & _).
      by apply (begin_app_ne (entry tm :: map entry tms) R). }
  rewrite (find_entry _ _ _ _ _ Hw Ht). unfold run at 1.
  set (s1 := log_fired tm s).
  destruct (run_calls_spec A.*1 (A ++ entry tm :: map entry tms) R
    (script (Timer._callback tm) s1) s1) as (s2 & R2 & -> & Et2 & Eb2 & Hk2 & Hn2 & Hw2 & Hf2).
  { by apply (wfx_ext _ s). }
  { cbn [_timers s1 log_fired]. by rewrite Ht, <- app_assoc. }
  { intros k Hk. rewrite fmap_app, elem_of_app. by left. }
  { rewrite <- Hi. apply Hlate. by left. }
  cbn [mbind res_bind]. rewrite <- app_assoc in Et2. cbn [app] in Et2.
  rewrite (find_entry _ _ _ _ _ Hw2 Et2).
  assert (HkA : key_of tm ∉ A.*1).
  { intros Hin. apply sorted_app in Hsort as (_ & _ & HX).
    apply (key_lt_irrefl (key_of tm)), HX; [done | by left]. }
  destruct (moved_spec A.*1 A (key_of tm) tm (map entry tms ++ R2) s2 Hw2 Et2 HkA)
    as (Hw3 & Et3 & En3).
  set (s3 := set_maps s2 _ _) in *. rewrite En3.
  assert (HA : (A ++ [(key_of tm, None)]).*1 = A.*1 ++ [key_of tm]) by (by rewrite fmap_app).
  destruct (IH fuel (A ++ [(key_of tm, None)]) R2 s3 (expired ++ [tm]))
    as (s4 & R4 & -> & Et4 & Eb4 & Hk4 & Hn4 & Hw4 & Ef4 & Ec4 & Ecr4).
  { by rewrite HA. }
  { done. }
  { by rewrite Eb2. }
  { intros tm' s' Hin. apply Hlate. by right. }
  { lia. }
  destruct Hf2 as [_ Ec2 Ef2 Ecr2].
  exists s4, R4. rewrite <- !app_assoc in *. cbn [app] in *. split_and!; try done.
  - congruence.
  - intros k v Hkv. apply Hk4, Hk2, Hkv.
  - intros k [[|]%Hn2|[? Hc]]%Hn4; [by left | by right | right].
    split; [done |]. cbn in *. lia.
  - rewrite Ef4. cbn [fired s3 set_maps]. rewrite Ef2. cbn [fired s1 log_fired]. by rewrite <- app_assoc.
  - rewrite Ec4. cbn [_canceling_timers s3 set_maps]. by rewrite Ec2.
  - cbn in *. lia.
Qed.

(** A repeating timer can be rescheduled. *)
Definition restartable (now : Timestamp.t) (tm : Timer.t) : Prop :=
  Timer.repeated tm = true -> exists time,
    Timestamp.add_seconds_double now (Timer._interval tm) = Ret time /\ sane time.

Definition restarted (tm : Timer.t) (time : Timestamp.t) : Timer.t :=
  Timer.mk (Timer._callback tm) time (Timer._interval tm) (Timer._repeated tm) (Timer._id tm).

Lemma restart_repeated tm n time :
  Timer.repeated tm = true ->
  Timestamp.add_seconds_double n (Timer._interval tm) = Ret time ->
  Timer.restart tm n = Ret (restarted tm time).
Proof.
  unfold Timer.restart, Timer.repeated, restarted. intros E Ht.
  by rewrite E, Ht.
Qed.

(** Ids that are not in the queue, though they were given out. *)
Definition detached (s : t) (tm : Timer.t) : Prop :=
  StdMap.find (Timer.id tm) (_active_timers s) = None /\ 0 <= Timer.id tm < _created s.

Lemma detached_key s tm k :
  wf s -> detached s tm -> k ∈ (_timers s).*1 -> k.2 <> Timer.id tm.
Proof.
  intros Hw [Hn _] Hk E.
  assert (StdMap.find (Timer.id tm) (_active_timers s) = Some k) as Hf; [| congruence].
  apply (wf_active _ _ Hw). split_and!; [done | apply not_elem_of_nil | done].
Qed.

Lemma reinsert_spec n tms s :
  wf s -> _canceling_timers s = [] -> Forall (restartable n) tms -> Forall (detached s) tms ->
  NoDup (map Timer.id tms) ->
  exists s', reinsert tms n s = Ret s' /\ wf s' /\ fired s' = fired s /\
    _created s' = _created s /\ keeps (_timers s) (_timers s') /\
    (forall tm, tm ∈ tms -> Timer.repeated tm = true -> exists time,
       Timestamp.add_seconds_double n (Timer._interval tm) = Ret time /\ sane time /\
       StdMap.find (time, Timer.id tm) (_timers s') = Some (Some (restarted tm time))) /\
    (forall k, k ∈ (_timers s').*1 -> k ∈ (_timers s).*1 \/
       exists tm, tm ∈ tms /\ Timer.repeated tm = true /\ k.2 = Timer.id tm /\ sane k.1) /\
    _calling_expired_timers s' = _calling_expired_timers s.
Proof.
  revert s. induction tms as [|tm tms IH]; intros s Hw Hc Hr Hd Hnd; cbn [reinsert].
  { exists s. split_and!; try done; [by intros ? | by intros ? []%elem_of_nil | by left]. }
  apply Forall_cons in Hr as [Hr Hrs], Hd as [Hd Hds].
  cbn [map] in Hnd. apply NoDup_cons in Hnd as [Hni Hnd].
  rewrite Hc, bool_decide_eq_true_2 by apply not_elem_of_nil. rewrite andb_true_r.
  destruct (Timer.repeated tm) eqn:Erep.
  - destruct (Hr Erep) as (time & Et & Hs).
    rewrite (restart_repeated tm n time) by done. cbn [mbind res_bind].
    assert (Hfresh : key_of (restarted tm time) ∉ (_timers s).*1)
      by (intros Hin; by apply (detached_key s tm _ Hw Hd) in Hin).
    destruct (insert_spec [] (restarted tm time) s) as (-> & Hw1);
      [done | by right | apply Hd | done | apply Hd | apply not_elem_of_nil |].
    cbn [mbind res_bind]. set (s1 := set_maps s _ _) in *.
    destruct (IH s1) as (s2 & -> & Hw2 & Ef & Ec & Hk & Hrep & Hin & Hcl); try done.
    { apply Forall_forall. intros tm' Htm'. rewrite Forall_forall in Hds.
      destruct (Hds tm' Htm') as [Hn Hid]. split; [| done].
      cbn [_active_timers s1 set_maps]. rewrite find_assign_ne; [done |].
      intros E. apply Hni, list_elem_of_fmap. by exists tm'. }
    exists s2. split_and!; try done.
    + intros k v Hf. apply Hk. cbn [_timers s1 set_maps]. rewrite find_assign_ne; [done |].
      intros <-. by apply Hfresh, (find_in_keys _ _ _ Hf).
    + intros tm' [->|Hin']%elem_of_cons Hrep'; [| by apply Hrep].
      exists time. split_and!; [done | done |]. apply Hk. cbn [_timers s1 set_maps].
      apply find_assign_eq.
    + intros k [[->|]%elem_of_assign|(tm' & ? & ?)]%Hin; [right | by left | right].
      * exists tm. split_and!; [by left | done | done | done].
      * exists tm'. split; [by right | done].
  - destruct (IH s) as (s2 & -> & Hw2 & Ef & Ec & Hk & Hrep & Hin & Hcl); try done.
    exists s2. split_and!; try done.
    + intros tm' [->|Hin']%elem_of_cons Hrep'; [congruence | by apply Hrep].
    + intros k [|(tm' & ? & ?)]%Hin; [by left | right]. exists tm'. split; [by right | done].
Qed.

(** [reset] leaves the timer descriptor armed for the earliest timer. *)
Definition armed_for_first (s : t) : Prop :=
  forall k, StdMap.begin_ (_timers s) = Some k ->
    exists n spec, armed s = Some (n, spec) /\ sane n /\ how_much_time_from_now k.1 n = Ret spec.

Lemma reset_spec n tms s :
  wf s -> _canceling_timers s = [] -> Forall (restartable n) tms -> Forall (detached s) tms ->
  NoDup (map Timer.id tms) -> (forall k, k ∈ (_timers s).*1 -> sane k.1) ->
  exists s' s1, reset clock tms n s = Ret s' /\ reinsert tms n s = Ret s1 /\
    _timers s' = _timers s1 /\ _active_timers s' = _active_timers s1 /\
    wf s' /\ fired s' = fired s1 /\
    _calling_expired_timers s' = _calling_expired_timers s1 /\
    armed_for_first s'.
Proof.
  intros Hw Hc Hr Hd Hnd Hsane.
  destruct (reinsert_spec n tms s) as (s1 & E & Hw1 & Ef & Ec & Hk & Hrep & Hin & Hcl); try done.
  unfold reset. rewrite E. cbn [mbind res_bind].
  destruct (_timers s1) as [|[k v] ts] eqn:Et.
  { exists s1, s1. split_and!; try done. intros k Hb. by rewrite Et in Hb. }
  destruct (wf_entry _ _ Hw1 k v) as (tm & -> & Hkt); [rewrite Et; cbn; by rewrite decide_True
    | apply not_elem_of_nil |].
  assert (Hk1 : sane k.1).
  { destruct (Hin k) as [|(tm' & _ & _ & _ & ?)]; [by left | by apply Hsane | done]. }
  cbn [mret res_ret mbind res_bind].
  change (Timer.expertion_time tm) with (key_of tm).1. rewrite <- Hkt.
  unfold Timestamp.valid. rewrite (proj2 (Z.eqb_neq k.1 0)) by (unfold sane in Hk1; lia). cbn [negb].
  destruct (reset_timer_fd_spec s1 k.1 Hk1) as (spec & Es & ->).
  eexists _, s1. split_and!; try reflexivity; [by apply (wfx_ext [] s1) |].
  intros k' Hb. cbn [_timers armed] in *. rewrite Et in Hb. injection Hb as <-.
  exists (clock (ticks s1)), spec. split_and!; [done | apply Hclock | done].
Qed.

Definition timers_of (s : t) : list Timer.t := omap snd (_timers s).
Definition due (n : Timestamp.t) (s : t) : list Timer.t :=
  filter (fun tm => Timer.expertion_time tm <= n) (timers_of s).

Lemma wf_entries_of m :
  (forall k v, (k, v) ∈ m -> exists tm, v = Some tm /\ k = key_of tm) ->
  m = map entry (omap snd m).
Proof.
  induction m as [|[k v] m IH]; intros Hm; [done |].
  destruct (Hm k v) as (tm & -> & ->); [by left |]. cbn. unfold entry at 1. f_equal.
  apply IH. intros. apply Hm. by right.
Qed.

Lemma wf_entries s : wf s -> _timers s = map entry (timers_of s).
Proof.
  intros Hw. apply wf_entries_of. intros k v Hin.
  apply (wf_entry _ _ Hw); [| apply not_elem_of_nil].
  apply sorted_find; [apply Hw | done].
Qed.

Lemma omap_entries tms : omap snd (map entry tms) = tms.
Proof. induction tms as [|tm tms IH]; cbn; congruence. Qed.

Lemma timers_of_find s tm :
  wf s -> tm ∈ timers_of s <-> StdMap.find (key_of tm) (_timers s) = Some (Some tm).
Proof.
  intros Hw. rewrite (wf_entries s Hw). split.
  - intros Hin. apply sorted_find; [rewrite <- wf_entries by done; apply Hw |].
    apply list_elem_of_fmap. by exists tm.
  - intros Hf%find_elem. apply list_elem_of_fmap in Hf as (tm' & E & ?).
    unfold entry in E. by assert (tm = tm') as -> by congruence.
Qed.

Lemma keys_of_timers s k :
  wf s -> k ∈ (_timers s).*1 <-> exists tm, tm ∈ timers_of s /\ k = key_of tm.
Proof.
  intros Hw. rewrite (wf_entries s Hw), list_elem_of_fmap. split.
  - intros (e & -> & (tm & -> & ?)%list_elem_of_fmap). by exists tm.
  - intros (tm & ? & ->). exists (entry tm). split; [done |]. apply list_elem_of_fmap. by exists tm.
Qed.

(** [lower_bound({now, UINT64_MAX})] cuts the map behind the due timers. *)
Lemma due_split n s :
  wf s -> _created s <= uint64_max ->
  exists rest, timers_of s = due n s ++ rest /\
    StdMap.lower_bound (bound n) (_timers s) = StdMap.begin_ (map entry rest) /\
    Forall (fun tm => n < Timer.expertion_time tm) rest.
Proof.
  intros Hw Hc. destruct (lower_bound_split (bound n) (_timers s)) as (m1 & m2 & Em & El & H1 & H2);
    [apply Hw |].
  rewrite (wf_entries s Hw) in Em. apply map_eq_app in Em as (t1 & t2 & Et & <- & <-).
  assert (Hid : forall tm, tm ∈ timers_of s -> (key_of tm).2 < uint64_max).
  { intros tm Hin. assert (0 <= (key_of tm).2 < _created s); [| lia].
    apply (wf_ids _ _ Hw), keys_of_timers; [done |]. by exists tm. }
  exists t2. unfold due. rewrite Et in Hid |- *.
  assert (Hf1 : Forall (fun tm => Timer.expertion_time tm <= n) t1).
  { apply Forall_forall. intros tm Hin. assert (Hlt : key_lt (key_of tm) (bound n)).
    { apply H1. apply list_elem_of_fmap. exists (entry tm). split; [done |].
      apply list_elem_of_fmap. by exists tm. }
    cbn in Hlt. lia. }
  assert (Hf2 : Forall (fun tm => n < Timer.expertion_time tm) t2).
  { apply Forall_forall. intros tm Hin. assert (Hlt : ~ key_lt (key_of tm) (bound n)).
    { apply H2. apply list_elem_of_fmap. exists (entry tm). split; [done |].
      apply list_elem_of_fmap. by exists tm. }
    specialize (Hid tm ltac:(apply elem_of_app; by right)). cbn in Hlt, Hid. lia. }
  split_and!; [| done | done].
  rewrite filter_app. f_equal. rewrite (filter_keep_all _ t1) by done.
  rewrite (filter_keep_none _ t2), app_nil_r; [done |].
  eapply Forall_impl; [done |]. cbn. lia.
Qed.
End spec.
End TimerSpec.

(** * Properties *)

(** Into [handle_read], past the clock and the descriptor. *)
Ltac enter_handle_read :=
  unfold TimerQueue.handle_read; cbn [TimerQueue.now];
  match goal with
  | |- context [TimerQueue.read_timer_fd ?s1 ?n] =>
      let a := fresh "a" in destruct (TimerSpec.read_timer_fd_eq s1 n) as [a ->]
  end;
  cbn [TimerQueue._timers].

Section handle_read.
Import TimerQueue TimerSpec.
Context {B : Build} (clock : nat -> Timestamp.t) (script : Z -> t -> list call).
Context (Hclock : forall n, sane (clock n)).

(** The ids of due timers are not in the queue once the due nodes are gone. *)
Lemma due_detached n s rest R' s1 :
  wf s -> wf s1 -> timers_of s = due n s ++ rest -> _timers s1 = R' -> _created s <= _created s1 ->
  only_new s (map entry rest) R' -> Forall (detached s1) (due n s).
Proof.
  intros Hw Hw1 Et E1 Hc Hn. apply Forall_forall. intros tm Hin.
  assert (Hkey : key_of tm ∈ (_timers s).*1).
  { apply keys_of_timers; [done |]. exists tm. split; [| done]. rewrite Et, elem_of_app. by left. }
  pose proof (wf_ids _ _ Hw _ Hkey) as Hid.
  change (key_of tm).2 with (Timer.id tm) in Hid. split; [| lia].
  destruct (StdMap.find _ _) as [k|] eqn:Ef; [| done].
  apply (wf_active _ _ Hw1) in Ef as (Hk & _ & Ek). rewrite E1 in Hk.
  destruct (Hn k Hk) as [Hr|[_ Hge]]; [| lia].
  exfalso. assert (E : key_of tm = k).
  { assert (Hk' : k ∈ (_timers s).*1).
    { rewrite (wf_entries s Hw), Et, map_app, fmap_app, elem_of_app. by right. }
    pose proof (wf_active _ _ Hw (Timer.id tm)) as Ha.
    assert (StdMap.find (Timer.id tm) (_active_timers s) = Some (key_of tm)) as F1
      by (apply Ha; split_and!; [done | apply not_elem_of_nil | done]).
    assert (StdMap.find (Timer.id tm) (_active_timers s) = Some k) as F2
      by (apply Ha; split_and!; [done | apply not_elem_of_nil | done]). congruence. }
  pose proof (wf_sorted _ _ Hw) as Hs. rewrite (wf_entries s Hw), Et, map_app in Hs.
  apply sorted_app in Hs as (_ & _ & Hlt). apply (key_lt_irrefl k), Hlt; [| done].
  apply list_elem_of_fmap. exists (entry tm). split; [by rewrite <- E |].
  apply list_elem_of_fmap. by exists tm.
Qed.

Lemma due_NoDup n s : wf s -> NoDup (map Timer.id (due n s)).
Proof.
  intros Hw. apply NoDup_fmap_2_strong.
  - intros t1 t2 H1 H2 E. apply list_elem_of_filter in H1 as [_ H1], H2 as [_ H2].
    assert (Hf : forall tm, tm ∈ timers_of s ->
      StdMap.find (Timer.id tm) (_active_timers s) = Some (key_of tm)).
    { intros tm Hin. apply (wf_active _ _ Hw). split_and!; [| apply not_elem_of_nil | done].
      apply keys_of_timers; [done |]. by exists tm. }
    pose proof (Hf t1 H1) as F1. pose proof (Hf t2 H2) as F2. rewrite E in F1.
    apply (timers_of_find s t1 Hw) in H1. apply (timers_of_find s t2 Hw) in H2. congruence.
  - apply NoDup_filter. pose proof (wf_sorted _ _ Hw) as Hs. rewrite (wf_entries s Hw) in Hs.
    clear -Hs. induction (timers_of s) as [|tm l IH]; [constructor |].
    apply sorted_cons in Hs as [Hs Hf].
    apply NoDup_cons. split; [| by apply IH]. intros Hin.
    apply (key_lt_irrefl (key_of tm)), Hf. apply list_elem_of_fmap. exists (entry tm).
    split; [done |]. apply list_elem_of_fmap. by exists tm.
Qed.

Lemma due_unique n s tm tm2 :
  wf s -> tm ∈ due n s -> tm2 ∈ due n s -> Timer.id tm = Timer.id tm2 -> tm = tm2.
Proof.
  intros Hw [i Hi]%list_elem_of_lookup [j Hj]%list_elem_of_lookup E.
  assert (i = j) as <-; [| congruence].
  apply (NoDup_lookup _ i j (Timer.id tm) (due_NoDup n s Hw)); rewrite list_lookup_fmap;
    [by rewrite Hi | rewrite Hj; cbn; congruence].
Qed.

Lemma not_due_rest n s rest tm :
  timers_of s = due n s ++ rest -> tm ∈ timers_of s -> n < Timer.expertion_time tm -> tm ∈ rest.
Proof.
  intros -> [Hin|]%elem_of_app Hlt; [| done]. apply list_elem_of_filter in Hin as [? _]. lia.
Qed.

(** Up to [reset]: the due timers have run and their nodes are gone. *)
Lemma expired_ok (s : t)
    (Hwf : wf s) (Hids : _created s <= uint64_max)
    (Hsane : Forall (fun tm => sane (Timer.expertion_time tm)) (timers_of s))
    (Hlate : forall tm s', tm ∈ due (clock (ticks s)) s ->
       Forall (late (StdMap.lower_bound (bound (clock (ticks s))) (_timers s)))
         (script (Timer._callback tm) s')) :
  let n := clock (ticks s) in
  exists rest s3, timers_of s = due n s ++ rest /\
    handle_read clock script (S (length (_timers s))) s = reset clock (due n s) n s3 /\
    wf s3 /\ Forall (detached s3) (due n s) /\ _canceling_timers s3 = [] /\
    _calling_expired_timers s3 = false /\ fired s3 = fired s ++ map Timer.id (due n s) /\
    (forall tm, tm ∈ rest -> StdMap.find (key_of tm) (_timers s3) = Some (Some tm)) /\
    (forall k, k ∈ (_timers s3).*1 -> sane k.1).
Proof.
  intros n. destruct (due_split n s Hwf Hids) as (rest & Et & El & Hrest).
  fold n in Hlate. rewrite El in Hlate.
  enter_handle_read. fold n. rewrite El. set (s0 := set_calling _ true []).
  assert (Hw0 : wfx [] s0) by (by apply (wfx_ext [] s)).
  assert (Ht0 : _timers s0 = [] ++ map entry (due n s) ++ map entry rest).
  { change (_timers s0) with (_timers s). by rewrite (wf_entries s Hwf), Et, map_app. }
  destruct (expire_loop_spec clock Hclock script (StdMap.begin_ (map entry rest)) (due n s)
    (S (length (_timers s))) [] (map entry rest) s0 [])
    as (s2 & R' & E2 & Et2 & Eb2 & Hk2 & Hn2 & Hw2 & Ef2 & Ec2 & Ecr2); try done.
  { rewrite (wf_entries s Hwf), Et, map_app, length_app, !length_map. lia. }
  rewrite Ht0. cbn [app] in *. rewrite E2. cbn [mbind res_bind].
  destruct (erase_moved _ R' s2 Hw2 Et2) as [Hw3 Er]. rewrite Eb2 in Hw3, Er.
  set (s3 := set_calling (set_maps s2 _ _) false _). exists rest, s3.
  assert (Hw3' : wf s3) by (by eapply (wfx_ext [] _ s3); [..| exact Hw3]).
  assert (Et3 : _timers s3 = R') by exact Er.
  split_and!; try done; [by eapply due_detached | |].
  - intros tm Hin. rewrite Et3. apply Hk2, sorted_find.
    + pose proof (wf_sorted _ _ Hw0) as Hs. rewrite Ht0 in Hs.
      by apply sorted_app in Hs as (_ & Hs & _).
    + apply list_elem_of_fmap. by exists tm.
  - rewrite Et3. intros k [Hk|[? _]]%Hn2; [| done].
    apply list_elem_of_fmap in Hk as (? & -> & (tm & -> & Hin)%list_elem_of_fmap).
    rewrite Forall_forall in Hsane. apply (Hsane tm). rewrite Et, elem_of_app. by right.
Qed.

(** The whole: what becomes of the timers. *)
Lemma timers_read_ok (s : t)
    (Hwf : wf s) (Hids : _created s <= uint64_max)
    (Hsane : Forall (fun tm => sane (Timer.expertion_time tm)) (timers_of s))
    (Hrestart : Forall (restartable (clock (ticks s))) (due (clock (ticks s)) s))
    (Hlate : forall tm s', tm ∈ due (clock (ticks s)) s ->
       Forall (late (StdMap.lower_bound (bound (clock (ticks s))) (_timers s)))
         (script (Timer._callback tm) s')) :
  let n := clock (ticks s) in
  exists s', handle_read clock script (S (length (_timers s))) s = Ret s' /\ wf s' /\
    fired s' = fired s ++ map Timer.id (due n s) /\
    (forall tm, tm ∈ timers_of s -> n < Timer.expertion_time tm -> tm ∈ timers_of s') /\
    (forall tm, tm ∈ due n s -> Timer.repeated tm = true -> exists time,
       Timestamp.add_seconds_double n (Timer._interval tm) = Ret time /\
       restarted tm time ∈ timers_of s') /\
    (forall tm, tm ∈ due n s -> Timer.repeated tm = false ->
       Timer.id tm ∉ map Timer.id (timers_of s')) /\
    _calling_expired_timers s' = false /\
    armed_for_first s' /\ (forall tm, tm ∈ timers_of s' -> sane (Timer.expertion_time tm)).
Proof.
  intros n. destruct (expired_ok s Hwf Hids Hsane Hlate)
    as (rest & s3 & Et & E & Hw3 & Hd & Hc3 & Hcal3 & Hf3 & Hrest & Hsane3). fold n in Et, E, Hd, Hf3, Hrestart.
  rewrite E. destruct (reinsert_spec n (due n s) s3) as
    (s4 & E4 & Hw4 & Ef4 & _ & Hk4 & Hrep4 & Hin4 & Hcl4); try done; [by apply due_NoDup |].
  destruct (reset_spec clock Hclock n (due n s) s3) as
    (s5 & s4' & E5 & E4' & Et5 & _ & Hw5 & Ef5 & Ecl5 & Harm); try done; [by apply due_NoDup |].
  rewrite E4 in E4'. injection E4' as <-. exists s5.
  assert (Hlive : forall tm, tm ∈ timers_of s5 <->
    StdMap.find (key_of tm) (_timers s4) = Some (Some tm))
    by (intros tm; by rewrite timers_of_find, Et5).
  split_and!; [done | done | congruence | | | | congruence | done |].
  - intros tm Hin Hlt. apply Hlive, Hk4, Hrest. by eapply not_due_rest.
  - intros tm Hin Hr. destruct (Hrep4 tm Hin Hr) as (time & ? & _ & Hf).
    exists time. split; [done |]. by apply Hlive.
  - intros tm Hin Hr (tm' & Eid & Hin')%list_elem_of_fmap.
    assert (Hk' : key_of tm' ∈ (_timers s4).*1) by (apply Hlive in Hin'; by eapply find_in_keys).
    rewrite Forall_forall in Hd. destruct (Hin4 _ Hk') as [Hk3|(tm2 & H2 & Hr2 & E2' & _)].
    + by apply (detached_key s3 tm _ Hw3 (Hd tm Hin)) in Hk3.
    + assert (tm = tm2) as <-; [| congruence]. cbn in E2'. apply (due_unique n s); try done. congruence.
  - intros tm Hin. apply Hlive in Hin. change (Timer.expertion_time tm) with (key_of tm).1.
    destruct (Hin4 (key_of tm)) as [Hk|(_ & _ & _ & _ & ?)]; [by eapply find_in_keys | by apply Hsane3 | done].
Qed.

(** C4: firing timers, when the callbacks that run cancel what they like but add
    timers only in a release build and only behind the first timer that is not due
    ([late]; what other calls do is shown by [earlier_timer_lost],
    [second_callback_adds_timer] and [self_rescheduling_never_returns]), all times are
    in the range where differences do not overflow ([sane], the first 146 years) and ids
    have not run out. Then, when the timer descriptor fires, [handle_read] terminates and
    runs the callback of every timer that is due, once each, in the order of expiration
    (ties by creation), and of no other; timers that are not due stay; due repeating
    timers are put back at now plus their interval; due one-shot timers are gone; the
    queue is again well formed and the descriptor is armed for the earliest timer. *)
Theorem handle_read_fires_due (s : t)
    (Hwf : wf s) (Hids : _created s <= uint64_max)
    (Hsane : Forall (fun tm => sane (Timer.expertion_time tm)) (timers_of s))
    (Hrestart : Forall (restartable (clock (ticks s))) (due (clock (ticks s)) s))
    (Hlate : forall tm s', tm ∈ due (clock (ticks s)) s ->
       Forall (late (StdMap.lower_bound (bound (clock (ticks s))) (_timers s)))
         (script (Timer._callback tm) s')) :
  let n := clock (ticks s) in
  exists s', handle_read clock script (S (length (_timers s))) s = Ret s' /\ wf s' /\
    fired s' = fired s ++ map Timer.id (due n s) /\
    (forall tm, tm ∈ timers_of s -> n < Timer.expertion_time tm -> tm ∈ timers_of s') /\
    (forall tm, tm ∈ due n s -> Timer.repeated tm = true -> exists time,
       Timestamp.add_seconds_double n (Timer._interval tm) = Ret time /\
       restarted tm time ∈ timers_of s') /\
    (forall tm, tm ∈ due n s -> Timer.repeated tm = false ->
       Timer.id tm ∉ map Timer.id (timers_of s')) /\
    _calling_expired_timers s' = false /\
    armed_for_first s'.
Proof.
  intros n. destruct (timers_read_ok s Hwf Hids Hsane Hrestart Hlate) as (s' & ? & ? & ? & ? & ? & ? & ? & ? & _).
  by exists s'.
Qed.
End handle_read.

Section more.
Import TimerQueue TimerSpec.
Context {B : Build} (clock : nat -> Timestamp.t) (Hclock : forall n, sane (clock n)).

Lemma empty_queue_wf : wf make.
Proof.
  constructor; cbn; try done; try (by constructor).
  - intros id k. split; [done | by intros ([]%elem_of_nil & _)].
  - by intros k []%elem_of_nil.
Qed.

Lemma add_timer_wf cb when interval s id s' :
  wf s -> sane when -> add_timer clock cb when interval s = Ret (id, s') -> wf s'.
Proof.
  intros Hw Hs E.
  destruct (add_timer_spec clock Hclock [] cb when interval s Hw) as (s2 & E2 & H);
    [by right | done | by intros ? []%elem_of_nil |].
  rewrite E2 in E. injection E as _ <-. naive_solver.
Qed.

(** A timer is erased from both maps. *)
Lemma erase_both_wf id node val s :
  wf s -> StdMap.find id (_active_timers s) = Some node -> StdMap.find node (_timers s) = Some val ->
  wf (set_maps s (StdMap.erase node (_timers s)) (StdMap.erase id (_active_timers s))).
Proof.
  intros Hw Ea Ev. pose proof Ea as (_ & _ & Eid)%(wf_active _ _ Hw).
  constructor; cbn [_timers _active_timers _created set_maps].
  - apply sorted_erase, Hw.
  - by intros k v _ []%elem_of_nil.
  - intros k v Hf Hn. apply (wf_entry _ _ Hw); [| done].
    destruct (decide (node = k)) as [<-|];
      [by rewrite find_erase_eq in Hf by apply Hw | by rewrite find_erase_ne in Hf].
  - apply sorted_erase, Hw.
  - intros id' k. rewrite elem_of_erase by apply Hw. destruct (decide (id = id')) as [<-|].
    + rewrite find_erase_eq by apply Hw. split; [done |]. intros ([Hne Hk] & Hn & E).
      assert (StdMap.find id (_active_timers s) = Some k) by (by apply (wf_active _ _ Hw)).
      congruence.
    + rewrite find_erase_ne by done. rewrite (wf_active _ _ Hw). naive_solver.
  - intros k Hk. apply elem_of_erase in Hk as [_ Hk]; [| apply Hw]. by apply (wf_ids _ _ Hw).
  - apply Hw.
  - pose proof (wf_size _ _ Hw). pose proof (length_erase _ _ _ Ev).
    pose proof (length_erase _ _ _ Ea). cbn in *. lia.
Qed.

Lemma cancel_in_loop_spec id s :
  wf s -> exists s', cancel_in_loop id s = Ret s' /\ wf s' /\
    (forall tm, tm ∈ timers_of s' <-> tm ∈ timers_of s /\ Timer.id tm <> id) /\
    _created s' = _created s /\ fired s' = fired s /\ armed s' = armed s.
Proof.
  intros Hw. unfold cancel_in_loop.
  assert (Hsz : forall s', wf s' -> assert_ (sizes_equal s') = Ret tt).
  { intros s' Hs'. apply assert_true. unfold sizes_equal. apply Z.eqb_eq.
    rewrite (wf_size _ _ Hs'). done. }
  destruct (StdMap.find id (_active_timers s)) as [node|] eqn:Ea.
  - pose proof Ea as Ea'. apply (wf_active _ _ Hw) in Ea' as (Hin & _ & Eid).
    destruct (find_is_elem node (_timers s) Hin) as [v Ev].
    destruct (wf_entry _ _ Hw _ _ Ev) as (tm & -> & Ek); [apply not_elem_of_nil |].
    rewrite Ev. assert (Ekey : (Timer.expertion_time tm, id) = node)
      by (rewrite Ek, <- Eid, Ek; done).
    cbv zeta. rewrite Ekey. unfold StdMap.erase_count. rewrite Ev. rewrite assert_true by done.
    cbn [mbind res_bind mret res_ret].
    set (s' := set_maps s _ _).
    assert (Hw' : wf s') by (by eapply erase_both_wf).
    rewrite Hsz by done. cbn [mbind res_bind]. exists s'. split_and!; try done.
    intros tm'. rewrite !timers_of_find by done. cbn [_timers s' set_maps].
    destruct (decide (node = key_of tm')) as [E|Hne].
    + rewrite E at 1. rewrite find_erase_eq by apply Hw. split; [done |].
      intros [_ Hid]. destruct Hid. by rewrite <- Eid, E.
    + rewrite find_erase_ne by done. split; [| naive_solver]. intros Hf. split; [done |].
      intros E. apply Hne. apply find_in_keys in Hf.
      assert (StdMap.find id (_active_timers s) = Some (key_of tm')); [| congruence].
      apply (wf_active _ _ Hw). split_and!; [done | apply not_elem_of_nil | done].
  - assert (Hno : forall tm, tm ∈ timers_of s -> Timer.id tm <> id).
    { intros tm Hin <-. assert (StdMap.find (Timer.id tm) (_active_timers s) = Some (key_of tm));
        [| congruence]. apply (wf_active _ _ Hw).
      split_and!; [| apply not_elem_of_nil | done]. apply keys_of_timers; [done | by exists tm]. }
    destruct (_calling_expired_timers s) eqn:Ec; cbn [mbind res_bind mret res_ret].
    + set (s' := set_calling s true _). assert (Hw' : wf s') by (by apply (wfx_ext [] s)).
      rewrite Hsz by done. exists s'. split_and!; try done. naive_solver.
    + rewrite Hsz by done. exists s. split_and!; try done. naive_solver.
Qed.

Lemma run_queued_spec ids s :
  wf s -> exists s', run_queued ids s = Ret s' /\ wf s' /\
    (forall tm, tm ∈ timers_of s' <-> tm ∈ timers_of s /\ Timer.id tm ∉ ids) /\
    _created s' = _created s /\ fired s' = fired s /\ armed s' = armed s.
Proof.
  revert s; induction ids as [|id ids IH]; intros s Hw; cbn [run_queued].
  { exists s. split_and!; try done. intros tm. split; [| naive_solver].
    split; [done | apply not_elem_of_nil]. }
  destruct (cancel_in_loop_spec id s Hw) as (s1 & -> & Hw1 & H1 & C1 & F1 & A1).
  cbn [mbind res_bind]. destruct (IH s1 Hw1) as (s2 & -> & Hw2 & H2 & C2 & F2 & A2).
  exists s2. split_and!; [done | done | | congruence | congruence | congruence].
  intros tm. rewrite H2, H1, not_elem_of_cons. naive_solver.
Qed.

(** C6: the queued cancellations take effect when the loop runs its functors:
    exactly the timers named are removed, whatever the order and repetitions of
    the requests and whether or not the ids still exist, no assertion fails, and
    no reference is followed into a node that is gone. *)
Theorem cancel_removes_exactly (s : t) (Hwf : wf s) :
  exists s', do_pending s = Ret s' /\ wf s' /\
    (forall tm, tm ∈ timers_of s' <-> tm ∈ timers_of s /\ Timer.id tm ∉ queued s).
Proof.
  destruct (run_queued_spec (queued s) (mk (_timers s) (_active_timers s)
    (_calling_expired_timers s) (_canceling_timers s) (_created s) [] (armed s) (ticks s) (fired s)))
    as (s' & E & Hw' & Ht & _ & _); [by apply (wfx_ext [] s) |].
  exists s'. split_and!; [exact E | done | exact Ht].
Qed.

(** [add_timer] returns a fresh id, keeps the queue well formed, adds
    exactly the new timer, and when the new timer is the earliest arms the
    descriptor with a positive normal delay: the time left until it is due, and
    at least 100 microseconds, so that [timerfd_settime] never disarms it. *)
Theorem add_timer_arms_earliest (cb : Z) (when : Timestamp.t) (interval : Double.t) (s : t)
    (Hwf : wf s) (Hwhen : sane when) :
  let tm := Timer.make cb when interval (_created s) in
  exists s', add_timer clock cb when interval s = Ret (_created s, s') /\ wf s' /\
    (forall tm', tm' ∈ timers_of s -> Timer.id tm' <> Timer.id tm) /\
    (forall tm', tm' ∈ timers_of s' <-> tm' ∈ timers_of s \/ tm' = tm) /\
    (Forall (fun tm' => when < Timer.expertion_time tm') (timers_of s) ->
     exists spec, armed s' = Some (clock (ticks s), spec) /\
       0 <= Timestamp.tv_sec spec /\ 0 <= Timestamp.tv_nsec spec < 1000000000 /\
       Timestamp.tv_sec spec * 1000000000 + Timestamp.tv_nsec spec
         = Z.max 100000 (when - clock (ticks s))).
Proof.
  intros tm. destruct (add_timer_spec clock Hclock [] cb when interval s Hwf)
    as (s' & E & Et & _ & _ & _ & _ & _ & _ & Hw' & Harm & _);
    [by right | done | by intros ? []%elem_of_nil |].
  fold tm in Et, Harm. exists s'. split_and!; [done | done | | |].
  - intros tm' Hin Eid. assert (Hk : key_of tm' ∈ (_timers s).*1)
      by (apply keys_of_timers; [done | by exists tm']).
    apply (wf_ids _ _ Hwf) in Hk. change (key_of tm').2 with (Timer.id tm') in Hk.
    change (Timer.id tm) with (_created s) in Eid. lia.
  - intros tm'. rewrite !timers_of_find, Et by done. split.
    + intros [[_ [= ->]]|[_ Hf]]%find_assign_cases; [by right | by left].
    + intros [Hf| ->]; [| by rewrite find_assign_eq]. rewrite find_assign_ne; [done |].
      intros Ek. apply find_in_keys in Hf. rewrite <- Ek in Hf. apply (wf_ids _ _ Hwf) in Hf.
      change (key_of tm).2 with (_created s) in Hf. lia.
  - intros Hlater. destruct Harm as (spec & Ea & Es).
    { unfold earliest. rewrite (wf_entries s Hwf).
      destruct (timers_of s) as [|t1 ts]; [done |]. apply Forall_cons in Hlater as [Hlt _].
      by apply Z.ltb_lt. }
    exists spec. split; [done |].
    destruct (how_much_spec when (clock (ticks s)) Hwhen (Hclock _)) as (spec' & Es' & H1 & H2 & H3).
    rewrite Es in Es'. injection Es' as <-. split_and!; try (done || lia).
    rewrite H3. zcase; lia.
Qed.

(** A queue that holds one timer. *)
Definition single (s : t) (tm : Timer.t) : Prop :=
  wf s /\ timers_of s = [tm] /\ _created s = Timer.id tm + 1.

(** A debug build does not survive a callback that adds a timer once
    another callback of the same batch has run: with two timers due, whatever
    the first callback does short of adding timers, an [add_timer] in the second
    one fails the size assertion of [insert]. *)
Theorem second_callback_adds_timer (script : Z -> t -> list call) (s : t)
    (tm1 tm2 : Timer.t) (more : list Timer.t) (fuel : nat)
    (Hdebug : ndebug = false) (Hwf : wf s) (Hids : _created s <= uint64_max)
    (Hdue : due (clock (ticks s)) s = tm1 :: tm2 :: more)
    (Hfirst : forall s', Forall (late None) (script (Timer._callback tm1) s'))
    (Hsecond : forall s', exists cb when interval calls,
       script (Timer._callback tm2) s' = AddTimer cb when interval :: calls) :
  handle_read clock script (S (S fuel)) s = Stop AssertionFailed.
Proof.
  destruct (due_split (clock (ticks s)) s Hwf Hids) as (rest & Et & El & _).
  rewrite Hdue in Et. enter_handle_read. rewrite El.
  set (s0 := set_calling _ true []). set (iter := StdMap.begin_ (map entry rest)).
  assert (Hw0 : wfx [] s0) by (by apply (wfx_ext [] s)).
  assert (Ht0 : _timers s0 = entry tm1 :: entry tm2 :: map entry more ++ map entry rest).
  { change (_timers s0) with (_timers s). by rewrite (wf_entries s Hwf), Et, map_app. }
  pose proof (wf_sorted _ _ Hw0) as Hs. rewrite Ht0 in Hs.
  assert (Hi1 : Some (key_of tm1) <> iter).
  { apply (begin_app_ne (entry tm1 :: entry tm2 :: map entry more) (map entry rest)); done. }
  assert (Hi2 : Some (key_of tm2) <> iter).
  { apply sorted_cons in Hs as [Hs _].
    apply (begin_app_ne (entry tm2 :: map entry more) (map entry rest)); done. }
  cbn [expire_loop]. rewrite Ht0. change (StdMap.begin_ (entry tm1 :: ?l)) with (Some (key_of tm1)).
  rewrite decide_False by done. rewrite <- Ht0.
  rewrite (find_entry [] [] tm1 (entry tm2 :: map entry more ++ map entry rest) s0 Hw0 Ht0). 
  set (s1 := log_fired tm1 s0).
  change (run clock script tm1 s0) with (run_calls clock (script (Timer._callback tm1) s1) s1).
  destruct (run_calls_spec clock Hclock [] (_timers s0) [] (script (Timer._callback tm1) s1) s1)
    as (s2 & R' & -> & Et2 & Eb2 & _ & _ & Hw2 & _).
  { by apply (wfx_ext [] s0). }
  { by rewrite app_nil_r. }
  { by intros ? []%elem_of_nil. }
  { apply Hfirst. }
  destruct R' as [|[]]; [| done]. rewrite app_nil_r, Ht0 in Et2. cbn [mbind res_bind].
  rewrite (find_entry [] [] tm1 (entry tm2 :: map entry more ++ map entry rest) s2 Hw2 Et2).
  destruct (moved_spec [] [] (key_of tm1) tm1 (entry tm2 :: map entry more ++ map entry rest) s2
    Hw2 Et2) as (Hw3 & Et3 & ->); [apply not_elem_of_nil |].
  change (StdMap.begin_ (entry tm2 :: ?l)) with (Some (key_of tm2)).
  rewrite decide_False by done. set (s3 := set_maps s2 _ _) in *.
  rewrite (find_entry _ [(key_of tm1, None)] tm2 (map entry more ++ map entry rest) s3 Hw3)
    by done.
  unfold run. destruct (Hsecond (log_fired tm2 s3)) as (cb & when & interval & calls & ->).
  cbn [run_calls]. unfold add_timer, insert. cbn [Timer.make].
  assert (E : sizes_equal s3 = false).
  { unfold sizes_equal. apply Z.eqb_neq. rewrite (wf_size _ _ Hw3). cbn [length app]. lia. }
  unfold sizes_equal in *. cbn [_timers _active_timers log_fired]. rewrite E.
  unfold assert_. rewrite Hdebug. reflexivity.
Qed.

Lemma single_split (n : Timestamp.t) s tm :
  single s tm -> Timer.expertion_time tm <= n -> _created s <= uint64_max ->
  _timers s = [entry tm] /\ StdMap.lower_bound (bound n) (_timers s) = None.
Proof.
  intros (Hw & Ht & Hc) Hd Hids. rewrite (wf_entries s Hw), Ht. split; [done |]. cbn.
  rewrite decide_True; [done |]. unfold Timer.id in *. lia.
Qed.

(** The state of the loop that never ends: fired timers, then the one just
    added, behind which stands only [end()]. *)
Lemma spin (script : Z -> t -> list call) c d fuel P tm s expired :
  ndebug = true -> (forall i j, (i <= j)%nat -> clock i <= clock j) ->
  (forall n, sane (clock n + d)) ->
  (forall s', script c s' = [AddTimer c (clock (ticks s') + d) (Double.of_Z 0)]) ->
  wfx P.*1 s -> _timers s = P ++ [entry tm] -> _created s = Timer.id tm + 1 ->
  Timer._callback tm = c -> Timer.expertion_time tm <= clock (ticks s) + d ->
  expire_loop clock script fuel (Some (key_of tm)) None expired s = Stop FuelExhausted.
Proof.
  intros Hrel Hmono Hd Hscript. revert P tm s expired.
  induction fuel as [|fuel IH]; intros P tm s expired Hw Ht Hc Hcb Htime; [done |].
  cbn [expire_loop]. rewrite decide_False by done.
  rewrite (find_entry _ _ _ [] _ Hw Ht). unfold run at 1. rewrite Hcb, Hscript.
  set (s1 := log_fired tm s). cbn [run_calls].
  assert (Hw1 : wfx P.*1 s1) by (by apply (wfx_ext _ s)).
  destruct (add_timer_spec clock Hclock P.*1 c (clock (ticks s1) + d) (Double.of_Z 0) s1 Hw1)
    as (s2 & -> & Et2 & _ & Ec2 & _ & _ & _ & _ & Hw2 & _ & _ & Htk); [by left | done | |].
  { intros k Hk. cbn [_timers s1 log_fired]. rewrite Ht, fmap_app, elem_of_app. by left. }
  cbn [mbind res_bind mret res_ret]. set (tm2 := Timer.make _ _ _ _) in Et2.
  assert (Hlt : key_lt (key_of tm) (key_of tm2)).
  { change (_created s1) with (_created s) in *. cbn. unfold Timer.id in *. lia. }
  pose proof (wf_sorted _ _ Hw) as Hs. rewrite Ht in Hs. apply sorted_app in Hs as (_ & _ & HP).
  assert (E2 : _timers s2 = P ++ entry tm :: [entry tm2]).
  { rewrite Et2. cbn [_timers s1 log_fired]. rewrite Ht, assign_app.
    - f_equal. change [entry tm] with ([entry tm] ++ []). rewrite assign_app; [done |].
      by intros k ->%list_elem_of_singleton.
    - intros k Hk. etrans; [apply HP; [done | by left] | done]. }
  rewrite (find_entry _ _ _ _ _ Hw2 E2).
  destruct (moved_spec _ P (key_of tm) tm [entry tm2] s2 Hw2 E2) as (Hw3 & Et3 & ->).
  { intros Hin. apply (key_lt_irrefl (key_of tm)), HP; [done | by left]. }
  apply (IH (P ++ [(key_of tm, None)]) tm2); [by rewrite fmap_app | done | | done |].
  - cbn [_created set_maps]. by rewrite Ec2.
  - cbn [ticks set_maps]. change (ticks s1) with (ticks s) in *.
    specialize (Hmono _ _ Htk). cbn. lia.
Qed.

(** C7: a callback that reschedules itself with [run_after], however far ahead,
    keeps [handle_read] from ever returning when no other timer is pending: the
    new timer is inserted before [end()], where the loop stops, so it is run at
    once, though it is not due, and adds the next one. *)
Theorem self_rescheduling_never_returns (script : Z -> t -> list call) (d : Z) (s : t)
    (tm : Timer.t) (Hrelease : ndebug = true) (Hsingle : single s tm)
    (Hids : _created s <= uint64_max)
    (Hdue : Timer.expertion_time tm <= clock (ticks s)) (Hd : 0 <= d)
    (Hmono : forall i j, (i <= j)%nat -> clock i <= clock j)
    (Hrange : forall n, sane (clock n + d))
    (Hscript : forall s', script (Timer._callback tm) s'
       = [AddTimer (Timer._callback tm) (clock (ticks s') + d) (Double.of_Z 0)]) :
  forall fuel, handle_read clock script fuel s = Stop FuelExhausted.
Proof.
  intros fuel. pose proof Hsingle as (Hw & Ht & Hc).
  destruct (single_split (clock (ticks s)) s tm) as [Hts Hlb]; [done..|].
  enter_handle_read. rewrite Hlb.
  set (s0 := set_calling _ true []). change (_timers s0) with (_timers s). rewrite Hts.
  change (StdMap.begin_ [entry tm]) with (Some (key_of tm)).
  rewrite (spin script (Timer._callback tm) d fuel [] tm s0 []); try done.
  - by apply (wfx_ext [] s).
  - cbn [ticks s0 set_calling]. specialize (Hmono (ticks s) (S (ticks s))). lia.
Qed.

(** A timer that a callback adds in front of the one that is firing is
    erased with the fired ones without being run, while [_active_timers] keeps
    its reference: cancelling it later follows a dangling reference. *)
Theorem earlier_timer_lost (script : Z -> t -> list call) (s : t) (tm : Timer.t)
    (c : Z) (w : Timestamp.t) (interval : Double.t)
    (Hrelease : ndebug = true) (Hsingle : single s tm) (Hids : _created s <= uint64_max)
    (Hshot : Timer.repeated tm = false)
    (Hdue : Timer.expertion_time tm <= clock (ticks s))
    (Hw : sane w) (Hearly : w < Timer.expertion_time tm)
    (Hscript : forall s', script (Timer._callback tm) s' = [AddTimer c w interval]) :
  exists s', handle_read clock script 2 s = Ret s' /\
    fired s' = fired s ++ [Timer.id tm] /\ timers_of s' = [] /\
    StdMap.find (_created s) (_active_timers s') = Some (w, _created s) /\
    cancel_in_loop (_created s) s' = Stop UndefinedBehaviour.
Proof.
  pose proof Hsingle as (Hwf & Ht & Hc).
  destruct (single_split (clock (ticks s)) s tm) as [Hts Hlb]; [done..|].
  enter_handle_read. rewrite Hlb.
  set (s0 := set_calling _ true []). set (s1 := log_fired tm s0).
  assert (Hw0 : wfx [] s0) by (by apply (wfx_ext [] s)).
  change (_timers s0) with (_timers s). rewrite Hts.
  change (StdMap.begin_ [entry tm]) with (Some (key_of tm)). cbn [expire_loop].
  rewrite decide_False by done.
  rewrite (find_entry [] [] tm [] s0 Hw0 Hts).
  change (run clock script tm s0) with (run_calls clock (script (Timer._callback tm) s1) s1).
  rewrite Hscript. cbn [run_calls].
  destruct (add_timer_spec clock Hclock [] c w interval s1) as
    (s2 & -> & Et2 & Ea2 & Ec2 & _ & Ef2 & _ & Ecan & Hw2 & _);
    [by apply (wfx_ext [] s0) | by left | done | by intros ? []%elem_of_nil |].
  cbn [mbind res_bind mret res_ret]. set (tm2 := Timer.make _ _ _ _) in *.
  assert (Hlt : key_lt (key_of tm2) (key_of tm)) by (cbn; lia).
  assert (E2 : _timers s2 = [entry tm2] ++ entry tm :: []).
  { rewrite Et2. change (_timers s1) with (_timers s). rewrite Hts.
    unfold entry at 1. cbn [StdMap.assign]. by rewrite decide_True. }
  rewrite (find_entry [] [entry tm2] tm [] s2 Hw2 E2).
  destruct (moved_spec [] [entry tm2] (key_of tm) tm [] s2 Hw2 E2) as (_ & Et3 & ->);
    [apply not_elem_of_nil |].
  rewrite decide_True by done. cbn [mbind res_bind mret res_ret app].
  set (s3 := set_maps s2 _ _) in *.
  assert (Eer : StdMap.erase_before None (_timers s3) = []) by (by rewrite Et3).
  rewrite Eer. unfold reset. cbn [reinsert]. rewrite Hshot. cbn [andb mbind res_bind mret res_ret].
  cbn [_timers set_calling set_maps]. cbn.
  eexists; split; [reflexivity |]. cbn [fired _active_timers set_calling set_maps s3 timers_of].
  assert (Efind : StdMap.find (_created s) (StdMap.erase (Timer.id tm) (_active_timers s2))
    = Some (w, _created s)).
  { rewrite find_erase_ne by lia. rewrite Ea2. apply find_assign_eq. }
  split_and!; [by rewrite Ef2 | done | exact Efind |].
  unfold cancel_in_loop. cbn [_active_timers set_calling set_maps s3].
  change (key_of tm).2 with (Timer.id tm). by rewrite Efind.
Qed.
End more.

(** ** Witnesses: three timers, the first of which cancels the second, a
    repeating one; and one timer that adds another. *)
Module TimerExample.
Import TimerQueue TimerSpec.
Definition debug : Build := {| ndebug := false |}.
Definition release : Build := {| ndebug := true |}.
Definition clock (n : nat) : Timestamp.t := 1000000000 + Z.min (Z.of_nat n) 1000.
Definition half_second : Double.t := Double.div (Double.of_Z 1) (Double.of_Z 2).
Definition zero : Double.t := Double.of_Z 0.

Definition after (m : res (Z * t)) : t := match m with Ret (_, s) => s | Stop _ => make end.
Definition one (b : Build) : t := after (@add_timer b clock 7 900000000 zero make).
Definition two (b : Build) : t := after (@add_timer b clock 8 1000000000 half_second (one b)).
Definition three (b : Build) : t := after (@add_timer b clock 9 2000000000 zero (two b)).

Definition cancels (c : Z) (s : t) : list call := if c =? 7 then [CancelTimer 2] else [].

Lemma clock_sane n : sane (clock n).
Proof. unfold sane, clock. lia. Qed.

Lemma after_wf (b : Build) cb when interval s :
  wf s -> sane when -> wf (after (@add_timer b clock cb when interval s)).
Proof.
  intros Hw Hs. destruct (@add_timer_spec b clock clock_sane [] cb when interval s Hw)
    as (s2 & -> & H); [by right | done | by intros ? []%elem_of_nil |]. naive_solver.
Qed.

Lemma one_wf b : wf (one b).
Proof. apply after_wf; [apply empty_queue_wf | done]. Qed.
Lemma three_wf b : wf (three b).
Proof. repeat (apply after_wf; [| done]). apply empty_queue_wf. Qed.

Lemma three_timers b : timers_of (three b) =
  [Timer.make 7 900000000 zero 1; Timer.make 8 1000000000 half_second 2;
   Timer.make 9 2000000000 zero 3].
Proof. destruct b as [[]]; vm_compute; reflexivity. Qed.
Lemma three_due b : due (clock (ticks (three b))) (three b) =
  [Timer.make 7 900000000 zero 1; Timer.make 8 1000000000 half_second 2].
Proof. destruct b as [[]]; vm_compute; reflexivity. Qed.
End TimerExample.

Lemma handle_read_fires_due_witness :
  exists s', @TimerQueue.handle_read TimerExample.debug TimerExample.clock TimerExample.cancels 4
      (TimerExample.three TimerExample.debug) = Ret s' /\
    TimerQueue.fired s' = [1; 2] /\
    map Timer.id (TimerSpec.timers_of s') = [2; 3].
Proof.
  destruct (@handle_read_fires_due TimerExample.debug TimerExample.clock TimerExample.cancels
    TimerExample.clock_sane (TimerExample.three TimerExample.debug)) as (s' & E & _ & F & _).
  - apply TimerExample.three_wf.
  - vm_compute. congruence.
  - rewrite TimerExample.three_timers. repeat apply Forall_cons_2; [done..| apply Forall_nil_2].
  - rewrite TimerExample.three_due. repeat apply Forall_cons_2; [..| apply Forall_nil_2].
    + intros H. vm_compute in H. discriminate H.
    + intros _. exists 1500000001. split; [vm_compute; reflexivity | done].
  - intros tm s' _. unfold TimerExample.cancels. destruct (_ =? 7); repeat constructor.
  - exists s'. split; [exact E |]. split; [rewrite F; reflexivity |].
    vm_compute in E. injection E as <-. reflexivity.
Defined.

Lemma cancel_removes_exactly_witness :
  let s := TimerQueue.cancel 2 (TimerQueue.cancel 9 (TimerExample.three TimerExample.debug)) in
  exists s', @TimerQueue.do_pending TimerExample.debug s = Ret s' /\
    map Timer.id (TimerSpec.timers_of s') = [1; 3].
Proof.
  destruct (@cancel_removes_exactly TimerExample.debug
    (TimerQueue.cancel 2 (TimerQueue.cancel 9 (TimerExample.three TimerExample.debug))))
    as (s' & E & _).
  - eapply (TimerSpec.wfx_ext []); [..| apply (TimerExample.three_wf TimerExample.debug)];
      vm_compute; congruence.
  - exists s'. split; [exact E |]. vm_compute in E. injection E as <-. reflexivity.
Defined.

Lemma add_timer_arms_earliest_witness :
  exists s', @TimerQueue.add_timer TimerExample.debug TimerExample.clock 5 700000000
      TimerExample.zero (TimerExample.one TimerExample.debug) = Ret (2, s') /\ TimerSpec.wf s'.
Proof.
  destruct (@add_timer_arms_earliest TimerExample.debug TimerExample.clock TimerExample.clock_sane
    5 700000000 TimerExample.zero (TimerExample.one TimerExample.debug)) as (s' & E & W & _).
  - apply TimerExample.one_wf.
  - done.
  - exists s'. split; [exact E | exact W].
Defined.

Lemma second_callback_adds_timer_witness :
  @TimerQueue.handle_read TimerExample.debug TimerExample.clock
    (fun c s => if c =? 8 then [TimerQueue.AddTimer 1 3000000000 TimerExample.zero] else [])
    4 (TimerExample.three TimerExample.debug) = Stop AssertionFailed.
Proof.
  apply (@second_callback_adds_timer TimerExample.debug TimerExample.clock TimerExample.clock_sane
    _ _ (Timer.make 7 900000000 TimerExample.zero 1)
    (Timer.make 8 1000000000 TimerExample.half_second 2) [] 2 eq_refl (TimerExample.three_wf _)).
  - vm_compute. congruence.
  - apply TimerExample.three_due.
  - intros s'. constructor.
  - intros s'. exists 1, 3000000000, TimerExample.zero, []. reflexivity.
Defined.

Lemma one_single (b : Build) :
  TimerSpec.wf (TimerExample.one b) ->
  TimerSpec.timers_of (TimerExample.one b) = [Timer.make 7 900000000 TimerExample.zero 1] ->
  TimerQueue._created (TimerExample.one b) = 2 ->
  single (TimerExample.one b) (Timer.make 7 900000000 TimerExample.zero 1).
Proof. by intros. Qed.

Lemma self_rescheduling_never_returns_witness :
  @TimerQueue.handle_read TimerExample.release TimerExample.clock
    (fun c s => if c =? 7 then
       [TimerQueue.AddTimer 7 (TimerExample.clock (TimerQueue.ticks s) + 3600000000000)
          (Double.of_Z 0)] else [])
    1000 (TimerExample.one TimerExample.release) = Stop FuelExhausted.
Proof.
  apply (@self_rescheduling_never_returns TimerExample.release TimerExample.clock
    TimerExample.clock_sane _ 3600000000000 _ (Timer.make 7 900000000 TimerExample.zero 1)).
  - reflexivity.
  - apply one_single; [apply TimerExample.one_wf | vm_compute; reflexivity | vm_compute; reflexivity].
  - vm_compute. congruence.
  - vm_compute. congruence.
  - lia.
  - intros i j Hij. unfold TimerExample.clock. lia.
  - intros n. unfold TimerSpec.sane, TimerExample.clock. lia.
  - intros s'. reflexivity.
Defined.

Lemma earlier_timer_lost_witness :
  exists s', @TimerQueue.handle_read TimerExample.release TimerExample.clock
      (fun c s => if c =? 7 then [TimerQueue.AddTimer 8 1 TimerExample.zero] else [])
      2 (TimerExample.one TimerExample.release) = Ret s' /\
    TimerQueue.fired s' = [1] /\
    @TimerQueue.cancel_in_loop TimerExample.release 2 s' = Stop UndefinedBehaviour.
Proof.
  destruct (@earlier_timer_lost TimerExample.release TimerExample.clock TimerExample.clock_sane
    (fun c s => if c =? 7 then [TimerQueue.AddTimer 8 1 TimerExample.zero] else [])
    (TimerExample.one TimerExample.release) (Timer.make 7 900000000 TimerExample.zero 1)
    8 1 TimerExample.zero) as (s' & E & F & _ & _ & C).
  - reflexivity.
  - apply one_single; [apply TimerExample.one_wf | vm_compute; reflexivity | vm_compute; reflexivity].
  - vm_compute. congruence.
  - vm_compute. reflexivity.
  - vm_compute. congruence.
  - done.
  - vm_compute. reflexivity.
  - intros s'. reflexivity.
  - exists s'. split; [exact E |]. split; [exact F | exact C].
Defined.
