(* ===== verification/TimerDeadlines.v ===== *)
(** The timer queue and its descriptor over time (suduo/net/TimerQueue.cpp, under
    EventLoop.cpp): calls of the loop's thread, and the expirations that the poller
    reports. A timer is never forgotten. The descriptor's clock and [Timestamp::now()]
    are taken to run alike. *)

From S2P Require Import Prelude.
From S2P Require Import Time.
From S2P Require Import OrderedMap.
From S2P Require Import Timers.

Module TimerRun.
Import TimerQueue.

Section run.
Context {B : Build} (clock : nat -> Timestamp.t) (script : Z -> t -> list call).

(** What the loop's thread does with the queue: calls from user code, the cancellations
    among the pending functors, and the read event of the timer descriptor. *)
Inductive op :=
  | Add (cb : Z) (when : Timestamp.t) (interval : Double.t)
  | Cancel (timer_id : Z)
  | PendingFunctors
  | ReadEvent.

(** The descriptor is readable from its deadline on. *)
Definition readable (s : t) : bool :=
  match deadline s with Some d => d <=? clock (ticks s) | None => false end.

Definition perform (o : op) (s : t) : res t :=
  match o with
  | Add cb when interval => '(_, s) ← add_timer clock cb when interval s; mret s
  | Cancel timer_id => mret (cancel timer_id s)
  | PendingFunctors => do_pending s
  | ReadEvent => handle_read clock script (S (length (_timers s))) s
  end.
Fixpoint run (ops : list op) (s : t) : res t :=
  match ops with
  | [] => mret s
  | o :: ops => s ← perform o s; run ops s
  end.
End run.
End TimerRun.

Module TimerRunSpec.
Import TimerQueue TimerSpec TimerRun.

Section run.
Context {B : Build} (clock : nat -> Timestamp.t) (script : Z -> t -> list call).
Context (Hclock : forall n, sane (clock n)).

(** Times are sane, ids do not run out; the read event comes when the descriptor is
    readable, and then repeating timers can be put back and the callbacks make only the
    calls that [handle_read] stands ([late]). *)
Definition possible (o : op) (s : t) : Prop :=
  match o with
  | Add _ when _ => sane when
  | Cancel _ | PendingFunctors => True
  | ReadEvent =>
      readable clock s = true /\ _created s <= uint64_max /\
      Forall (restartable (clock (ticks s))) (due (clock (ticks s)) s) /\
      forall tm s', tm ∈ due (clock (ticks s)) s ->
        Forall (late (StdMap.lower_bound (bound (clock (ticks s))) (_timers s))) (script (Timer._callback tm) s')
  end.
Fixpoint allowed (ops : list op) (s : t) : Prop :=
  match ops with
  | [] => True
  | o :: ops => possible o s /\ forall s', perform clock script o s = Ret s' -> allowed ops s'
  end.

(** Armed no later than [time], or than 0.1 ms after it was armed. *)
Definition armed_by (time : Timestamp.t) (s : t) : Prop :=
  exists n spec d, armed s = Some (n, spec) /\ deadline s = Some d /\ d <= Z.max time (n + 100000).

Record inv (s : t) : Prop := mk_inv {
  d_wf : wf s;
  d_sane : Forall (fun tm => sane (Timer.expertion_time tm)) (timers_of s);
  d_armed tm : tm ∈ timers_of s -> armed_by (Timer.expertion_time tm) s
}.

Lemma armed_by_le t1 t2 s s' : t1 <= t2 -> armed s' = armed s -> armed_by t1 s -> armed_by t2 s'.
Proof.
  intros Hle Ea (n & spec & d & E & Ed & Hd). exists n, spec, d. unfold deadline in *. rewrite Ea. split_and!; [done | done | lia].
Qed.

(** An arming for [time] is an arming by [time]. *)
Lemma armed_now time s n spec :
  sane time -> sane n -> armed s = Some (n, spec) -> how_much_time_from_now time n = Ret spec -> armed_by time s.
Proof.
  intros Ht Hn Ea E. destruct (how_much_spec time n Ht Hn) as (spec' & E' & _ & _ & Hd).
  assert (spec' = spec) as -> by congruence. cbv zeta in Hd.
  eexists n, spec, _. split_and!; [done | unfold deadline; by rewrite Ea |]. rewrite Hd. zcase; lia.
Qed.

(** The first of the map is the earliest of the timers. *)
Lemma first_timer s tm : wf s -> tm ∈ timers_of s -> exists tm0, tm0 ∈ timers_of s /\
  StdMap.begin_ (_timers s) = Some (key_of tm0) /\ Timer.expertion_time tm0 <= Timer.expertion_time tm.
Proof.
  intros Hw Hin. pose proof (wf_sorted _ _ Hw) as Hs. rewrite (wf_entries s Hw) in *.
  destruct (timers_of s) as [|tm0 tms]; [by apply elem_of_nil in Hin |]. exists tm0.
  split; [by left |]. split; [done |]. apply elem_of_cons in Hin as [->|Hin]; [lia |].
  apply sorted_cons in Hs as [_ Hlt]. specialize (Hlt (key_of tm)). 
  assert (key_lt (key_of tm0) (key_of tm)) as Hk.
  { apply Hlt. apply list_elem_of_fmap. exists (entry tm). split; [done |]. apply list_elem_of_fmap. by exists tm. }
  cbn in Hk. lia.
Qed.

Lemma add_ok cb when interval s : inv s -> sane when ->
  exists s', add_timer clock cb when interval s = Ret (_created s, s') /\ inv s' /\
    forall tm, tm ∈ timers_of s' <-> tm ∈ timers_of s \/ tm = Timer.make cb when interval (_created s).
Proof.
  intros [Hw Hsane Harmed] Hwhen.
  destruct (add_timer_arms_earliest clock Hclock cb when interval s Hw Hwhen) as (s' & E & Hw' & _ & Hin & _).
  destruct (add_timer_spec clock Hclock [] cb when interval s Hw) as (s1 & E1 & _ & _ & _ & _ & _ & _ & _ & _ & Hearly & Hlate & _);
    [by right | done | by intros ? []%elem_of_nil |].
  assert (s1 = s') as -> by congruence. set (tm0 := Timer.make cb when interval (_created s)) in *.
  exists s'. split; [done |]. split; [| done]. constructor; [done | |].
  - apply Forall_forall. intros tm [Htm | ->]%Hin; [by apply (proj1 (Forall_forall _ _) Hsane) | done].
  - destruct (earliest tm0 s) eqn:He.
    + destruct (Hearly eq_refl) as (spec & Ea & Es). pose proof (armed_now when s' _ spec Hwhen (Hclock _) Ea Es) as Hby.
      intros tm [Htm | ->]%Hin; [| done]. apply (armed_by_le when _ s'); [| done | done].
      destruct (first_timer s tm Hw Htm) as (tm1 & _ & Eb & Hle). unfold earliest in He. rewrite Eb in He.
      unfold Timestamp.lt in He. apply Z.ltb_lt in He. change (Timer.expertion_time tm0) with when in He. cbn in He. lia.
    + specialize (Hlate eq_refl).
      intros tm [Htm | ->]%Hin; [apply (armed_by_le (Timer.expertion_time tm) _ s); [lia | done | by apply Harmed] |].
      unfold earliest in He. destruct (StdMap.begin_ (_timers s)) as [k|] eqn:Eb; [| done].
      destruct (timers_of s) as [|tm1 tms] eqn:Et; [by rewrite (wf_entries s Hw), Et in Eb |].
      destruct (first_timer s tm1 Hw) as (tm2 & Htm2 & Eb2 & _); [rewrite Et; by left |].
      rewrite Eb in Eb2. injection Eb2 as ->. unfold Timestamp.lt in He. apply Z.ltb_ge in He.
      apply (armed_by_le (Timer.expertion_time tm2) _ s); [exact He | done | apply Harmed; by rewrite <- Et].
Qed.

(** A read event: every timer that is due fires. *)
Lemma read_event_ok s : inv s -> possible ReadEvent s ->
  exists s', perform clock script ReadEvent s = Ret s' /\ inv s' /\
    fired s' = fired s ++ map Timer.id (due (clock (ticks s)) s) /\
    forall tm, tm ∈ timers_of s -> clock (ticks s) < Timer.expertion_time tm -> tm ∈ timers_of s'.
Proof.
  intros [Hw Hsane _] (_ & Hids & Hrestart & Hlate).
  destruct (timers_read_ok clock script Hclock s Hw Hids Hsane Hrestart Hlate)
    as (s' & E & Hw' & Hf & Hkeep & _ & _ & _ & Harm & Hsane').
  exists s'. split_and!; [done | | done | done]. constructor; [done | by apply Forall_forall |].
  intros tm Hin. destruct (first_timer s' tm Hw' Hin) as (tm1 & Hin1 & Eb & Hle).
  destruct (Harm _ Eb) as (n & spec & Ea & Hn & Es).
  apply (armed_by_le (Timer.expertion_time tm1) _ s'); [done | done |].
  apply (armed_now _ s' n spec); [by apply Hsane' | done | done | done].
Qed.

Lemma timer_perform_ok o s : inv s -> possible o s -> exists s', perform clock script o s = Ret s' /\ inv s'.
Proof.
  intros Hi Hp. destruct o as [cb when interval|id| |]; cbn [perform].
  - destruct (add_ok cb when interval s Hi Hp) as (s' & -> & Hi' & _). by exists s'.
  - exists (cancel id s). split; [done |]. destruct Hi as [Hw Hs Ha]. constructor; [by apply (wfx_ext [] s) | done | done].
  - destruct Hi as [Hw Hs Ha]. unfold do_pending. set (s0 := mk _ _ _ _ _ [] _ _ _).
    destruct (run_queued_spec (queued s) s0) as (s' & -> & Hw' & Hin & _ & _ & Ea); [by apply (wfx_ext [] s) |].
    exists s'. split; [done |]. constructor; [done | |].
    + apply Forall_forall. intros tm [Htm _]%Hin. by apply (proj1 (Forall_forall _ _) Hs).
    + intros tm [Htm _]%Hin. apply (armed_by_le (Timer.expertion_time tm) _ s); [lia | done | by apply Ha].
  - destruct (read_event_ok s Hi Hp) as (s' & E & Hi' & _). by exists s'.
Qed.

Lemma timer_run_ok ops s : inv s -> allowed ops s -> exists s', run clock script ops s = Ret s' /\ inv s'.
Proof.
  revert s. induction ops as [|o ops IH]; intros s Hi Ha; [by exists s |]. destruct Ha as [Hp Ha].
  destruct (timer_perform_ok o s Hi Hp) as (s1 & E1 & Hi1). cbn [run]. rewrite E1. by apply (IH s1 Hi1), Ha.
Qed.

Lemma empty_inv : inv make.
Proof. constructor; [apply empty_queue_wf | done | by intros tm []%elem_of_nil]. Qed.
End run.
End TimerRunSpec.

(** ** The property *)

Module TimerRunProps.
Import TimerQueue TimerSpec TimerRun TimerRunSpec.

(** C5: no timer is forgotten, as long as the callbacks that [handle_read] runs cancel
    what they like but add timers only in a release build and only behind the first
    timer that is not due (one added before it can be lost: [earlier_timer_lost]; in a
    debug build one added fails an assert: [second_callback_adds_timer]), all times are
    in the range where differences do not overflow ([sane], the first 146 years), and
    fewer than 2^64 timers are created. Then, whatever the loop's thread does with the queue
    (timers added and cancelled, expirations handled), every call returns, and the
    descriptor is always armed for every pending timer: it becomes readable no later
    than the timer is due, or 0.1 ms after it was last armed; and the read event that
    comes then fires every timer that is due, in order, and leaves those that are
    not. *)
Theorem timers_fire_in_time {B : Build} clock script ops
    (Hclock : forall n, sane (clock n)) (Hallowed : allowed clock script ops make) :
  exists s, run clock script ops make = Ret s /\
    (forall tm, tm ∈ timers_of s -> exists n spec d, armed s = Some (n, spec) /\ deadline s = Some d /\
       d <= Z.max (Timer.expertion_time tm) (n + 100000)) /\
    (possible clock script ReadEvent s ->
     exists s', perform clock script ReadEvent s = Ret s' /\
       fired s' = fired s ++ map Timer.id (due (clock (ticks s)) s) /\
       forall tm, tm ∈ timers_of s -> clock (ticks s) < Timer.expertion_time tm -> tm ∈ timers_of s').
Proof.
  destruct (timer_run_ok clock script Hclock ops make empty_inv Hallowed) as (s & E & Hi). exists s.
  split_and!; [done | apply Hi |]. intros Hp.
  destruct (read_event_ok clock script Hclock s Hi Hp) as (s' & Es & _ & Hf & Hk). by exists s'.
Qed.

(** *** Witness: two timers; the callback of the first cancels the second. *)
Definition clock (n : nat) : Timestamp.t := 1000000000 + Z.min (Z.of_nat n) 1000 * 200000.
Lemma run_clock_sane n : sane (clock n).
Proof. unfold sane, clock. lia. Qed.
Definition two : list op :=
  [Add 7 1000150000 TimerExample.zero; Add 8 5000000000 TimerExample.zero; Cancel 9; PendingFunctors].
Definition both_pending : t :=
  match @run TimerExample.debug clock TimerExample.cancels two make with Ret s => s | Stop _ => make end.

Lemma timers_fire_in_time_witness :
  map Timer.id (timers_of both_pending) = [1; 2] /\
  deadline both_pending = Some 1000150000 /\
  exists s', @perform TimerExample.debug clock TimerExample.cancels ReadEvent both_pending = Ret s' /\
    fired s' = [1].
Proof.
  split; [by vm_compute |]. split; [by vm_compute |].
  destruct (@timers_fire_in_time TimerExample.debug clock TimerExample.cancels two run_clock_sane) as (s & E & _ & Hread).
  - cbn [allowed two possible].
    repeat (split; [by vm_compute | let s := fresh "s" in let E := fresh "E" in intros s E; vm_compute in E; injection E as <-]).
    done.
  - assert (s = both_pending) as -> by (unfold both_pending; by rewrite E).
    assert (due (clock (ticks both_pending)) both_pending = [Timer.make 7 1000150000 TimerExample.zero 1]) as Edue by by vm_compute.
    destruct Hread as (s' & Es & Hf & _).
    + unfold possible. rewrite Edue. split_and!; [by vm_compute | by vm_compute | |].
      * apply Forall_singleton. by intros Hr.
      * intros tm s' ->%list_elem_of_singleton. by apply Forall_singleton.
    + exists s'. split; [exact Es |]. rewrite Hf, Edue. by vm_compute.
Defined.
End TimerRunProps.
