(* ===== verification/Pollers.v ===== *)
(** Channels and pollers (suduo/net/Channel.h/.cpp, Poller.h/.cpp,
    poller/EPollPoller.cpp, poller/PollPoller.cpp).

    Channels are shared objects: [heap] maps their addresses to their state, and
    a poller's [_channels] maps descriptors to addresses. [Class PollerOps] is
    the abstract class [Poller]; [PollerLaws] is what the loop relies on, proved
    for both implementations. The handlers run on the loop's thread, so
    [assert_in_loop_thread] holds. *)

From S2P Require Import Prelude.

(** <poll.h>'s event bits. *)
Definition POLLIN : Z := 1.
Definition POLLPRI : Z := 2.
Definition POLLOUT : Z := 4.
Definition POLLERR : Z := 8.
Definition POLLHUP : Z := 16.
Definition POLLNVAL : Z := 32.
Definition POLLRDHUP : Z := 8192.

(** [x & mask], as a condition. *)
Definition has (x mask : Z) : bool := negb (Z.land x mask =? 0).

Lemma has_bit x i : 0 <= i -> has x (2 ^ i) = Z.testbit x i.
Proof.
  intros Hi. unfold has. destruct (Z.eqb_spec (Z.land x (2 ^ i)) 0) as [E|E]; cbn.
  - apply (f_equal (fun z => Z.testbit z i)) in E.
    by rewrite Z.land_spec, Z.pow2_bits_true, andb_true_r, Z.bits_0 in E.
  - destruct (Z.testbit x i) eqn:Hx; [done |]. exfalso. apply E.
    apply Z.bits_inj'. intros j Hj. rewrite Z.land_spec, Z.pow2_bits_eqb, Z.bits_0 by done.
    destruct (Z.eqb_spec i j) as [<-|]; [by rewrite Hx | apply andb_false_r].
Qed.

Lemma has_lor x a b : has x (Z.lor a b) = has x a || has x b.
Proof.
  unfold has. rewrite Z.land_lor_distr_r.
  destruct (Z.eqb_spec (Z.land x a) 0) as [->|Ha], (Z.eqb_spec (Z.land x b) 0) as [->|Hb]; cbn;
    try done; apply negb_true_iff, Z.eqb_neq; rewrite Z.lor_eq_0_iff; naive_solver.
Qed.

Module Channel.

Definition none_event : Z := 0.
Definition read_event : Z := Z.lor POLLIN POLLPRI.
Definition write_event : Z := POLLOUT.

(** The members; [_tie] is the tied object's address, and a callback member is
    whether the [std::function] is set. *)
Record t := mk {
  _fd : Z;
  _index : Z;
  _events : Z;
  _revents : Z;
  _log_hup : bool;
  _tie : option Z;
  _tied : bool;
  _read_callback : bool;
  _write_callback : bool;
  _close_callback : bool;
  _error_callback : bool
}.

Definition make (fd : Z) : t := mk fd (-1) 0 0 true None false false false false false.
Definition with_callbacks (c : t) : t :=
  mk (_fd c) (_index c) (_events c) (_revents c) (_log_hup c) (_tie c) (_tied c)
     true true true true.

(** A setter's [std::function] may be empty. *)
Definition set_read_callback (c : t) (cb : bool) : t :=
  mk (_fd c) (_index c) (_events c) (_revents c) (_log_hup c) (_tie c) (_tied c)
     cb (_write_callback c) (_close_callback c) (_error_callback c).
Definition set_write_callback (c : t) (cb : bool) : t :=
  mk (_fd c) (_index c) (_events c) (_revents c) (_log_hup c) (_tie c) (_tied c)
     (_read_callback c) cb (_close_callback c) (_error_callback c).
Definition set_close_callback (c : t) (cb : bool) : t :=
  mk (_fd c) (_index c) (_events c) (_revents c) (_log_hup c) (_tie c) (_tied c)
     (_read_callback c) (_write_callback c) cb (_error_callback c).
Definition set_error_callback (c : t) (cb : bool) : t :=
  mk (_fd c) (_index c) (_events c) (_revents c) (_log_hup c) (_tie c) (_tied c)
     (_read_callback c) (_write_callback c) (_close_callback c) cb.
Definition set_log_hup (c : t) (on : bool) : t :=
  mk (_fd c) (_index c) (_events c) (_revents c) on (_tie c) (_tied c)
     (_read_callback c) (_write_callback c) (_close_callback c) (_error_callback c).

Definition fd (c : t) : Z := _fd c.
Definition events (c : t) : Z := _events c.
Definition index (c : t) : Z := _index c.
Definition set_events (c : t) (ev : Z) : t :=
  mk (_fd c) (_index c) ev (_revents c) (_log_hup c) (_tie c) (_tied c)
     (_read_callback c) (_write_callback c) (_close_callback c) (_error_callback c).
Definition set_revents (c : t) (recv : Z) : t :=
  mk (_fd c) (_index c) (_events c) recv (_log_hup c) (_tie c) (_tied c)
     (_read_callback c) (_write_callback c) (_close_callback c) (_error_callback c).
Definition set_index (c : t) (pos : Z) : t :=
  mk (_fd c) pos (_events c) (_revents c) (_log_hup c) (_tie c) (_tied c)
     (_read_callback c) (_write_callback c) (_close_callback c) (_error_callback c).
Definition tie (c : t) (obj : Z) : t :=
  mk (_fd c) (_index c) (_events c) (_revents c) (_log_hup c) (Some obj) true
     (_read_callback c) (_write_callback c) (_close_callback c) (_error_callback c).

Definition is_disable_all (c : t) : bool := _events c =? none_event.
Definition is_writing (c : t) : bool := has (_events c) write_event.
Definition is_reading (c : t) : bool := has (_events c) read_event.

(** [_events] after each of the five calls, before [update()]. [_events] is a
    [uint32_t], so [~] is taken in 32 bits. *)
Definition not32 (x : Z) : Z := 4294967295 - x.
Definition events_enable_reading (ev : Z) : Z := Z.lor ev read_event.
Definition events_disable_reading (ev : Z) : Z := Z.land ev (not32 read_event).
Definition events_enable_writing (ev : Z) : Z := Z.lor ev write_event.
Definition events_disable_writing (ev : Z) : Z := Z.land ev (not32 write_event).
Definition events_disable_all (ev : Z) : Z := none_event.

(** The callbacks an event runs, in order. *)
Inductive callback := OnClose | OnError | OnRead | OnWrite.
#[global] Instance callback_eq_dec : EqDecision callback.
Proof. solve_decision. Defined.

Definition handle_event_with_guard (c : t) : list callback :=
  (if has (_revents c) POLLHUP && negb (has (_revents c) POLLIN) && _close_callback c
   then [OnClose] else [])
  ++ (if has (_revents c) (Z.lor POLLERR POLLNVAL) && _error_callback c then [OnError] else [])
  ++ (if has (_revents c) (Z.lor POLLIN (Z.lor POLLPRI POLLRDHUP)) && _read_callback c
      then [OnRead] else [])
  ++ (if has (_revents c) POLLOUT && _write_callback c then [OnWrite] else []).

(** [_tie.lock()] succeeds while the tied object is [alive]. *)
Definition handle_event (alive : Z -> bool) (c : t) : list callback :=
  if _tied c then
    match _tie c with
    | Some obj => if alive obj then handle_event_with_guard c else []
    | None => []
    end
  else handle_event_with_guard c.

(** The bytes [events_to_string(fd, ev)] puts into its LogStream. *)
Definition events_to_string (fd ev : Z) : list byte :=
  decimal fd ++ bytes ": "
  ++ (if has ev POLLIN then bytes "IN " else [])
  ++ (if has ev POLLPRI then bytes "PRI " else [])
  ++ (if has ev POLLOUT then bytes "OUT " else [])
  ++ (if has ev POLLHUP then bytes "HUP " else [])
  ++ (if has ev POLLRDHUP then bytes "RDHUP " else [])
  ++ (if has ev POLLERR then bytes "ERR " else [])
  ++ (if has ev POLLNVAL then bytes "NVAL " else []).
End Channel.

Lemma fd_set_events c ev : Channel.fd (Channel.set_events c ev) = Channel.fd c.
Proof. done. Qed.
Lemma events_set_events c ev : Channel.events (Channel.set_events c ev) = ev.
Proof. done. Qed.
Lemma index_set_events c ev : Channel.index (Channel.set_events c ev) = Channel.index c.
Proof. done. Qed.

(** Live channels by address. *)
Abbreviation heap := (gmap Z Channel.t).

(** Dereferencing a [Channel*]. *)
Definition deref (h : heap) (p : Z) : res Channel.t :=
  match h !! p with Some c => Ret c | None => Stop UndefinedBehaviour end.

(** The abstract class [Poller]. [p_poll] takes what the kernel reports: the
    ready descriptors with their events, in the kernel's order. *)
Class PollerOps (P : Type) := {
  p_update : P -> Z -> heap -> res (P * heap);
  p_remove : P -> Z -> heap -> res (P * heap);
  p_poll : P -> heap -> list (Z * Z) -> res (list Z * heap);
  p_channels : P -> gmap Z Z
}.

(** [Poller::has_channel]. *)
Definition has_channel {P} `{PollerOps P} (p : P) (h : heap) (channel : Z) : res bool :=
  c ← deref h channel;
  mret (bool_decide (p_channels p !! Channel.fd c = Some channel)).

(** ** epoll *)

Inductive ctl := EPOLL_CTL_ADD | EPOLL_CTL_MOD | EPOLL_CTL_DEL.

(** The kernel's interest list: [epoll_ctl] on the events and the [data.ptr] of
    a descriptor; [false] is a failure ([EEXIST], [ENOENT]). *)
Class Epoll (K : Type) := {
  epoll_ctl : K -> ctl -> Z -> Z -> Z -> K * bool;
  interest : K -> gmap Z (Z * Z)
}.
Class EpollLaws (K : Type) `{Epoll K} : Prop := {
  epoll_add k fd ev ptr : interest k !! fd = None ->
    exists k', epoll_ctl k EPOLL_CTL_ADD fd ev ptr = (k', true) /\
      interest k' = <[fd := (ev, ptr)]> (interest k);
  epoll_mod k fd ev ptr : is_Some (interest k !! fd) ->
    exists k', epoll_ctl k EPOLL_CTL_MOD fd ev ptr = (k', true) /\
      interest k' = <[fd := (ev, ptr)]> (interest k);
  epoll_del k fd ev ptr : is_Some (interest k !! fd) ->
    exists k', epoll_ctl k EPOLL_CTL_DEL fd ev ptr = (k', true) /\
      interest k' = delete fd (interest k)
}.

Module EPollPoller.
Section operations.
Context {B : Build} {K : Type} `{Epoll K}.

Record t := mk {
  _channels : gmap Z Z;
  kernel : K
}.

(** [ERROR_CHECK(epoll_ctl(...))] aborts a debug build and is nothing in a
    release build. *)
Definition update (p : t) (operation : ctl) (channel : Z) (h : heap) : res t :=
  c ← deref h channel;
  let '(k, ok) := epoll_ctl (kernel p) operation (Channel.fd c) (Channel.events c) channel in
  _ ← assert_ ok;
  mret (mk (_channels p) k).

Definition update_channel (p : t) (channel : Z) (h : heap) : res (t * heap) :=
  c ← deref h channel;
  let fd := Channel.fd c in
  match _channels p !! fd with
  | None =>
      p ← update (mk (<[fd := channel]> (_channels p)) (kernel p)) EPOLL_CTL_ADD channel h;
      mret (p, h)
  | Some _ =>
      p ← update p EPOLL_CTL_MOD channel h;
      mret (p, h)
  end.

Definition remove_channel (p : t) (channel : Z) (h : heap) : res (t * heap) :=
  c ← deref h channel;
  let fd := Channel.fd c in
  match _channels p !! fd with
  | None => mret (p, h)
  | Some _ =>
      p ← update (mk (delete fd (_channels p)) (kernel p)) EPOLL_CTL_DEL channel h;
      mret (p, h)
  end.

(** [fill_active_channels]: each event carries the [data.ptr] given to
    [epoll_ctl]. *)
Fixpoint fill_active_channels (ready : list (Z * Z)) (h : heap) : res (list Z * heap) :=
  match ready with
  | [] => mret ([], h)
  | (channel, events) :: ready' =>
      c ← deref h channel;
      '(active, h) ← fill_active_channels ready' (<[channel := Channel.set_revents c events]> h);
      mret (channel :: active, h)
  end.

(** [epoll_wait] reports the ready descriptors' [data.ptr]. *)
Definition epoll_data (k : K) (ready : list (Z * Z)) : list (Z * Z) :=
  omap (fun '(fd, ev) => (fun '(_, ptr) => (ptr, ev)) <$> interest k !! fd) ready.
Definition poll (p : t) (h : heap) (ready : list (Z * Z)) : res (list Z * heap) :=
  fill_active_channels (epoll_data (kernel p) ready) h.

#[global] Instance epoll_ops : PollerOps t := {|
  p_update := update_channel;
  p_remove := remove_channel;
  p_poll := poll;
  p_channels := _channels
|}.
End operations.
Arguments t : clear implicits.
End EPollPoller.

(** ** poll *)

Module PollPoller.

Record pollfd := mk_pollfd {
  pfd_fd : Z;
  pfd_events : Z;
  pfd_revents : Z
}.

Record t := mk {
  _channels : gmap Z Z;
  _poll_fds : list pollfd
}.

(** [short]: the type of [pollfd::events] and [revents]. *)
Definition short (z : Z) : Z := to_signed 16 z.

Section operations.
Context {B : Build}.

Definition update_channel (p : t) (channel : Z) (h : heap) : res (t * heap) :=
  c ← deref h channel;
  let fd := Channel.fd c in
  if Channel.index c <? 0 then
    _ ← assert_ (bool_decide (_channels p !! fd = None));
    let fds := _poll_fds p ++ [mk_pollfd fd (short (Channel.events c)) 0] in
    let idx := zlen fds - 1 in
    mret (mk (<[fd := channel]> (_channels p)) fds,
          <[channel := Channel.set_index c idx]> h)
  else
    _ ← assert_ (bool_decide (is_Some (_channels p !! fd)));
    _ ← assert_ (bool_decide (_channels p !! fd = Some channel));
    let idx := Channel.index c in
    _ ← assert_ ((0 <=? idx) && (idx <? zlen (_poll_fds p)));
    match _poll_fds p !! Z.to_nat idx with
    | None => Stop UndefinedBehaviour
    | Some pfd =>
        _ ← assert_ ((pfd_fd pfd =? fd) || (pfd_fd pfd =? - fd - 1));
        let new_fd := if Channel.is_disable_all c then - fd - 1 else fd in
        mret (mk (_channels p)
                (<[Z.to_nat idx := mk_pollfd new_fd (short (Channel.events c)) 0]> (_poll_fds p)), h)
    end.

(** [_poll_fds.back().fd], [std::iter_swap] with the last element, [pop_back]. *)
Definition remove_channel (p : t) (channel : Z) (h : heap) : res (t * heap) :=
  c ← deref h channel;
  let fd := Channel.fd c in
  _ ← assert_ (bool_decide (is_Some (_channels p !! fd)));
  _ ← assert_ (bool_decide (_channels p !! fd = Some channel));
  _ ← assert_ (Channel.is_disable_all c);
  let idx := Channel.index c in
  _ ← assert_ ((0 <=? idx) && (idx <? zlen (_poll_fds p)));
  match _poll_fds p !! Z.to_nat idx, last (_poll_fds p) with
  | Some pfd, Some back =>
      if idx <? 0 then Stop UndefinedBehaviour else
      _ ← assert_ ((pfd_fd pfd =? - fd - 1) && (pfd_events pfd =? Channel.events c));
      let channels := delete fd (_channels p) in
      _ ← assert_ (bool_decide (is_Some (_channels p !! fd)));
      let fds := removelast (_poll_fds p) in
      if idx =? zlen (_poll_fds p) - 1 then mret (mk channels fds, h)
      else
        let channel_at_end := if pfd_fd back <? 0 then - pfd_fd back - 1 else pfd_fd back in
        match channels !! channel_at_end with
        | None => Stop UndefinedBehaviour
        | Some moved =>
            m ← deref h moved;
            mret (mk channels (<[Z.to_nat idx := back]> fds),
                  <[moved := Channel.set_index m idx]> h)
        end
  | _, _ => Stop UndefinedBehaviour
  end.

(** [poll(2)] stores the reported events; descriptors it does not report, and
    negative ones, get 0. *)
Definition store_revents (ready : list (Z * Z)) (pfd : pollfd) : pollfd :=
  mk_pollfd (pfd_fd pfd) (pfd_events pfd)
    match filter (fun e => e.1 = pfd_fd pfd) ready with
    | e :: _ => short e.2
    | [] => 0
    end.

Fixpoint fill_active_channels (channels : gmap Z Z) (fds : list pollfd) (events_num : Z)
    (h : heap) : res (list Z * heap) :=
  match fds with
  | [] => mret ([], h)
  | pfd :: fds' =>
      if 0 <? events_num then
        if 0 <? pfd_revents pfd then
          match channels !! pfd_fd pfd with
          | Some channel =>
              c ← deref h channel;
              '(active, h) ← fill_active_channels channels fds' (events_num - 1)
                 (<[channel := Channel.set_revents c (to_unsigned 32 (pfd_revents pfd))]> h);
              mret (channel :: active, h)
          | None => fill_active_channels channels fds' (events_num - 1) h
          end
        else fill_active_channels channels fds' events_num h
      else mret ([], h)
  end.

Definition poll (p : t) (h : heap) (ready : list (Z * Z)) : res (list Z * heap) :=
  let fds := map (store_revents ready) (_poll_fds p) in
  let events_num := Z.of_nat (count (fun pfd => negb (pfd_revents pfd =? 0)) fds) in
  fill_active_channels (_channels p) fds events_num h.

#[global] Instance poll_ops : PollerOps t := {|
  p_update := update_channel;
  p_remove := remove_channel;
  p_poll := poll;
  p_channels := _channels
|}.
End operations.
End PollPoller.

(** ** What the loop relies on *)

(** Heaps that differ in [_index] only, which belongs to the poller. *)
Definition strip (c : Channel.t) : Channel.t := Channel.set_index c 0.
Definition same_channels (h h' : heap) : Prop := forall q, strip <$> h !! q = strip <$> h' !! q.

#[export] Instance same_channels_equiv : Equivalence same_channels.
Proof. split; red; unfold same_channels; [done | done | congruence]. Qed.

#[export] Instance same_channels_insert q c :
  Proper (same_channels ==> same_channels) (<[q := c]> : heap -> heap).
Proof.
  intros h h' E r. destruct (decide (q = r)) as [->|];
    [by rewrite !lookup_insert_eq | rewrite !lookup_insert_ne by done; apply E].
Qed.

Lemma same_channels_lookup h h' q c :
  same_channels h h' -> h !! q = Some c ->
  exists c', h' !! q = Some c' /\ strip c' = strip c.
Proof.
  intros E Hq. specialize (E q). rewrite Hq in E. cbn in E.
  destruct (h' !! q) as [c'|]; [| done]. apply (inj Some) in E. by exists c'.
Qed.

(** The effect of an update of channel [q], now in state [c]: nobody else's
    state changes, and channels that are not registered are not touched at all. *)
Definition framed (channels : gmap Z Z) (q : Z) (c : Channel.t) (h h' : heap) : Prop :=
  same_channels (<[q := c]> h) h' /\
  forall r, r <> q -> (forall fd, channels !! fd <> Some r) -> h' !! r = h !! r.

(** The effect of a poll: every ready channel gets its events, and nothing else
    changes. *)
Definition stores_revents (channels : gmap Z Z) (ready : list (Z * Z)) (h h' : heap) : Prop :=
  (forall fd ev q c, (fd, ev) ∈ ready -> channels !! fd = Some q -> h !! q = Some c ->
     h' !! q = Some (Channel.set_revents c ev)) /\
  (forall q, (forall fd ev, (fd, ev) ∈ ready -> channels !! fd <> Some q) -> h' !! q = h !! q).

(** The masks a channel can ask for: [POLLIN], [POLLPRI], [POLLOUT]. *)
Definition mask_ok (ev : Z) : Prop := 0 <= ev < 8.

Class PollerLaws (P : Type) `{PollerOps P} := {
  p_wf : P -> heap -> Prop;
  (** the events the kernel is asked for, 0 for none, and whether it may report
      the descriptor at all *)
  p_waits : P -> Z -> Z;
  p_listens : P -> Z -> Prop;
  p_wf_channel p h fd q : p_wf p h -> p_channels p !! fd = Some q ->
    exists c, h !! q = Some c /\ Channel.fd c = fd /\ p_waits p fd = Channel.events c;
  p_wf_none p h fd : p_wf p h -> p_channels p !! fd = None -> p_waits p fd = 0;
  p_wf_frame p h r c : p_wf p h -> (forall fd, p_channels p !! fd <> Some r) ->
    p_wf p (<[r := c]> h);
  p_update_new p h q c ev : p_wf p h -> h !! q = Some c ->
    p_channels p !! Channel.fd c = None -> (forall fd, p_channels p !! fd <> Some q) ->
    Channel.index c = -1 -> 0 <= Channel.fd c -> mask_ok ev ->
    exists p' h', p_update p q (<[q := Channel.set_events c ev]> h) = Ret (p', h') /\
      p_wf p' h' /\ p_channels p' = <[Channel.fd c := q]> (p_channels p) /\
      framed (p_channels p) q (Channel.set_events c ev) h h';
  p_update_old p h q c ev : p_wf p h -> h !! q = Some c ->
    p_channels p !! Channel.fd c = Some q -> mask_ok ev ->
    exists p' h', p_update p q (<[q := Channel.set_events c ev]> h) = Ret (p', h') /\
      p_wf p' h' /\ p_channels p' = p_channels p /\
      framed (p_channels p) q (Channel.set_events c ev) h h';
  p_disable_remove p h q c : p_wf p h -> h !! q = Some c ->
    p_channels p !! Channel.fd c = Some q ->
    exists p1 h1 p' h', p_update p q (<[q := Channel.set_events c 0]> h) = Ret (p1, h1) /\
      p_remove p1 q h1 = Ret (p', h') /\
      p_wf p' h' /\ p_channels p' = delete (Channel.fd c) (p_channels p) /\
      framed (p_channels p) q (Channel.set_events c 0) h h';
  p_poll_spec p h ready : p_wf p h -> NoDup ready.*1 ->
    Forall (fun e => 0 < e.2 < 32768 /\ p_listens p e.1 /\ is_Some (p_channels p !! e.1)) ready ->
    exists active h', p_poll p h ready = Ret (active, h') /\ p_wf p h' /\
      active ≡ₚ omap (fun e => p_channels p !! e.1) ready /\
      stores_revents (p_channels p) ready h h'
}.

Lemma fill_fst l h active h' :
  EPollPoller.fill_active_channels l h = Ret (active, h') -> active = l.*1.
Proof.
  revert h active. induction l as [|[q ev] l IH]; intros h active; [by intros [= <- _] |].
  cbn [EPollPoller.fill_active_channels]. destruct (deref h q) as [c|]; [| done].
  cbn [mbind res_bind]. destruct (EPollPoller.fill_active_channels l _) as [[a h1]|] eqn:E; [| done].
  intros [= <- <-]. cbn. f_equal. by eapply IH.
Qed.

(** [fill_active_channels] on channels that are live and distinct. *)
Lemma fill_spec l h :
  NoDup l.*1 -> Forall (fun e => is_Some (h !! e.1)) l ->
  exists h', EPollPoller.fill_active_channels l h = Ret (l.*1, h') /\
    (forall q ev c, (q, ev) ∈ l -> h !! q = Some c ->
       h' !! q = Some (Channel.set_revents c ev)) /\
    (forall q, q ∉ l.*1 -> h' !! q = h !! q).
Proof.
  revert h. induction l as [|[q ev] l IH]; intros h Hnd Hlive.
  { exists h. split_and!; [done | | done]. intros q ev c Hin. by apply elem_of_nil in Hin. }
  apply NoDup_cons in Hnd as [Hq Hnd]. apply Forall_cons in Hlive as [[c Hc] Hlive].
  cbn [fst] in Hc.
  destruct (IH (<[q := Channel.set_revents c ev]> h) Hnd) as (h' & E & Hin & Hout).
  { eapply Forall_impl; [exact Hlive |]. intros [r ?] [c' Hr]. cbn [fst] in *.
    destruct (decide (q = r)) as [->|]; [by rewrite lookup_insert_eq |].
    rewrite lookup_insert_ne by done. eauto. }
  exists h'. cbn [EPollPoller.fill_active_channels]. unfold deref at 1. rewrite Hc.
  cbn [mbind res_bind]. rewrite E. cbn [mbind res_bind mret res_ret]. split_and!; [done | |].
  - intros r ev' c' [[= -> ->]|Hr]%elem_of_cons Hc'.
    + rewrite Hc in Hc'. injection Hc' as <-. by rewrite Hout, lookup_insert_eq.
    + apply (Hin _ _ _ Hr). rewrite lookup_insert_ne; [done |]. intros ->.
      apply Hq. apply list_elem_of_fmap. by exists (r, ev').
  - intros r Hr. cbn in Hr. apply not_elem_of_cons in Hr as [Hne Hr].
    rewrite Hout by done. by rewrite lookup_insert_ne.
Qed.

(** Registered channels are live, under their own descriptor. *)
Definition registered (channels : gmap Z Z) (h : heap) : Prop :=
  forall fd q, channels !! fd = Some q -> exists c, h !! q = Some c /\ Channel.fd c = fd.

Lemma registered_inj channels h fd fd' q :
  registered channels h -> channels !! fd = Some q -> channels !! fd' = Some q -> fd = fd'.
Proof.
  intros Hr (c & Hc & <-)%Hr (c' & Hc' & <-)%Hr. by rewrite Hc in Hc'; injection Hc' as <-.
Qed.

(** The channels of the reported descriptors, with what is reported. *)
Definition found (channels : gmap Z Z) (e : Z * Z) : option (Z * Z) :=
  (fun q => (q, e.2)) <$> channels !! e.1.

Lemma found_fst channels (ready : list (Z * Z)) :
  (omap (found channels) ready).*1 = omap (fun e => channels !! e.1) ready.
Proof.
  induction ready as [|[fd ev] ready IH]; [done |]. unfold found in *.
  cbn [omap list_omap fst snd] in *. destruct (channels !! fd) as [q|]; cbn; [| done].
  by f_equal.
Qed.

Lemma elem_of_found channels (ready : list (Z * Z)) q ev :
  (q, ev) ∈ omap (found channels) ready <->
  exists fd, (fd, ev) ∈ ready /\ channels !! fd = Some q.
Proof.
  rewrite list_elem_of_omap. unfold found. split.
  - intros ([fd ev'] & He & Hf). cbn [fst snd] in Hf.
    destruct (channels !! fd) as [r|] eqn:Hr; [| done]. injection Hf as -> ->. by exists fd.
  - intros (fd & He & Hf). exists (fd, ev). cbn [fst snd]. by rewrite Hf.
Qed.

Lemma found_NoDup channels h (ready : list (Z * Z)) :
  registered channels h -> NoDup ready.*1 -> NoDup (omap (found channels) ready).*1.
Proof.
  intros Hr. rewrite found_fst. induction ready as [|[fd ev] ready IH]; intros Hnd; [constructor |].
  apply NoDup_cons in Hnd as [Hfd Hnd]. cbn [omap list_omap fst].
  destruct (channels !! fd) as [q|] eqn:Hq; [| by apply IH].
  apply NoDup_cons. split; [| by apply IH].
  intros ([fd' ev'] & He & Hf)%list_elem_of_omap. cbn [fst] in Hf.
  apply Hfd, list_elem_of_fmap. exists (fd', ev'). split; [| done].
  by apply (registered_inj _ _ _ _ _ Hr Hq).
Qed.

Lemma fill_found channels h (ready l : list (Z * Z)) :
  registered channels h -> NoDup ready.*1 -> l ≡ₚ omap (found channels) ready ->
  exists h', EPollPoller.fill_active_channels l h = Ret (l.*1, h') /\
    l.*1 ≡ₚ omap (fun e => channels !! e.1) ready /\ stores_revents channels ready h h'.
Proof.
  intros Hr Hnd Hl.
  destruct (fill_spec l h) as (h' & E & Hin & Hout).
  { rewrite Hl. by eapply found_NoDup. }
  { rewrite Hl. apply Forall_forall. intros [q ev] (fd & _ & Hq)%elem_of_found.
    destruct (Hr _ _ Hq) as (c & Hc & _). cbn. by eexists. }
  exists h'. split_and!; [done | by rewrite Hl, found_fst | split].
  - intros fd ev q c He Hq. apply Hin. rewrite Hl. apply elem_of_found. by exists fd.
  - intros q Hq. apply Hout. rewrite Hl. intros ([r ev] & -> & He)%list_elem_of_fmap.
    apply elem_of_found in He as (fd & He & Hf). by eapply Hq.
Qed.

(** After a poll a channel has what it had, its [_revents] apart. *)
Lemma stores_revents_lookup channels ready h h' q c :
  NoDup ready.*1 -> stores_revents channels ready h h' -> h !! q = Some c ->
  exists ev, h' !! q = Some (Channel.set_revents c ev).
Proof.
  intros Hnd [Hin Hout] Hc.
  destruct (decide (Exists (fun e => channels !! e.1 = Some q) ready)) as [He|He].
  - apply Exists_exists in He as ([fd ev] & He & Hq). exists ev. by eapply Hin.
  - exists (Channel._revents c). rewrite Hout, Hc; [by destruct c |].
    intros fd ev He' Hq. apply He, Exists_exists. by exists (fd, ev).
Qed.

Lemma framed_insert channels q c h : framed channels q c h (<[q := c]> h).
Proof. split; [done |]. intros r Hr _. by rewrite lookup_insert_ne. Qed.

Lemma deref_insert h q c : deref (<[q := c]> h) q = Ret c.
Proof. unfold deref. by rewrite lookup_insert_eq. Qed.

(** *** epoll satisfies them *)

Module EPollSpec.
Section laws.
Context {B : Build} {K : Type} `{EpollLaws K}.
Import EPollPoller.

Record wf (p : t K) (h : heap) : Prop := mk_wf {
  wf_some fd q : _channels p !! fd = Some q ->
    exists c, h !! q = Some c /\ Channel.fd c = fd /\
      interest (kernel p) !! fd = Some (Channel.events c, q);
  wf_none fd : _channels p !! fd = None -> interest (kernel p) !! fd = None
}.
Definition waits (p : t K) (fd : Z) : Z :=
  match interest (kernel p) !! fd with Some (ev, _) => ev | None => 0 end.

(** What [update] and [remove] have in common: one descriptor changes. *)
Lemma wf_update p h q c ev k :
  wf p h -> h !! q = Some c ->
  (_channels p !! Channel.fd c = Some q \/ (forall fd, _channels p !! fd <> Some q)) ->
  interest k = <[Channel.fd c := (ev, q)]> (interest (kernel p)) ->
  wf (mk (<[Channel.fd c := q]> (_channels p)) k) (<[q := Channel.set_events c ev]> h).
Proof.
  intros Hw Hq Hr Ek. constructor; cbn [_channels kernel]; rewrite Ek; intros fd.
  - intros r. destruct (decide (Channel.fd c = fd)) as [<-|Hne].
    + rewrite !lookup_insert_eq. intros [= <-]. exists (Channel.set_events c ev).
      by rewrite lookup_insert_eq.
    + rewrite !lookup_insert_ne by done. intros Hf.
      destruct (wf_some _ _ Hw fd r Hf) as (c' & Hc' & Hfd & Hi).
      exists c'. split_and!; [| done | by rewrite lookup_insert_ne].
      rewrite lookup_insert_ne; [done |]. intros ->. destruct Hr as [Hr|Hr]; [| by eapply Hr]. congruence.
  - destruct (decide (Channel.fd c = fd)) as [<-|Hne]; [by rewrite lookup_insert_eq |].
    rewrite !lookup_insert_ne by done. apply (wf_none _ _ Hw).
Qed.

#[global] Program Instance epoll_laws : PollerLaws (t K) := {|
  p_wf := wf;
  p_waits := waits;
  p_listens p fd := is_Some (interest (kernel p) !! fd)
|}.
Next Obligation.
  intros p h fd q Hw Hf. cbn in *. destruct (wf_some _ _ Hw _ _ Hf) as (c & ? & ? & E).
  exists c. unfold waits. by rewrite E.
Qed.
Next Obligation. intros p h fd Hw Hf. unfold waits. by rewrite (wf_none _ _ Hw). Qed.
Next Obligation.
  intros p h r c Hw Hr. constructor; [| apply Hw]. intros fd q Hf.
  destruct (wf_some _ _ Hw _ _ Hf) as (c' & ? & ? & ?). exists c'.
  rewrite lookup_insert_ne; [done |]. intros ->. by eapply Hr.
Qed.
Next Obligation.
  intros p h q c ev Hw Hq Hn Hr _ _ _. cbn in *. unfold update_channel.
  rewrite deref_insert. cbn [mbind res_bind]. rewrite !fd_set_events, Hn. unfold update.
  rewrite deref_insert. cbn [mbind res_bind].
  destruct (epoll_add (kernel p) (Channel.fd c) ev q) as (k' & E & Ei); [by apply (wf_none _ _ Hw)|].
  cbn [kernel _channels]. rewrite fd_set_events, events_set_events, E, assert_true by done. cbn [mbind res_bind mret res_ret].
  eexists _, _. split_and!; [reflexivity | | reflexivity | apply framed_insert].
  apply wf_update; auto.
Qed.
Next Obligation.
  intros p h q c ev Hw Hq Hn _. cbn in *. unfold update_channel.
  rewrite deref_insert. cbn [mbind res_bind]. rewrite !fd_set_events, Hn. unfold update.
  rewrite deref_insert. cbn [mbind res_bind].
  destruct (epoll_mod (kernel p) (Channel.fd c) ev q) as (k' & E & Ei).
  { destruct (wf_some _ _ Hw _ _ Hn) as (? & _ & _ & ->). by eexists. }
  rewrite fd_set_events, events_set_events, E, assert_true by done. cbn [mbind res_bind mret res_ret].
  eexists _, _. split_and!; [reflexivity | | reflexivity | apply framed_insert].
  rewrite <- (insert_id (_channels p) (Channel.fd c) q) by done. apply wf_update; auto.
Qed.
Next Obligation.
  intros p h q c Hw Hq Hn. cbn in *. unfold update_channel.
  rewrite deref_insert. cbn [mbind res_bind]. rewrite !fd_set_events, Hn. unfold update at 1.
  rewrite deref_insert. cbn [mbind res_bind].
  destruct (epoll_mod (kernel p) (Channel.fd c) 0 q) as (k1 & E & Ei).
  { destruct (wf_some _ _ Hw _ _ Hn) as (? & _ & _ & ->). by eexists. }
  destruct (epoll_del k1 (Channel.fd c) 0 q) as (k2 & E2 & Ei2).
  { rewrite Ei, lookup_insert_eq. by eexists. }
  rewrite fd_set_events, events_set_events, E, assert_true by done. cbn [mbind res_bind mret res_ret].
  eexists _, _, _, _. split; [reflexivity |].
  unfold remove_channel. rewrite deref_insert. cbn [mbind res_bind _channels Channel.fd].
  rewrite !fd_set_events, Hn. unfold update.
  rewrite deref_insert. cbn [mbind res_bind kernel _channels].
  rewrite fd_set_events, events_set_events, E2, assert_true by done. cbn [mbind res_bind mret res_ret].
  split_and!; [reflexivity | | reflexivity | apply framed_insert].
  constructor; cbn [_channels kernel]; rewrite Ei2, Ei; intros fd.
  - intros r Hf. apply lookup_delete_Some in Hf as [Hne Hf].
    destruct (wf_some _ _ Hw _ _ Hf) as (c' & Hc' & Hfd & Hi). exists c'.
    rewrite lookup_insert_ne by congruence. split_and!; [done | done |].
    by rewrite lookup_delete_ne, lookup_insert_ne.
  - intros Hf. destruct (decide (Channel.fd c = fd)) as [<-|Hne]; [by rewrite lookup_delete_eq |].
    rewrite lookup_delete_ne in Hf by done.
    rewrite lookup_delete_ne, lookup_insert_ne by done. by apply (wf_none _ _ Hw).
Qed.
Next Obligation.
  intros p h ready Hw Hnd Hok. cbn in *. unfold poll.
  assert (Hr : registered (_channels p) h).
  { intros fd q Hq. destruct (wf_some _ _ Hw _ _ Hq) as (c & ? & ? & _). by exists c. }
  assert (Hd : epoll_data (kernel p) ready = omap (found (_channels p)) ready).
  { clear Hnd. induction ready as [|[fd ev] ready IH]; [done |].
    apply Forall_cons in Hok as [(_ & _ & [q Hq]) Hok]. cbn [fst snd] in *.
    destruct (wf_some _ _ Hw _ _ Hq) as (c & _ & _ & Hi).
    unfold epoll_data, found in *. cbn [omap list_omap fst snd].
    rewrite Hi, Hq. cbn. f_equal. by apply IH. }
  destruct (fill_found _ h ready _ Hr Hnd (reflexivity _)) as (h' & E & Hp & Hs).
  rewrite Hd. exists (omap (found (_channels p)) ready).*1, h'. split_and!; [done | | done | done].
  constructor; [| apply Hw]. intros fd q Hq.
  destruct (wf_some _ _ Hw _ _ Hq) as (c & Hc & ? & ?).
  destruct (stores_revents_lookup _ _ _ _ _ _ Hnd Hs Hc) as [ev Hev]. by exists (Channel.set_revents c ev).
Qed.
End laws.
End EPollSpec.

(** *** poll satisfies them *)

Module PollSpec.
Section laws.
Context {B : Build}.
Import PollPoller.

(** The descriptor an entry stands for: [-fd-1] is a disabled [fd]. *)
Definition owner (pfd : pollfd) : Z :=
  if pfd_fd pfd <? 0 then - pfd_fd pfd - 1 else pfd_fd pfd.

(** The entry of channel [c]. *)
Definition entry (c : Channel.t) (pfd : pollfd) : Prop :=
  (pfd_fd pfd = Channel.fd c \/ pfd_fd pfd = - Channel.fd c - 1 /\ Channel.events c = 0) /\
  pfd_events pfd = Channel.events c.

Record wf (p : t) (h : heap) : Prop := mk_wf {
  wf_some fd q : _channels p !! fd = Some q ->
    exists c i pfd, h !! q = Some c /\ Channel.fd c = fd /\ 0 <= fd /\
      mask_ok (Channel.events c) /\ Channel.index c = Z.of_nat i /\
      _poll_fds p !! i = Some pfd /\ entry c pfd;
  wf_entry i pfd : _poll_fds p !! i = Some pfd ->
    exists q c, _channels p !! owner pfd = Some q /\ h !! q = Some c /\
      Channel.index c = Z.of_nat i
}.

Definition entry_of (fds : list pollfd) (fd : Z) : option pollfd :=
  head (filter (fun pfd => owner pfd = fd) fds).
Definition waits (p : t) (fd : Z) : Z :=
  match entry_of (_poll_fds p) fd with Some pfd => pfd_events pfd | None => 0 end.
Definition listens (p : t) (fd : Z) : Prop := exists pfd, pfd ∈ _poll_fds p /\ pfd_fd pfd = fd.

Lemma owner_neg fd ev rev : 0 <= fd -> owner (mk_pollfd (- fd - 1) ev rev) = fd.
Proof. intros. unfold owner. cbn [pfd_fd]. rewrite (proj2 (Z.ltb_lt _ _)) by lia. lia. Qed.

Lemma entry_owner c pfd : 0 <= Channel.fd c -> entry c pfd -> owner pfd = Channel.fd c.
Proof.
  destruct pfd as [fd ev rev]. unfold entry. cbn [pfd_fd pfd_events].
  intros Hf [[->|[-> _]] _]; [| by apply owner_neg].
  unfold owner. cbn [pfd_fd]. by rewrite (proj2 (Z.ltb_ge _ _)) by lia.
Qed.

Lemma short_mask ev : mask_ok ev -> short ev = ev.
Proof.
  unfold mask_ok, short. intros ?. apply to_signed_small; [lia |].
  change (2 ^ (16 - 1)) with 32768. lia.
Qed.

Lemma short_small ev : 0 < ev < 32768 -> short ev = ev.
Proof.
  intros ?. apply to_signed_small; [lia |]. change (2 ^ (16 - 1)) with 32768. lia.
Qed.

Lemma short_unsigned ev : 0 < ev < 32768 -> to_unsigned 32 (short ev) = ev.
Proof. intros ?. rewrite short_small by done. apply Z.mod_small. lia. Qed.

Lemma owner_inj p h i j a b :
  wf p h -> _poll_fds p !! i = Some a -> _poll_fds p !! j = Some b -> owner a = owner b -> i = j.
Proof.
  intros Hw Ha Hb E.
  destruct (wf_entry _ _ Hw _ _ Ha) as (q & c & Hq & Hc & Hi).
  destruct (wf_entry _ _ Hw _ _ Hb) as (q' & c' & Hq' & Hc' & Hj).
  rewrite <- E, Hq in Hq'. injection Hq' as <-. rewrite Hc in Hc'. injection Hc' as <-. lia.
Qed.

Lemma entry_of_lookup p h i pfd :
  wf p h -> _poll_fds p !! i = Some pfd -> entry_of (_poll_fds p) (owner pfd) = Some pfd.
Proof.
  intros Hw Hi. unfold entry_of.
  destruct (filter _ (_poll_fds p)) as [|a l] eqn:Hl.
  - exfalso. apply (elem_of_nil pfd). rewrite <- Hl. apply list_elem_of_filter.
    split; [done |]. by eapply list_elem_of_lookup_2.
  - cbn. f_equal. assert (Ha : a ∈ a :: l) by constructor. rewrite <- Hl in Ha.
    apply list_elem_of_filter in Ha as [Ho [j Hj]%list_elem_of_lookup_1].
    assert (i = j) as -> by (by eapply owner_inj). congruence.
Qed.

Lemma wf_registered p h : wf p h -> registered (_channels p) h.
Proof. intros Hw fd q Hq. destruct (wf_some _ _ Hw _ _ Hq) as (c & ? & ? & ? & ? & _). by exists c. Qed.

(** Two registered channels with the same entry are the same. *)
Lemma index_inj p h fd fd' q q' c c' :
  wf p h -> _channels p !! fd = Some q -> _channels p !! fd' = Some q' ->
  h !! q = Some c -> h !! q' = Some c' -> Channel.index c = Channel.index c' -> q = q'.
Proof.
  intros Hw Hq Hq' Hc Hc' E.
  destruct (wf_some _ _ Hw _ _ Hq) as (? & i & pfd & E1 & Hf & Hp & _ & Ei & Hi & Hen).
  destruct (wf_some _ _ Hw _ _ Hq') as (? & j & pfd' & E2 & Hf' & Hp' & _ & Ej & Hj & Hen').
  simplify_eq. rewrite Ei, Ej in E. apply Nat2Z.inj in E as <-. rewrite Hi in Hj. injection Hj as <-.
  rewrite <- (entry_owner _ _ Hp Hen), (entry_owner _ _ Hp' Hen') in Hq. congruence.
Qed.

(** An entry is rewritten in place. *)
Lemma wf_set p h q c i pfd ev pfd' :
  wf p h -> h !! q = Some c -> _channels p !! Channel.fd c = Some q ->
  Channel.index c = Z.of_nat i -> _poll_fds p !! i = Some pfd -> mask_ok ev ->
  entry (Channel.set_events c ev) pfd' ->
  wf (mk (_channels p) (<[i := pfd']> (_poll_fds p))) (<[q := Channel.set_events c ev]> h).
Proof.
  intros Hw Hc Hq Hi Hp Hev Hen. constructor; cbn [_channels _poll_fds].
  - intros fd r Hr. destruct (wf_some _ _ Hw _ _ Hr) as (c' & j & a & Hc' & Hf & Hge & ? & Hj & Ha & ?).
    destruct (decide (q = r)) as [<-|Hne].
    + rewrite Hc in Hc'. injection Hc' as <-. exists (Channel.set_events c ev), i, pfd'.
      rewrite lookup_insert_eq, list_lookup_insert_eq by (by eapply lookup_lt_Some). done.
    + exists c', j, a. rewrite lookup_insert_ne by done. split_and!; try done.
      rewrite list_lookup_insert_ne; [done |]. intros <-. apply Hne.
      eapply (index_inj p h); eauto. congruence.
  - intros j a Ha. destruct (wf_some _ _ Hw _ _ Hq) as (? & _ & _ & E & _ & Hge & _).
    rewrite Hc in E. injection E as <-.
    destruct (decide (i = j)) as [<-|Hne].
    + rewrite list_lookup_insert_eq in Ha by (by eapply lookup_lt_Some). injection Ha as <-.
      exists q, (Channel.set_events c ev). rewrite lookup_insert_eq, (entry_owner (Channel.set_events c ev) _ Hge Hen). done.
    + rewrite list_lookup_insert_ne in Ha by done.
      destruct (wf_entry _ _ Hw _ _ Ha) as (r & c' & Hr & Hc' & Hj). exists r, c'.
      rewrite lookup_insert_ne; [done |]. intros <-. rewrite Hc in Hc'. injection Hc' as <-. lia.
Qed.

(** The asserts of [update_channel] and [remove_channel] on a registered channel. *)
Lemma find_registered p h q c :
  wf p h -> h !! q = Some c -> _channels p !! Channel.fd c = Some q ->
  exists i pfd, Channel.index c = Z.of_nat i /\ _poll_fds p !! i = Some pfd /\ entry c pfd /\
    0 <= Channel.fd c /\ mask_ok (Channel.events c) /\
    (0 <=? Channel.index c) && (Channel.index c <? zlen (_poll_fds p)) = true.
Proof.
  intros Hw Hc Hq. destruct (wf_some _ _ Hw _ _ Hq) as (? & i & pfd & E & Hf & Hp & Hm & Hi & Hl & Hen).
  rewrite Hc in E. injection E as <-. exists i, pfd. split_and!; try done.
  apply lookup_lt_Some in Hl. rewrite Hi.
  apply andb_true_intro. split; [apply Z.leb_le | apply Z.ltb_lt]; lia.
Qed.

Lemma update_old p h q c ev :
  wf p h -> h !! q = Some c -> _channels p !! Channel.fd c = Some q -> mask_ok ev ->
  exists p' i pfd', update_channel p q (<[q := Channel.set_events c ev]> h)
      = Ret (p', <[q := Channel.set_events c ev]> h) /\
    wf p' (<[q := Channel.set_events c ev]> h) /\ _channels p' = _channels p /\
    Channel.index c = Z.of_nat i /\ _poll_fds p' !! i = Some pfd' /\
    (ev = 0 -> pfd_fd pfd' = - Channel.fd c - 1).
Proof.
  intros Hw Hc Hq Hev.
  destruct (find_registered _ _ _ _ Hw Hc Hq) as (i & pfd & Hi & Hl & Hen & Hge & _ & Hb).
  unfold update_channel, deref. rewrite lookup_insert_eq. cbn [mbind res_bind].
  rewrite index_set_events, fd_set_events, events_set_events.
  rewrite (proj2 (Z.ltb_ge _ _)) by lia. rewrite Hq, !assert_true by (by try apply bool_decide_true; eauto).
  cbn [mbind res_bind]. rewrite Hi, Nat2Z.id, Hl.
  rewrite assert_true by (destruct Hen as [[->|[-> _]] _]; rewrite Z.eqb_refl, ?orb_true_r; done).
  cbn [mbind res_bind mret res_ret]. eexists _, i, _. split_and!; [reflexivity | | done | done | |].
  - eapply wf_set; eauto. unfold entry. cbn [pfd_fd pfd_events].
    rewrite fd_set_events, events_set_events. split; [| by apply short_mask].
    unfold Channel.is_disable_all, Channel.none_event. cbn.
    destruct (Z.eqb_spec ev 0); auto.
  - cbn [_poll_fds]. rewrite list_lookup_insert_eq by (by eapply lookup_lt_Some). done.
  - intros ->. done.
Qed.

Lemma lookup_removelast {A} (l : list A) i :
  removelast l !! i = if decide (i < length l - 1)%nat then l !! i else None.
Proof.
  rewrite removelast_firstn_len. destruct (decide _).
  - rewrite lookup_take_lt; [done | lia].
  - apply lookup_ge_None_2. rewrite length_take. lia.
Qed.

(** Removing entry [i]: the last one takes its place, and its channel's index
    follows. *)
Section remove.
Context (p : t) (h : heap) (q : Z) (c : Channel.t) (i : nat).
Context (Hw : wf p h) (Hc : h !! q = Some c) (Hq : _channels p !! Channel.fd c = Some q).
Context (Hi : Channel.index c = Z.of_nat i).

Local Abbreviation n := (length (_poll_fds p) - 1)%nat.

Lemma remove_last :
  i = n -> wf (mk (delete (Channel.fd c) (_channels p)) (removelast (_poll_fds p))) h.
Proof.
  intros Hn. constructor; cbn [_channels _poll_fds].
  - intros fd r [Hne Hr]%lookup_delete_Some.
    destruct (wf_some _ _ Hw _ _ Hr) as (c' & j & a & Hc' & Hf & ? & ? & Hj & Ha & ?).
    exists c', j, a. split_and!; try done. rewrite lookup_removelast, decide_True; [done |].
    pose proof (lookup_lt_Some _ _ _ Ha).
    enough (j <> i) by lia. intros ->. apply Hne.
    assert (q = r) as <- by (eapply (index_inj p h); eauto; congruence). congruence.
  - intros j a Ha. rewrite lookup_removelast in Ha. case_decide as Hlt; [| done].
    destruct (wf_entry _ _ Hw _ _ Ha) as (r & c' & Hr & Hc' & Hj).
    exists r, c'. split_and!; try done. rewrite lookup_delete_ne; [done |].
    intros E. rewrite E, Hr in Hq. injection Hq as ->. rewrite Hc in Hc'. injection Hc' as ->. lia.
Qed.

Lemma remove_swap back moved m :
  i <> n -> _poll_fds p !! n = Some back ->
  _channels p !! owner back = Some moved -> h !! moved = Some m ->
  Channel.index m = Z.of_nat n ->
  wf (mk (delete (Channel.fd c) (_channels p)) (<[i := back]> (removelast (_poll_fds p))))
     (<[moved := Channel.set_index m (Z.of_nat i)]> h).
Proof.
  intros Hn Hback Hmoved Hm Hin.
  assert (Hlt : (i < n)%nat).
  { destruct (find_registered _ _ _ _ Hw Hc Hq) as (j & a & Hj & Ha & _).
    apply lookup_lt_Some in Ha. lia. }
  assert (Hlen : (i < length (removelast (_poll_fds p)))%nat).
  { rewrite removelast_firstn_len, length_take. lia. }
  constructor; cbn [_channels _poll_fds].
  - intros fd r [Hne Hr]%lookup_delete_Some.
    destruct (wf_some _ _ Hw _ _ Hr) as (c' & j & a & Hc' & Hf & ? & ? & Hj & Ha & ?).
    destruct (decide (moved = r)) as [<-|Hmr].
    + rewrite Hm in Hc'. injection Hc' as <-. exists (Channel.set_index m (Z.of_nat i)), i, back.
      rewrite lookup_insert_eq, list_lookup_insert_eq by done. split_and!; try done.
      assert (j = n) as -> by lia. rewrite Hback in Ha. by injection Ha as ->.
    + exists c', j, a. rewrite lookup_insert_ne by done. split_and!; try done.
      pose proof (lookup_lt_Some _ _ _ Ha).
      rewrite list_lookup_insert_ne, lookup_removelast, decide_True; try done.
      * enough (j <> n) by lia. intros ->. apply Hmr. eapply (index_inj p h); eauto. congruence.
      * intros ->. apply Hne.
        assert (q = r) as <- by (eapply (index_inj p h); eauto; congruence). congruence.
  - intros j a Ha. destruct (decide (i = j)) as [<-|Hij].
    + rewrite list_lookup_insert_eq in Ha by done. injection Ha as <-.
      exists moved, (Channel.set_index m (Z.of_nat i)). rewrite lookup_insert_eq. split_and!; try done.
      rewrite lookup_delete_ne; [done |]. intros E. rewrite E, Hmoved in Hq. injection Hq as ->.
      rewrite Hc in Hm. injection Hm as ->. lia.
    + rewrite list_lookup_insert_ne, lookup_removelast in Ha by done. case_decide; [| done].
      destruct (wf_entry _ _ Hw _ _ Ha) as (r & c' & Hr & Hc' & Hj). exists r, c'.
      rewrite lookup_insert_ne; [rewrite lookup_delete_ne; [done |] |].
      * intros E. rewrite E, Hr in Hq. injection Hq as ->. rewrite Hc in Hc'. injection Hc' as ->. lia.
      * intros ->. rewrite Hm in Hc'. injection Hc' as ->. lia.
Qed.
End remove.

Lemma remove_spec p h q c i pfd :
  wf p h -> h !! q = Some c -> _channels p !! Channel.fd c = Some q ->
  Channel.events c = 0 -> Channel.index c = Z.of_nat i ->
  _poll_fds p !! i = Some pfd -> pfd_fd pfd = - Channel.fd c - 1 -> entry c pfd ->
  exists p' h', remove_channel p q h = Ret (p', h') /\ wf p' h' /\
    _channels p' = delete (Channel.fd c) (_channels p) /\ same_channels h h' /\
    forall r, (forall fd, _channels p !! fd <> Some r) -> h' !! r = h !! r.
Proof.
  intros Hw Hc Hq Hz Hi Hl Hneg Hen.
  destruct (find_registered _ _ _ _ Hw Hc Hq) as (j & a & Hj & Ha & _ & _ & _ & Hb).
  assert (j = i) as -> by lia.
  destruct (last (_poll_fds p)) as [back|] eqn:Hback.
  2: { apply last_None in Hback. rewrite Hback in Hl. done. }
  rewrite last_lookup in Hback. rewrite <- Nat.sub_1_r in Hback.
  unfold remove_channel, deref. rewrite Hc. cbn [mbind res_bind].
  rewrite Hq, !assert_true by (try apply bool_decide_true; eauto; unfold Channel.is_disable_all; by apply Z.eqb_eq).
  cbn [mbind res_bind]. rewrite Hi, Nat2Z.id, Hl, last_lookup, <- Nat.sub_1_r, Hback.
  rewrite (proj2 (Z.ltb_ge _ _)) by lia.
  rewrite !assert_true by (rewrite ?Hneg, ?(proj2 Hen), ?Z.eqb_refl; done).
  cbn [mbind res_bind]. pose proof (lookup_lt_Some _ _ _ Hl).
  destruct (Z.eqb_spec (Z.of_nat i) (zlen (_poll_fds p) - 1)) as [Hn|Hn].
  - eexists _, _. split_and!; [done | apply (remove_last p h q c i); try done; lia | done | done | done].
  - destruct (wf_entry _ _ Hw _ _ Hback) as (moved & m & Hmoved & Hm & Hin).
    fold (owner back). rewrite lookup_delete_ne, Hmoved.
    2: { intros E. rewrite E, Hmoved in Hq. injection Hq as ->. rewrite Hc in Hm.
         injection Hm as ->. lia. }
    rewrite Hm. cbn [mbind res_bind mret res_ret]. eexists _, _.
    split_and!; [done | apply (remove_swap p h q c i); try done; lia | done | |].
    + intros r. destruct (decide (moved = r)) as [<-|].
      * rewrite lookup_insert_eq, Hm. done.
      * by rewrite lookup_insert_ne.
    + intros r Hr. rewrite lookup_insert_ne; [done |]. intros ->. by eapply Hr.
Qed.

(** A new channel's entry goes to the end. *)
Lemma wf_push p h q c ev :
  wf p h -> _channels p !! Channel.fd c = None -> (forall fd, _channels p !! fd <> Some q) ->
  0 <= Channel.fd c -> mask_ok ev ->
  wf (mk (<[Channel.fd c := q]> (_channels p)) (_poll_fds p ++ [mk_pollfd (Channel.fd c) ev 0]))
     (<[q := Channel.set_index (Channel.set_events c ev) (zlen (_poll_fds p))]> h).
Proof.
  intros Hw Hn Hq Hge Hev. set (new := mk_pollfd (Channel.fd c) ev 0).
  set (c1 := Channel.set_index _ _). set (fds := _poll_fds p).
  assert (Hen : entry c1 new) by (split; [by left | done]).
  constructor; cbn [_channels _poll_fds].
  - intros fd r. rewrite lookup_insert. case_decide as Hfd; intros Hr.
    + injection Hr as <-. exists c1, (length fds), new.
      rewrite lookup_insert_eq. split_and!; try done; [lia |].
      by rewrite lookup_app_r, Nat.sub_diag.
    + destruct (wf_some _ _ Hw _ _ Hr) as (c' & j & a & ? & ? & ? & ? & ? & Ha & ?).
      exists c', j, a. rewrite lookup_insert_ne by (intros ->; by eapply Hq). split_and!; try done.
      rewrite lookup_app_l; [done |]. by eapply lookup_lt_Some.
  - intros j a Ha. apply lookup_app_Some in Ha as [Ha|[Hj Ha]].
    + destruct (wf_entry _ _ Hw _ _ Ha) as (r & c' & Hr & ? & ?). exists r, c'.
      rewrite !lookup_insert_ne; try done; [intros ->; by eapply Hq | congruence].
    + apply list_lookup_singleton_Some in Ha as [Hj' <-]. exists q, c1.
      rewrite (entry_owner c1 new Hge Hen), !lookup_insert_eq. split_and!; try done.
      change (zlen fds = Z.of_nat j). lia.
Qed.

(** What [fill_active_channels] makes of an entry. *)
Definition report (channels : gmap Z Z) (pfd : pollfd) : option (Z * Z) :=
  if 0 <? pfd_revents pfd
  then (fun q => (q, to_unsigned 32 (pfd_revents pfd))) <$> channels !! pfd_fd pfd
  else None.

Definition positive (pfd : pollfd) : bool := 0 <? pfd_revents pfd.

(** Counting the reported descriptors stops the loop early, never too early. *)
Lemma fill_eq channels fds events_num h :
  (count positive fds <= Z.to_nat events_num)%nat ->
  fill_active_channels channels fds events_num h
  = EPollPoller.fill_active_channels (omap (report channels) fds) h.
Proof.
  unfold report, positive. revert events_num h. induction fds as [|pfd fds IH]; intros n h Hn; [done |].
  cbn [fill_active_channels omap list_omap]. cbn [count] in Hn.
  destruct (0 <? n) eqn:Hpos.
  - apply Z.ltb_lt in Hpos. destruct (0 <? pfd_revents pfd); [| apply IH; lia].
    destruct (channels !! pfd_fd pfd) as [q|]; cbn; [| apply IH; lia].
    destruct (deref h q) as [c|]; [| done]. cbn [mbind res_bind]. by rewrite IH by lia.
  - apply Z.ltb_ge in Hpos. destruct (0 <? pfd_revents pfd); [lia |].
    rewrite <- (IH n) by lia. destruct fds; [done |]. cbn.
    by rewrite (proj2 (Z.ltb_ge _ _)) by lia.
Qed.

Lemma store_revents_in ready fd ev pfd :
  NoDup ready.*1 -> (fd, ev) ∈ ready -> pfd_fd pfd = fd ->
  pfd_revents (store_revents ready pfd) = short ev.
Proof.
  intros Hnd He Hf. unfold store_revents. cbn [pfd_revents].
  destruct (filter _ ready) as [|[fd' ev'] l] eqn:Hl.
  - exfalso. apply (elem_of_nil (fd, ev)). rewrite <- Hl. by apply list_elem_of_filter.
  - assert (Ha : (fd', ev') ∈ (fd', ev') :: l) by constructor. rewrite <- Hl in Ha.
    apply list_elem_of_filter in Ha as [Ho Ha]. cbn [fst snd] in *. f_equal.
    subst. by eapply (NoDup_fst_inj ready (pfd_fd pfd)).
Qed.

Lemma store_revents_positive ready pfd :
  0 < pfd_revents (store_revents ready pfd) -> exists ev, (pfd_fd pfd, ev) ∈ ready.
Proof.
  unfold store_revents. cbn [pfd_revents].
  destruct (filter _ ready) as [|[fd' ev'] l] eqn:Hl; [lia |]. intros _.
  assert (Ha : (fd', ev') ∈ (fd', ev') :: l) by constructor. rewrite <- Hl in Ha.
  apply list_elem_of_filter in Ha as [Ho Ha]. cbn in Ho. subst. by exists ev'.
Qed.

Lemma poll_eq p h ready :
  poll p h ready
  = EPollPoller.fill_active_channels
      (omap (report (_channels p)) (map (store_revents ready) (_poll_fds p))) h.
Proof.
  unfold poll. apply fill_eq. rewrite Nat2Z.id. apply count_le. unfold positive. intros pfd.
  destruct (Z.ltb_spec 0 (pfd_revents pfd)), (Z.eqb_spec (pfd_revents pfd) 0); cbn; try done; lia.
Qed.

Lemma report_found p h ready :
  wf p h -> NoDup ready.*1 ->
  Forall (fun e => 0 < e.2 < 32768 /\ listens p e.1 /\ is_Some (_channels p !! e.1)) ready ->
  omap (report (_channels p)) (map (store_revents ready) (_poll_fds p))
  ≡ₚ omap (found (_channels p)) ready.
Proof.
  intros Hw Hnd Hok. pose proof (wf_registered _ _ Hw) as Hreg.
  assert (Hval : forall a q ev, report (_channels p) (store_revents ready a) = Some (q, ev) <->
            (pfd_fd a, ev) ∈ ready /\ _channels p !! pfd_fd a = Some q).
  { intros a q ev. unfold report. split.
    - destruct (0 <? _) eqn:Hpos; [| done]. apply Z.ltb_lt in Hpos.
      destruct (store_revents_positive _ _ Hpos) as [ev' He].
      rewrite (store_revents_in _ _ _ _ Hnd He) by done.
      intros (r & Hr & [= <- ->])%fmap_Some. split; [| done]. cbn [pfd_fd store_revents] in Hr.
      rewrite Forall_forall in Hok. destruct (Hok _ He) as [Hev _]. cbn in Hev.
      by rewrite short_unsigned.
    - intros [He Hq]. rewrite (store_revents_in _ _ _ _ Hnd He) by done.
      rewrite Forall_forall in Hok. destruct (Hok _ He) as [Hev _]. cbn in Hev.
      rewrite short_small by done. rewrite (proj2 (Z.ltb_lt _ _)) by lia.
      cbn [pfd_fd store_revents]. rewrite Hq. cbn. by rewrite <- (short_small ev), short_unsigned at 1. }
  apply NoDup_Permutation.
  - apply NoDup_omap. intros i j a b [q ev] (a' & -> & Ha')%list_lookup_fmap_Some
      (b' & -> & Hb')%list_lookup_fmap_Some Ha Hb.
    apply Hval in Ha as [_ Ha], Hb as [_ Hb].
    pose proof (registered_inj _ _ _ _ _ Hreg Ha Hb) as Heq.
    apply (owner_inj p h i j a' b'); try done. unfold owner. by rewrite Heq.
  - apply (NoDup_fmap_1 fst). by eapply found_NoDup.
  - intros [q ev]. rewrite elem_of_found, list_elem_of_omap. split.
    + intros (pfd & (a & -> & _)%list_elem_of_fmap & Hr). apply Hval in Hr as [? ?]. by exists (pfd_fd a).
    + intros (fd & He & Hq). rewrite Forall_forall in Hok.
      destruct (Hok _ He) as (_ & (a & Ha & Hf) & _). cbn in Hf. exists (store_revents ready a).
      split; [apply list_elem_of_fmap; by exists a |]. apply Hval. by rewrite Hf.
Qed.

Lemma wf_revents p h h' ready :
  wf p h -> NoDup ready.*1 -> stores_revents (_channels p) ready h h' -> wf p h'.
Proof.
  intros Hw Hnd Hs. constructor.
  - intros fd q Hq. destruct (wf_some _ _ Hw _ _ Hq) as (c & i & pfd & Hc & ?).
    destruct (stores_revents_lookup _ _ _ _ _ _ Hnd Hs Hc) as [ev Hev].
    by exists (Channel.set_revents c ev), i, pfd.
  - intros i pfd Hi. destruct (wf_entry _ _ Hw _ _ Hi) as (q & c & Hq & Hc & ?).
    destruct (stores_revents_lookup _ _ _ _ _ _ Hnd Hs Hc) as [ev Hev].
    by exists q, (Channel.set_revents c ev).
Qed.

#[global] Program Instance poll_laws : PollerLaws t := {|
  p_wf := wf;
  p_waits := waits;
  p_listens := listens
|}.
Next Obligation.
  intros p h fd q Hw Hq. cbn in *. destruct (wf_some _ _ Hw _ _ Hq) as (c & i & pfd & ? & Hf & ? & _ & _ & Hi & Hen).
  exists c. split_and!; try done. unfold waits.
  rewrite <- Hf, <- (entry_owner c pfd), (entry_of_lookup _ _ _ _ Hw Hi); [apply Hen | lia | done].
Qed.
Next Obligation.
  intros p h fd Hw Hn. cbn in *. unfold waits, entry_of.
  destruct (filter _ (_poll_fds p)) as [|a l] eqn:Hl; [done |]. exfalso.
  assert (Ha : a ∈ a :: l) by constructor. rewrite <- Hl in Ha.
  apply list_elem_of_filter in Ha as [Ho [j Hj]%list_elem_of_lookup_1].
  destruct (wf_entry _ _ Hw _ _ Hj) as (r & c & Hr & _). congruence.
Qed.
Next Obligation.
  intros p h r c Hw Hr. cbn in *. constructor.
  - intros fd q Hq. destruct (wf_some _ _ Hw _ _ Hq) as (c' & i & pfd & ?). exists c', i, pfd.
    rewrite lookup_insert_ne; [done |]. intros ->. by eapply Hr.
  - intros i pfd Hi. destruct (wf_entry _ _ Hw _ _ Hi) as (q & c' & Hq & ? & ?). exists q, c'.
    rewrite lookup_insert_ne; [done |]. intros ->. by eapply Hr.
Qed.
Next Obligation.
  intros p h q c ev Hw Hc Hn Hr Hi Hge Hev. cbn in *. unfold update_channel.
  rewrite deref_insert. cbn [mbind res_bind].
  rewrite index_set_events, !fd_set_events, events_set_events.
  rewrite Hi, Hn, short_mask, assert_true by done. cbn [Z.ltb Z.compare mbind res_bind mret res_ret].
  eexists _, _. rewrite insert_insert_eq, length_app. cbn [length].
  replace (Z.of_nat (length (_poll_fds p) + 1) - 1) with (zlen (_poll_fds p)) by lia.
  split_and!; [reflexivity | by apply wf_push | done |]. split.
  - intros r. destruct (decide (q = r)) as [<-|]; [by rewrite !lookup_insert_eq | by rewrite !lookup_insert_ne].
  - intros r Hne _. by rewrite lookup_insert_ne.
Qed.
Next Obligation.
  intros p h q c ev Hw Hc Hq Hev. cbn in *.
  destruct (update_old _ _ _ _ _ Hw Hc Hq Hev) as (p' & i & pfd & E & Hw' & Hch & _).
  exists p', (<[q := Channel.set_events c ev]> h). split_and!; try done. apply framed_insert.
Qed.
Next Obligation.
  intros p h q c Hw Hc Hq. cbn in *.
  destruct (update_old _ _ _ _ 0 Hw Hc Hq) as (p1 & i & pfd & E & Hw' & Hch & Hi & Hl & Hneg); [done |].
  destruct (remove_spec p1 (<[q := Channel.set_events c 0]> h) q (Channel.set_events c 0) i pfd)
    as (p' & h' & E2 & Hw2 & Hch2 & Hsame & Hframe); try done.
  { by rewrite lookup_insert_eq. }
  { by rewrite Hch, fd_set_events. }
  { by apply Hneg. }
  { destruct (find_registered p1 (<[q := Channel.set_events c 0]> h) q (Channel.set_events c 0))
      as (j & a & Hj & Ha & Hen & _); [done | by rewrite lookup_insert_eq | by rewrite Hch |].
    rewrite index_set_events, Hi in Hj. apply Nat2Z.inj in Hj as <-. by simplify_eq. }
  exists p1, (<[q := Channel.set_events c 0]> h), p', h'. rewrite <- Hch. split_and!; try done.
  split; [done |]. intros r Hne Hr. rewrite Hframe by done. by rewrite lookup_insert_ne.
Qed.
Next Obligation.
  intros p h ready Hw Hnd Hok. cbn in *.
  pose proof (report_found p h ready Hw Hnd Hok) as Hp.
  destruct (fill_found _ h ready _ (wf_registered _ _ Hw) Hnd Hp) as (h' & E & Hact & Hs).
  eexists _, h'. rewrite poll_eq. split_and!; [done | | done | done].
  by apply (wf_revents p h h' ready).
Qed.
End laws.
End PollSpec.

(** ** The channels of a loop

    What a channel's user does: enable and disable reading and writing, and in
    the end [disable_all] and [remove]. *)

Inductive change :=
  | enable_reading | disable_reading | enable_writing | disable_writing | disable_all.
Definition new_events (ch : change) (ev : Z) : Z :=
  match ch with
  | enable_reading => Channel.events_enable_reading ev
  | disable_reading => Channel.events_disable_reading ev
  | enable_writing => Channel.events_enable_writing ev
  | disable_writing => Channel.events_disable_writing ev
  | disable_all => Channel.events_disable_all ev
  end.

Inductive channel_call := Change (q : Z) (ch : change) | Retire (q : Z).

Section clients.
Context {P : Type} `{PollerOps P}.

(** [Channel::enable_reading] and the others: the new [_events], [update()]. *)
Definition change_events (ch : change) (p : P) (q : Z) (h : heap) : res (P * heap) :=
  c ← deref h q;
  p_update p q (<[q := Channel.set_events c (new_events ch (Channel.events c))]> h).

Definition run_call (call : channel_call) (p : P) (h : heap) : res (P * heap) :=
  match call with
  | Change q ch => change_events ch p q h
  | Retire q =>
      '(p, h) ← change_events disable_all p q h;
      p_remove p q h
  end.

Fixpoint run_calls (calls : list channel_call) (p : P) (h : heap) : res (P * heap) :=
  match calls with
  | [] => mret (p, h)
  | call :: calls' => '(p, h) ← run_call call p h; run_calls calls' p h
  end.
End clients.

(** *** What it amounts to *)

Module ChannelSpec.

Inductive phase := Fresh | Registered | Retired.
#[global] Instance phase_dec : EqDecision phase.
Proof. solve_decision. Defined.
Record view := mk_view { v_fd : Z; v_events : Z; v_phase : phase }.
Abbreviation views := (gmap Z view).

(** No other channel is registered under this descriptor. *)
Definition free (s : views) (fd : Z) : Prop :=
  map_Forall (fun _ v => v_fd v = fd -> v_phase v <> Registered) s.
#[global] Instance free_dec s fd : Decision (free s fd).
Proof. apply map_Forall_dec. intros _ v. apply _. Defined.

Inductive step (s : views) : channel_call -> views -> Prop :=
  | step_first q v ch : s !! q = Some v -> v_phase v = Fresh -> free s (v_fd v) ->
      step s (Change q ch) (<[q := mk_view (v_fd v) (new_events ch (v_events v)) Registered]> s)
  | step_change q v ch : s !! q = Some v -> v_phase v = Registered ->
      step s (Change q ch) (<[q := mk_view (v_fd v) (new_events ch (v_events v)) Registered]> s)
  | step_retire q v : s !! q = Some v -> v_phase v = Registered ->
      step s (Retire q) (<[q := mk_view (v_fd v) 0 Retired]> s).

Inductive steps : views -> list channel_call -> views -> Prop :=
  | steps_nil s : steps s [] s
  | steps_cons s call s1 calls s2 :
      step s call s1 -> steps s1 calls s2 -> steps s (call :: calls) s2.

(** The events the calls ask for on a descriptor. *)
Definition wanted (s : views) (fd ev : Z) : Prop :=
  (exists q, s !! q = Some (mk_view fd ev Registered)) \/ (free s fd /\ ev = 0).

(** Channels as they are constructed. *)
Definition fresh (fds : gmap Z Z) : heap := Channel.make <$> fds.
Definition all_fresh (fds : gmap Z Z) : views := (fun fd => mk_view fd 0 Fresh) <$> fds.

Lemma new_events_ok ch ev : mask_ok ev -> mask_ok (new_events ch ev).
Proof.
  unfold mask_ok. intros Hev.
  assert (ev = 0 \/ ev = 1 \/ ev = 2 \/ ev = 3 \/ ev = 4 \/ ev = 5 \/ ev = 6 \/ ev = 7) as Hc by lia.
  destruct ch; decompose [or] Hc; subst; vm_compute; done.
Qed.

Section refinement.
Context {P : Type} `{PollerLaws P}.

Record sim (p : P) (h : heap) (s : views) : Prop := mk_sim {
  sim_wf : p_wf p h;
  sim_view q v : s !! q = Some v ->
    exists c, h !! q = Some c /\ Channel.fd c = v_fd v /\ Channel.events c = v_events v /\
      0 <= v_fd v /\ mask_ok (v_events v) /\
      (v_phase v = Registered -> p_channels p !! v_fd v = Some q) /\
      (v_phase v = Fresh -> Channel.index c = -1);
  sim_registered fd q : p_channels p !! fd = Some q ->
    exists v, s !! q = Some v /\ v_fd v = fd /\ v_phase v = Registered
}.

Lemma strip_fields c c' :
  strip c = strip c' -> Channel.fd c = Channel.fd c' /\ Channel.events c = Channel.events c'.
Proof. destruct c, c'. cbn. by intros [= -> ->]. Qed.

Lemma sim_wanted p h s fd : sim p h s -> wanted s fd (p_waits p fd).
Proof.
  intros Hs. destruct (p_channels p !! fd) as [q|] eqn:Hq.
  - destruct (sim_registered _ _ _ Hs _ _ Hq) as ([fd' ev ph] & Hv & Hf & Hp). cbn in Hf, Hp. subst.
    destruct (sim_view _ _ _ Hs _ _ Hv) as (c & Hc & Hf & Hev & _).
    destruct (p_wf_channel _ _ _ _ (sim_wf _ _ _ Hs) Hq) as (c' & Hc' & _ & Hw).
    left. exists q. rewrite Hw. rewrite Hc in Hc'. injection Hc' as <-. cbn in Hev. by rewrite Hev.
  - right. split; [| by apply (p_wf_none p h); [apply Hs |]].
    intros q v Hv Hf Hp. destruct (sim_view _ _ _ Hs _ _ Hv) as (c & _ & _ & _ & _ & _ & Hr & _).
    rewrite <- Hf, Hr in Hq by done. done.
Qed.

(** One channel's call: its view becomes [v'], the others stay. *)
Lemma sim_frame p h s p' h' q c v v' :
  sim p h s -> s !! q = Some v -> h !! q = Some c -> v_fd v' = v_fd v ->
  mask_ok (v_events v') -> v_phase v' <> Fresh ->
  p_wf p' h' -> framed (p_channels p) q (Channel.set_events c (v_events v')) h h' ->
  (v_phase v <> Registered -> free s (v_fd v)) ->
  p_channels p' = match v_phase v' with
                  | Registered => <[v_fd v := q]> (p_channels p)
                  | _ => delete (v_fd v) (p_channels p)
                  end ->
  sim p' h' (<[q := v']> s).
Proof.
  intros Hs Hv Hc Hfd Hm Hnf Hw [Hsame Hframe] Hfree Hch.
  destruct (sim_view _ _ _ Hs _ _ Hv) as (? & Hc0 & Hf & _ & Hge & _ & Hreg & _).
  rewrite Hc in Hc0. injection Hc0 as <-.
  constructor; [done | |].
  - intros r w. destruct (decide (q = r)) as [<-|Hne].
    + rewrite lookup_insert_eq. intros [= <-].
      destruct (same_channels_lookup _ _ q (Channel.set_events c (v_events v')) Hsame)
        as (c' & Hc' & [Hf' He']%strip_fields); [by rewrite lookup_insert_eq |].
      exists c'. rewrite Hf', He', Hfd. split_and!; try done.
      intros Hp. by rewrite Hch, Hp, lookup_insert_eq.
    + rewrite lookup_insert_ne by done. intros Hr.
      destruct (sim_view _ _ _ Hs _ _ Hr) as (d & Hd & Hfd' & Hed & Hged & Hmd & Hregd & Hfrd).
      destruct (same_channels_lookup _ _ r d Hsame)
        as (d' & Hd' & [Hf' He']%strip_fields); [by rewrite lookup_insert_ne |].
      exists d'. rewrite Hf', He'. split_and!; try done.
      * intros Hp. enough (v_fd v <> v_fd w).
        { rewrite Hch. destruct (v_phase v'); rewrite ?lookup_insert_ne, ?lookup_delete_ne by done; auto. }
        intros E. destruct (v_phase v) eqn:Hpv.
        1, 3: by apply (Hfree ltac:(done) r w).
        specialize (Hregd Hp). rewrite <- E, Hreg in Hregd by done. congruence.
      * intros Hp. rewrite Hframe in Hd'; [| done |].
        { rewrite Hd in Hd'. injection Hd' as <-. auto. }
        intros fd Hq. destruct (sim_registered _ _ _ Hs _ _ Hq) as (w' & Hw' & _ & Hpw). congruence.
  - intros fd r Hr.
    assert (Hold : fd <> v_fd v -> p_channels p !! fd = Some r ->
              exists w, <[q:=v']> s !! r = Some w /\ v_fd w = fd /\ v_phase w = Registered).
    { intros Hne Hq. destruct (sim_registered _ _ _ Hs _ _ Hq) as (w & Hr' & Hfw & Hpw).
      exists w. rewrite lookup_insert_ne; [done |]. intros <-. congruence. }
    rewrite Hch in Hr. destruct (v_phase v') eqn:Hp'.
    1, 3: apply lookup_delete_Some in Hr as [? Hr]; by apply Hold.
    apply lookup_insert_Some in Hr as [[<- <-]|[? Hr]]; [| by apply Hold].
    exists v'. by rewrite lookup_insert_eq.
Qed.

(** What no call on a channel changes: all but the events it asks for, and the
    poller's index. *)
Definition wiring (c : Channel.t) : Channel.t := Channel.set_events (strip c) 0.
Lemma framed_wiring channels q c ev h h' :
  framed channels q (Channel.set_events c ev) h h' -> h !! q = Some c ->
  forall r, wiring <$> h' !! r = wiring <$> h !! r.
Proof.
  intros [Hsame _] Hc r. specialize (Hsame r). destruct (decide (q = r)) as [<-|].
  - rewrite lookup_insert_eq in Hsame. rewrite Hc. destruct (h' !! q) as [c'|]; [| done].
    injection Hsame as E. cbn. f_equal. destruct c, c'. cbv in *. congruence.
  - rewrite lookup_insert_ne in Hsame by done. destruct (h !! r) as [c1|], (h' !! r) as [c2|]; try done.
    injection Hsame as E. cbn. f_equal. destruct c1, c2. cbv in *. congruence.
Qed.

Lemma sim_step_wiring p h s call s' :
  sim p h s -> step s call s' ->
  exists p' h', run_call call p h = Ret (p', h') /\ sim p' h' s' /\
    forall r, wiring <$> h' !! r = wiring <$> h !! r.
Proof.
  intros Hs Hst. destruct Hst as [q v ch Hv Hph Hfree|q v ch Hv Hph|q v Hv Hph];
    destruct (sim_view _ _ _ Hs _ _ Hv) as (c & Hc & Hf & Hev & Hge & Hm & Hreg & Hidx).
  - assert (Hun : forall fd, p_channels p !! fd <> Some q).
    { intros fd Hq. destruct (sim_registered _ _ _ Hs _ _ Hq) as (w & Hw & _ & Hpw). congruence. }
    destruct (p_update_new p h q c (new_events ch (v_events v)))
      as (p' & h' & E & Hw & Hch & Hfr); try done.
    { apply Hs. }
    { destruct (p_channels p !! Channel.fd c) as [r|] eqn:Hr; [| done].
      destruct (sim_registered _ _ _ Hs _ _ Hr) as (w & Hw & Hfw & Hpw).
      exfalso. apply (Hfree r w); congruence. }
    { auto. }
    { lia. }
    { by apply new_events_ok. }
    exists p', h'. cbn [run_call]. unfold change_events, deref. rewrite Hc. cbn [mbind res_bind].
    rewrite Hev. split; [done |]. split; [| by eapply framed_wiring].
    eapply (sim_frame p h s p' h' q c v); try done; [by apply new_events_ok |].
    cbn [v_phase]. by rewrite <- Hf.
  - destruct (p_update_old p h q c (new_events ch (v_events v)))
      as (p' & h' & E & Hw & Hch & Hfr); try done.
    { apply Hs. }
    { rewrite Hf. auto. }
    { by apply new_events_ok. }
    exists p', h'. cbn [run_call]. unfold change_events, deref. rewrite Hc. cbn [mbind res_bind].
    rewrite Hev. split; [done |]. split; [| by eapply framed_wiring].
    eapply (sim_frame p h s p' h' q c v); try done; [by apply new_events_ok |].
    cbn [v_phase]. rewrite insert_id by auto. done.
  - destruct (p_disable_remove p h q c) as (p1 & h1 & p' & h' & E1 & E2 & Hw & Hch & Hfr); try done.
    { apply Hs. }
    { rewrite Hf. auto. }
    exists p', h'. cbn [run_call]. unfold change_events, deref. rewrite Hc. cbn [mbind res_bind].
    change (new_events disable_all (Channel.events c)) with 0. rewrite E1. cbn [mbind res_bind].
    split; [done |]. split; [| by eapply framed_wiring]. eapply (sim_frame p h s p' h' q c v); try done.
    cbn [v_phase]. by rewrite <- Hf.
Qed.

Lemma sim_step p h s call s' :
  sim p h s -> step s call s' ->
  exists p' h', run_call call p h = Ret (p', h') /\ sim p' h' s'.
Proof. intros Hs Hst. destruct (sim_step_wiring p h s call s' Hs Hst) as (p' & h' & ? & ? & _). by exists p', h'. Qed.

Lemma sim_steps p h s calls s' :
  sim p h s -> steps s calls s' ->
  exists p' h', run_calls calls p h = Ret (p', h') /\ sim p' h' s'.
Proof.
  intros Hs Hst. revert p h Hs. induction Hst as [|s call s1 calls s2 Hst _ IH]; intros p h Hs.
  { by exists p, h. }
  destruct (sim_step _ _ _ _ _ Hs Hst) as (p1 & h1 & E & Hs1).
  destruct (IH _ _ Hs1) as (p2 & h2 & E2 & Hs2).
  exists p2, h2. cbn [run_calls]. by rewrite E.
Qed.

Lemma sim_fresh p fds :
  p_wf p (fresh fds) -> p_channels p = ∅ -> map_Forall (fun _ fd => 0 <= fd) fds ->
  sim p (fresh fds) (all_fresh fds).
Proof.
  intros Hw He Hge. constructor; [done | |].
  - intros q v. unfold all_fresh, fresh. rewrite lookup_fmap.
    destruct (fds !! q) as [fd|] eqn:Hq; [| done]. intros [= <-].
    exists (Channel.make fd). rewrite lookup_fmap, Hq.
    split_and!; try done. by apply (Hge q).
  - rewrite He. done.
Qed.

(** What the loop sees of views [s]: the kernel is asked for exactly what the
    registered channels want, and a poll returns each ready channel once, with
    what the kernel reported. *)
Definition tracks (p : P) (h : heap) (s : views) : Prop :=
  (forall fd, wanted s fd (p_waits p fd)) /\
  forall ready, NoDup ready.*1 ->
    Forall (fun e => 0 < e.2 < 32768 /\ p_listens p e.1 /\ ~ free s e.1) ready ->
    exists active h', p_poll p h ready = Ret (active, h') /\
      NoDup active /\ length active = length ready /\
      forall fd ev q mask, (fd, ev) ∈ ready -> s !! q = Some (mk_view fd mask Registered) ->
        q ∈ active /\ exists c, h' !! q = Some c /\ Channel.fd c = fd /\
          Channel.events c = mask /\ Channel._revents c = ev.

Lemma sim_tracks p h s : sim p h s -> tracks p h s.
Proof.
  intros Hs. split; [intros fd; by apply (sim_wanted p h) |]. intros ready Hnd Hok.
  assert (Hreg : registered (p_channels p) h).
  { intros fd q Hq. destruct (p_wf_channel _ _ _ _ (sim_wf _ _ _ Hs) Hq) as (c & ? & ? & _). by exists c. }
  assert (Hsome : Forall (fun e => is_Some (p_channels p !! e.1)) ready).
  { eapply Forall_impl; [exact Hok |]. intros e (_ & _ & Hf).
    destruct (p_channels p !! e.1) as [q|] eqn:Hq; [done |]. exfalso. apply Hf.
    intros q v Hv Hfd Hp. destruct (sim_view _ _ _ Hs _ _ Hv) as (c & _ & _ & _ & _ & _ & Hr & _).
    rewrite <- Hfd, Hr in Hq by done. done. }
  destruct (p_poll_spec p h ready) as (active & h' & E & _ & Hp & Hst); [apply Hs | done | |].
  { apply Forall_and. split; [eapply Forall_impl; [exact Hok |]; by intros e (? & _ & _) |].
    apply Forall_and. split; [eapply Forall_impl; [exact Hok |]; by intros e (_ & ? & _) | done]. }
  exists active, h'. split_and!; [done | | |].
  - rewrite Hp, <- found_fst. by eapply found_NoDup.
  - rewrite Hp. clear -Hsome. induction Hsome as [|e l [q Hq] _ IH]; [done |]. cbn. by rewrite Hq; cbn; f_equal.
  - intros fd ev q mask He Hq. destruct (sim_view _ _ _ Hs _ _ Hq) as (c & Hc & Hf & Hev & _ & _ & Hr & _).
    specialize (Hr eq_refl). cbn [v_fd v_events] in *. split.
    + rewrite Hp. apply list_elem_of_omap. by exists (fd, ev).
    + exists (Channel.set_revents c ev). split_and!; try done. by eapply (proj1 Hst).
Qed.

Lemma calls_tracked p fds calls s :
  p_wf p (fresh fds) -> p_channels p = ∅ -> map_Forall (fun _ fd => 0 <= fd) fds ->
  steps (all_fresh fds) calls s ->
  exists p' h', run_calls calls p (fresh fds) = Ret (p', h') /\ tracks p' h' s.
Proof.
  intros Hw He Hge Hst.
  destruct (sim_steps p (fresh fds) _ calls s (sim_fresh _ _ Hw He Hge) Hst) as (p' & h' & E & Hs).
  exists p', h'. split; [done |]. by apply sim_tracks.
Qed.
End refinement.
End ChannelSpec.

(** ** The properties *)

Module PollersProps.
Import ChannelSpec.

(** C21: EPollPoller implements the channels' specification: whatever channels
    are enabled, disabled and removed, in any order their users may do it, no
    call fails, the interest list asks for exactly the events the registered
    channels want, and [poll] returns each ready channel once with its events. *)
Theorem epoll_tracks_channels {B : Build} {K} `{EpollLaws K} (k : K) (fds : gmap Z Z) calls s
    (Hk : interest k = ∅) (Hfds : map_Forall (fun _ fd => 0 <= fd) fds)
    (Hcalls : steps (all_fresh fds) calls s) :
  exists p h, run_calls calls (EPollPoller.mk ∅ k) (fresh fds) = Ret (p, h) /\ tracks p h s.
Proof.
  apply calls_tracked; try done. constructor; cbn; [done |]. by rewrite Hk.
Qed.

(** C22: PollPoller implements the same specification: the entries of [_poll_fds]
    and the channels' indices stay in step through the swaps of
    [remove_channel], in a debug build no assert fails. *)
Theorem poll_tracks_channels {B : Build} (fds : gmap Z Z) calls s
    (Hfds : map_Forall (fun _ fd => 0 <= fd) fds) (Hcalls : steps (all_fresh fds) calls s) :
  exists p h, run_calls calls (PollPoller.mk ∅ []) (fresh fds) = Ret (p, h) /\ tracks p h s.
Proof. by apply calls_tracked; try done; constructor. Qed.

Definition raised (c : Channel.t) (cb : Channel.callback) : Prop :=
  let bit i := Z.testbit (Channel._revents c) i = true in
  match cb with
  | Channel.OnClose => Channel._close_callback c = true /\ bit 4 /\ ~ bit 0
  | Channel.OnError => Channel._error_callback c = true /\ (bit 3 \/ bit 5)
  | Channel.OnRead => Channel._read_callback c = true /\ (bit 0 \/ bit 1 \/ bit 13)
  | Channel.OnWrite => Channel._write_callback c = true /\ bit 2
  end.
Definition owner_lives (alive : Z -> bool) (c : Channel.t) : Prop :=
  Channel._tied c = true -> exists obj, Channel._tie c = Some obj /\ alive obj = true.

Lemma elem_of_if {A} (b : bool) (x y : A) : x ∈ (if b then [y] else []) <-> b = true /\ x = y.
Proof. destruct b; rewrite ?list_elem_of_singleton, ?elem_of_nil; naive_solver. Qed.

Lemma guard_raised c cb : cb ∈ Channel.handle_event_with_guard c <-> raised c cb.
Proof.
  unfold Channel.handle_event_with_guard, raised.
  rewrite !elem_of_app, !elem_of_if, !has_lor.
  change POLLIN with (2 ^ 0). change POLLPRI with (2 ^ 1). change POLLOUT with (2 ^ 2).
  change POLLERR with (2 ^ 3). change POLLHUP with (2 ^ 4). change POLLNVAL with (2 ^ 5).
  change POLLRDHUP with (2 ^ 13). rewrite !has_bit by lia.
  rewrite !andb_true_iff, !orb_true_iff, negb_true_iff, <- not_true_iff_false.
  destruct cb; naive_solver.
Qed.

(** [handle_event] runs the close, error, read and write callbacks in this
    order, each at most once and exactly when it is set and its events came: a
    hang-up without POLLIN closes, POLLIN, POLLPRI or POLLRDHUP read, and a tied
    channel runs nothing once its owner is gone. *)
Theorem channel_dispatch alive c :
  sublist (Channel.handle_event alive c)
    [Channel.OnClose; Channel.OnError; Channel.OnRead; Channel.OnWrite] /\
  forall cb, cb ∈ Channel.handle_event alive c <-> owner_lives alive c /\ raised c cb.
Proof.
  assert (Hg : sublist (Channel.handle_event_with_guard c)
    [Channel.OnClose; Channel.OnError; Channel.OnRead; Channel.OnWrite]).
  { unfold Channel.handle_event_with_guard.
    by repeat (destruct (_ && _); cbn [app]); repeat constructor. }
  unfold Channel.handle_event, owner_lives.
  destruct (Channel._tied c); [destruct (Channel._tie c) as [obj|]; [destruct (alive obj) eqn:Ha |] |].
  all: split; [done || apply sublist_nil_l | intros cb; rewrite ?guard_raised, ?elem_of_nil].
  - split; [intros ?; split; [by exists obj | done] | by intros [_ ?]].
  - split; [done | intros [Hl _]]. destruct Hl as (? & [= <-] & ?); [done | congruence].
  - split; [done | intros [Hl _]]. by destruct Hl as (? & ? & ?).
  - split; [done | by intros [_ ?]].
Qed.

(** A channel that is disabled but not removed stays in epoll's interest
    list with no events, so the kernel still reports POLLHUP and POLLERR on it:
    the poller returns it and its close callback runs (again). *)
Theorem epoll_disabled_hangs_up {B : Build} {K} `{EpollLaws K} (p : EPollPoller.t K) h q c alive
    (Hwf : p_wf p h) (Hc : h !! q = Some c) (Hq : p_channels p !! Channel.fd c = Some q)
    (Hcb : Channel._close_callback c = true) (Hown : owner_lives alive c) :
  exists p' h' h'' c', change_events disable_all p q h = Ret (p', h') /\
    p_waits p' (Channel.fd c) = 0 /\ p_listens p' (Channel.fd c) /\
    p_poll p' h' [(Channel.fd c, POLLHUP)] = Ret ([q], h'') /\
    h'' !! q = Some c' /\ Channel.handle_event alive c' = [Channel.OnClose].
Proof.
  destruct (p_update_old p h q c 0 Hwf Hc Hq ltac:(done)) as (p' & h' & E & Hw & Hch & [Hsame _]).
  destruct (same_channels_lookup _ _ q (Channel.set_events c 0) Hsame) as (d & Hd & Hstrip);
    [by rewrite lookup_insert_eq |].
  rewrite <- Hch in Hq. destruct (p_wf_channel p' h' _ _ Hw Hq) as (d' & Hd' & _ & Hwait).
  rewrite Hd in Hd'. injection Hd' as <-.
  assert (Hl : p_listens p' (Channel.fd c)).
  { destruct (EPollSpec.wf_some _ _ Hw _ _ Hq) as (? & _ & _ & Hi). cbn. by rewrite Hi. }
  destruct (p_poll_spec p' h' [(Channel.fd c, POLLHUP)]) as (active & h'' & Ep & _ & Hact & [Hin _]);
    [done | apply NoDup_singleton | by apply Forall_singleton |].
  cbn [omap list_omap fst] in Hact. rewrite Hq in Hact. apply Permutation_singleton_r in Hact as ->.
  exists p', h', h'', (Channel.set_revents d POLLHUP). split_and!; try done.
  - unfold change_events, deref. rewrite Hc. done.
  - rewrite Hwait. by destruct (strip_fields _ _ Hstrip) as [_ ->].
  - apply (Hin (Channel.fd c)); [by constructor | done | done].
  - clear -Hstrip Hcb Hown. destruct c, d. cbn in Hstrip. injection Hstrip as -> -> -> -> -> -> -> -> -> ->.
    unfold owner_lives in Hown. cbn in *. subst. unfold Channel.handle_event. cbn [Channel._tied Channel._tie
      Channel.set_revents].
    destruct _tied; [destruct (Hown eq_refl) as (? & -> & ->) |]; reflexivity.
Qed.

(** PollPoller negates the descriptor of a disabled channel, and poll(2)
    ignores negative descriptors: a disabled channel is never reported. *)
Theorem poll_disabled_is_silent {B : Build} (p : PollPoller.t) h q c
    (Hwf : p_wf p h) (Hc : h !! q = Some c) (Hq : p_channels p !! Channel.fd c = Some q) :
  exists p' h', change_events disable_all p q h = Ret (p', h') /\
    p_waits p' (Channel.fd c) = 0 /\ ~ p_listens p' (Channel.fd c) /\
    forall ready active h'', p_poll p' h' ready = Ret (active, h'') -> q ∉ active.
Proof.
  destruct (PollSpec.update_old p h q c 0 Hwf Hc Hq ltac:(done))
    as (p' & i & pfd & E & Hw & Hch & _ & Hi & Hneg). specialize (Hneg eq_refl).
  set (h' := <[q := Channel.set_events c 0]> h) in *.
  assert (Hq' : p_channels p' !! Channel.fd c = Some q) by (cbn; by rewrite Hch).
  assert (Hge : 0 <= Channel.fd c).
  { destruct (PollSpec.find_registered p h q c Hwf Hc Hq) as (? & ? & _ & _ & _ & ? & _). done. }
  assert (Hl : ~ p_listens p' (Channel.fd c)).
  { intros (a & [j Hj]%list_elem_of_lookup_1 & Ha).
    assert (i = j) as <-.
    { apply (PollSpec.owner_inj p' h' i j pfd a Hw Hi Hj). unfold PollSpec.owner.
      rewrite Hneg, Ha, (proj2 (Z.ltb_lt _ _)), (proj2 (Z.ltb_ge _ _)) by lia. lia. }
    rewrite Hi in Hj. injection Hj as ->. lia. }
  pose proof (Hw : p_wf p' h') as Hw'.
  exists p', h'. split_and!; [| | done |].
  - unfold change_events, deref. rewrite Hc. done.
  - destruct (p_wf_channel p' h' _ _ Hw' Hq') as (d & Hd & _ & ->).
    unfold h' in Hd. rewrite lookup_insert_eq in Hd. by injection Hd as <-.
  - intros ready active h''. cbn. rewrite PollSpec.poll_eq. intros ->%fill_fst Hin.
    apply list_elem_of_fmap in Hin as ([r ev] & -> & (b & Hb & Hr)%list_elem_of_omap).
    apply list_elem_of_fmap in Hb as (a & -> & Ha). unfold PollSpec.report in Hr.
    destruct (0 <? _); [| done]. apply fmap_Some in Hr as (r' & Hr & [= -> _]).
    apply Hl. exists a. split; [done |].
    by apply (registered_inj _ _ _ _ _ (PollSpec.wf_registered _ _ Hw) Hr).
Qed.

(** An interest list. *)
Definition list_ctl (k : gmap Z (Z * Z)) (op : ctl) (fd ev ptr : Z) : gmap Z (Z * Z) * bool :=
  match op, k !! fd with
  | EPOLL_CTL_ADD, None => (<[fd := (ev, ptr)]> k, true)
  | EPOLL_CTL_MOD, Some _ => (<[fd := (ev, ptr)]> k, true)
  | EPOLL_CTL_DEL, Some _ => (delete fd k, true)
  | _, _ => (k, false)
  end.
#[local] Instance list_epoll : Epoll (gmap Z (Z * Z)) := {|
  epoll_ctl := list_ctl;
  interest k := k
|}.
#[local] Instance list_epoll_laws : EpollLaws (gmap Z (Z * Z)).
Proof.
  split; cbn; unfold list_ctl; intros k fd ev ptr.
  - intros ->. by eexists.
  - intros [? ->]. by eexists.
  - intros [? ->]. by eexists.
Qed.

#[local] Instance debug : Build := {| ndebug := false |}.

(** Three channels; the first is removed, the others go on. *)
Definition example_fds : gmap Z Z := {[ 100 := 4; 101 := 5; 102 := 6 ]}.
Definition example_calls : list channel_call :=
  [ Change 100 enable_reading; Change 101 enable_reading; Change 102 enable_writing;
    Retire 100; Change 102 enable_reading; Change 101 disable_all ].
Definition example_end : views :=
  {[ 100 := mk_view 4 0 Retired; 101 := mk_view 5 0 Registered; 102 := mk_view 6 7 Registered ]}.

Lemma example_steps : steps (all_fresh example_fds) example_calls example_end.
Proof.
  repeat (eapply steps_cons;
    [first [ eapply step_retire; [reflexivity | by vm_compute]
           | eapply step_change; [reflexivity | by vm_compute]
           | eapply step_first; [reflexivity | by vm_compute | by apply (bool_decide_unpack _)] ] |]).
  match goal with |- steps ?s [] _ => replace s with example_end by (vm_compute; reflexivity) end.
  constructor.
Qed.

Lemma example_fds_ok : map_Forall (fun _ fd => 0 <= fd) example_fds.
Proof. apply (bool_decide_unpack _). by vm_compute. Qed.

Lemma epoll_tracks_channels_witness :
  exists p h, run_calls example_calls (EPollPoller.mk ∅ (∅ : gmap Z (Z * Z))) (fresh example_fds)
              = Ret (p, h) /\ tracks p h example_end.
Proof. apply epoll_tracks_channels; [reflexivity | apply example_fds_ok | apply example_steps]. Defined.

Lemma poll_tracks_channels_witness :
  exists p h, run_calls example_calls (PollPoller.mk ∅ []) (fresh example_fds) = Ret (p, h) /\
    tracks p h example_end.
Proof. apply poll_tracks_channels; [apply example_fds_ok | apply example_steps]. Defined.

(** A registered channel with a close callback, in both pollers. *)
Definition closing : Channel.t := Channel.with_callbacks (Channel.make 4).
Definition epoll_one : EPollPoller.t (gmap Z (Z * Z)) := EPollPoller.mk {[ 4 := 100 ]} {[ 4 := (0, 100) ]}.
Definition poll_one : PollPoller.t := PollPoller.mk {[ 4 := 100 ]} [PollPoller.mk_pollfd 4 0 0].

Lemma epoll_disabled_hangs_up_witness :
  exists p' h' h'' c', change_events disable_all epoll_one 100 {[ 100 := closing ]} = Ret (p', h') /\
    p_waits p' 4 = 0 /\ p_listens p' 4 /\ p_poll p' h' [(4, POLLHUP)] = Ret ([100], h'') /\
    h'' !! 100 = Some c' /\ Channel.handle_event (fun _ => false) c' = [Channel.OnClose].
Proof.
  refine (epoll_disabled_hangs_up epoll_one {[ 100 := closing ]} 100 closing (fun _ => false)
            _ _ _ _ _); try reflexivity; [| done].
  constructor; cbn; intros fd.
  - intros q [<- <-]%lookup_singleton_Some. by exists closing.
  - rewrite !lookup_singleton_None. done.
Defined.

Lemma poll_disabled_is_silent_witness :
  exists p' h', change_events disable_all poll_one 100 {[ 100 := Channel.set_index closing 0 ]}
      = Ret (p', h') /\
    p_waits p' 4 = 0 /\ ~ p_listens p' 4 /\
    forall ready active h'', p_poll p' h' ready = Ret (active, h'') -> 100 ∉ active.
Proof.
  refine (poll_disabled_is_silent poll_one {[ 100 := Channel.set_index closing 0 ]} 100
            (Channel.set_index closing 0) _ _ _); try reflexivity.
  constructor; cbn.
  - intros fd q [<- <-]%lookup_singleton_Some.
    exists (Channel.set_index closing 0), 0%nat, (PollPoller.mk_pollfd 4 0 0).
    split_and!; try done. split; [by left | done].
  - intros i pfd [-> <-]%list_lookup_singleton_Some.
    by exists 100, (Channel.set_index closing 0).
Defined.

End PollersProps.
