(* ===== verification/EpollEvents.v ===== *)
(** The array that EPollPoller hands to [epoll_wait] (suduo/net/poller/EPollPoller.cpp):
    its size, its growth, and the polls one after another when more descriptors are
    ready than it holds. *)

From S2P Require Import Prelude.
From S2P Require Import Pollers.

(** [epoll_wait]: at most [maxevents] of the ready descriptors, and the ready list after
    it. *)
Class EpollWait := epoll_wait : Z -> list (Z * Z) -> list (Z * Z) * list (Z * Z).
(** epoll_wait(2): if more than [maxevents] are ready, successive calls go round robin
    through them. *)
Class EpollWaitLaws `{EpollWait} : Prop :=
  round_robin n ready : 0 < n ->
    exists rest, ready = (epoll_wait n ready).1 ++ rest /\ (epoll_wait n ready).2 = rest ++ (epoll_wait n ready).1 /\
      zlen (epoll_wait n ready).1 = Z.min n (zlen ready).

Module EPollEvents.

(** [std::vector<epoll_event> _events]. *)
Record t := mk {
  size : Z;
  capacity : Z
}.
Definition init_event_list_size : Z := 16.
Definition make : t := mk init_event_list_size init_event_list_size.
Definition reserve (n : Z) (v : t) : t := mk (size v) (Z.max n (capacity v)).

(** The string for an [epoll_ctl] operation. *)
Definition operation_to_string (op : ctl) : list byte :=
  match op with
  | EPOLL_CTL_ADD => bytes "ADD"
  | EPOLL_CTL_DEL => bytes "DEL"
  | EPOLL_CTL_MOD => bytes "MOD"
  end.

Section polls.
Context {K} `{Epoll K} `{EpollWait}.

(** [EPollPoller::poll] with its array. *)
Definition poll (p : EPollPoller.t K) (v : t) (h : heap) (ready : list (Z * Z)) :
    res (list Z * t * heap * list (Z * Z)) :=
  let '(reported, later) := epoll_wait (size v) ready in
  let event_nums := zlen reported in
  if 0 <? event_nums then
    '(active, h) ← EPollPoller.poll p h reported;
    let v := if event_nums =? size v then reserve (size v * 2) v else v in
    mret (active, v, h, later)
  else mret ([], v, h, later).
(** [n] polls while nobody handles what is ready: the active channels of each. *)
Fixpoint polls (n : nat) (p : EPollPoller.t K) (v : t) (h : heap) (ready : list (Z * Z)) : res (list (list Z) * t) :=
  match n with
  | O => mret ([], v)
  | S n =>
      '(active, v, h, later) ← poll p v h ready;
      '(actives, v) ← polls n p v h later;
      mret (active :: actives, v)
  end.
End polls.
End EPollEvents.

Module EPollEventsSpec.
Import EPollEvents.
Section polls.
Context {B : Build} {K} `{EpollLaws K} `{EpollWaitLaws}.
Implicit Types (p : EPollPoller.t K).

(** What may be ready: registered descriptors, each once. *)
Definition may_be_ready p (ready : list (Z * Z)) : Prop :=
  NoDup ready.*1 /\ Forall (fun e => 0 < e.2 < 32768 /\ p_listens p e.1 /\ is_Some (p_channels p !! e.1)) ready.

Lemma may_be_ready_perm p l l' : l ≡ₚ l' -> may_be_ready p l -> may_be_ready p l'.
Proof. intros E [? ?]. split; [by rewrite <- E | by rewrite <- E]. Qed.
Lemma may_be_ready_app p l l' : may_be_ready p (l ++ l') -> may_be_ready p l.
Proof. intros [Hnd [? _]%Forall_app]. rewrite fmap_app in Hnd. apply NoDup_app in Hnd as [? _]. done. Qed.

Lemma poll_round p v h ready :
  0 < size v -> p_wf p h -> may_be_ready p ready ->
  exists active v' h' reported rest, poll p v h ready = Ret (active, v', h', rest ++ reported) /\
    ready = reported ++ rest /\ zlen reported = Z.min (size v) (zlen ready) /\
    active ≡ₚ omap (fun e => p_channels p !! e.1) reported /\ p_wf p h' /\ size v' = size v.
Proof.
  intros Hv Hwf Hr. destruct (round_robin (size v) ready Hv) as (rest & E1 & E2 & E3). unfold poll.
  destruct (epoll_wait (size v) ready) as [reported later]. cbn [fst snd] in *. subst later.
  destruct (Z.ltb_spec 0 (zlen reported)) as [Hpos|Hzero].
  - rewrite E1 in Hr. destruct (may_be_ready_app _ _ _ Hr) as [Hnd Hall].
    destruct (p_poll_spec p h reported Hwf Hnd Hall) as (active & h' & E & Hwf' & Hperm & _). cbn in E. rewrite E.
    eexists active, _, h', reported, rest. cbn [mbind res_bind]. split_and!; try done. by case_match.
  - assert (reported = []) as -> by (destruct reported; [done | cbn in Hzero; lia]).
    by exists [], v, h, [], rest.
Qed.

Lemma active_all p (reported : list (Z * Z)) active :
  Forall (fun e => is_Some (p_channels p !! e.1)) reported -> active ≡ₚ omap (fun e => p_channels p !! e.1) reported ->
  zlen active = zlen reported /\ forall fd ev q, (fd, ev) ∈ reported -> p_channels p !! fd = Some q -> q ∈ active.
Proof.
  intros Hall Hperm. rewrite Hperm. split.
  - f_equal. clear Hperm. induction Hall as [|[fd ev] l [q Hq] _ IH]; [done |]. cbn [omap list_omap]. rewrite Hq. cbn. by f_equal.
  - intros fd ev q He Hq. rewrite Hperm. apply list_elem_of_omap. by exists (fd, ev).
Qed.

Lemma polls_rounds n : forall p v h ready,
  0 < size v -> p_wf p h -> may_be_ready p ready ->
  exists actives v', polls n p v h ready = Ret (actives, v') /\ length actives = n /\ size v' = size v /\
    Forall (fun active => zlen active = Z.min (size v) (zlen ready)) actives /\
    forall fd ev q, (fd, ev) ∈ take (Z.to_nat (size v * Z.of_nat n)) ready -> p_channels p !! fd = Some q ->
      q ∈ concat actives.
Proof.
  induction n as [|n IH]; intros p v h ready Hv Hwf Hr; cbn [polls].
  { exists [], v. split_and!; try done. rewrite Z.mul_0_r. by intros ??? ?%elem_of_nil. }
  destruct (poll_round p v h ready Hv Hwf Hr) as (active & v1 & h1 & reported & rest & -> & -> & Hlen & Hact & Hwf1 & Ev).
  cbn [mbind res_bind].
  destruct (IH p v1 h1 (rest ++ reported)) as (actives & v' & -> & Hn & Ev' & Hall & Hin); [lia | done | |].
  { eapply may_be_ready_perm; [apply Permutation_app_comm | done]. }
  destruct (active_all p reported active) as [Hlena Hina]; [| done |].
  { destruct Hr as [_ [Hr _]%Forall_app]. eapply Forall_impl; [exact Hr | by intros ? (_ & _ & ?)]. }
  exists (active :: actives), v'. cbn [mbind res_bind]. split_and!; [done | cbn; lia | congruence | |].
  - constructor; [lia |]. eapply Forall_impl; [exact Hall |]. cbn. intros x. rewrite Ev, !length_app. lia.
  - intros fd ev q He Hq. cbn [concat]. apply elem_of_app. rewrite take_app in He.
    apply elem_of_app in He as [He|He]; [left; eapply Hina; [by eapply subseteq_take | done] | right].
    apply (Hin fd ev q); [| done]. rewrite take_app. apply elem_of_app. left. rewrite Ev.
    rewrite length_app in Hlen. destruct (decide (zlen reported = size v)) as [E|E].
    + replace (Z.to_nat (size v * Z.of_nat n)) with (Z.to_nat (size v * Z.of_nat (S n)) - length reported)%nat; [done | lia].
    + destruct rest; [rewrite take_nil in He; by apply elem_of_nil in He | cbn in Hlen; lia].
Qed.
End polls.
End EPollEventsSpec.

(** ** The property *)

Module EPollEventsProps.
Import EPollEvents EPollEventsSpec.

(** The array of [epoll_wait] holds 16 events for ever: [reserve] leaves a vector's
    size alone. A poll returns all that is ready up to 16 channels; when more are ready
    and stay so, each is still returned within the first n/16 polls, rounded up, since
    [epoll_wait] goes round. *)
Theorem epoll_reaches_all {B : Build} {K} `{EpollLaws K} `{EpollWaitLaws} n (p : EPollPoller.t K) h ready
    (Hwf : p_wf p h) (Hready : may_be_ready p ready) :
  exists actives v, polls n p make h ready = Ret (actives, v) /\ length actives = n /\ size v = init_event_list_size /\
    Forall (fun active => zlen active = Z.min 16 (zlen ready)) actives /\
    (zlen ready <= 16 * Z.of_nat n ->
     forall fd ev q, (fd, ev) ∈ ready -> p_channels p !! fd = Some q -> q ∈ concat actives).
Proof.
  destruct (polls_rounds n p make h ready) as (actives & v & E & Hn & Hv & Hall & Hin); [done | done | done |].
  exists actives, v. split_and!; try done. intros Hle fd ev q He. apply (Hin fd ev). rewrite take_ge; [done |].
  change (size make) with 16. lia.
Qed.

#[local] Existing Instances PollersProps.list_epoll PollersProps.list_epoll_laws.
#[local] Instance debug : Build := {| ndebug := false |}.
#[local] Instance example_wait : EpollWait := fun n ready =>
  (take (Z.to_nat n) ready, drop (Z.to_nat n) ready ++ take (Z.to_nat n) ready).
#[local] Instance example_wait_laws : EpollWaitLaws.
Proof. intros n ready Hn. exists (drop (Z.to_nat n) ready). cbn. rewrite take_drop, length_take. split_and!; [done | done | lia]. Qed.

(** Forty channels, all of them ready. *)
Definition example_fds : gmap Z Z := list_to_map ((fun fd => (fd, fd)) <$> seqZ 4 40).
Definition example_poller : EPollPoller.t (gmap Z (Z * Z)) := EPollPoller.mk example_fds ((fun fd => (POLLIN, fd)) <$> example_fds).
Definition example_heap : heap := (fun fd => Channel.set_events (Channel.make fd) POLLIN) <$> example_fds.
Definition example_ready : list (Z * Z) := (fun fd => (fd, POLLIN)) <$> seqZ 4 40.

Lemma example_fds_id fd q : example_fds !! fd = Some q -> q = fd /\ fd ∈ seqZ 4 40.
Proof. intros E%elem_of_list_to_map_2%list_elem_of_fmap. by destruct E as (fd' & [= -> ->] & ?). Qed.

Lemma epoll_reaches_all_witness :
  exists actives v, polls 3 example_poller make example_heap example_ready = Ret (actives, v) /\
    length actives = 3%nat /\ size v = 16 /\
    (zlen example_ready <= 48 ->
     forall fd ev q, (fd, ev) ∈ example_ready -> p_channels example_poller !! fd = Some q -> q ∈ concat actives).
Proof.
  destruct (epoll_reaches_all 3 example_poller example_heap example_ready) as (actives & v & E & Hn & Hv & _ & Hin).
  - constructor; cbn; intros fd; rewrite lookup_fmap.
    + intros q Hq. destruct (example_fds_id _ _ Hq) as [-> _]. unfold example_heap. rewrite lookup_fmap, Hq. by eexists.
    + by intros ->.
  - split; [apply (bool_decide_unpack _); by vm_compute |]. apply Forall_forall. intros [fd ev] He.
    apply list_elem_of_fmap in He as (fd' & [= -> ->] & Hfd). cbn. rewrite lookup_fmap.
    assert (is_Some (example_fds !! fd')) as [q ->].
    { revert fd' Hfd. apply Forall_forall. apply (bool_decide_unpack _). by vm_compute. }
    split_and!; [done | done | by eexists | by eexists].
  - by exists actives, v.
Defined.
End EPollEventsProps.
