(* ===== verification/LoopIterations.v ===== *)
(** One turn of [EventLoop::loop] (suduo/net/EventLoop.cpp) over the poller, the channels
    and what their callbacks do to channels: the poll, the active channels one after
    another, then the pending functors.

    Callbacks are arbitrary: [effects] says what a callback does to the loop's channels,
    given the callbacks that ran before it; [functors] what the pending functors do. *)

From S2P Require Import Prelude.
From S2P Require Import Pollers.

(** What is set up on a channel before it is first registered. *)
Inductive setting :=
  | ReadCallback (cb : bool) | WriteCallback (cb : bool) | CloseCallback (cb : bool) | ErrorCallback (cb : bool)
  | LogHup (on : bool) | Tie (obj : Z).
Definition apply_setting (f : setting) (c : Channel.t) : Channel.t :=
  match f with
  | ReadCallback cb => Channel.set_read_callback c cb
  | WriteCallback cb => Channel.set_write_callback c cb
  | CloseCallback cb => Channel.set_close_callback c cb
  | ErrorCallback cb => Channel.set_error_callback c cb
  | LogHup on => Channel.set_log_hup c on
  | Tie obj => Channel.tie c obj
  end.

(** What user code does to channels. *)
Inductive action :=
  | New (q fd : Z)
  | Set_ (q : Z) (f : setting)
  | Call (call : channel_call)
  | Delete (q : Z).
Definition history : Type := list (Z * Channel.callback).

(** The callbacks in the order of [handle_event_with_guard]. *)
Definition all_callbacks : list Channel.callback := [Channel.OnClose; Channel.OnError; Channel.OnRead; Channel.OnWrite].
Definition tie_holds (alive : Z -> bool) (c : Channel.t) : bool :=
  if Channel._tied c then match Channel._tie c with Some obj => alive obj | None => false end else true.

Module LoopIteration.
Section loop.
Context {P : Type} `{PollerOps P}.
(** Whether a tied object lives. *)
Context (alive : history -> Z -> bool) (effects : history -> Z -> Channel.callback -> list action)
  (functors : history -> list action).

(** A deleted channel stays in the heap, where nobody may look. *)
Record t := mk {
  _poller : P;
  channels : heap;
  deleted : gset Z;
  _active_channel : list Z;
  _current_active_channel : option Z;
  _event_handling : bool;
  ran : history                        (** the callbacks so far *)
}.

Definition set_channels (s : t) (p : P) (h : heap) : t :=
  mk p h (deleted s) (_active_channel s) (_current_active_channel s) (_event_handling s) (ran s).
(** [channel->...]. *)
Definition live (q : Z) (s : t) : res Channel.t :=
  if decide (q ∈ deleted s) then Stop UndefinedBehaviour else deref (channels s) q.

Definition act (a : action) (s : t) : res t :=
  match a with
  | New q fd => mret (set_channels s (_poller s) (<[q := Channel.make fd]> (channels s)))
  | Set_ q f =>
      c ← live q s;
      mret (set_channels s (_poller s) (<[q := apply_setting f c]> (channels s)))
  | Call call =>
      _ ← live (match call with Change q _ | Retire q => q end) s;
      '(p, h) ← run_call call (_poller s) (channels s);
      mret (set_channels s p h)
  | Delete q =>
      mret (mk (_poller s) (channels s) ({[ q ]} ∪ deleted s) (_active_channel s) (_current_active_channel s)
              (_event_handling s) (ran s))
  end.
Fixpoint acts (l : list action) (s : t) : res t :=
  match l with
  | [] => mret s
  | a :: l => s ← act a s; acts l s
  end.

(** [handle_event_with_guard], on a channel that the callbacks may change or delete: each
    condition reads the channel again, and the end writes to it. *)
Fixpoint handle_event_with_guard (q : Z) (cbs : list Channel.callback) (s : t) : res t :=
  c ← live q s;
  match cbs with
  | [] => mret s
  | cb :: cbs =>
      if decide (cb ∈ Channel.handle_event_with_guard c) then
        let before := ran s in
        let s := mk (_poller s) (channels s) (deleted s) (_active_channel s) (_current_active_channel s)
                   (_event_handling s) (before ++ [(q, cb)]) in
        s ← acts (effects before q cb) s;
        handle_event_with_guard q cbs s
      else handle_event_with_guard q cbs s
  end.
Definition handle_event (q : Z) (s : t) : res t :=
  c ← live q s;
  if tie_holds (alive (ran s)) c then handle_event_with_guard q all_callbacks s else mret s.
Fixpoint handle_events (l : list Z) (s : t) : res t :=
  match l with
  | [] => mret s
  | q :: l =>
      let s := mk (_poller s) (channels s) (deleted s) (_active_channel s) (Some q) (_event_handling s) (ran s) in
      s ← handle_event q s;
      handle_events l s
  end.

(** A turn of the loop; [ready] is what the kernel reports. *)
Definition iterate (ready : list (Z * Z)) (s : t) : res t :=
  '(active, h) ← p_poll (_poller s) (channels s) ready;
  let s := mk (_poller s) h (deleted s) active (_current_active_channel s) true (ran s) in
  s ← handle_events active s;
  let s := mk (_poller s) (channels s) (deleted s) (_active_channel s) None false (ran s) in
  acts (functors (ran s)) s.
Fixpoint loop (reports : list (list (Z * Z))) (s : t) : res t :=
  match reports with
  | [] => mret s
  | ready :: reports => s ← iterate ready s; loop reports s
  end.
(** Before the first turn: a poller without channels. *)
Definition initial (p : P) : t := mk p ∅ ∅ [] None false [].
End loop.
Arguments t : clear implicits.
End LoopIteration.

(** ** The loop without poller and heap *)

Module AbstractLoop.
Import ChannelSpec.

(** The views of Pollers.v, what was set up on each channel, and the channels deleted. *)
Record t := mk {
  views_ : views;
  wires : gmap Z Channel.t;
  gone : gset Z;
  ran_ : history
}.
Definition blank (c : Channel.t) : Channel.t := Channel.set_revents (wiring c) 0.

Section loop.
Context (alive : history -> Z -> bool) (effects : history -> Z -> Channel.callback -> list action)
  (functors : history -> list action).

(** An action, as long as it keeps to the rules: settings come before the first
    registration, a channel is registered once, and only a channel that is not
    registered, and not [busy], is deleted. *)
Definition act (busy : list Z) (a : action) (s : t) : option t :=
  match a with
  | New q fd =>
      match views_ s !! q with
      | None => if 0 <=? fd
                then Some (mk (<[q := mk_view fd 0 Fresh]> (views_ s)) (<[q := blank (Channel.make fd)]> (wires s)) (gone s) (ran_ s))
                else None
      | Some _ => None
      end
  | Set_ q f =>
      match views_ s !! q with
      | Some (mk_view _ _ Fresh) =>
          if decide (q ∈ gone s) then None else Some (mk (views_ s) (alter (apply_setting f) q (wires s)) (gone s) (ran_ s))
      | _ => None
      end
  | Call (Change q ch) =>
      match views_ s !! q with
      | Some v =>
          if decide ((q ∉ gone s) /\ (v_phase v = Registered \/ v_phase v = Fresh /\ free (views_ s) (v_fd v)))
          then Some (mk (<[q := mk_view (v_fd v) (new_events ch (v_events v)) Registered]> (views_ s)) (wires s) (gone s) (ran_ s))
          else None
      | None => None
      end
  | Call (Retire q) =>
      match views_ s !! q with
      | Some v =>
          if decide ((q ∉ gone s) /\ v_phase v = Registered)
          then Some (mk (<[q := mk_view (v_fd v) 0 Retired]> (views_ s)) (wires s) (gone s) (ran_ s))
          else None
      | None => None
      end
  | Delete q =>
      match views_ s !! q with
      | Some v =>
          if decide (v_phase v <> Registered /\ (q ∉ busy))
          then Some (mk (views_ s) (wires s) ({[ q ]} ∪ gone s) (ran_ s))
          else None
      | None => None
      end
  end.
Fixpoint acts (busy : list Z) (l : list action) (s : t) : option t :=
  match l with
  | [] => Some s
  | a :: l => s ← act busy a s; acts busy l s
  end.
Fixpoint run_callbacks (busy : list Z) (q : Z) (cbs : list Channel.callback) (s : t) : option t :=
  match cbs with
  | [] => Some s
  | cb :: cbs =>
      s ← acts busy (effects (ran_ s) q cb) (mk (views_ s) (wires s) (gone s) (ran_ s ++ [(q, cb)]));
      run_callbacks busy q cbs s
  end.
(** Every event that was reported is handled, whatever was done to its channel since. *)
Fixpoint handle_events (busy : list Z) (l : list (Z * Z)) (s : t) : option t :=
  match l with
  | [] => Some s
  | (q, ev) :: l =>
      c ← wires s !! q;
      s ← run_callbacks busy q (Channel.handle_event (alive (ran_ s)) (Channel.set_revents c ev)) s;
      handle_events busy l s
  end.
Definition iterate (events : list (Z * Z)) (s : t) : option t :=
  s ← handle_events events.*1 events s;
  acts [] (functors (ran_ s)) s.
Definition initial : t := mk ∅ ∅ ∅ [].

(** [events] are the reports [ready], in any order and by channel. *)
Definition reported (s : t) (ready events : list (Z * Z)) : Prop :=
  Forall (fun e => exists v, views_ s !! e.1 = Some v /\ v_phase v = Registered) events /\
  ready ≡ₚ map (fun e => (from_option v_fd 0 (views_ s !! e.1), e.2)) events.
Inductive turns : t -> list (list (Z * Z)) -> t -> Prop :=
  | turns_nil s : turns s [] s
  | turns_cons s ready events s1 reports s' :
      reported s ready events -> iterate events s = Some s1 -> turns s1 reports s' -> turns s (ready :: reports) s'.
(** The callbacks and functors keep to the rules, in whatever order the events come. *)
Fixpoint orderly (reports : list (list (Z * Z))) (s : t) : Prop :=
  match reports with
  | [] => True
  | ready :: reports =>
      forall events, reported s ready events -> exists s', iterate events s = Some s' /\ orderly reports s'
  end.
End loop.
End AbstractLoop.

Module LoopIterationSpec.
Import ChannelSpec LoopIteration AbstractLoop.
#[local] Abbreviation impl := (LoopIteration.t _).

Lemma blank_insert_events c ev : blank (Channel.set_events c ev) = blank c.
Proof. done. Qed.
Lemma blank_setting f c : blank (apply_setting f c) = apply_setting f (blank c).
Proof. by destruct f. Qed.
Lemma handle_event_blank alive c :
  Channel.handle_event alive (Channel.set_revents (blank c) (Channel._revents c)) = Channel.handle_event alive c.
Proof. done. Qed.

Lemma handle_event_tie alive c :
  Channel.handle_event alive c = if tie_holds alive c then Channel.handle_event_with_guard c else [].
Proof. unfold Channel.handle_event, tie_holds. by destruct (Channel._tied c), (Channel._tie c). Qed.
Lemma handle_event_all c :
  filter (fun cb => cb ∈ Channel.handle_event_with_guard c) all_callbacks = Channel.handle_event_with_guard c.
Proof.
  unfold Channel.handle_event_with_guard at 2. set (L := Channel.handle_event_with_guard c). unfold all_callbacks.
  assert (forall cb, decide (cb ∈ L) = decide (cb ∈ L)) by done. unfold filter, list_filter. subst L.
  unfold Channel.handle_event_with_guard. by repeat case_match.
Qed.

(** Only what is not registered yet can be set up. *)
Lemma acts_wires busy l a a' q v :
  AbstractLoop.acts busy l a = Some a' -> views_ a !! q = Some v -> v_phase v <> Fresh -> wires a' !! q = wires a !! q.
Proof.
  revert a v. induction l as [|x l IH]; intros a v E Hv Hp; cbn [AbstractLoop.acts] in E; [by injection E as <- |].
  destruct (AbstractLoop.act busy x a) as [a1|] eqn:E1; [| done]. cbn [mbind option_bind] in E.
  assert (exists v1, views_ a1 !! q = Some v1 /\ v_phase v1 <> Fresh /\ wires a1 !! q = wires a !! q) as (v1 & Hv1 & Hp1 & <-);
    [| by eapply IH].
  destruct x as [r fd|r f|[r ch|r]|r]; cbn [AbstractLoop.act] in E1; repeat case_match; try done; injection E1 as <-;
    cbn [views_ wires]; destruct (decide (r = q)) as [->|]; rewrite ?lookup_insert_eq, ?lookup_insert_ne, ?lookup_alter_ne by done;
    simplify_eq/=; eauto.
Qed.

Section refinement.
Context {P : Type} `{PollerLaws P}.
Context (alive : history -> Z -> bool) (effects : history -> Z -> Channel.callback -> list action)
  (functors : history -> list action).
Implicit Types (s : LoopIteration.t P) (a : AbstractLoop.t).

Record refines s a : Prop := mk_refines {
  r_sim : sim (_poller s) (channels s) (views_ a);
  r_wires q : wires a !! q = blank <$> channels s !! q;
  r_gone : deleted s = gone a;
  r_gone_unregistered q v : q ∈ gone a -> views_ a !! q = Some v -> v_phase v <> Registered;
  r_gone_known q : q ∈ gone a -> is_Some (views_ a !! q);
  r_ran : ran s = ran_ a
}.

(** A channel whose event waits to be handled. *)
Definition pending s a (e : Z * Z) : Prop :=
  exists c v, channels s !! e.1 = Some c /\ Channel._revents c = e.2 /\ (e.1 ∉ gone a) /\
    views_ a !! e.1 = Some v /\ v_phase v <> Fresh.

Lemma call_refines busy call s a a' :
  refines s a -> AbstractLoop.act busy (Call call) a = Some a' ->
  exists s', LoopIteration.act (Call call) s = Ret s' /\ refines s' a' /\
    forall e, pending s a e -> pending s' a' e.
Proof.
  intros [Hsim Hw Hg Hgu Hgk Hr] E. set (q := match call with Change q _ | Retire q => q end).
  assert (exists v v', views_ a !! q = Some v /\ (q ∉ gone a) /\ v_phase v' <> Fresh /\
    ChannelSpec.step (views_ a) call (<[q := v']> (views_ a)) /\
    a' = AbstractLoop.mk (<[q := v']> (views_ a)) (wires a) (gone a) (ran_ a)) as (v & v' & Hv & Hq & Hph & Hstep & ->).
  { destruct call as [q' ch|q']; subst q; cbn [AbstractLoop.act] in E; destruct (views_ a !! q') as [v|] eqn:Hv; try done;
      case_decide as Hd; try done; injection E as <-; exists v; eexists; split_and!; try done; try apply Hd; try done.
    - destruct Hd as (_ & [Hp | [Hp Hf]]); [by apply step_change | by apply step_first].
    - by apply step_retire, Hd. }
  destruct (sim_step_wiring _ _ _ _ _ Hsim Hstep) as (p & h & Erun & Hsim' & Hwire).
  destruct (sim_view _ _ _ Hsim q v Hv) as (c & Hc & _).
  exists (set_channels s p h). split; [| split].
  - cbn [LoopIteration.act]. fold q. unfold live, deref. rewrite Hg, decide_False, Hc by done. cbn [mbind res_bind]. by rewrite Erun.
  - constructor; cbn [_poller channels set_channels views_ wires gone deleted ran ran_]; try done.
    + intros r. rewrite Hw. specialize (Hwire r). destruct (channels s !! r) as [c1|], (h !! r) as [c2|]; try done.
      cbn in Hwire. apply (inj Some) in Hwire. cbn. f_equal. unfold blank. by rewrite Hwire.
    + intros r w Hgr. destruct (decide (q = r)) as [<-|]; [done |]. rewrite lookup_insert_ne by done. by apply Hgu.
    + intros r Hgr. destruct (decide (q = r)) as [<-|]; [by rewrite lookup_insert_eq |]. rewrite lookup_insert_ne by done. by apply Hgk.
  - intros [r ev] (c1 & w & H1 & H2 & H3 & H4 & H5). cbn [fst snd] in *. specialize (Hwire r). rewrite H1 in Hwire.
    destruct (h !! r) as [c2|] eqn:H6; [| done]. cbn in Hwire. apply (inj Some) in Hwire as E2.
    assert (exists w', <[q := v']> (views_ a) !! r = Some w' /\ v_phase w' <> Fresh) as (w' & ? & ?).
    { destruct (decide (q = r)) as [<-|]; [exists v'; by rewrite lookup_insert_eq | exists w; by rewrite lookup_insert_ne]. }
    exists c2, w'. split_and!; try done. cbn. rewrite <- H2. by apply (f_equal Channel._revents) in E2.
Qed.

(** Channels that are not registered change without the poller. *)
Lemma set_unregistered s a q v c :
  refines s a -> views_ a !! q = Some v \/ views_ a !! q = None -> (q ∉ gone a) ->
  v_phase v = Fresh -> 0 <= v_fd v -> mask_ok (v_events v) ->
  Channel.fd c = v_fd v -> Channel.events c = v_events v -> Channel.index c = -1 ->
  refines (set_channels s (_poller s) (<[q := c]> (channels s)))
    (AbstractLoop.mk (<[q := v]> (views_ a)) (<[q := blank c]> (wires a)) (gone a) (ran_ a)).
Proof.
  intros [[Hwf Hv Hreg] Hw Hg Hgu Hgk Hr] Hq Hgq Hph Hfd Hm Ecfd Ecev Eci.
  assert (Hun : forall fd, p_channels (_poller s) !! fd <> Some q).
  { intros fd E. destruct (Hreg _ _ E) as (w & Ew & _ & Hw'). destruct Hq; congruence. }
  constructor; cbn [_poller channels set_channels views_ wires gone deleted ran ran_]; try done.
  - constructor; [by apply p_wf_frame | |].
    + intros r w. destruct (decide (q = r)) as [<-|].
      * rewrite !lookup_insert_eq. intros [= <-]. exists c. split_and!; try done. congruence.
      * rewrite !lookup_insert_ne by done. apply Hv.
    + intros fd r E. destruct (Hreg _ _ E) as (w & Ew & ?). exists w. rewrite lookup_insert_ne; [done |]. intros ->. by apply (Hun fd).
  - intros r. destruct (decide (q = r)) as [<-|]; [by rewrite !lookup_insert_eq | by rewrite !lookup_insert_ne].
  - intros r w Hgr. rewrite lookup_insert_ne; [by apply Hgu | by intros ->].
  - intros r Hgr. rewrite lookup_insert_ne; [by apply Hgk | by intros ->].
Qed.
Lemma pending_set s a q v c e m :
  pending s a e -> q <> e.1 ->
  pending (set_channels s (_poller s) (<[q := c]> (channels s))) (AbstractLoop.mk (<[q := v]> (views_ a)) m (gone a) (ran_ a)) e.
Proof.
  intros (c1 & w & H1 & H2 & H3 & H4 & H5) Hne. exists c1, w. cbn. rewrite !lookup_insert_ne by done. done.
Qed.

Lemma act_refines busy x s a a' :
  refines s a -> AbstractLoop.act busy x a = Some a' ->
  exists s', LoopIteration.act x s = Ret s' /\ refines s' a' /\
    forall e, e.1 ∈ busy -> pending s a e -> pending s' a' e.
Proof.
  intros Href E. destruct x as [q fd|q f|call|q].
  - cbn [AbstractLoop.act LoopIteration.act] in *. destruct (views_ a !! q) eqn:Hv; [done |].
    destruct (Z.leb_spec 0 fd); [| done]. injection E as <-. eexists. split; [reflexivity |]. split.
    + apply (set_unregistered s a q (mk_view fd 0 Fresh)); try done; [by right |].
      intros Hg. apply (r_gone_known _ _ Href) in Hg as [? ?]. congruence.
    + intros e _ Hp. apply pending_set; [done |]. intros ->. destruct Hp as (_ & v & _ & _ & _ & Hv' & _). congruence.
  - cbn [AbstractLoop.act LoopIteration.act] in *. destruct (views_ a !! q) as [[fd ev []]|] eqn:Hv; try done.
    case_decide as Hg; [done |]. injection E as <-. destruct (sim_view _ _ _ (r_sim _ _ Href) q _ Hv) as (c & Hc & E1 & E2 & H3 & H4 & _ & H6).
    unfold live, deref. rewrite (r_gone _ _ Href), decide_False, Hc by done. cbn [mbind res_bind]. eexists. split; [reflexivity |]. split.
    + replace (alter (apply_setting f) q (wires a)) with (<[q := blank (apply_setting f c)]> (wires a)).
      2: { apply map_eq. intros r. destruct (decide (q = r)) as [<-|].
           - by rewrite lookup_insert_eq, lookup_alter_eq, (r_wires _ _ Href), Hc, blank_setting.
           - by rewrite lookup_insert_ne, lookup_alter_ne by done. }
      replace (views_ a) with (<[q := mk_view fd ev Fresh]> (views_ a)) by (by rewrite insert_id).
      apply (set_unregistered s a q (mk_view fd ev Fresh)); try done; [by left | | |]; destruct f; first [exact E1 | exact E2 | by apply H6].
    + intros e _ Hp. replace (views_ a) with (<[q := mk_view fd ev Fresh]> (views_ a)) by (by rewrite insert_id).
      apply pending_set; [done |]. intros ->. destruct Hp as (_ & v & _ & _ & _ & Hv' & Hph). rewrite Hv in Hv'. by injection Hv' as <-.
  - destruct (call_refines busy call s a a' Href E) as (s' & ? & ? & ?). exists s'. naive_solver.
  - cbn [AbstractLoop.act LoopIteration.act] in *. destruct (views_ a !! q) as [v|] eqn:Hv; [| done].
    case_decide as Hd; [| done]. destruct Hd as [Hph Hb]. injection E as <-. eexists. split; [reflexivity |]. split.
    + destruct Href as [Hsim Hw Hg Hgu Hgk Hr]. constructor; cbn [_poller channels views_ wires gone deleted ran ran_]; try done.
      * by rewrite Hg.
      * intros r w [->%elem_of_singleton|Hin]%elem_of_union; [congruence | by apply Hgu].
      * intros r [->%elem_of_singleton|Hin]%elem_of_union; [by eexists | by apply Hgk].
    + intros e He (c1 & w & H1 & H2 & H3 & H4 & H5). exists c1, w. cbn. split_and!; try done. set_solver.
Qed.

Lemma acts_refine busy l s a a' :
  refines s a -> AbstractLoop.acts busy l a = Some a' ->
  exists s', LoopIteration.acts l s = Ret s' /\ refines s' a' /\
    forall e, e.1 ∈ busy -> pending s a e -> pending s' a' e.
Proof.
  revert s a. induction l as [|x l IH]; intros s a Href E; cbn [AbstractLoop.acts LoopIteration.acts] in *.
  { injection E as <-. by exists s. }
  destruct (AbstractLoop.act busy x a) as [a1|] eqn:E1; [| done].
  destruct (act_refines busy x s a a1 Href E1) as (s1 & -> & Href1 & Hp1). cbn [mbind res_bind].
  destruct (IH s1 a1 Href1 E) as (s' & E' & Href' & Hp'). exists s'. split_and!; auto.
Qed.

Lemma callbacks_refine busy q ev w cbs s a a' :
  q ∈ busy -> refines s a -> pending s a (q, ev) -> wires a !! q = Some w ->
  AbstractLoop.run_callbacks effects busy q
    (filter (fun cb => cb ∈ Channel.handle_event_with_guard (Channel.set_revents w ev)) cbs) a = Some a' ->
  exists s', LoopIteration.handle_event_with_guard effects q cbs s = Ret s' /\ refines s' a' /\
    forall e, e.1 ∈ busy -> pending s a e -> pending s' a' e.
Proof.
  intros Hq. revert s a. induction cbs as [|cb cbs IH]; intros s a Href Hpq Hwq E;
    pose proof Hpq as (c & v & Hc & Hev & Hg & Hv & Hph); cbn [fst snd] in Hc, Hev, Hg, Hv;
    cbn [LoopIteration.handle_event_with_guard]; unfold live, deref;
    rewrite (r_gone _ _ Href), decide_False, Hc by done; cbn [mbind res_bind].
  { injection E as <-. by exists s. }
  assert (Channel.handle_event_with_guard c = Channel.handle_event_with_guard (Channel.set_revents w ev)) as ->.
  { pose proof (r_wires _ _ Href q) as Hb. rewrite Hwq, Hc in Hb. cbn in Hb. apply (inj Some) in Hb as ->. by rewrite <- Hev. }
  rewrite filter_cons in E. case_decide as Hin; [| by apply (IH s a)].
  cbn [AbstractLoop.run_callbacks] in E. rewrite (r_ran _ _ Href).
  destruct (AbstractLoop.acts busy _ _) as [a1|] eqn:E1; [| done].
  destruct (acts_refine busy (effects (ran_ a) q cb)
    (LoopIteration.mk (_poller s) (channels s) (deleted s) (_active_channel s) (_current_active_channel s)
       (_event_handling s) (ran_ a ++ [(q, cb)]))
    (AbstractLoop.mk (views_ a) (wires a) (gone a) (ran_ a ++ [(q, cb)])) a1) as (s1 & E2 & Href1 & Hp1); [| exact E1 |].
  { by destruct Href; constructor. }
  rewrite (r_gone _ _ Href) in E2. rewrite E2. cbn [mbind res_bind].
  destruct (IH s1 a1 Href1) as (s' & E' & Href' & Hp'); [by apply Hp1 | | exact E |].
  { by erewrite (acts_wires busy) by done. }
  exists s'. split_and!; [done | done |]. intros e He Hpe. apply Hp'; [done |]. by apply Hp1.
Qed.

Lemma events_refine busy l s a a' :
  Forall (fun e => e.1 ∈ busy) l -> refines s a -> Forall (pending s a) l ->
  AbstractLoop.handle_events alive effects busy l a = Some a' ->
  exists s', LoopIteration.handle_events alive effects l.*1 s = Ret s' /\ refines s' a'.
Proof.
  revert s a. induction l as [|[q ev] l IH]; intros s a Hb Href Hp E;
    cbn [AbstractLoop.handle_events LoopIteration.handle_events fmap list_fmap fst] in *.
  { injection E as <-. by exists s. }
  apply Forall_cons in Hb as [Hq Hb], Hp as [Hpq Hp]. cbn [fst] in Hq.
  pose proof Hpq as (c & v & Hc & Hev & Hg & _). cbn [fst snd] in Hc, Hev, Hg.
  pose proof (r_wires _ _ Href q) as Hwq. rewrite Hc in Hwq. cbn [fmap option_fmap option_map] in Hwq.
  rewrite Hwq in E. cbn [mbind option_bind] in E. rewrite handle_event_tie in E.
  change (tie_holds _ (Channel.set_revents (blank c) ev)) with (tie_holds (alive (ran_ a)) c) in E.
  destruct (AbstractLoop.run_callbacks _ _ _ _ _) as [a1|] eqn:E1; [| done].
  unfold handle_event, live, deref at 1. cbn [deleted channels ran]. rewrite (r_gone _ _ Href), decide_False, Hc by done.
  cbn [mbind res_bind ran]. rewrite (r_ran _ _ Href).
  set (s0 := LoopIteration.mk _ _ _ _ (Some q) _ _).
  assert (exists s1, (if tie_holds (alive (ran_ a)) c
    then LoopIteration.handle_event_with_guard effects q all_callbacks s0 else mret s0) = Ret s1 /\ refines s1 a1 /\
    forall e, e.1 ∈ busy -> pending s a e -> pending s1 a1 e) as (s1 & -> & Href1 & Hp1).
  { assert (Href0 : refines s0 a) by (by destruct Href; constructor).
    destruct (tie_holds (alive (ran_ a)) c); [| injection E1 as <-; by exists s0].
    destruct (callbacks_refine busy q ev (blank c) all_callbacks s0 a a1) as (s1 & ? & ? & Hp1);
      [done | done | exact Hpq | done | by rewrite handle_event_all |]. exists s1. split_and!; [done | done |].
    intros e He Hpe. by apply Hp1. }
  cbn [mbind res_bind]. apply (IH s1 a1); [done | done | | done].
  apply Forall_forall. intros e He. rewrite Forall_forall in Hb, Hp. apply Hp1; [by apply Hb |]. exact (Hp e He).
Qed.

(** The kernel reports each descriptor once, and only those it is asked about. *)
Definition may_report s (ready : list (Z * Z)) : Prop :=
  NoDup ready.*1 /\
  Forall (fun e => 0 < e.2 < 32768 /\ p_listens (_poller s) e.1 /\ is_Some (p_channels (_poller s) !! e.1)) ready.

Lemma refines_registered s a : refines s a -> registered (p_channels (_poller s)) (channels s).
Proof.
  intros Href fd q Hq. destruct (p_wf_channel _ _ _ _ (sim_wf _ _ _ (r_sim _ _ Href)) Hq) as (c & ? & ? & _). by exists c.
Qed.

Lemma found_ready s a ready : refines s a -> Forall (fun e => is_Some (p_channels (_poller s) !! e.1)) ready ->
  map (fun e => (from_option v_fd 0 (views_ a !! e.1), e.2)) (omap (found (p_channels (_poller s))) ready) = ready.
Proof.
  intros Href. induction 1 as [|[fd ev] ready [q Hq] _ IH]; [done |]. cbn [fst] in Hq.
  cbn [omap list_omap]. unfold found at 1. cbn [fst snd]. rewrite Hq. cbn [fmap option_fmap option_map map fst snd].
  destruct (sim_registered _ _ _ (r_sim _ _ Href) _ _ Hq) as (v & Hv & Hf & _). rewrite Hv. cbn. rewrite Hf. f_equal. exact IH.
Qed.

(** A poll changes the channels' [_revents] only. *)
Lemma stores_revents_only s a ready h :
  refines s a -> stores_revents (p_channels (_poller s)) ready (channels s) h ->
  forall q, (fun c => Channel.set_revents c 0) <$> h !! q = (fun c => Channel.set_revents c 0) <$> channels s !! q.
Proof.
  intros Href [Hin Hout] q. destruct (decide (q ∈ (omap (found (p_channels (_poller s))) ready).*1)) as [Hq|Hq].
  - apply list_elem_of_fmap in Hq as ([q' ev] & -> & (fd & He & Hq)%elem_of_found). cbn [fst].
    destruct (refines_registered _ _ Href _ _ Hq) as (c & Hc & _). by rewrite (Hin _ _ _ _ He Hq Hc), Hc.
  - rewrite Hout; [done |]. intros fd ev He E. apply Hq, list_elem_of_fmap. exists (q, ev). split; [done |].
    apply elem_of_found. by exists fd.
Qed.

Lemma refines_revents s a h :
  refines s a -> p_wf (_poller s) h ->
  (forall q, (fun c => Channel.set_revents c 0) <$> h !! q = (fun c => Channel.set_revents c 0) <$> channels s !! q) ->
  refines (set_channels s (_poller s) h) a.
Proof.
  intros [[_ Hv Hreg] Hw Hg Hgu Hgk Hr] Hwf Hsame.
  constructor; cbn [_poller channels set_channels deleted ran]; try done.
  - constructor; [done | | done]. intros q v Hq. destruct (Hv q v Hq) as (c & Hc & H1).
    specialize (Hsame q). rewrite Hc in Hsame. destruct (h !! q) as [c'|]; [| done]. cbn in Hsame. apply (inj Some) in Hsame.
    exists c'. split; [done |]. unfold Channel.fd, Channel.events, Channel.index in *.
    assert (Channel._fd c' = Channel._fd c /\ Channel._events c' = Channel._events c /\ Channel._index c' = Channel._index c)
      as (-> & -> & ->); [| done]. destruct c, c'. cbv in Hsame. by injection Hsame.
  - intros q. rewrite Hw. specialize (Hsame q). destruct (h !! q) as [c'|], (channels s !! q) as [c|]; try done.
    cbn in Hsame. apply (inj Some) in Hsame. cbn. f_equal. exact (eq_sym (f_equal wiring Hsame)).
Qed.

Lemma poll_refines s a ready : refines s a -> may_report s ready ->
  exists events h, p_poll (_poller s) (channels s) ready = Ret (events.*1, h) /\ reported a ready events /\
    refines (set_channels s (_poller s) h) a /\ Forall (pending (set_channels s (_poller s) h) a) events.
Proof.
  intros Href [Hnd Hok]. pose proof (r_sim _ _ Href) as Hsim.
  assert (Hsome : Forall (fun e => is_Some (p_channels (_poller s) !! e.1)) ready)
    by (eapply Forall_impl; [exact Hok |]; by intros e (_ & _ & ?)).
  destruct (p_poll_spec (_poller s) (channels s) ready) as (active & h & E & Hwf & Hperm & Hstore); [apply Hsim | done | done |].
  rewrite <- found_fst in Hperm. destruct (Permutation_map_inv _ _ Hperm) as (events & Eact & Hev).
  assert (Hfound : forall q ev, (q, ev) ∈ events -> exists fd v c, (fd, ev) ∈ ready /\ p_channels (_poller s) !! fd = Some q /\
    views_ a !! q = Some v /\ v_phase v = Registered /\ channels s !! q = Some c).
  { intros q ev He. rewrite <- Hev in He. apply elem_of_found in He as (fd & He & Hq).
    destruct (sim_registered _ _ _ Hsim _ _ Hq) as (v & Hv & _ & Hph). destruct (sim_view _ _ _ Hsim _ _ Hv) as (c & Hc & _).
    by exists fd, v, c. }
  exists events, h. split_and!; [by rewrite E, Eact | split | |].
  - apply Forall_forall. intros [q ev] He. destruct (Hfound q ev He) as (_ & v & _ & _ & _ & ? & ? & _). by exists v.
  - rewrite <- Hev. by rewrite (found_ready s a ready Href Hsome).
  - by apply refines_revents; [| | eapply stores_revents_only].
  - apply Forall_forall. intros [q ev] He. destruct (Hfound q ev He) as (fd & v & c & H1 & H2 & H3 & H4 & H5).
    exists (Channel.set_revents c ev), v. cbn. split_and!; try done; [by eapply Hstore | | congruence].
    intros Hg. by apply (r_gone_unregistered _ _ Href q v Hg H3).
Qed.

Lemma acts_frame l s s' : LoopIteration.acts l s = Ret s' ->
  _event_handling s' = _event_handling s /\ _current_active_channel s' = _current_active_channel s.
Proof.
  revert s. induction l as [|x l IH]; intros s E; cbn [LoopIteration.acts] in E; [by injection E as <- |].
  apply res_bind_inv in E as (s1 & E1 & E). destruct (IH _ E) as [-> ->].
  destruct x; cbn [LoopIteration.act] in E1; returned; done.
Qed.

(** A turn of the loop does what the abstract loop does on the same reports. *)
Lemma iterate_refines s a ready : refines s a -> may_report s ready ->
  exists events, reported a ready events /\
    forall a', AbstractLoop.iterate alive effects functors events a = Some a' ->
    exists s', LoopIteration.iterate alive effects functors ready s = Ret s' /\ refines s' a' /\
      _event_handling s' = false /\ _current_active_channel s' = None.
Proof.
  intros Href Hok. destruct (poll_refines s a ready Href Hok) as (events & h & E & Hrep & Href1 & Hp).
  exists events. split; [done |]. intros a' Ea. unfold AbstractLoop.iterate, LoopIteration.iterate in *. rewrite E. cbn [mbind res_bind].
  destruct (AbstractLoop.handle_events _ _ _ _ _) as [a1|] eqn:E1; [| done].
  destruct (events_refine events.*1 events
    (LoopIteration.mk (_poller s) h (deleted s) events.*1 (_current_active_channel s) true (ran s)) a a1)
    as (s1 & -> & Href2); [| by destruct Href1; constructor | exact Hp | exact E1 |].
  { apply Forall_forall. intros e He. apply list_elem_of_fmap. by exists e. }
  cbn [mbind res_bind ran]. rewrite (r_ran _ _ Href2).
  destruct (acts_refine [] (functors (ran_ a1))
    (LoopIteration.mk (_poller s1) (channels s1) (deleted s1) (_active_channel s1) None false (ran_ a1)) a1 a')
    as (s' & Es & Href' & _); [by destruct Href2; constructor | exact Ea |].
  exists s'. destruct (acts_frame _ _ _ Es) as [E2 E3]. by split_and!.
Qed.

(** The kernel's part of a run. *)
Fixpoint kernel_ok (reports : list (list (Z * Z))) s : Prop :=
  match reports with
  | [] => True
  | ready :: reports =>
      may_report s ready /\
      forall s', LoopIteration.iterate alive effects functors ready s = Ret s' -> kernel_ok reports s'
  end.

Lemma loop_refines reports s a :
  refines s a -> kernel_ok reports s -> orderly alive effects functors reports a ->
  exists s' a', LoopIteration.loop alive effects functors reports s = Ret s' /\
    turns alive effects functors a reports a' /\ refines s' a'.
Proof.
  revert s a. induction reports as [|ready reports IH]; intros s a Href Hk Ho.
  { exists s, a. split_and!; [done | constructor | done]. }
  destruct Hk as [Hmay Hk]. destruct (iterate_refines s a ready Href Hmay) as (events & Hrep & Hit).
  destruct (Ho events Hrep) as (a1 & Ea & Ho1). destruct (Hit a1 Ea) as (s1 & Es & Href1 & _).
  destruct (IH s1 a1 Href1 (Hk s1 Es) Ho1) as (s' & a' & El & Ht & Href').
  exists s', a'. cbn [LoopIteration.loop]. rewrite Es. split_and!; [done | by econstructor | done].
Qed.

Lemma initial_refines p : p_wf p ∅ -> p_channels p = ∅ -> refines (LoopIteration.initial p) AbstractLoop.initial.
Proof.
  intros Hwf Hc. constructor; cbn; try done. constructor; [done | by intros q v Hq | by rewrite Hc].
Qed.
End refinement.
End LoopIterationSpec.

(** ** The property *)

Module LoopIterationProps.
Import ChannelSpec LoopIterationSpec.

(** C23: what the loop does with its channels, over either poller, is what a loop without
    poller and memory does. As long as user code sets a channel up before it registers
    it, registers it once, and deletes it only when it is neither registered nor among
    the active ones, then in every turn, whatever the callbacks do to whichever channels,
    no assertion fails and no deleted channel is touched: each event that the kernel
    reported runs the callbacks of its channel, once, by the events reported, even if the
    channel has been disabled or removed since, and new channels wait for the next turn. *)
Theorem loop_dispatches_events {P} `{PollerLaws P} alive effects functors (p : P) setup a reports
    (Hp : p_wf p ∅) (Hempty : p_channels p = ∅)
    (Hsetup : AbstractLoop.acts [] setup AbstractLoop.initial = Some a) :
  exists s0, LoopIteration.acts setup (LoopIteration.initial p) = Ret s0 /\
    (kernel_ok alive effects functors reports s0 -> AbstractLoop.orderly alive effects functors reports a ->
     exists s a', LoopIteration.loop alive effects functors reports s0 = Ret s /\
       AbstractLoop.turns alive effects functors a reports a' /\
       LoopIteration.ran s = AbstractLoop.ran_ a' /\
       forall fd, wanted (AbstractLoop.views_ a') fd (p_waits (LoopIteration._poller s) fd)).
Proof.
  destruct (acts_refine [] setup (LoopIteration.initial p) AbstractLoop.initial a) as (s0 & E & Href & _);
    [by apply initial_refines | done |]. exists s0. split; [done |]. intros Hk Ho.
  destruct (loop_refines alive effects functors reports s0 a Href Hk Ho) as (s & a' & El & Ht & Href').
  exists s, a'. split_and!; [done | done | apply Href' |]. intros fd. eapply sim_wanted, Href'.
Qed.

#[local] Existing Instances PollersProps.list_epoll PollersProps.list_epoll_laws.
#[local] Instance debug : Build := {| ndebug := false |}.

(** Channel 1 retires channel 2 and registers channel 3; a functor deletes channel 2. *)
Definition example_channel (q fd : Z) : list action := [New q fd; Set_ q (ReadCallback true); Call (Change q enable_reading)].
Definition example_setup : list action := example_channel 1 5 ++ example_channel 2 6.
Definition example_effects (h : history) (q : Z) (cb : Channel.callback) : list action :=
  if decide (q = 1) then Call (Retire 2) :: example_channel 3 7 else [].
Definition example_functors (h : history) : list action := [Delete 2].
Definition example_start : AbstractLoop.t := default AbstractLoop.initial (AbstractLoop.acts [] example_setup AbstractLoop.initial).
Definition example_ready : list (Z * Z) := [(5, POLLIN); (6, POLLIN)].
Abbreviation example_loop := (LoopIteration.loop (fun _ _ => true) example_effects example_functors).
Definition example_poller : EPollPoller.t (gmap Z (Z * Z)) := EPollPoller.mk ∅ ∅.

Lemma example_reported events : AbstractLoop.reported example_start example_ready events ->
  events = [(1, POLLIN); (2, POLLIN)] \/ events = [(2, POLLIN); (1, POLLIN)].
Proof.
  intros [Hall Hperm].
  assert (Hq : forall q fd, (exists v, AbstractLoop.views_ example_start !! q = Some v /\ v_phase v = Registered) ->
    from_option v_fd 0 (AbstractLoop.views_ example_start !! q) = fd -> q = fd - 4).
  { intros q fd (v & Hv & _) <-. rewrite Hv. cbn. apply elem_of_map_to_list in Hv. vm_compute in Hv.
    repeat (apply elem_of_cons in Hv as [Hv|Hv]; [by injection Hv as -> -> |]). by apply elem_of_nil in Hv. }
  apply Permutation_length_2_inv in Hperm.
  destruct events as [|[q1 e1] [|[q2 e2] [|]]]; cbn [map fst snd] in Hperm; try by destruct Hperm.
  apply Forall_cons in Hall as [H1 [H2 _]%Forall_cons]. cbn [fst] in H1, H2.
  destruct Hperm as [Hperm|Hperm]; injection Hperm as E1 -> E2 ->; apply (Hq _ _ H1) in E1 as ->; apply (Hq _ _ H2) in E2 as ->;
    [by left | by right].
Qed.

Lemma loop_dispatches_events_witness :
  exists s0 s a', LoopIteration.acts example_setup (LoopIteration.initial example_poller) = Ret s0 /\
    example_loop [example_ready] s0 = Ret s /\
    LoopIteration.ran s = AbstractLoop.ran_ a' /\
    forall fd, wanted (AbstractLoop.views_ a') fd (p_waits (LoopIteration._poller s) fd).
Proof.
  destruct (loop_dispatches_events (fun _ _ => true) example_effects example_functors example_poller
    example_setup example_start [example_ready]) as (s0 & E & Hrun); [done | done | by vm_compute |].
  destruct Hrun as (s & a' & El & _ & Er & Hw).
  - vm_compute in E. injection E as <-. split; [split | done].
    + by apply (bool_decide_unpack _).
    + by repeat (apply Forall_cons; split; [split_and!; [done | done | eexists; reflexivity | eexists; reflexivity] |]).
  - intros events [-> | ->]%example_reported; (eexists; split; [vm_compute; reflexivity | done]).
  - by exists s0, s, a'.
Defined.

(** Nothing removes a deleted channel from the active ones: a callback that retires and
    deletes another channel leaves the loop to call it. [_event_handling] and
    [_current_active_channel], which could tell, are only written. *)
Theorem deleted_channel_called :
  exists s0, LoopIteration.acts example_setup (LoopIteration.initial example_poller) = Ret s0 /\
    LoopIteration.loop (fun _ _ => true) (fun _ q _ => if decide (q = 1) then [Call (Retire 2); Delete 2] else [])
      (fun _ => []) [example_ready] s0 = Stop UndefinedBehaviour.
Proof. eexists. split; [vm_compute; reflexivity | vm_compute; reflexivity]. Qed.
End LoopIterationProps.
