(* ===== verification/PipeBench.v ===== *)
(** The event-loop benchmark (suduo/bench/pingpong/bench.cpp): one loop watches the
    read ends of [numPipes] socket pairs; each callback takes a byte from its pair
    and, while writes are left, puts one into the next pair of the ring.

    The kernel is the number of bytes that can be read from each descriptor; which of
    the readable channels a poll reports, and in which order, is the parameter
    [poll]. *)

From S2P Require Import Prelude.
From S2P Require Import Time.
From S2P Require Import Pollers.

Module PipeBench.

(** The globals. [waiting] counts the bytes (each an "m") that can be read from
    [g_pipes[j]]; [_running] is the member of [g_loop]; [polls] and [ticks] count the
    calls of [poll] and of [Timestamp::now()]. *)
Record t := mk {
  numPipes : Z;
  numActive : Z;
  numWrites : Z;
  g_reads : Z;
  g_writes : Z;
  g_fired : Z;
  waiting : list Z;
  _running : bool;
  polls : nat;
  ticks : nat
}.

(** Just before the first run. *)
Definition make (n a w : Z) : t :=
  mk n a w 0 0 0 (replicate (Z.to_nat (2 * n)) 0) false 0 0.

Definition set_waiting (s : t) (l : list Z) : t :=
  mk (numPipes s) (numActive s) (numWrites s) (g_reads s) (g_writes s) (g_fired s) l
    (_running s) (polls s) (ticks s).
Definition set_counts (s : t) (reads writes fired : Z) : t :=
  mk (numPipes s) (numActive s) (numWrites s) reads writes fired (waiting s)
    (_running s) (polls s) (ticks s).
Definition set_running (s : t) (b : bool) : t :=
  mk (numPipes s) (numActive s) (numWrites s) (g_reads s) (g_writes s) (g_fired s) (waiting s)
    b (polls s) (ticks s).

(** [socketpair] joins [g_pipes[2 * i]] and [g_pipes[2 * i + 1]]. *)
Definition peer (j : Z) : Z := if Z.even j then j + 1 else j - 1.
(** [g_pipes[j]], with the bytes that wait there. *)
Definition at_ (l : list Z) (j : Z) : res Z :=
  if 0 <=? j then match l !! Z.to_nat j with Some n => Ret n | None => Stop UndefinedBehaviour end
  else Stop UndefinedBehaviour.

(** [capacity]: the bytes a socket takes before [send] blocks. *)
Section program.
Context (capacity : Z) (poll : nat -> list Z -> list Z) (clock : nat -> Timestamp.t).

(** [recv(fd, &ch, 1, 0)] and [send(fd, "m", 1, 0)] on blocking sockets. *)
Definition recv (j : Z) (s : t) : res t :=
  n ← at_ (waiting s) j;
  if 0 <? n then mret (set_waiting s (<[Z.to_nat j := n - 1]> (waiting s))) else Stop Blocked.
Definition send (j : Z) (s : t) : res t :=
  _ ← at_ (waiting s) j;
  n ← at_ (waiting s) (peer j);
  if n <? capacity then mret (set_waiting s (<[Z.to_nat (peer j) := n + 1]> (waiting s)))
  else Stop Blocked.

(** [if (g_writes > 0) ...]: pass the byte on. *)
Definition pass_on (idx : Z) (s : t) : res t :=
  if 0 <? g_writes s then
    widx ← i32_checked (idx + 1);
    let widx := if numPipes s <=? widx then widx - numPipes s else widx in
    j ← i32_checked (2 * widx + 1);
    s ← send j s;
    fired ← i32_checked (g_fired s + 1);
    mret (set_counts s (g_reads s) (g_writes s - 1) fired)
  else mret s.

(** The read callback of channel [idx], bound to [fd = g_pipes[2 * idx]]. *)
Definition readCallback (idx : Z) (s : t) : res t :=
  s ← recv (2 * idx) s;
  reads ← i32_checked (g_reads s + 1);
  s ← pass_on idx (set_counts s reads (g_writes s) (g_fired s));
  mret (if g_fired s =? g_reads s then set_running s false else s).

(** One turn of [EventLoop::loop]: the channels [poll] has reported. *)
Fixpoint handle (active : list Z) (s : t) : res t :=
  match active with
  | [] => mret s
  | idx :: active => s ← readCallback idx s; handle active s
  end.
Definition iteration (s : t) : res t :=
  handle (poll (polls s) (waiting s))
    (mk (numPipes s) (numActive s) (numWrites s) (g_reads s) (g_writes s) (g_fired s) (waiting s)
       (_running s) (S (polls s)) (ticks s)).
Fixpoint while_running (fuel : nat) (s : t) : res t :=
  match fuel with
  | O => Stop FuelExhausted
  | S fuel => if _running s then s ← iteration s; while_running fuel s else mret s
  end.
Definition loop (fuel : nat) (s : t) : res t := while_running fuel (set_running s true).

Definition now (s : t) : Timestamp.t * t :=
  (clock (ticks s),
   mk (numPipes s) (numActive s) (numWrites s) (g_reads s) (g_writes s) (g_fired s) (waiting s)
     (_running s) (polls s) (S (ticks s))).

(** [for (i = 0; i < numActive; ++i) send(g_pipes[i * space + 1], ...)]. *)
Fixpoint kick (n : nat) (i space : Z) (s : t) : res t :=
  match n with
  | O => mret s
  | S n =>
      j ← i32_checked (i * space + 1);
      s ← send j s;
      kick n (i + 1) space s
  end.

(** [runOnce]: the two times, and the globals after it. What it does to the channels
    is [enable_all]. *)
Definition runOnce (fuel : nat) (s : t) : res (Z * Z * t) :=
  let '(beforeInit, s) := now s in
  if numActive s =? 0 then Stop UndefinedBehaviour else
  space ← i32_checked (Z.quot (numPipes s) (numActive s));
  space ← i32_checked (space * 2);
  s ← kick (Z.to_nat (numActive s)) 0 space s;
  let s := set_counts s 0 (numWrites s) (numActive s) in
  let '(beforeLoop, s) := now s in
  s ← loop fuel s;
  let '(end_, s) := now s in
  d1 ← Timestamp.diff end_ beforeInit;
  d2 ← Timestamp.diff end_ beforeLoop;
  mret (to_signed 32 (Timestamp.get_microseconds_in_int64 d1),
        to_signed 32 (Timestamp.get_microseconds_in_int64 d2), s).

(** [for (i = 0; i < 25; ++i) runOnce()]. *)
Fixpoint runs (n : nat) (fuel : nat) (s : t) : res (list (Z * Z) * t) :=
  match n with
  | O => mret ([], s)
  | S n =>
      '(iterTime, loopTime, s) ← runOnce fuel s;
      '(times, s) ← runs n fuel s;
      mret ((iterTime, loopTime) :: times, s)
  end.
End program.

(** The calls on the channels, at addresses [base + i]: every run enables them, and at
    the end of [main] each is disabled and removed. *)
Definition enable_all (base : Z) (n : nat) : list channel_call :=
  map (fun i => Change (base + Z.of_nat i) enable_reading) (seq 0 n).
Definition remove_all (base : Z) (n : nat) : list channel_call :=
  map (fun i => Retire (base + Z.of_nat i)) (seq 0 n).
Definition channel_calls (base : Z) (n : nat) (runs : nat) : list channel_call :=
  concat (replicate runs (enable_all base n)) ++ remove_all base n.
End PipeBench.

(** ** The bytes go round until all writes are done *)

Module PipeBenchSpec.
Import PipeBench.

Definition total (l : list Z) : Z := foldr Z.add 0 l.

Lemma total_insert l j x y : l !! j = Some x -> total (<[j := y]> l) = total l - x + y.
Proof.
  revert j. induction l as [|a l IH]; intros [|j] Hj; [done .. | |].
  - injection Hj as ->. cbn. lia.
  - specialize (IH j Hj). change (<[S j := y]> (a :: l)) with (a :: <[j := y]> l).
    unfold total in *. cbn [foldr]. lia.
Qed.
Lemma total_pos l : Forall (Z.le 0) l -> 0 <= total l.
Proof. induction 1; cbn; [lia |]. fold (total l). lia. Qed.
Lemma total_elem l j x : Forall (Z.le 0) l -> l !! j = Some x -> x <= total l.
Proof.
  intros Hl Hj. rewrite <- (list_insert_id l j x Hj), (total_insert _ _ _ x Hj).
  pose proof (total_insert l j x 0 Hj) as E. enough (0 <= total (<[j := 0]> l)) by lia.
  apply total_pos, Forall_insert; [done | lia].
Qed.
Lemma total_some l : Forall (Z.le 0) l -> 0 < total l -> exists j x, l !! j = Some x /\ 0 < x.
Proof.
  induction 1 as [|a l Ha Hl IH]; cbn; [lia |]. fold (total l). intros H.
  destruct (Z.ltb_spec 0 a); [by exists 0%nat, a |].
  destruct IH as (j & x & Hj & Hx); [lia |]. by exists (S j), x.
Qed.

(** The kernel's part: channels are reported when, and only when, there is something
    to read, and each once. *)
Definition readable (l : list Z) (i : Z) : Prop := 0 <= i /\ exists n, l !! Z.to_nat (2 * i) = Some n /\ 0 < n.
Class PollLaws (poll : nat -> list Z -> list Z) : Prop := {
  poll_readable k l : Forall (readable l) (poll k l);
  poll_once k l : NoDup (poll k l);
  poll_wakes k l i : readable l i -> poll k l <> []
}.

Section runs.
Context (capacity : Z) (poll : nat -> list Z -> list Z) `{!PollLaws poll} (clock : nat -> Timestamp.t).

(** What the command line must satisfy, [T] being the bytes read in a run. *)
Record usable (s : t) (T : Z) : Prop := mk_usable {
  u_pipes : 0 < numPipes s <= 1073741823;
  u_active : 0 < numActive s <= capacity;
  u_total : T = numActive s + Z.max 0 (numWrites s);
  u_int : T <= int32_max
}.
Record sockets (s : t) : Prop := mk_sockets {
  s_length : zlen (waiting s) = 2 * numPipes s;
  s_pos : Forall (Z.le 0) (waiting s);
  s_odd : forall j x, waiting s !! j = Some x -> Nat.odd j = true -> x = 0
}.
Definition same_arguments (s s' : t) : Prop :=
  numPipes s' = numPipes s /\ numActive s' = numActive s /\ numWrites s' = numWrites s.

Lemma at_in l j : 0 <= j < zlen l -> exists n, l !! Z.to_nat j = Some n /\ at_ l j = Ret n.
Proof.
  intros Hj. unfold at_. rewrite (proj2 (Z.leb_le _ _)) by lia.
  destruct (lookup_lt_is_Some_2 l (Z.to_nat j)) as [n E]; [lia |]. exists n. by rewrite E.
Qed.

Lemma even_not_odd i : 0 <= i -> Nat.odd (Z.to_nat (2 * i)) = false.
Proof.
  intros. rewrite Z2Nat.inj_mul by lia. rewrite Nat.odd_mul. done.
Qed.

Lemma sockets_insert s i n :
  sockets s -> 0 <= i -> 0 <= n -> sockets (set_waiting s (<[Z.to_nat (2 * i) := n]> (waiting s))).
Proof.
  intros [Hl Hp Ho] Hi Hn. constructor; cbn.
  - by rewrite length_insert.
  - by apply Forall_insert.
  - intros j x Hj Hodd. destruct (decide (j = Z.to_nat (2 * i))) as [->|Hne].
    + by rewrite even_not_odd in Hodd.
    + rewrite list_lookup_insert_ne in Hj by done. by eapply Ho.
Qed.

(** A byte for pair [i]. *)
Lemma bench_send_spec s i :
  sockets s -> 0 <= i < numPipes s -> total (waiting s) < capacity ->
  exists n, waiting s !! Z.to_nat (2 * i) = Some n /\ 0 <= n /\
    send capacity (2 * i + 1) s = Ret (set_waiting s (<[Z.to_nat (2 * i) := n + 1]> (waiting s))).
Proof.
  intros [Hl Hp Ho] Hi Hcap. unfold send.
  destruct (at_in (waiting s) (2 * i + 1)) as (m & _ & ->); [lia |]. cbn [mbind res_bind].
  assert (peer (2 * i + 1) = 2 * i) as ->.
  { unfold peer. rewrite Z.even_add, Z.even_mul. cbn. lia. }
  destruct (at_in (waiting s) (2 * i)) as (n & Hn & ->); [lia |]. cbn [mbind res_bind].
  exists n. split; [done |]. split; [by apply (Forall_lookup_1 _ _ _ _ Hp Hn) |].
  pose proof (total_elem _ _ _ Hp Hn). by rewrite (proj2 (Z.ltb_lt _ _)) by lia.
Qed.

(** *** A callback *)

(** Inside a run: what is under way was fired and is not read; the loop runs while
    anything is. *)
Record inv (T : Z) (s : t) : Prop := mk_inv {
  i_usable : usable s T;
  i_sockets : sockets s;
  i_under_way : total (waiting s) = g_fired s - g_reads s;
  i_total : g_reads s + total (waiting s) + Z.max 0 (g_writes s) = T;
  i_reads : 0 <= g_reads s;
  i_writes : 0 < g_writes s -> 0 < total (waiting s);
  i_capacity : total (waiting s) <= capacity;
  i_running : _running s = negb (total (waiting s) =? 0)
}.
Definition left_ (s : t) : Z := total (waiting s) + Z.max 0 (g_writes s).

(** Other channels keep what they have. *)
Definition keeps (idx : Z) (s s' : t) : Prop :=
  forall i, i <> idx -> readable (waiting s) i -> readable (waiting s') i.

Lemma readable_insert l i j n :
  readable l i -> 0 <= j -> 0 < n \/ i <> j -> readable (<[Z.to_nat (2 * j) := n]> l) i.
Proof.
  intros [Hi (m & Hm & Hpos)] Hj Hn. split; [done |]. destruct (decide (i = j)) as [->|Hne].
  - exists n. destruct Hn as [Hn|]; [| done]. split; [| done].
    apply list_lookup_insert_eq. by eapply lookup_lt_Some.
  - exists m. rewrite list_lookup_insert_ne by lia. done.
Qed.

Lemma pass_on_spec idx s T :
  usable s T -> sockets s -> 0 <= idx < numPipes s -> 0 < g_writes s ->
  total (waiting s) < capacity -> -1 <= g_fired s < int32_max ->
  exists j n, 0 <= j /\ waiting s !! Z.to_nat (2 * j) = Some n /\ 0 <= n /\
    pass_on capacity idx s =
      Ret (set_counts (set_waiting s (<[Z.to_nat (2 * j) := n + 1]> (waiting s)))
             (g_reads s) (g_writes s - 1) (g_fired s + 1)).
Proof.
  intros [Hn _ _ _] Hs Hi Hw Hcap Hf. unfold pass_on, int32_max in *. rewrite (proj2 (Z.ltb_lt _ _)) by done.
  rewrite i32_checked_Ret by lia. cbn [mbind res_bind].
  set (widx := if numPipes s <=? idx + 1 then idx + 1 - numPipes s else idx + 1).
  assert (0 <= widx < numPipes s) by (unfold widx; zcase; lia).
  rewrite i32_checked_Ret by lia. cbn [mbind res_bind].
  destruct (bench_send_spec s widx) as (n & Hn' & Hpos & ->); [done .. |]. cbn [mbind res_bind g_fired set_waiting].
  rewrite i32_checked_Ret by lia. exists widx, n. split_and!; [lia | done .. |]. done.
Qed.

Lemma readCallback_spec T idx s :
  inv T s -> readable (waiting s) idx ->
  exists s', readCallback capacity idx s = Ret s' /\ inv T s' /\ left_ s' = left_ s - 1 /\
    keeps idx s s' /\ same_arguments s s' /\ polls s' = polls s /\ ticks s' = ticks s.
Proof.
  intros [Hu Hs Hw Ht Hr _ Hc Hrun] [Hi (n & Hn & Hpos)]. pose proof (s_pos _ Hs) as Hp.
  pose proof (total_elem _ _ _ Hp Hn) as Hle.
  assert (Hidx : idx < numPipes s) by (apply lookup_lt_Some in Hn; destruct Hs; lia).
  unfold readCallback, recv. destruct (at_in (waiting s) (2 * idx)) as (n' & Hn' & ->); [destruct Hs; lia |].
  rewrite Hn' in Hn. injection Hn as ->. cbn [mbind res_bind]. rewrite (proj2 (Z.ltb_lt _ _)) by done.
  cbn [mbind res_bind mret res_ret]. set (s1 := set_waiting s _). destruct Hu as [Hu1 Hu2 Hu3 Hu4]. unfold int32_max in *.
  rewrite i32_checked_Ret by (cbn; lia). cbn [mbind res_bind].
  set (s2 := set_counts s1 (g_reads s1 + 1) (g_writes s1) (g_fired s1)).
  assert (Hs2 : sockets s2) by (apply (sockets_insert s idx (n - 1)) in Hs; [by destruct Hs; constructor | lia | lia]).
  assert (Ht2 : total (waiting s2) = total (waiting s) - 1) by (cbn; rewrite (total_insert _ _ n) by done; lia).
  assert (Hk2 : keeps idx s s2) by (intros i Hne Hrd; apply readable_insert; auto).
  destruct (Z.ltb_spec 0 (g_writes s)) as [Hpos'|Hneg].
  - destruct (pass_on_spec idx s2 T) as (j & m & Hj & Hm & Hm0 & ->); [by split | done | done | done | lia | cbn; unfold int32_max; lia |].
    cbn [mbind res_bind mret res_ret]. set (s3 := set_counts _ _ _ _).
    assert (Hs3 : sockets s3) by (apply (sockets_insert s2 j (m + 1)) in Hs2; [by destruct Hs2; constructor | done | lia]).
    assert (Ht3 : total (waiting s3) = total (waiting s)) by (unfold s3; cbn [waiting set_counts set_waiting]; rewrite (total_insert _ _ m) by done; lia).
    assert (Hk3 : keeps idx s s3) by (intros i Hne Hrd; apply readable_insert; [by apply Hk2 | done | lia]).
    assert ((g_fired s3 =? g_reads s3) = false) as -> by (apply Z.eqb_neq; cbn; lia).
    eexists. split; [done |]. split_and!; try done.
    + constructor; rewrite ?Ht3; cbn; try done; lia.
    + unfold left_. rewrite Ht3. cbn. lia.
  - unfold pass_on. cbn [g_writes s2 s1 set_counts set_waiting]. rewrite (proj2 (Z.ltb_ge _ _)) by done.
    cbn [mbind res_bind mret res_ret]. eexists. split; [done |].
    assert (Hq : (g_fired s2 =? g_reads s2) = (total (waiting s2) =? 0)).
    { cbn [g_fired g_reads s2 s1 set_counts set_waiting]. rewrite Ht2. do 2 zcase; lia. }
    fold s2. rewrite Hq. destruct (Z.eqb_spec (total (waiting s2)) 0) as [Ez|Ez].
    all: split_and!; try done; [| unfold left_; cbn [waiting g_writes set_running]; rewrite Ht2; cbn; lia].
    all: constructor; cbn [waiting set_running g_reads g_writes g_fired _running] in *; try rewrite Ht2; try done; try (by destruct Hs2; constructor); try (cbn; lia).
    all: cbn; rewrite ?Hrun; do 2 zcase; try done; lia.
Qed.

(** *** A run *)

Lemma same_arguments_trans s1 s2 s3 : same_arguments s1 s2 -> same_arguments s2 s3 -> same_arguments s1 s3.
Proof. unfold same_arguments. intuition congruence. Qed.

Lemma pipe_handle_spec T active s :
  inv T s -> NoDup active -> Forall (readable (waiting s)) active ->
  exists s', handle capacity active s = Ret s' /\ inv T s' /\ left_ s' = left_ s - zlen active /\
    same_arguments s s' /\ polls s' = polls s /\ ticks s' = ticks s.
Proof.
  revert s. induction active as [|idx active IH]; intros s Hs Hnd Hall.
  { exists s. split_and!; try done. cbn. lia. }
  apply NoDup_cons in Hnd as [Hni Hnd]. apply Forall_cons in Hall as [Hi Hall].
  destruct (readCallback_spec T idx s Hs Hi) as (s1 & E1 & H1 & Hl1 & Hk & Ha1 & Hp1 & Ht1).
  destruct (IH s1 H1 Hnd) as (s2 & E2 & H2 & Hl2 & Ha2 & Hp2 & Ht2).
  { apply Forall_forall. intros i Hin. rewrite Forall_forall in Hall. apply Hk; [by intros -> | by apply Hall]. }
  exists s2. cbn [handle]. rewrite E1. cbn [mbind res_bind]. split_and!; try done; try congruence.
  - rewrite Hl2, Hl1. cbn [length]. lia.
  - by eapply same_arguments_trans.
Qed.

Lemma running_readable T s : inv T s -> _running s = true -> exists i, readable (waiting s) i.
Proof.
  intros [_ [_ Hp Ho] _ _ _ _ _ ->] Hr. apply negb_true_iff, Z.eqb_neq in Hr.
  destruct (total_some (waiting s) Hp) as (j & x & Hj & Hx); [pose proof (total_pos _ Hp); lia |].
  destruct (Nat.odd j) eqn:Hodd; [rewrite (Ho _ _ Hj Hodd) in Hx; lia |].
  rewrite <- Nat.negb_even in Hodd. apply negb_false_iff, Nat.even_spec in Hodd as [i ->].
  exists (Z.of_nat i). split; [lia |]. exists x. split; [| done]. rewrite <- Hj. f_equal. lia.
Qed.

Lemma pipe_loop_spec T fuel s :
  inv T s -> left_ s < Z.of_nat fuel ->
  exists s', while_running capacity poll fuel s = Ret s' /\ inv T s' /\ _running s' = false /\
    same_arguments s s' /\ ticks s' = ticks s /\ Z.of_nat (polls s') <= Z.of_nat (polls s) + left_ s.
Proof.
  revert s. induction fuel as [|fuel IH]; intros s Hs Hf.
  { pose proof (total_pos _ (s_pos _ (i_sockets _ _ Hs))). unfold left_ in Hf. lia. }
  cbn [while_running]. destruct (_running s) eqn:Hr.
  2: { exists s. split_and!; try done. pose proof (total_pos _ (s_pos _ (i_sockets _ _ Hs))). unfold left_. lia. }
  destruct (running_readable T s Hs Hr) as [i Hi]. unfold iteration.
  set (active := poll (polls s) (waiting s)). set (s0 := mk _ _ _ _ _ _ _ _ _ _).
  assert (H0 : inv T s0) by (destruct Hs as [[] [] ? ? ? ? ? ?]; by constructor).
  destruct (pipe_handle_spec T active s0 H0) as (s1 & -> & H1 & Hl & Ha & Hp & Ht);
    [apply poll_once | apply poll_readable |]. cbn [mbind res_bind].
  assert (0 < zlen active) by (pose proof (poll_wakes (polls s) _ i Hi); destruct active eqn:E; [done | cbn; lia]).
  change (left_ s0) with (left_ s) in Hl.
  destruct (IH s1 H1) as (s2 & -> & H2 & Hr2 & Ha2 & Ht2 & Hp2); [lia |].
  exists s2. split_and!; try done.
  - eapply same_arguments_trans; [| exact Ha2]. eapply same_arguments_trans; [| exact Ha]. done.
  - rewrite Ht2, Ht. done.
  - rewrite Hp in Hp2. cbn [polls s0] in Hp2. lia.
Qed.

Lemma kick_spec n q i s :
  sockets s -> 0 <= q -> 0 <= i -> (forall k, i <= k < i + Z.of_nat n -> k * q < numPipes s) -> numPipes s <= 1073741823 ->
  total (waiting s) + Z.of_nat n <= capacity ->
  exists l, kick capacity n i (q * 2) s = Ret (set_waiting s l) /\ sockets (set_waiting s l) /\
    total l = total (waiting s) + Z.of_nat n.
Proof.
  revert i s. induction n as [|n IH]; intros i s Hs Hq Hi Hlt Hmax Hcap.
  { exists (waiting s). cbn. split_and!; [by destruct s | by destruct s | lia]. }
  cbn [kick]. pose proof (Hlt i ltac:(lia)). assert (0 <= i * q) by nia.
  rewrite i32_checked_Ret by lia. cbn [mbind res_bind].
  replace (i * (q * 2) + 1) with (2 * (i * q) + 1) by lia.
  destruct (bench_send_spec s (i * q)) as (m & Hm & Hm0 & ->); [done | lia | lia |]. cbn [mbind res_bind].
  set (s1 := set_waiting s _). assert (Hs1 : sockets s1) by (apply sockets_insert; [done | done | lia]).
  assert (Ht1 : total (waiting s1) = total (waiting s) + 1) by (cbn; rewrite (total_insert _ _ m) by done; lia).
  destruct (IH (i + 1) s1) as (l & -> & Hl & Htl); try done; try lia.
  { intros k Hk. apply Hlt. lia. }
  exists l. split_and!; [done | done | lia].
Qed.

(** Between two runs. *)
Record idle (T : Z) (s : t) : Prop := mk_idle {
  d_usable : usable s T;
  d_sockets : sockets s;
  d_empty : total (waiting s) = 0
}.
Context (Hclock : forall n, 0 <= clock n <= int64_max).

Lemma clock_diff m n : exists d, Timestamp.diff (clock m) (clock n) = Ret d.
Proof.
  pose proof (Hclock m). pose proof (Hclock n). eexists. apply i64_checked_Ret.
  unfold Timestamp.representable. lia.
Qed.

Lemma runOnce_spec T fuel s :
  idle T s -> T < Z.of_nat fuel ->
  exists i l s', runOnce capacity poll clock fuel s = Ret (i, l, s') /\ idle T s' /\ same_arguments s s' /\
    g_reads s' = T /\ g_fired s' = T /\ g_writes s' <= 0 /\ Z.of_nat (polls s') <= Z.of_nat (polls s) + T.
Proof.
  intros [Hu Hs He] Hf. pose proof Hu as [Hn Ha HT Hi]. unfold int32_max in *. unfold runOnce, now. cbn [numActive numPipes].
  rewrite (proj2 (Z.eqb_neq _ _)) by lia. set (q := numPipes s ÷ numActive s).
  assert (Hq : 0 <= q /\ numActive s * q <= numPipes s).
  { unfold q. split; [apply Z.quot_pos; lia | apply Z.mul_quot_le; lia]. }
  assert (q <= numPipes s) by nia.
  do 2 (rewrite i32_checked_Ret by lia; cbn [mbind res_bind]).
  set (s0 := mk _ _ _ _ _ _ _ _ _ _). assert (Hs0 : sockets s0) by (destruct Hs; by constructor).
  assert (numPipes s0 = numPipes s /\ waiting s0 = waiting s) as [En Ew] by done.
  destruct (kick_spec (Z.to_nat (numActive s)) q 0 s0) as (l & -> & Hl & Htl); rewrite ?En, ?Ew; try done; try lia.
  { intros k Hk. destruct (decide (q = 0)) as [-> |]; [lia |]. nia. }
  cbn [mbind res_bind mret res_ret]. unfold loop.
  match goal with |- context [while_running _ _ _ ?x] => set (s1 := x) end.
  assert (Htl' : total l = numActive s) by (rewrite Ew in Htl; lia).
  assert (H1 : inv T s1).
  { constructor; [by destruct Hu | by destruct Hl | ..]; change (waiting s1) with l; rewrite ?Htl'; try (cbn; lia). }
  assert (Hl1 : left_ s1 = T) by (unfold left_; change (waiting s1) with l; rewrite Htl'; cbn; lia).
  destruct (pipe_loop_spec T fuel s1 H1) as (s2 & -> & [Hu2 Hs2 Hw2 Ht2 _ Hg2 _ Hr2] & Hr & Ha2 & Hk2 & Hp2); [lia |].
  cbn [mbind res_bind]. rewrite Hr in Hr2. symmetry in Hr2. apply negb_false_iff, Z.eqb_eq in Hr2.
  destruct (clock_diff (ticks s2) (ticks s)) as [d1 ->]. cbn [mbind res_bind].
  match goal with |- context [Timestamp.diff (clock (ticks s2)) (clock ?n)] =>
    destruct (clock_diff (ticks s2) n) as [d2 ->] end.
  cbn [mbind res_bind mret res_ret]. do 3 eexists. split; [reflexivity |].
  split_and!; cbn [g_reads g_fired g_writes polls]; try lia; [| done | cbn in Hp2; lia].
  constructor; [by destruct Hu2; constructor | by destruct Hs2; constructor | done].
Qed.

Lemma runs_spec T n fuel s :
  idle T s -> T < Z.of_nat fuel ->
  exists times s', runs capacity poll clock n fuel s = Ret (times, s') /\ idle T s' /\ length times = n /\
    (n <> 0%nat -> g_reads s' = T /\ g_fired s' = T).
Proof.
  revert s. induction n as [|n IH]; intros s Hs Hf; [by exists [], s |].
  destruct (runOnce_spec T fuel s Hs Hf) as (i & l & s1 & E1 & H1 & _ & Hr & Hg & _). cbn [runs]. rewrite E1.
  cbn [mbind res_bind]. destruct n as [|n]; [by exists [(i, l)], s1 |].
  destruct (IH s1 H1 Hf) as (times & s2 & -> & H2 & Hl & Hn).
  exists ((i, l) :: times), s2. split_and!; [done | done | cbn; by f_equal | auto].
Qed.

Lemma make_idle n a w T :
  usable (make n a w) T -> idle T (make n a w).
Proof.
  intros Hu. pose proof (u_pipes _ _ Hu) as Hn. constructor; [done | |]; cbn [waiting make] in *.
  - constructor; cbn in *.
    + rewrite length_replicate. lia.
    + by apply Forall_replicate.
    + intros j x Hj _. by apply lookup_replicate in Hj as [-> _].
  - clear. induction (Z.to_nat (2 * n)) as [|k IH]; [done | exact IH].
Qed.
End runs.

(** *** The channels *)

Section channels.
Import ChannelSpec.
Context (fds : gmap Z Z).
Context (Hinj : forall q q' fd, fds !! q = Some fd -> fds !! q' = Some fd -> q = q').

Definition over (s : views) : Prop := forall q, v_fd <$> s !! q = fds !! q.

Lemma over_lookup s q : over s -> is_Some (fds !! q) -> exists v, s !! q = Some v.
Proof. intros Ho [fd Hq]. rewrite <- Ho in Hq. destruct (s !! q) as [v|]; [by exists v | done]. Qed.
Lemma over_insert s q v v' : over s -> s !! q = Some v -> v_fd v' = v_fd v -> over (<[q := v']> s).
Proof.
  intros Ho Hq Hv q'. destruct (decide (q' = q)) as [->|Hne].
  - rewrite lookup_insert_eq. cbn. by rewrite Hv, <- (Ho q), Hq.
  - rewrite lookup_insert_ne by done. apply Ho.
Qed.
Lemma over_free s q v : over s -> s !! q = Some v -> v_phase v = Fresh -> free s (v_fd v).
Proof.
  intros Ho Hq Hv q' v' Hq' Hfd. enough (q' = q) as ->; [rewrite Hq in Hq'; injection Hq' as <-; by rewrite Hv |].
  apply (Hinj _ _ (v_fd v)); rewrite <- Ho; [rewrite Hq'; cbn; by rewrite Hfd | by rewrite Hq].
Qed.

Lemma steps_app s calls s1 calls' s2 : steps s calls s1 -> steps s1 calls' s2 -> steps s (calls ++ calls') s2.
Proof. induction 1; [done |]. intros. econstructor; eauto. Qed.

(** Every channel of [qs] becomes, or stays, registered. *)
Lemma enable_steps qs s :
  over s -> (forall q, q ∈ qs -> is_Some (fds !! q)) -> (forall q v, s !! q = Some v -> v_phase v <> Retired) ->
  exists s', steps s (map (fun q => Change q enable_reading) qs) s' /\ over s' /\
    forall q v, s' !! q = Some v -> v_phase v <> Retired /\
      (q ∈ qs \/ v_phase <$> s !! q = Some Registered -> v_phase v = Registered).
Proof.
  revert s. induction qs as [|q qs IH]; intros s Ho Hqs Hph.
  { exists s. split_and!; [constructor | done |]. intros q v Hq. split; [by eapply Hph |].
    intros [?%elem_of_nil|E]; [done |]. rewrite Hq in E. by injection E. }
  destruct (over_lookup s q Ho) as [v Hv]; [apply Hqs; left |].
  set (v' := mk_view (v_fd v) (new_events enable_reading (v_events v)) Registered).
  destruct (IH (<[q := v']> s)) as (s' & Hst & Ho' & Hs').
  { by apply (over_insert s q v). }
  { intros. apply Hqs. by right. }
  { intros q2 v2. destruct (decide (q2 = q)) as [->|Hne].
    - rewrite lookup_insert_eq. by intros [= <-].
    - rewrite lookup_insert_ne by done. apply Hph. }
  exists s'. split_and!; [| done |].
  - eapply steps_cons; [| exact Hst]. pose proof (Hph _ _ Hv). destruct (v_phase v) eqn:Hp; [| | done].
    + apply step_first; [done | done | by apply (over_free s q)].
    + by apply step_change.
  - intros q2 v2 Hq2. destruct (Hs' q2 v2 Hq2) as [H1 H2]. split; [done |]. intros Hcase. apply H2.
    destruct (decide (q2 = q)) as [->|Hne]; [right; by rewrite lookup_insert_eq |].
    rewrite lookup_insert_ne by done. destruct Hcase as [[?|?]%elem_of_cons|]; [done | by left | by right].
Qed.

Lemma enable_again k qs s :
  over s -> (forall q, q ∈ qs -> is_Some (fds !! q)) -> (forall q v, s !! q = Some v -> v_phase v <> Retired) ->
  exists s', steps s (concat (replicate (S k) (map (fun q => Change q enable_reading) qs))) s' /\ over s' /\
    forall q v, s' !! q = Some v -> q ∈ qs -> v_phase v = Registered.
Proof.
  revert s. induction k as [|k IH]; intros s Ho Hqs Hph; destruct (enable_steps qs s Ho Hqs Hph) as (s1 & H1 & Ho1 & Hs1).
  - exists s1. cbn. rewrite app_nil_r. split_and!; [done | done |]. intros q v Hq Hin. apply (Hs1 q v); auto.
  - destruct (IH s1 Ho1 Hqs) as (s2 & H2 & ? & ?); [intros q v Hq; by apply (Hs1 q v) |].
    exists s2. split_and!; [| done | done]. by apply (steps_app _ _ s1).
Qed.

Lemma retire_steps qs s :
  over s -> NoDup qs -> (forall q, q ∈ qs -> v_phase <$> s !! q = Some Registered) ->
  exists s', steps s (map Retire qs) s' /\ over s' /\ (forall q, q ∈ qs -> v_phase <$> s' !! q = Some Retired) /\
    (forall q, q ∉ qs -> s' !! q = s !! q).
Proof.
  revert s. induction qs as [|q qs IH]; intros s Ho Hnd Hreg.
  { exists s. split_and!; [constructor | done | by intros ? ?%elem_of_nil | done]. }
  apply NoDup_cons in Hnd as [Hni Hnd]. pose proof (Hreg q ltac:(left)) as Hq.
  destruct (s !! q) as [v|] eqn:Hv; [| done]. injection Hq as Hp.
  destruct (IH (<[q := mk_view (v_fd v) 0 Retired]> s)) as (s' & Hst & Ho' & Hs' & Hk).
  { by apply (over_insert s q v). }
  { done. }
  { intros q2 Hq2. rewrite lookup_insert_ne by (by intros ->). apply Hreg. by right. }
  exists s'. split_and!; [eapply steps_cons; [by apply step_retire | exact Hst] | done | |].
  - intros q2 [->|Hq2]%elem_of_cons; [| by apply Hs']. rewrite Hk by done. by rewrite lookup_insert_eq.
  - intros q2 [Hne Hq2]%not_elem_of_cons. rewrite Hk by done. by rewrite lookup_insert_ne.
Qed.

Lemma pipe_channels base n k :
  (forall q, is_Some (fds !! q) <-> base <= q < base + Z.of_nat n) ->
  exists s, steps (all_fresh fds) (channel_calls base n (S k)) s /\
    map_Forall (fun _ v => v_phase v = Retired) s.
Proof.
  intros Hfds. set (qs := map (fun i => base + Z.of_nat i) (seq 0 n)).
  assert (Hqs : forall q, q ∈ qs <-> is_Some (fds !! q)).
  { intros q. rewrite Hfds. unfold qs. rewrite list_elem_of_fmap. split.
    - intros (i & -> & Hi%elem_of_seq). lia.
    - intros Hq. exists (Z.to_nat (q - base)). rewrite elem_of_seq. lia. }
  assert (Ho : over (all_fresh fds)) by (intros q; unfold all_fresh; rewrite lookup_fmap; by destruct (fds !! q)).
  destruct (enable_again k qs (all_fresh fds) Ho) as (s1 & H1 & Ho1 & Hs1).
  { intros q. by rewrite Hqs. }
  { intros q v. unfold all_fresh. rewrite lookup_fmap. destruct (fds !! q); [| done]. by intros [= <-]. }
  destruct (retire_steps qs s1) as (s2 & H2 & Ho2 & Hs2 & _); [done | | |].
  { apply NoDup_fmap_2; [intros ? ? ?; lia | apply NoDup_seq]. }
  { intros q Hq. destruct (over_lookup s1 q Ho1) as [v Hv]; [by apply Hqs |]. rewrite Hv. cbn. f_equal. by eapply Hs1. }
  exists s2. split.
  - unfold channel_calls, enable_all, remove_all.
    replace (map (fun i => Change (base + Z.of_nat i) enable_reading) (seq 0 n))
      with (map (fun q => Change q enable_reading) qs) by (unfold qs; by rewrite map_map).
    replace (map (fun i => Retire (base + Z.of_nat i)) (seq 0 n)) with (map Retire qs) by (unfold qs; by rewrite map_map).
    by apply (steps_app _ _ s1).
  - intros q v Hv. specialize (Hs2 q). rewrite Hv in Hs2. cbn in Hs2.
    enough (Some (v_phase v) = Some Retired) as [= ->] by done. apply Hs2, Hqs. rewrite <- Ho2, Hv. done.
Qed.
End channels.
End PipeBenchSpec.

(** ** The properties *)

Module PipeBenchProps.
Import PipeBench PipeBenchSpec ChannelSpec.

(** C25: the benchmark ends. In whatever order the poller reports the readable pairs,
    each run comes to its end after at most as many polls as bytes, never waiting for
    a byte that nobody sends: [readCallback] quits the loop exactly when every byte
    that was fired has been read, [numActive + numWrites] of them, and leaves all
    pairs empty for the next run. [n] runs follow each other, and return [n] pairs of
    times. *)
Theorem bench_runs_end capacity poll `{PollLaws poll} clock n a w k fuel T
    (Hclock : forall i, 0 <= clock i <= int64_max)
    (Husable : usable capacity (make n a w) T) (Hfuel : T < Z.of_nat fuel) :
  exists times s, runs capacity poll clock k fuel (make n a w) = Ret (times, s) /\ length times = k /\
    (k <> 0%nat -> g_reads s = T /\ g_fired s = T) /\ forall j x, waiting s !! j = Some x -> x = 0.
Proof.
  destruct (runs_spec capacity poll clock Hclock T k fuel (make n a w)) as (times & s & E & [_ [_ Hp _] He] & Hl & Hn);
    [by apply make_idle | done |].
  exists times, s. split_and!; try done. intros j x Hj.
  pose proof (total_elem _ _ _ Hp Hj). pose proof (Forall_lookup_1 _ _ _ _ Hp Hj). cbn in *. lia.
Qed.

(** No channel is left behind: over the whole program no call on a channel fails, with
    either poller, and at the end the kernel is asked for nothing. *)
Theorem bench_channels {P} `{PollerLaws P} (p : P) (fds : gmap Z Z) base n k
    (Hwf : p_wf p (fresh fds)) (Hnew : p_channels p = ∅) (Hfds : map_Forall (fun _ fd => 0 <= fd) fds)
    (Hinj : forall q q' fd, fds !! q = Some fd -> fds !! q' = Some fd -> q = q')
    (Hdom : forall q, is_Some (fds !! q) <-> base <= q < base + Z.of_nat n) :
  exists p' h', run_calls (channel_calls base n (S k)) p (fresh fds) = Ret (p', h') /\ forall fd, p_waits p' fd = 0.
Proof.
  destruct (pipe_channels fds Hinj base n k Hdom) as (s & Hst & Hs).
  destruct (calls_tracked p fds _ s Hwf Hnew Hfds Hst) as (p' & h' & E & [Hw _]).
  exists p', h'. split; [done |]. intros fd. destruct (Hw fd) as [[q Hq]|[_ E0]]; [| done].
  by apply Hs in Hq.
Qed.

(** With [-a 0] the division stops the program; more bytes than the only pair in use
    takes block it. *)
Theorem bench_bad_arguments poll clock w :
  runOnce 8 poll clock 100 (make 3 0 w) = Stop UndefinedBehaviour /\
  runOnce 8 poll clock 100 (make 3 9 w) = Stop Blocked.
Proof. done. Qed.

(** *** Witness: three pairs, two bytes, four writes *)

Definition has_bytes (l : list Z) (i : Z) : bool :=
  match l !! Z.to_nat (2 * i) with Some n => 0 <? n | None => false end.
Definition all_readable (_ : nat) (l : list Z) : list Z :=
  filter (fun i => has_bytes l i = true) (map Z.of_nat (seq 0 (length l))).
#[local] Instance all_readable_laws : PollLaws all_readable.
Proof.
  assert (Hall : forall k l i, i ∈ all_readable k l <-> readable l i).
  { intros k l i. unfold all_readable, readable, has_bytes. rewrite list_elem_of_filter, list_elem_of_fmap. split.
    - intros [Hi (j & -> & _)]. split; [lia |]. destruct (l !! _) as [n|] eqn:E; [| done]. exists n. split; [done | lia].
    - intros [Hi (n & E & Hn)]. rewrite E. split; [lia |]. exists (Z.to_nat i). split; [lia |].
      apply elem_of_seq. apply lookup_lt_Some in E. lia. }
  split.
  - intros k l. apply Forall_forall. intros i. by rewrite Hall.
  - intros k l. apply NoDup_filter, NoDup_fmap_2; [intros ? ? ?; lia | apply NoDup_seq].
  - intros k l i Hi E. apply (Hall k l i) in Hi. rewrite E in Hi. by apply elem_of_nil in Hi.
Qed.
Definition noon (_ : nat) : Timestamp.t := 43200.

Lemma bench_runs_end_witness :
  exists times s, runs 4 all_readable noon 25 7 (make 3 2 4) = Ret (times, s) /\ length times = 25%nat /\
    (25 <> 0 -> g_reads s = 6 /\ g_fired s = 6) /\ forall j x, waiting s !! j = Some x -> x = 0.
Proof.
  destruct (bench_runs_end 4 all_readable noon 3 2 4 25 7 6) as (times & s & H1 & H2 & H3 & H4).
  - intros i. vm_compute. intuition congruence.
  - constructor; cbn; unfold int32_max; lia.
  - lia.
  - exists times, s. split_and!; [exact H1 | exact H2 | intros _; by apply H3 | exact H4].
Defined.
End PipeBenchProps.
