(* ===== verification/LoopObjects.v ===== *)
(** Event loops as objects of a process (suduo/net/EventLoop.h/.cpp, the constructors
    of TimerQueue.cpp and Channel.cpp, poller/DefaultPoller.cpp): construction and
    destruction, the thread-local pointer to a thread's loop, the two channels every
    loop has, and [assert_in_loop_thread]. What a loop does between the two is in
    Loops.v, Pollers.v and Timers.v. *)

From S2P Require Import Prelude.
From S2P Require Import Pollers.

(** ** The default poller *)

Module DefaultPoller.
Section poller.
Context {B : Build} {K : Type} `{Epoll K}.

(** A [Poller*], with the virtual calls dispatched. *)
Definition t : Type := PollPoller.t + EPollPoller.t K.

(** [getenv("SUDUO_USE_POLL")], and what [epoll_create1] returned; EPollPoller's
    constructor stops the program when that failed. *)
Definition new_default_poller (use_poll : bool) (epoll_fd : option K) : res t :=
  if use_poll then mret (inl (PollPoller.mk ∅ []))
  else match epoll_fd with
       | Some k => mret (inr (EPollPoller.mk ∅ k))
       | None => Stop Aborted
       end.

Definition lift {A X Y} (f : A -> X) (m : res (A * Y)) : res (X * Y) := '(a, y) ← m; mret (f a, y).

#[global] Instance default_ops : PollerOps t := {|
  p_update p q h := match p with inl p => lift inl (p_update p q h) | inr p => lift inr (p_update p q h) end;
  p_remove p q h := match p with inl p => lift inl (p_remove p q h) | inr p => lift inr (p_remove p q h) end;
  p_poll p h ready := match p with inl p => p_poll p h ready | inr p => p_poll p h ready end;
  p_channels p := match p with inl p => p_channels p | inr p => p_channels p end
|}.
End poller.
Arguments t : clear implicits.

Section laws.
Context {B : Build} {K : Type} `{EpollLaws K}.

(** Either poller keeps the laws of the interface, and so does their union. *)
#[global] Program Instance default_laws : PollerLaws (t K) := {|
  p_wf p h := match p with inl p => p_wf p h | inr p => p_wf p h end;
  p_waits p fd := match p with inl p => p_waits p fd | inr p => p_waits p fd end;
  p_listens p fd := match p with inl p => p_listens p fd | inr p => p_listens p fd end
|}.
Next Obligation. intros [p|p] h fd q; cbn [p_channels default_ops]; apply p_wf_channel. Qed.
Next Obligation. intros [p|p] h fd; cbn [p_channels default_ops]; apply p_wf_none. Qed.
Next Obligation. intros [p|p] h r c; cbn [p_channels default_ops]; apply p_wf_frame. Qed.
Next Obligation.
  intros [p|p] h q c ev; cbn [p_channels p_update default_ops]; intros H1 H2 H3 H4 H5 H6 H7;
    destruct (p_update_new p h q c ev H1 H2 H3 H4 H5 H6 H7) as (p' & h' & E & Hp); rewrite E;
    [exists (inl p'), h' | exists (inr p'), h']; done.
Qed.
Next Obligation.
  intros [p|p] h q c ev; cbn [p_channels p_update default_ops]; intros H1 H2 H3 H4;
    destruct (p_update_old p h q c ev H1 H2 H3 H4) as (p' & h' & E & Hp); rewrite E;
    [exists (inl p'), h' | exists (inr p'), h']; done.
Qed.
Next Obligation.
  intros [p|p] h q c; cbn [p_channels p_update p_remove default_ops]; intros H1 H2 H3;
    destruct (p_disable_remove p h q c H1 H2 H3) as (p1 & h1 & p' & h' & E1 & E2 & Hp); rewrite E1;
    [exists (inl p1), h1, (inl p'), h' | exists (inr p1), h1, (inr p'), h'];
    (split; [done |]); cbn [p_remove]; rewrite E2; done.
Qed.
Next Obligation.
  intros [p|p] h ready; cbn [p_channels p_poll default_ops]; apply p_poll_spec.
Qed.
End laws.
End DefaultPoller.

(** ** Loops and threads *)

Module LoopObject.
Section process.
Context {B : Build} {K : Type} `{Epoll K} {C : Type}.

(** A loop's members. The Channel members of the loop and of its TimerQueue are at
    fixed addresses of the loop's heap, the channels of its users at others; [phases]
    is the history of all of them. [_context] is the [std::any]. *)
Definition timer_fd_channel : Z := 1.
Definition wake_up_channel : Z := 2.
Record t := mk {
  _thread_ID : Z;
  _poller : DefaultPoller.t K;
  channels : heap;
  _timer_fd : Z;
  wakeup_fd : Z;
  _context : option C;
  phases : ChannelSpec.views
}.

(** The process: its loops by address, each thread's [loop_in_this_thrad], and the
    descriptors of timerfd_create and eventfd that are open. *)
Record process := mk_process {
  loops : gmap Z t;
  loop_in_this_thrad : gmap Z Z;
  open_fds : gset Z
}.
Definition initial : process := mk_process ∅ ∅ ∅.

Definition get_event_loop_of_current_thread (tid : Z) (s : process) : option Z := loop_in_this_thrad s !! tid.

(** [this->...] of a loop that is gone is undefined. *)
Definition loop_at (this : Z) (s : process) : res t :=
  match loops s !! this with Some l => Ret l | None => Stop UndefinedBehaviour end.

Definition is_in_loop_thread (tid : Z) (l : t) : bool := _thread_ID l =? tid.
(** [abort_not_in_loop_thread] is a [LOG_FATAL]. *)
Definition assert_in_loop_thread (tid : Z) (l : t) : res unit :=
  if (is_in_loop_thread tid l : bool) then mret tt else Stop Aborted.

Definition set_context (context : C) (l : t) : t :=
  mk (_thread_ID l) (_poller l) (channels l) (_timer_fd l) (wakeup_fd l) (Some context) (phases l).
Definition get_context (l : t) : option C := _context l.

(** What the system calls of a constructor return; [create_timer_fd] stops the program
    when there is no descriptor, [create_event_fd] goes on with -1. *)
Record answers := mk_answers {
  use_poll : bool;
  epoll_create1 : option K;
  timerfd_create : option Z;
  eventfd : option Z
}.
Definition create_timer_fd (a : answers) : res Z :=
  match timerfd_create a with Some fd => mret fd | None => Stop Aborted end.
Definition create_event_fd (a : answers) : Z := default (-1) (eventfd a).

(** The phases after a call, for the history. *)
Definition after_call (call : channel_call) (s : ChannelSpec.views) : ChannelSpec.views :=
  match call with
  | Change q ch =>
      match s !! q with
      | Some v => <[q := ChannelSpec.mk_view (ChannelSpec.v_fd v) (new_events ch (ChannelSpec.v_events v)) ChannelSpec.Registered]> s
      | None => s
      end
  | Retire q =>
      match s !! q with
      | Some v => <[q := ChannelSpec.mk_view (ChannelSpec.v_fd v) 0 ChannelSpec.Retired]> s
      | None => s
      end
  end.

(** Calls on the channels of a loop, in thread [tid], and the construction of one. Both
    pollers' [update_channel] and [remove_channel] start with
    [Poller::assert_in_loop_thread], which asks the loop. *)
Definition call_channel (tid : Z) (call : channel_call) (l : t) : res t :=
  _ ← assert_in_loop_thread tid l;
  '(p, h) ← run_call call (_poller l) (channels l);
  mret (mk (_thread_ID l) p h (_timer_fd l) (wakeup_fd l) (_context l) (after_call call (phases l))).
Definition new_channel (q fd : Z) (l : t) : t :=
  mk (_thread_ID l) (_poller l) (<[q := Channel.make fd]> (channels l)) (_timer_fd l) (wakeup_fd l) (_context l)
    (<[q := ChannelSpec.mk_view fd 0 ChannelSpec.Fresh]> (phases l)).

(** [EventLoop::EventLoop] in thread [tid]: the initialisers in the order of the
    members, TimerQueue's constructor among them, then the body. *)
Definition construct (tid this : Z) (a : answers) (s : process) : res process :=
  p ← DefaultPoller.new_default_poller (use_poll a) (epoll_create1 a);
  timer_fd ← create_timer_fd a;
  let event_fd := create_event_fd a in
  let l := new_channel timer_fd_channel timer_fd (mk tid p ∅ timer_fd event_fd None ∅) in
  l ← call_channel tid (Change timer_fd_channel enable_reading) l;
  let l := new_channel wake_up_channel event_fd l in
  match loop_in_this_thrad s !! tid with
  | Some _ => Stop Aborted
  | None =>
      l ← call_channel tid (Change wake_up_channel enable_reading) l;
      mret (mk_process (<[this := l]> (loops s)) (<[tid := this]> (loop_in_this_thrad s))
              (open_fds s ∪ {[ timer_fd; event_fd ]}))
  end.

(** [EventLoop::~EventLoop], in whichever thread runs it: the body, then the members,
    of which the TimerQueue has a destructor of its own. *)
Definition destroy (tid this : Z) (s : process) : res process :=
  l ← loop_at this s;
  l ← call_channel tid (Retire wake_up_channel) l;
  let fds := open_fds s ∖ {[ wakeup_fd l ]} in
  let current := delete tid (loop_in_this_thrad s) in
  l ← call_channel tid (Retire timer_fd_channel) l;
  mret (mk_process (delete this (loops s)) current (fds ∖ {[ _timer_fd l ]})).

(** [print_active_channels]: the lines at level TRACE. *)
Fixpoint print_active_channels (active : list Z) (h : heap) : res (list (list byte)) :=
  match active with
  | [] => mret []
  | channel :: active =>
      c ← deref h channel;
      lines ← print_active_channels active h;
      mret ((bytes "{" ++ Channel.events_to_string (Channel.fd c) (Channel._revents c) ++ bytes "} ") :: lines)
  end.

(** What threads do to loops. *)
Inductive op :=
  | Construct (tid this : Z) (a : answers)
  | Destroy (tid this : Z)
  | NewChannel (this q fd : Z)
  | Call (tid this : Z) (call : channel_call)
  | Guarded (tid this : Z)                 (** any call that starts with the assertion *)
  | SetContext (this : Z) (context : C).

Definition update_loop (this : Z) (f : t -> res t) (s : process) : res process :=
  l ← loop_at this s;
  l ← f l;
  mret (mk_process (<[this := l]> (loops s)) (loop_in_this_thrad s) (open_fds s)).
Definition step (o : op) (s : process) : res process :=
  match o with
  | Construct tid this a => construct tid this a s
  | Destroy tid this => destroy tid this s
  | NewChannel this q fd => update_loop this (fun l => mret (new_channel q fd l)) s
  | Call tid this call => update_loop this (call_channel tid call) s
  | Guarded tid this => l ← loop_at this s; _ ← assert_in_loop_thread tid l; mret s
  | SetContext this context => update_loop this (fun l => mret (set_context context l)) s
  end.
Fixpoint run (ops : list op) (s : process) : res process :=
  match ops with
  | [] => mret s
  | o :: ops => s ← step o s; run ops s
  end.
End process.
Arguments t : clear implicits.
Arguments process : clear implicits.
Arguments op : clear implicits.
Arguments answers : clear implicits.
End LoopObject.

(** ** Threads and their loops correspond *)

Module LoopObjectSpec.
Import LoopObject ChannelSpec.

Section spec.
Context {B : Build} {K : Type} `{EpollLaws K} {C : Type}.

(** The channels' users keep to the rules of Pollers.v, with addresses of their own;
    the system's descriptors are new, and there is an eventfd. Any thread may do any of
    this. *)
Definition user_channel (q : Z) : Prop := q <> timer_fd_channel /\ q <> wake_up_channel.
Definition possible (o : op K C) (s : process K C) : Prop :=
  match o with
  | Construct tid this a =>
      loops s !! this = None /\
      (forall k, epoll_create1 a = Some k -> interest k = ∅) /\
      (forall t, timerfd_create a = Some t -> 0 <= t /\ eventfd a <> Some t /\ (t ∉ open_fds s)) /\
      exists e, eventfd a = Some e /\ 0 <= e /\ (e ∉ open_fds s)
  | Destroy _ this => is_Some (loops s !! this)
  | NewChannel this q fd => exists l, loops s !! this = Some l /\ phases l !! q = None /\ 0 <= fd /\ (fd ∉ open_fds s)
  | Call _ this call =>
      exists l, loops s !! this = Some l /\ ChannelSpec.step (phases l) call (after_call call (phases l)) /\
        user_channel (match call with Change q _ | Retire q => q end)
  | Guarded _ this | SetContext this _ => is_Some (loops s !! this)
  end.
Fixpoint allowed (ops : list (op K C)) (s : process K C) : Prop :=
  match ops with
  | [] => True
  | o :: ops => possible o s /\ forall s', LoopObject.step o s = Ret s' -> allowed ops s'
  end.

Lemma allowed_cons o ops s s1 :
  possible o s -> LoopObject.step o s = Ret s1 -> allowed ops s1 -> allowed (o :: ops) s.
Proof. intros Hp E Ha. split; [done |]. intros s' E'. rewrite E in E'. by injection E' as <-. Qed.

Lemma sim_new (p : DefaultPoller.t K) h s q fd :
  sim p h s -> s !! q = None -> 0 <= fd -> sim p (<[q := Channel.make fd]> h) (<[q := mk_view fd 0 Fresh]> s).
Proof.
  intros [Hw Hv Hr] Hq Hfd.
  assert (Hno : forall fd', p_channels p !! fd' <> Some q).
  { intros fd' Hc. destruct (Hr _ _ Hc) as (v & E & _). congruence. }
  constructor.
  - by apply p_wf_frame.
  - intros q' v. destruct (decide (q' = q)) as [->|Hne].
    + rewrite lookup_insert_eq. intros [= <-]. exists (Channel.make fd). rewrite lookup_insert_eq. done.
    + rewrite !lookup_insert_ne by done. apply Hv.
  - intros fd' q' Hc. destruct (Hr _ _ Hc) as (v & E & ?). exists v. rewrite lookup_insert_ne; [done |]. intros ->. congruence.
Qed.

(** What a loop is between two calls. *)
Record alive (l : t K C) : Prop := mk_alive {
  a_sim : sim (_poller l) (channels l) (phases l);
  a_timer : phases l !! timer_fd_channel = Some (mk_view (_timer_fd l) Channel.read_event Registered);
  a_wake : phases l !! wake_up_channel = Some (mk_view (wakeup_fd l) Channel.read_event Registered)
}.

Lemma call_channel_ok (l : t K C) call :
  sim (_poller l) (channels l) (phases l) -> ChannelSpec.step (phases l) call (after_call call (phases l)) ->
  exists p h, call_channel (_thread_ID l) call l = Ret (mk (_thread_ID l) p h (_timer_fd l) (wakeup_fd l) (_context l) (after_call call (phases l))) /\
    sim p h (after_call call (phases l)).
Proof.
  intros Hs Hst. destruct (sim_step _ _ _ _ _ Hs Hst) as (p & h & E & Hs'). exists p, h.
  unfold call_channel, assert_in_loop_thread, is_in_loop_thread. rewrite Z.eqb_refl. cbn [mbind res_bind]. by rewrite E.
Qed.

Lemma call_channel_elsewhere (l : t K C) tid call : tid <> _thread_ID l -> call_channel tid call l = Stop Aborted.
Proof.
  intros Hne. unfold call_channel, assert_in_loop_thread, is_in_loop_thread. by rewrite (proj2 (Z.eqb_neq _ _)) by congruence.
Qed.

Lemma step_first' s q v ch : s !! q = Some v -> v_phase v = Fresh -> free s (v_fd v) ->
  ChannelSpec.step s (Change q ch) (after_call (Change q ch) s).
Proof. intros Hq Hp Hf. cbn. rewrite Hq. by apply step_first. Qed.
Lemma step_retire' s q v : s !! q = Some v -> v_phase v = Registered -> ChannelSpec.step s (Retire q) (after_call (Retire q) s).
Proof. intros Hq Hp. cbn. rewrite Hq. by apply step_retire. Qed.

(** Calls of users leave the loop's own channels alone. *)
Lemma after_call_other call s q :
  q <> (match call with Change q _ | Retire q => q end) -> after_call call s !! q = s !! q.
Proof. intros Hq. destruct call as [q' ch|q']; cbn; destruct (s !! q'); rewrite ?lookup_insert_ne by done; done. Qed.

(** *** Construction and destruction *)

(** The constructor got its poller and its timerfd. *)
Definition granted (a : answers K) : Prop := (use_poll a = true \/ is_Some (epoll_create1 a)) /\ is_Some (timerfd_create a).
#[local] Instance granted_dec a : Decision (granted a).
Proof. unfold granted. apply _. Defined.
Lemma construct_refused tid this (a : answers K) (s : process K C) : ~ granted a -> construct tid this a s = Stop Aborted.
Proof.
  intros Hn. unfold construct, DefaultPoller.new_default_poller, create_timer_fd.
  destruct (timerfd_create a) as [t|] eqn:Et; [| by destruct (use_poll a), (epoll_create1 a)].
  destruct (use_poll a) eqn:Eu; [destruct Hn; split; [by left | by eexists] |].
  destruct (epoll_create1 a) as [k|] eqn:Ek; [| done]. destruct Hn. split; [right |]; by eexists.
Qed.

(** The constructor up to the test of the thread-local pointer. *)
Lemma construct_half tid this (a : answers K) (s : process K C) :
  possible (Construct tid this a) s -> granted a ->
  exists l : t K C,
    construct tid this a s =
      (match loop_in_this_thrad s !! tid with
       | Some _ => Stop Aborted
       | None =>
           l ← call_channel tid (Change wake_up_channel enable_reading) l;
           mret (mk_process (<[this := l]> (loops s)) (<[tid := this]> (loop_in_this_thrad s))
                   (open_fds s ∪ {[ _timer_fd l; wakeup_fd l ]}))
       end) /\
    sim (_poller l) (channels l) (phases l) /\ _thread_ID l = tid /\
    (_timer_fd l ∉ open_fds s) /\ (wakeup_fd l ∉ open_fds s) /\ _timer_fd l <> wakeup_fd l /\
    phases l = <[wake_up_channel := mk_view (wakeup_fd l) 0 Fresh]>
                 {[ timer_fd_channel := mk_view (_timer_fd l) Channel.read_event Registered ]}.
Proof.
  intros (Hthis & Hk & Htf & ef & He & He0 & Heo) [Hu [tf Ht]]. unfold construct.
  destruct (Htf tf Ht) as (Ht0 & Hne & Hto).
  assert (Hp : exists p, DefaultPoller.new_default_poller (use_poll a) (epoll_create1 a) = Ret p /\
    p_wf p ∅ /\ p_channels p = ∅).
  { unfold DefaultPoller.new_default_poller. destruct (use_poll a).
    - eexists. split; [done |]. split; [by constructor | done].
    - destruct Hu as [?|[k Ek]]; [done |]. rewrite Ek. eexists. split; [done |]. split; [| done].
      constructor; cbn; [done |]. by rewrite (Hk k Ek). }
  destruct Hp as (p & -> & Hw & Hc). unfold create_timer_fd, create_event_fd. rewrite Ht, He.
  cbn [mbind res_bind mret res_ret default from_option id]. set (l0 := new_channel _ _ _).
  assert (Hs0 : sim (_poller l0) (channels l0) (phases l0)).
  { unfold l0, new_channel. cbn [_poller channels phases]. apply sim_new; [| done | done].
    constructor; [done | by intros q v Hq; rewrite lookup_empty in Hq |].
    intros fd q Hq. rewrite Hc, lookup_empty in Hq. done. }
  destruct (call_channel_ok l0 (Change timer_fd_channel enable_reading)) as (p1 & h1 & E1 & H1); [done | |].
  { eapply step_first'; [apply lookup_insert_eq | done |]. cbn. intros q v.
    rewrite lookup_insert_Some. intros [[_ <-]|[_ Hq]]; [done |]. by rewrite lookup_empty in Hq. }
  change (_thread_ID l0) with tid in E1. rewrite E1. cbn [mbind res_bind].
  exists (new_channel wake_up_channel ef (mk tid p1 h1 tf ef None (after_call (Change timer_fd_channel enable_reading) (phases l0)))).
  split.
  { destruct (loop_in_this_thrad s !! tid); [done |]. unfold call_channel. cbn [_poller channels new_channel].
    destruct (assert_in_loop_thread _ _); [| done]. cbn [mbind res_bind]. by destruct (run_call _ _ _) as [[p2 h2]|]. }
  split_and!; try done; [| cbn; congruence]. cbn [new_channel _poller channels phases]. apply sim_new; done.
Qed.

Lemma construct_ok tid this (a : answers K) (s : process K C) :
  possible (Construct tid this a) s -> granted a -> loop_in_this_thrad s !! tid = None ->
  exists l, construct tid this a s = Ret (mk_process (<[this := l]> (loops s)) (<[tid := this]> (loop_in_this_thrad s))
      (open_fds s ∪ {[ _timer_fd l; wakeup_fd l ]})) /\
    alive l /\ _thread_ID l = tid /\ (_timer_fd l ∉ open_fds s) /\ (wakeup_fd l ∉ open_fds s).
Proof.
  intros Hp Hg Htls. destruct (construct_half tid this a s Hp Hg) as (l & -> & Hs & Hid & Hto & Heo & Hne & Hph).
  rewrite Htls. assert (Hpw : phases l !! wake_up_channel = Some (mk_view (wakeup_fd l) 0 Fresh)) by (rewrite Hph; apply lookup_insert_eq).
  destruct (call_channel_ok l (Change wake_up_channel enable_reading)) as (p2 & h2 & E2 & H2); [done | |].
  { eapply step_first'; [exact Hpw | done |]. rewrite Hph. intros q v Hq Hfd Hreg.
    apply lookup_insert_Some in Hq as [[_ <-]|[_ Hq]]; [done |]. by apply lookup_singleton_Some in Hq as [_ <-]. }
  rewrite Hid in E2. rewrite E2. cbn [mbind res_bind mret res_ret]. eexists. split; [reflexivity |]. cbn [_thread_ID _timer_fd wakeup_fd]. split_and!; try done.
  constructor; cbn [_poller channels phases _timer_fd wakeup_fd]; [done | by rewrite after_call_other; [rewrite Hph |] |].
  cbn. rewrite Hpw. by rewrite lookup_insert_eq.
Qed.

Lemma destroy_ok this l (s : process K C) :
  loops s !! this = Some l -> alive l ->
  destroy (_thread_ID l) this s = Ret (mk_process (delete this (loops s)) (delete (_thread_ID l) (loop_in_this_thrad s))
    (open_fds s ∖ {[ wakeup_fd l ]} ∖ {[ _timer_fd l ]})).
Proof.
  intros Hl [Hs Ht Hw]. unfold destroy, loop_at. rewrite Hl. cbn [mbind res_bind].
  destruct (call_channel_ok l (Retire wake_up_channel)) as (p1 & h1 & -> & H1); [done | by eapply step_retire' |].
  cbn [mbind res_bind]. set (l1 := mk _ _ _ _ _ _ _).
  assert (Ht1 : phases l1 !! timer_fd_channel = Some (mk_view (_timer_fd l) Channel.read_event Registered)).
  { change (phases l1) with (after_call (Retire wake_up_channel) (phases l)). by rewrite after_call_other. }
  destruct (call_channel_ok l1 (Retire timer_fd_channel)) as (p2 & h2 & E2 & H2); [done | by eapply step_retire' |].
  change (_thread_ID l1) with (_thread_ID l) in E2. by rewrite E2.
Qed.
Lemma destroy_elsewhere tid this l (s : process K C) :
  loops s !! this = Some l -> tid <> _thread_ID l -> destroy tid this s = Stop Aborted.
Proof. intros Hl Hne. unfold destroy, loop_at. rewrite Hl. cbn [mbind res_bind]. by rewrite call_channel_elsewhere. Qed.

(** *** The invariant of the process *)

Definition owns (l : t K C) (fd : Z) : Prop := fd = _timer_fd l \/ fd = wakeup_fd l.
Record inv (s : process K C) : Prop := mk_inv {
  i_alive this l : loops s !! this = Some l -> alive l;
  i_current this l : loops s !! this = Some l -> loop_in_this_thrad s !! _thread_ID l = Some this;
  i_thread tid this : loop_in_this_thrad s !! tid = Some this -> exists l, loops s !! this = Some l /\ _thread_ID l = tid;
  i_fds fd : fd ∈ open_fds s <-> exists this l, loops s !! this = Some l /\ owns l fd;
  i_owner fd this l this' l' : loops s !! this = Some l -> loops s !! this' = Some l' ->
    owns l fd -> owns l' fd -> this = this'
}.

Lemma construct_inv tid this l (s : process K C) :
  inv s -> loops s !! this = None -> loop_in_this_thrad s !! tid = None ->
  alive l -> _thread_ID l = tid -> _timer_fd l ∉ open_fds s -> wakeup_fd l ∉ open_fds s ->
  inv (mk_process (<[this := l]> (loops s)) (<[tid := this]> (loop_in_this_thrad s)) (open_fds s ∪ {[ _timer_fd l; wakeup_fd l ]})).
Proof.
  intros [Ha Hc Ht Hf Ho] Hthis Htls Hl Htid Hto Heo.
  assert (Hnew : forall this' l' fd, loops s !! this' = Some l' -> owns l fd -> owns l' fd -> False).
  { intros this' l' fd Hl' [->| ->] Hw; [apply Hto | apply Heo]; apply Hf; eauto. }
  constructor; cbn [loops loop_in_this_thrad open_fds].
  - intros q m. rewrite lookup_insert_Some. intros [[_ <-]|[_ Hq]]; [done | by eapply Ha].
  - intros q m. rewrite lookup_insert_Some. intros [[<- <-]|[_ Hq]]; [by rewrite Htid, lookup_insert_eq |].
    rewrite lookup_insert_ne; [by apply Hc |]. intros E. apply Hc in Hq. congruence.
  - intros q m. rewrite lookup_insert_Some. intros [[<- <-]|[_ Hq]]; [exists l; by rewrite lookup_insert_eq |].
    destruct (Ht _ _ Hq) as (l' & Hl' & E). exists l'. rewrite lookup_insert_ne; [done |]. congruence.
  - intros fd. rewrite elem_of_union, elem_of_union, !elem_of_singleton, Hf. split.
    + intros [(q & m & Hq & Hw)|Hw]; [exists q, m | exists this, l; by rewrite lookup_insert_eq].
      rewrite lookup_insert_ne; [done | congruence].
    + intros (q & m & Hq & Hw). apply lookup_insert_Some in Hq as [[_ <-]|[_ Hq]]; [by right | left; eauto].
  - intros fd q m q' m'. rewrite !lookup_insert_Some. intros [[<- <-]|[_ Hq]] [[<- <-]|[_ Hq']] Hw Hw';
      [done | by edestruct (Hnew q' m' fd) | by edestruct (Hnew q m fd) | by eapply Ho].
Qed.

Lemma destroy_inv this l (s : process K C) :
  inv s -> loops s !! this = Some l ->
  inv (mk_process (delete this (loops s)) (delete (_thread_ID l) (loop_in_this_thrad s))
    (open_fds s ∖ {[ wakeup_fd l ]} ∖ {[ _timer_fd l ]})).
Proof.
  intros [Ha Hc Ht Hf Ho] Hl. constructor; cbn [loops loop_in_this_thrad open_fds].
  - intros q m Hq. apply lookup_delete_Some in Hq as [_ Hq]. by eapply Ha.
  - intros q m Hq. apply lookup_delete_Some in Hq as [Hne Hq]. rewrite lookup_delete_ne; [by apply Hc |].
    intros E. apply Hc in Hq, Hl. congruence.
  - intros tid q Hq. apply lookup_delete_Some in Hq as [Hne Hq]. destruct (Ht _ _ Hq) as (m & Hm & E).
    exists m. rewrite lookup_delete_ne; [done |]. congruence.
  - intros fd. rewrite !elem_of_difference, !elem_of_singleton, Hf. split.
    + intros [[(q & m & Hq & Hw) Hne1] Hne2]. exists q, m. rewrite lookup_delete_ne; [done |].
      intros <-. rewrite Hl in Hq. injection Hq as <-. by destruct Hw.
    + intros (q & m & Hq & Hw). apply lookup_delete_Some in Hq as [Hne Hq]. split_and!; [eauto | |];
        intros E; apply Hne, (Ho fd _ _ _ _ Hl Hq); [by right | done | by left | done].
  - intros fd q m q' m' Hq Hq'. apply lookup_delete_Some in Hq as [_ Hq], Hq' as [_ Hq']. by eapply Ho.
Qed.

(** A change of one loop that keeps its thread and its descriptors. *)
Lemma update_inv this l l' (s : process K C) :
  inv s -> loops s !! this = Some l -> alive l' -> _thread_ID l' = _thread_ID l ->
  _timer_fd l' = _timer_fd l -> wakeup_fd l' = wakeup_fd l ->
  inv (mk_process (<[this := l']> (loops s)) (loop_in_this_thrad s) (open_fds s)).
Proof.
  intros [Ha Hc Ht Hf Ho] Hl Hal Etid Et Ew.
  assert (Hold : forall q m, <[this := l']> (loops s) !! q = Some m ->
    exists m0, loops s !! q = Some m0 /\ _thread_ID m = _thread_ID m0 /\ forall fd, owns m fd <-> owns m0 fd).
  { intros q m Hq. apply lookup_insert_Some in Hq as [[<- <-]|[_ Hq]]; [exists l; unfold owns; by rewrite Et, Ew | by exists m]. }
  constructor; cbn [loops loop_in_this_thrad open_fds].
  - intros q m. rewrite lookup_insert_Some. intros [[_ <-]|[_ Hq]]; [done | by eapply Ha].
  - intros q m Hq. destruct (Hold _ _ Hq) as (m0 & Hq0 & -> & _). by apply Hc.
  - intros tid q Hq. destruct (Ht _ _ Hq) as (m & Hm & E). destruct (decide (q = this)) as [->|Hne].
    + exists l'. rewrite lookup_insert_eq. split; [done | congruence].
    + exists m. by rewrite lookup_insert_ne.
  - intros fd. rewrite Hf. split.
    + intros (q & m & Hq & Hw). destruct (decide (q = this)) as [->|Hne].
      * exists this, l'. rewrite lookup_insert_eq. rewrite Hl in Hq. injection Hq as <-. unfold owns. by rewrite Et, Ew.
      * exists q, m. by rewrite lookup_insert_ne.
    + intros (q & m & Hq & Hw). destruct (Hold _ _ Hq) as (m0 & Hq0 & _ & Hw0). exists q, m0. by rewrite <- Hw0.
  - intros fd q m q' m' Hq Hq' Hw Hw'. destruct (Hold _ _ Hq) as (m0 & Hq0 & _ & Hw0), (Hold _ _ Hq') as (m1 & Hq1 & _ & Hw1).
    eapply Ho; [exact Hq0 | exact Hq1 | by apply Hw0 | by apply Hw1].
Qed.

(** An operation keeps the invariant, or the program is aborted: a second loop in a
    thread, a call from the wrong one. *)
Definition or_aborted {A} (P : A -> Prop) (m : res A) : Prop :=
  match m with Ret a => P a | Stop f => f = Aborted end.

Lemma loop_step_inv o (s : process K C) : inv s -> possible o s -> or_aborted inv (LoopObject.step o s).
Proof.
  intros Hs Hp. destruct o as [tid this a|tid this|this q fd|tid this call|tid this|this c]; cbn [LoopObject.step possible] in *.
  - destruct (decide (granted a)) as [Hg|Hg]; [| by rewrite construct_refused].
    destruct (loop_in_this_thrad s !! tid) as [other|] eqn:Htls.
    + destruct (construct_half tid this a s Hp Hg) as (l & -> & _). by rewrite Htls.
    + destruct (construct_ok tid this a s Hp Hg Htls) as (l & -> & Hl & Htid & Hto & Heo). cbn [or_aborted].
      apply construct_inv; try done. apply Hp.
  - destruct Hp as [l Hl]. destruct (decide (tid = _thread_ID l)) as [->|Hne]; [| by rewrite (destroy_elsewhere tid this l)].
    rewrite (destroy_ok this l s Hl) by by eapply i_alive. by apply destroy_inv.
  - destruct Hp as (l & Hl & Hq & Hfd & _). unfold update_loop, loop_at. rewrite Hl. cbn [mbind res_bind mret res_ret or_aborted].
    destruct (i_alive _ Hs _ _ Hl) as [Hsim Ht Hw]. apply (update_inv this l); try done.
    constructor; cbn [new_channel _poller channels phases _timer_fd wakeup_fd]; [by apply sim_new | |];
      rewrite lookup_insert_ne; try done; congruence.
  - destruct Hp as (l & Hl & Hst & Hu1 & Hu2). unfold update_loop, loop_at. rewrite Hl. cbn [mbind res_bind].
    destruct (decide (tid = _thread_ID l)) as [->|Hne]; [| by rewrite call_channel_elsewhere].
    destruct (i_alive _ Hs _ _ Hl) as [Hsim Ht Hw]. destruct (call_channel_ok l call Hsim Hst) as (p & h & -> & Hsim').
    cbn [mbind res_bind mret res_ret or_aborted]. apply (update_inv this l); try done.
    constructor; cbn [_poller channels phases _timer_fd wakeup_fd]; [done | |]; rewrite after_call_other; done.
  - destruct Hp as [l Hl]. unfold loop_at. rewrite Hl. cbn [mbind res_bind]. unfold assert_in_loop_thread.
    by destruct (is_in_loop_thread tid l).
  - destruct Hp as [l Hl]. unfold update_loop, loop_at. rewrite Hl. cbn [mbind res_bind mret res_ret or_aborted].
    destruct (i_alive _ Hs _ _ Hl) as [Hsim Ht Hw]. by apply (update_inv this l).
Qed.

Lemma loop_run_inv ops (s : process K C) : inv s -> allowed ops s -> or_aborted inv (LoopObject.run ops s).
Proof.
  revert s. induction ops as [|o ops IH]; intros s Hs Hall; [done |]. destruct Hall as [Hp Hall].
  cbn [LoopObject.run]. pose proof (loop_step_inv o s Hs Hp) as Hst.
  destruct (LoopObject.step o s) as [s1|f] eqn:E; [| done]. by apply IH; [| apply Hall].
Qed.
Lemma initial_inv : inv initial.
Proof.
  constructor; cbn; try (by intros *; rewrite ?lookup_empty).
  intros fd. split; [by intros ?%elem_of_empty | intros (q & l & Hq & _); by rewrite lookup_empty in Hq].
Qed.

(** The poller asks the kernel for what the two channels want. *)
Lemma alive_waits (l : t K C) : alive l ->
  p_waits (_poller l) (_timer_fd l) = Channel.read_event /\ p_waits (_poller l) (wakeup_fd l) = Channel.read_event.
Proof.
  intros [Hs Ht Hw].
  enough (Hall : forall q fd, phases l !! q = Some (mk_view fd Channel.read_event Registered) ->
    p_waits (_poller l) fd = Channel.read_event) by (split; eauto).
  intros q fd Hq. destruct (sim_view _ _ _ Hs _ _ Hq) as (c & Hc & _ & Hev & _ & _ & Hr & _).
  destruct (p_wf_channel _ _ _ _ (sim_wf _ _ _ Hs) (Hr eq_refl)) as (c' & Hc' & _ & E). cbn in *. congruence.
Qed.
End spec.
End LoopObjectSpec.

(** ** The properties *)

Module LoopObjectProps.
Import LoopObject LoopObjectSpec.

(** C24: a thread has one loop, and asks for it. Whatever loops threads construct, use
    and destroy, their own or others', the program goes on or is aborted: where a thread
    constructs a second loop, the system has no poller or timerfd for it, or one changes
    a channel of, or destroys, another thread's loop. (There must be an eventfd, and the
    channels' users keep to the rules of Pollers.v.) While it goes on,
    [get_event_loop_of_current_thread] returns the loop whose [_thread_ID] is the
    caller's and which is alive, if there is one; every loop's poller, either of the two,
    waits for its timerfd and its eventfd; and the open descriptors are those of the
    loops that are alive. *)
Theorem loop_of_its_thread {B : Build} {K} `{EpollLaws K} {C} ops (s : process K C)
    (Hops : allowed ops initial) (Hrun : run ops initial = Ret s) :
  (forall o f, possible o s -> step o s = Stop f -> f = Aborted) /\
  (forall tid this, get_event_loop_of_current_thread tid s = Some this <->
     exists l, loops s !! this = Some l /\ is_in_loop_thread tid l = true) /\
  (forall this l, loops s !! this = Some l ->
     p_waits (_poller l) (_timer_fd l) = Channel.read_event /\ p_waits (_poller l) (wakeup_fd l) = Channel.read_event) /\
  (forall fd, fd ∈ open_fds s <-> exists this l, loops s !! this = Some l /\ (fd = _timer_fd l \/ fd = wakeup_fd l)).
Proof.
  pose proof (loop_run_inv ops initial initial_inv Hops) as Hs. rewrite Hrun in Hs. cbn [or_aborted] in Hs.
  pose proof Hs as [Ha Hc Ht Hf Ho].
  split_and!; [intros o f Ho' E; pose proof (loop_step_inv o s Hs Ho') as Hst; by rewrite E in Hst | | intros this l Hl; apply alive_waits; eauto | exact Hf].
  intros tid this. unfold get_event_loop_of_current_thread, is_in_loop_thread. split.
  - intros E. destruct (Ht _ _ E) as (l & Hl & <-). exists l. split; [done | apply Z.eqb_refl].
  - intros (l & Hl & <-%Z.eqb_eq). by apply Hc.
Qed.

(** A second loop in a thread aborts, and so does all that another thread does to a
    loop or its channels. *)
Theorem second_loop_aborts {B : Build} {K} `{EpollLaws K} {C} tid this this' a (s : process K C) l
    (Hl : loops s !! this = Some l) (Hcur : loop_in_this_thrad s !! tid = Some this)
    (Hp : possible (Construct tid this' a) s) :
  step (Construct tid this' a) s = Stop Aborted /\
  forall tid', tid' <> _thread_ID l ->
    step (Guarded tid' this) s = Stop Aborted /\ step (Destroy tid' this) s = Stop Aborted /\
    forall call, step (LoopObject.Call tid' this call) s = Stop Aborted.
Proof.
  split.
  - cbn [step]. destruct (decide (granted a)) as [Hg|Hg]; [| by apply construct_refused].
    destruct (construct_half tid this' a s Hp Hg) as (m & -> & _). by rewrite Hcur.
  - intros tid' Hne. split_and!; [| by eapply destroy_elsewhere |].
    + cbn [step]. unfold loop_at, assert_in_loop_thread, is_in_loop_thread. rewrite Hl.
      cbn [mbind res_bind]. by rewrite (proj2 (Z.eqb_neq _ _)) by congruence.
    + intros call. cbn [step]. unfold update_loop, loop_at. rewrite Hl. cbn [mbind res_bind]. by rewrite call_channel_elsewhere.
Qed.

(** *** Witness: two threads with a loop each, one on poll and one on epoll; the first
    registers a channel, and is destroyed. *)

#[local] Instance debug : Build := {| ndebug := false |}.
#[local] Existing Instance PollersProps.list_epoll.
#[local] Existing Instance PollersProps.list_epoll_laws.
Definition answers_of (poll : bool) (t e : Z) : answers (gmap Z (Z * Z)) := mk_answers poll (Some ∅) (Some t) (Some e).
Definition two_threads : list (op (gmap Z (Z * Z)) Z) :=
  [ Construct 10 1000 (answers_of false 4 5); Construct 11 2000 (answers_of true 6 7);
    NewChannel 1000 50 9; LoopObject.Call 10 1000 (Change 50 enable_writing); Guarded 10 1000;
    SetContext 2000 42; LoopObject.Call 10 1000 (Retire 50); Destroy 10 1000 ].
Definition one_left : process (gmap Z (Z * Z)) Z :=
  match run two_threads initial with Ret s => s | Stop _ => initial end.

Lemma two_threads_allowed : allowed two_threads initial.
Proof.
  assert (Hset : forall (fd : Z) (X : gset Z), bool_decide (fd ∉ X) = true -> fd ∉ X) by (intros fd X; apply bool_decide_eq_true_1).
  unfold two_threads.
  eapply allowed_cons; [| vm_compute; reflexivity |].
  { split_and!; [done | by intros k [= <-] | intros t [= <-]; split_and!; [done | done | by apply Hset] |].
    exists 5; split_and!; [done | done | by apply Hset]. }
  eapply allowed_cons; [| vm_compute; reflexivity |].
  { split_and!; [done | by intros k [= <-] | intros t [= <-]; split_and!; [done | done | by apply Hset] |].
    exists 7; split_and!; [done | done | by apply Hset]. }
  eapply allowed_cons; [| vm_compute; reflexivity |].
  { eexists. split_and!; [by vm_compute | by vm_compute | done | by apply Hset]. }
  eapply allowed_cons; [| vm_compute; reflexivity |].
  { eexists. split_and!; [by vm_compute | | by split].
    eapply step_first'; [by vm_compute | done |]. by apply (bool_decide_unpack _); vm_compute. }
  eapply allowed_cons; [by eexists | vm_compute; reflexivity |].
  eapply allowed_cons; [by eexists | vm_compute; reflexivity |].
  eapply allowed_cons; [| vm_compute; reflexivity |].
  { eexists. split_and!; [by vm_compute | | by split]. by eapply step_retire'; [vm_compute |]. }
  eapply allowed_cons; [by eexists | vm_compute; reflexivity | done].
Qed.

Lemma loop_of_its_thread_witness :
  (forall tid this, get_event_loop_of_current_thread tid one_left = Some this <->
     exists l, loops one_left !! this = Some l /\ is_in_loop_thread tid l = true) /\
  (forall this l, loops one_left !! this = Some l ->
     p_waits (_poller l) (_timer_fd l) = Channel.read_event /\ p_waits (_poller l) (wakeup_fd l) = Channel.read_event) /\
  (forall fd, fd ∈ open_fds one_left <-> exists this l, loops one_left !! this = Some l /\ (fd = _timer_fd l \/ fd = wakeup_fd l)).
Proof.
  destruct (loop_of_its_thread two_threads one_left) as (_ & H); [exact two_threads_allowed | by vm_compute | exact H].
Defined.
Example one_left_current : get_event_loop_of_current_thread 10 one_left = None /\
  get_event_loop_of_current_thread 11 one_left = Some 2000 /\ open_fds one_left = {[ 6; 7 ]}.
Proof. split_and!; vm_compute; reflexivity. Qed.
End LoopObjectProps.
