(* ===== verification/Loops.v ===== *)
(** Event loops (suduo/net/EventLoop.h/.cpp) and their threads
    (EventLoopThread.h/.cpp, EventLoopThreadPool.h/.cpp).

    [EventLoop.next] is the loop's thread, one step at a time; [step] interleaves
    it with other threads that post functors and call [quit()]. User code is a
    list of calls back into the loop, given by the parameter [body]. *)

From S2P Require Import Prelude.

Module EventLoop.

(** A [std::function<void()>] is a name; [body] is what it does to the loop. *)
Definition Functor : Type := Z.
Inductive action :=
  | queue_in_loop_of (cb : Functor)
  | run_in_loop_of (cb : Functor)
  | quit_loop.

(** What [handle_event] of an active channel runs: [EventLoop::handle_read] for
    the wakeup channel, user code for the others. *)
Inductive handler := WakeupChannel | UserChannel (script : list action).

(** Where the loop's thread is. *)
Inductive point :=
  | BeforeLoop
  | Test                                  (** [while (_running)] *)
  | Polling                               (** inside [_poller->poll] *)
  | Handling (active : list handler)      (** [for (channel : _active_channel)] *)
  | Swapping                              (** [functors.swap(_pending_functors)] *)
  | Calling (functors : list Functor)     (** [for (functor : functors)] *)
  | Returned.

Record t := mk {
  _running : bool;
  _event_handling : bool;
  _calling_pending_functors : bool;
  _iteratoin : Z;
  _pending_functors : list Functor;
  wakeup_fd : Z;                          (** the eventfd's counter *)
  at_ : point;
  todo : list action;                     (** the rest of the user code that runs *)
  (** history: the functors in the order [queue_in_loop] got them, and in the
      order [do_pending_functors] called them *)
  posted : list Functor;
  called : list Functor
}.

(** A loop just constructed, whose thread makes the calls [setup] before it calls
    [loop()]. *)
Definition make (setup : list action) : t := mk false false false 0 [] 0 BeforeLoop setup [] [].

Definition set_running (s : t) (b : bool) : t :=
  mk b (_event_handling s) (_calling_pending_functors s) (_iteratoin s) (_pending_functors s)
    (wakeup_fd s) (at_ s) (todo s) (posted s) (called s).
Definition set_wakeup (s : t) (v : Z) : t :=
  mk (_running s) (_event_handling s) (_calling_pending_functors s) (_iteratoin s)
    (_pending_functors s) v (at_ s) (todo s) (posted s) (called s).
Definition goto (s : t) (p : point) (script : list action) : t :=
  mk (_running s) (_event_handling s) (_calling_pending_functors s) (_iteratoin s)
    (_pending_functors s) (wakeup_fd s) p script (posted s) (called s).

(** write(2) on an eventfd adds, or fails with EAGAIN at the counter's limit;
    read(2) takes everything. *)
Definition eventfd_max : Z := 18446744073709551614.
Definition eventfd_write (v n : Z) : Z := if v + n <=? eventfd_max then v + n else v.

Definition wakeup (s : t) : t := set_wakeup s (eventfd_write (wakeup_fd s) 1).
Definition handle_read (s : t) : t := set_wakeup s 0.

(** The critical section of [queue_in_loop]. *)
Definition push_functor (cb : Functor) (s : t) : t :=
  mk (_running s) (_event_handling s) (_calling_pending_functors s) (_iteratoin s)
    (_pending_functors s ++ [cb]) (wakeup_fd s) (at_ s) (todo s) (posted s ++ [cb]) (called s).

Definition queue_in_loop (is_in_loop_thread : bool) (cb : Functor) (s : t) : t :=
  let s := push_functor cb s in
  if negb is_in_loop_thread || _calling_pending_functors s then wakeup s else s.

Definition quit (is_in_loop_thread : bool) (s : t) : t :=
  let s := set_running s false in
  if negb is_in_loop_thread then wakeup s else s.

Definition queueSize (s : t) : Z := zlen (_pending_functors s).
Definition iteration (s : t) : Z := _iteratoin s.
Definition event_handing (s : t) : bool := _event_handling s.

Section semantics.
Context (body : Functor -> list action).

(** [cb()] in the middle of user code: its calls come first. *)
Definition run_in_loop (is_in_loop_thread : bool) (cb : Functor) (s : t) : t :=
  if is_in_loop_thread then goto s (at_ s) (body cb ++ todo s)
  else queue_in_loop false cb s.

(** A call that user code makes on the loop's own thread. *)
Definition exec (a : action) (s : t) : t :=
  match a with
  | queue_in_loop_of cb => queue_in_loop true cb s
  | run_in_loop_of cb => run_in_loop true cb s
  | quit_loop => quit true s
  end.

(** One step of [loop()]; [active] is what [poll] returned. *)
Definition next (active : list handler) (s : t) : option t :=
  match todo s with
  | a :: rest => Some (exec a (goto s (at_ s) rest))
  | [] =>
      match at_ s with
      | BeforeLoop => Some (goto (set_running s true) Test [])
      | Test => Some (goto s (if _running s then Polling else Returned) [])
      | Polling =>
          Some (mk (_running s) true (_calling_pending_functors s) (_iteratoin s + 1)
                  (_pending_functors s) (wakeup_fd s) (Handling active) [] (posted s) (called s))
      | Handling (WakeupChannel :: rest) => Some (goto (handle_read s) (Handling rest) [])
      | Handling (UserChannel script :: rest) => Some (goto s (Handling rest) script)
      | Handling [] =>
          Some (mk (_running s) false true (_iteratoin s) (_pending_functors s)
                  (wakeup_fd s) Swapping [] (posted s) (called s))
      | Swapping =>
          Some (mk (_running s) (_event_handling s) (_calling_pending_functors s) (_iteratoin s)
                  [] (wakeup_fd s) (Calling (_pending_functors s)) [] (posted s) (called s))
      | Calling (cb :: rest) =>
          Some (mk (_running s) (_event_handling s) (_calling_pending_functors s) (_iteratoin s)
                  (_pending_functors s) (wakeup_fd s) (Calling rest) (body cb)
                  (posted s) (called s ++ [cb]))
      | Calling [] =>
          Some (mk (_running s) (_event_handling s) false (_iteratoin s) (_pending_functors s)
                  (wakeup_fd s) Test [] (posted s) (called s))
      | Returned => None
      end
  end.

(** poll(2) and epoll_wait(2) report the eventfd exactly when its counter is
    not 0. *)
Definition poll_result (s : t) (active : list handler) : Prop :=
  WakeupChannel ∈ active <-> 0 < wakeup_fd s.

(** The other threads: [true] between the first half of [queue_in_loop] or
    [quit] and their [wakeup()]. *)
Record system := mk_system { loop : t; waking : list bool }.

Inductive label :=
  | LoopThread (active : list handler)
  | Queue (i : nat) (cb : Functor)
  | Quit (i : nat)
  | Wakeup (i : nat).

Inductive step : label -> system -> system -> Prop :=
  | step_loop active s s' w : next active s = Some s' -> poll_result s active ->
      step (LoopThread active) (mk_system s w) (mk_system s' w)
  | step_queue i cb s w : w !! i = Some false ->
      step (Queue i cb) (mk_system s w) (mk_system (push_functor cb s) (<[i := true]> w))
  | step_quit i s w : w !! i = Some false ->
      step (Quit i) (mk_system s w) (mk_system (set_running s false) (<[i := true]> w))
  | step_wakeup i s w : w !! i = Some true ->
      step (Wakeup i) (mk_system s w) (mk_system (wakeup s) (<[i := false]> w)).

(** The loop's thread and [n] others. *)
Definition start (setup : list action) (n : nat) : system :=
  mk_system (make setup) (replicate n false).
Definition reached (setup : list action) (n : nat) : system -> Prop :=
  reachable (fun s => s = start setup n) (fun s s' => exists l, step l s s').

End semantics.
End EventLoop.

(** ** Invariants *)

Module EventLoopSpec.
Import EventLoop.
Section invariants.
Context (body : Functor -> list action) (setup : list action).

(** The functors taken out of [_pending_functors] and not called yet. *)
Definition taken (s : t) : list Functor :=
  match at_ s with Calling functors => functors | _ => [] end.

(** Past this iteration's [swap], or not in an iteration at all: what is pending
    waits for the next one. *)
Definition past_swap (p : point) : bool :=
  match p with BeforeLoop | Test | Polling | Calling _ => true | _ => false end.
Definition is_polling (p : point) : bool := match p with Polling => true | _ => false end.

Definition alarmed (s : t) (w : list bool) : Prop := 0 < wakeup_fd s \/ true ∈ w.

Record inv (sys : system) : Prop := mk_inv {
  inv_order : posted (loop sys) = called (loop sys) ++ taken (loop sys) ++ _pending_functors (loop sys);
  inv_calling : _calling_pending_functors (loop sys)
    = match at_ (loop sys) with Swapping | Calling _ => true | _ => false end;
  inv_fd : 0 <= wakeup_fd (loop sys) <= eventfd_max;
  inv_todo : match at_ (loop sys) with
             | Handling _ | Calling _ => True
             | BeforeLoop => _iteratoin (loop sys) = 0 /\ (setup = [] -> todo (loop sys) = [])
             | _ => todo (loop sys) = []
             end;
  inv_pending : past_swap (at_ (loop sys)) = true -> _pending_functors (loop sys) <> [] ->
    alarmed (loop sys) (waking sys) \/ (setup <> [] /\ _iteratoin (loop sys) = 0);
  inv_quit : is_polling (at_ (loop sys)) = true -> _running (loop sys) = false ->
    alarmed (loop sys) (waking sys)
}.

Lemma eventfd_write_pos v : 0 <= v <= eventfd_max -> 0 < eventfd_write v 1 <= eventfd_max.
Proof. unfold eventfd_write, eventfd_max. intros. destruct (Z.leb_spec (v + 1) 18446744073709551614); lia. Qed.

(** Setting off an alarm, in either half. *)
Lemma alarm_waking s w i : w !! i = Some false -> alarmed s (<[i := true]> w).
Proof.
  intros Hi. right. apply (list_elem_of_lookup_2 _ i), list_lookup_insert_eq.
  by eapply lookup_lt_Some.
Qed.

Lemma inv_exec a rest s w :
  inv (mk_system s w) -> todo s = a :: rest ->
  inv (mk_system (exec body a (goto s (at_ s) rest)) w).
Proof.
  intros [Ho Hc Hf Ht Hp Hq] E. cbn in *. pose proof (eventfd_write_pos _ Hf) as Hpos.
  destruct (at_ s) as [| | |active| |functors|] eqn:Hat; try congruence;
    destruct a as [cb|cb|]; unfold exec, queue_in_loop, run_in_loop, quit; cbn; rewrite ?Hc; cbn;
    constructor; cbn; rewrite ?Hc; cbn;
    try done; try lia; unfold taken in *; rewrite ?Hat in Ho; cbn in *; try done.
  all: try by rewrite Ho, !app_assoc.
  all: try (split; [apply Ht |]); try (intros Hs; rewrite (proj2 Ht Hs) in E; done).
  all: intros _ _; first [left; left; cbn; lia
    | right; split; [intros Hs; by rewrite (proj2 Ht Hs) in E | apply Ht]].
Qed.

Lemma inv_next active s s' w :
  inv (mk_system s w) -> next body active s = Some s' -> inv (mk_system s' w).
Proof.
  intros I. unfold next. destruct (todo s) as [|a rest] eqn:E.
  2: { intros [= <-]. by apply inv_exec. }
  destruct I as [Ho Hc Hf Ht Hp Hq]. cbn in *. unfold taken in *.
  destruct (at_ s) as [| | |[|[|script] rest]| |[|cb rest]|] eqn:Hat; intros [= <-].
  all: try destruct (_running s) eqn:Hrun.
  all: constructor; cbn; rewrite ?Hat in *; try done.
  all: try by rewrite Ho, ?app_nil_r, <- ?app_assoc.
  all: congruence.
Qed.

Lemma inv_step l sys sys' : inv sys -> step body l sys sys' -> inv sys'.
Proof.
  intros I Hs. destruct Hs as [active s s' w Hn Hp|i cb s w Hi|i s w Hi|i s w Hi].
  - by eapply inv_next.
  - destruct I as [Ho Hc Hf Ht Hp Hq]. constructor; cbn in *; try done.
    + by rewrite Ho, !app_assoc.
    + intros _ _. left. by apply alarm_waking.
    + intros _ _. by apply alarm_waking.
  - destruct I as [Ho Hc Hf Ht Hp Hq]. constructor; cbn in *; try done.
    + intros _ _. left. by apply alarm_waking.
    + intros _ _. by apply alarm_waking.
  - destruct I as [Ho Hc Hf Ht Hp Hq]. pose proof (eventfd_write_pos _ Hf).
    constructor; cbn in *; try done; try lia; intros; [left |]; left; cbn; lia.
Qed.
Lemma inv_reached n sys : reached body setup n sys -> inv sys.
Proof.
  apply reachable_invariant.
  - intros ? ->. constructor; cbn; done.
  - intros s s' I [l Hs]. by eapply inv_step.
Qed.
End invariants.

(** *** Left alone, a loop finishes what it has begun *)

Section progress.
Context (body : Functor -> list action).

(** [run_in_loop] calls its argument in place, so user code may not come to an
    end; this is when it does. *)
Inductive finishes : list action -> Prop :=
  | finishes_nil : finishes []
  | finishes_queue cb rest : finishes rest -> finishes (queue_in_loop_of cb :: rest)
  | finishes_quit rest : finishes rest -> finishes (quit_loop :: rest)
  | finishes_run cb rest : finishes (body cb ++ rest) -> finishes (run_in_loop_of cb :: rest).

(** Steps of the loop's thread, the other threads standing still. *)
Inductive alone : t -> t -> Prop :=
  | alone_refl s : alone s s
  | alone_step active s s1 s2 :
      next body active s = Some s1 -> poll_result s active -> alone s1 s2 -> alone s s2.

Lemma alone_trans s s1 s2 : alone s s1 -> alone s1 s2 -> alone s s2.
Proof. induction 1; [done |]. intros. econstructor; eauto. Qed.

(** [next] without a poll. *)
Lemma alone_once s s' : at_ s <> Polling -> (forall a, next body a s = Some s') -> alone s s'.
Proof.
  intros Hp Hn. eapply (alone_step (if 0 <? wakeup_fd s then [WakeupChannel] else [])).
  - apply Hn.
  - unfold poll_result. destruct (Z.ltb_spec 0 (wakeup_fd s)).
    + split; [done | by constructor].
    + split; [by intros ?%elem_of_nil | lia].
  - constructor.
Qed.

Lemma exec_frame a s :
  at_ (exec body a s) = at_ s /\ called (exec body a s) = called s /\
  (exists more, _pending_functors (exec body a s) = _pending_functors s ++ more) /\
  todo (exec body a s) = match a with run_in_loop_of cb => body cb | _ => [] end ++ todo s.
Proof.
  destruct a as [cb|cb|]; unfold exec, queue_in_loop, run_in_loop, quit; cbn.
  - destruct (_calling_pending_functors s); cbn; split_and!; try done; by exists [cb].
  - split_and!; try done. exists []. by rewrite app_nil_r.
  - split_and!; try done. exists []. by rewrite app_nil_r.
Qed.

(** User code runs to its end; functors it posts go behind the others. *)
Definition runs_off (s : t) : Prop :=
  exists s' more, alone s s' /\ todo s' = [] /\ at_ s' = at_ s /\ called s' = called s /\
    _pending_functors s' = _pending_functors s ++ more.

Lemma script_step a rest s :
  at_ s <> Polling -> a :: rest = todo s ->
  (forall s1, match a with run_in_loop_of cb => body cb | _ => [] end ++ rest = todo s1 ->
     at_ s1 <> Polling -> runs_off s1) ->
  runs_off s.
Proof.
  intros Hp E IH. set (s1 := exec body a (goto s (at_ s) rest)).
  destruct (exec_frame a (goto s (at_ s) rest)) as (E1 & E2 & (more & E3) & E4). fold s1 in E1, E2, E3, E4.
  cbn in E1, E2, E3, E4. destruct (IH s1) as (s' & more' & Ha & Ht & Hat & Hc & Hpend); [done | by rewrite E1 |].
  exists s', (more ++ more'). rewrite Hat, Hc, Hpend, E1, E2, E3, app_assoc. split_and!; try done.
  eapply alone_trans; [| exact Ha]. apply alone_once; [done |].
  intros b. unfold next. by rewrite <- E.
Qed.

Lemma script_finishes s : at_ s <> Polling -> finishes (todo s) -> runs_off s.
Proof.
  intros Hp Hf. remember (todo s) as script eqn:E. revert s E Hp.
  induction Hf as [|cb rest Hf IH|rest Hf IH|cb rest Hf IH]; intros s E Hp;
    [| by apply (script_step _ _ _ Hp E) ..].
  exists s, []. split_and!; try done; [constructor | by rewrite app_nil_r].
Qed.

Definition handler_finishes (h : handler) : Prop :=
  match h with WakeupChannel => True | UserChannel script => finishes script end.

Lemma handlers_finish active s :
  at_ s = Handling active -> todo s = [] -> Forall handler_finishes active ->
  exists s' more, alone s s' /\ todo s' = [] /\ at_ s' = Handling [] /\ called s' = called s /\
    _pending_functors s' = _pending_functors s ++ more.
Proof.
  revert s. induction active as [|h active IH]; intros s Hat Ht Hall.
  { exists s, []. split_and!; try done; [constructor | by rewrite app_nil_r]. }
  apply Forall_cons in Hall as [Hh Hall].
  set (s1 := match h with
             | WakeupChannel => goto (handle_read s) (Handling active) []
             | UserChannel script => goto s (Handling active) script
             end).
  assert (Hs1 : alone s s1).
  { apply alone_once; [by rewrite Hat | intros a; unfold next]. rewrite Ht, Hat. by destruct h. }
  assert (exists s2 more, alone s1 s2 /\ todo s2 = [] /\ at_ s2 = Handling active /\
            called s2 = called s /\ _pending_functors s2 = _pending_functors s ++ more)
    as (s2 & more & H12 & Ht2 & Hat2 & Hc2 & Hp2).
  { destruct (script_finishes s1) as (s2 & more & ? & ? & Hat2 & Hc2 & Hp2); [by destruct h | destruct h |].
    { constructor. }
    { done. }
    exists s2, more. rewrite Hat2, Hc2, Hp2. by destruct h. }
  destruct (IH s2 Hat2 Ht2 Hall) as (s3 & more' & H23 & ? & ? & Hc3 & Hp3).
  exists s3, (more ++ more'). split_and!; try done.
  - eapply alone_trans, alone_trans; eauto.
  - congruence.
  - by rewrite Hp3, Hp2, app_assoc.
Qed.

Context (Hbody : forall cb, finishes (body cb)).

Lemma calls_finish functors s :
  at_ s = Calling functors -> todo s = [] ->
  exists s', alone s s' /\ todo s' = [] /\ at_ s' = Calling [] /\ called s' = called s ++ functors.
Proof.
  revert s. induction functors as [|cb functors IH]; intros s Hat Ht.
  { exists s. split_and!; try done; [constructor | by rewrite app_nil_r]. }
  edestruct (script_finishes (mk (_running s) (_event_handling s) (_calling_pending_functors s)
      (_iteratoin s) (_pending_functors s) (wakeup_fd s) (Calling functors) (body cb)
      (posted s) (called s ++ [cb]))) as (s2 & more & H12 & Ht2 & Hat2 & Hc2 & _); [done | apply Hbody |].
  destruct (IH s2 Hat2 Ht2) as (s3 & H23 & ? & ? & Hc3).
  exists s3. split_and!; try done.
  - eapply alone_trans, H23. eapply alone_trans, H12.
    apply alone_once; [by rewrite Hat | intros a; unfold next; by rewrite Ht, Hat].
  - rewrite Hc3, Hc2. cbn. by rewrite <- app_assoc.
Qed.

(** One iteration, from what [poll] returned to the next test of [_running]. *)
Lemma iteration_finishes active s s0 :
  at_ s = Polling -> todo s = [] -> next body active s = Some s0 ->
  Forall handler_finishes active ->
  exists s' more, alone s0 s' /\ at_ s' = Test /\
    called s' = called s ++ _pending_functors s ++ more.
Proof.
  intros Hat Ht Hn Hall. unfold next in Hn. rewrite Ht, Hat in Hn. injection Hn as <-.
  edestruct (handlers_finish active (mk (_running s) true (_calling_pending_functors s) (_iteratoin s + 1)
     (_pending_functors s) (wakeup_fd s) (Handling active) [] (posted s) (called s)))
    as (s1 & more & H01 & Ht1 & Hat1 & Hc1 & Hp1); [done | done | done |].
  set (s2 := mk (_running s1) false true (_iteratoin s1) (_pending_functors s1) (wakeup_fd s1)
               Swapping [] (posted s1) (called s1)).
  set (s3 := mk (_running s2) (_event_handling s2) (_calling_pending_functors s2) (_iteratoin s2)
               [] (wakeup_fd s2) (Calling (_pending_functors s2)) [] (posted s2) (called s2)).
  destruct (calls_finish (_pending_functors s1) s3) as (s4 & H34 & Ht4 & Hat4 & Hc4); [done | done |].
  set (s5 := mk (_running s4) (_event_handling s4) false (_iteratoin s4) (_pending_functors s4)
               (wakeup_fd s4) Test [] (posted s4) (called s4)).
  exists s5, more. split_and!; [| done |].
  - eapply alone_trans; [exact H01 |].
    eapply alone_trans; [apply (alone_once s1 s2); [by rewrite Hat1 | intros; unfold next; by rewrite Ht1, Hat1] |].
    eapply alone_trans; [apply (alone_once s2 s3); [done | done] |].
    eapply alone_trans; [exact H34 |].
    apply alone_once; [by rewrite Hat4 | intros; unfold next; by rewrite Ht4, Hat4].
  - cbn. rewrite Hc4. cbn. by rewrite Hc1, Hp1.
Qed.
End progress.
End EventLoopSpec.

(** ** A loop in a thread of its own *)

Module EventLoopThread.
Import EventLoop.

(** [thread_func]. *)
Inductive thread_point :=
  | Unstarted
  | Constructing      (** [EventLoop loop; _callback(&loop)] *)
  | Publishing        (** the block that sets [_loop] and notifies *)
  | Looping           (** [loop.loop()] *)
  | Clearing          (** [_loop = nullptr] *)
  | Finished.

(** The owner: [start_loop()], then the destructor. *)
Inductive owner_point :=
  | Created
  | Checking          (** [while (_loop == nullptr)], with the mutex *)
  | Waiting           (** [_cond.wait()] *)
  | Started           (** [start_loop] has returned [_loop] *)
  | Joining           (** [_thread.join()] *)
  | Destroyed.

Record t := mk {
  _loop : bool;                (** not null *)
  thread : thread_point;
  owner : owner_point;
  loop : EventLoop.t
}.

Definition make : t := mk false Unstarted Created (EventLoop.make []).

Section semantics.
Context (body : Functor -> list action) (user : handler -> Prop).

(** [start_loop], up to its wait. *)
Definition start_loop (s : t) : t := mk (_loop s) Constructing Checking (loop s).

(** The loop of [start_loop]: it returns, or waits. *)
Definition check_loop (s : t) : t :=
  mk (_loop s) (thread s) (if _loop s then Started else Waiting) (loop s).

Definition publish (s : t) : t :=
  mk true Looping (match owner s with Waiting => Checking | o => o end) (loop s).

Definition clear (s : t) : t := mk false Finished (owner s) (loop s).

(** The destructor, on the owner's thread. *)
Definition destroy (s : t) : t :=
  if _loop s then mk (_loop s) (thread s) Joining (quit false (loop s))
  else mk (_loop s) (thread s) Destroyed (loop s).

(** [user] is what the handlers of the loop's channels may be. *)
Inductive step : t -> t -> Prop :=
  | step_start s : owner s = Created -> thread s = Unstarted -> step s (start_loop s)
  | step_construct s : thread s = Constructing ->
      step s (mk (_loop s) Publishing (owner s) (loop s))
  | step_publish s : thread s = Publishing -> step s (publish s)
  | step_check s : owner s = Checking -> step s (check_loop s)
  | step_spurious s : owner s = Waiting ->
      step s (mk (_loop s) (thread s) Checking (loop s))
  | step_loop s active l : thread s = Looping -> next body active (loop s) = Some l ->
      poll_result (loop s) active -> Forall user active -> step s (mk (_loop s) Looping (owner s) l)
  | step_returned s : thread s = Looping -> at_ (loop s) = Returned ->
      step s (mk (_loop s) Clearing (owner s) (loop s))
  | step_clear s : thread s = Clearing -> step s (clear s)
  | step_destroy s : owner s = Started -> step s (destroy s)
  | step_join s : owner s = Joining -> thread s = Finished ->
      step s (mk (_loop s) (thread s) Destroyed (loop s)).

Definition reached : t -> Prop := reachable (fun s => s = make) step.

End semantics.
End EventLoopThread.

(** ** A pool of loops *)

Module EventLoopThreadPool.
Section operations.
Context {B : Build}.

(** Loops are addresses; [started_loops] is what the threads' [start_loop] return. *)
Record t := mk {
  _base_loop : Z;
  _started : bool;
  _thread_nums : Z;
  _next : Z;
  _loops : list Z
}.

Definition make (base_loop : Z) : t := mk base_loop false 0 0 [].
Definition set_thread_num (p : t) (thread_num : Z) : t :=
  mk (_base_loop p) (_started p) thread_num (_next p) (_loops p).

(** [start]: [start_loop i] is the loop of the [i]-th thread. *)
Definition start (start_loop : Z -> Z) (p : t) : res t :=
  _ ← assert_ (negb (_started p));
  mret (mk (_base_loop p) true (_thread_nums p) (_next p)
          (_loops p ++ map start_loop (map Z.of_nat (seq 0 (Z.to_nat (_thread_nums p)))))).

(** [_next >= _loops.size()] compares as [size_t]. *)
Definition get_next_loop (p : t) : res (Z * t) :=
  _ ← assert_ (_started p);
  match _loops p with
  | [] => mret (_base_loop p, p)
  | _ =>
      loop ← match _loops p !! Z.to_nat (_next p) with
             | Some l => if _next p <? 0 then Stop UndefinedBehaviour else Ret l
             | None => Stop UndefinedBehaviour
             end;
      next ← i32_checked (_next p + 1);
      mret (loop, mk (_base_loop p) (_started p) (_thread_nums p)
                    (if zlen (_loops p) <=? u64 next then 0 else next) (_loops p))
  end.

Definition get_all_loops (p : t) : res (list Z) :=
  _ ← assert_ (_started p);
  mret match _loops p with [] => [_base_loop p] | loops => loops end.

(** [n] calls of [get_next_loop]. *)
Fixpoint next_loops (n : nat) (p : t) : res (list Z * t) :=
  match n with
  | O => mret ([], p)
  | S n' =>
      '(loop, p) ← get_next_loop p;
      '(loops, p) ← next_loops n' p;
      mret (loop :: loops, p)
  end.
End operations.
End EventLoopThreadPool.

(** ** The properties *)

Module LoopsProps.
Import EventLoop EventLoopSpec.

Lemma poll_quiet s : wakeup_fd s = 0 -> poll_result s [].
Proof. intros E. split; [by intros ?%elem_of_nil | rewrite E; lia]. Qed.

Section thread.
Import EventLoopThread.
Context (body : Functor -> list action).

Record thread_inv (s : EventLoopThread.t) : Prop := mk_thread_inv {
  ti_loop : _loop s = true <-> thread s = Looping \/ thread s = Clearing;
  ti_waiting : owner s = Waiting ->
    thread s = Constructing \/ thread s = Publishing \/ thread s = Finished;
  ti_returned : thread s = Clearing \/ thread s = Finished -> at_ (EventLoopThread.loop s) = Returned;
  ti_created : owner s = Created <-> thread s = Unstarted
}.

Lemma thread_inv_step user s s' : thread_inv s -> EventLoopThread.step body user s s' -> thread_inv s'.
Proof.
  intros [Hl Hw Hr Hc] Hs. destruct Hs as
    [[lp th ow l] Ho Ht|[lp th ow l] Ht|[lp th ow l] Ht|[lp th ow l] Ho|[lp th ow l] Ho
    |[lp th ow l] active l' Ht Hn Hp Hu|[lp th ow l] Ht Ha|[lp th ow l] Ht|[lp th ow l] Ho
    |[lp th ow l] Ho Ht]; cbn in *; subst; unfold publish, check_loop, destroy, clear, start_loop; cbn.
  all: try destruct lp; try destruct th; try destruct ow; constructor; cbn; intuition congruence.
Qed.

(** User code that does not call [quit()]. *)
Definition keeps_running (h : handler) : Prop :=
  match h with WakeupChannel => True | UserChannel script => quit_loop ∉ script end.

(** The loop after an early [quit()]. *)
Record running_inv (s : EventLoopThread.t) : Prop := mk_running_inv {
  ri_owner : owner s = Joining;
  ri_thread : thread s = Looping;
  ri_running : _running (EventLoopThread.loop s) = true;
  ri_todo : quit_loop ∉ todo (EventLoopThread.loop s);
  ri_at : match at_ (EventLoopThread.loop s) with
          | Handling active => Forall keeps_running active
          | Returned => False
          | _ => True
          end
}.

Lemma running_inv_next active l l' :
  (forall cb, quit_loop ∉ body cb) -> Forall keeps_running active ->
  running_inv (EventLoopThread.mk true Looping Joining l) -> next body active l = Some l' ->
  running_inv (EventLoopThread.mk true Looping Joining l').
Proof.
  intros Hbody Hall [_ _ Hrun Ht Ha] Hn. cbn in *. unfold next in Hn.
  destruct (todo l) as [|a rest] eqn:Htodo.
  - destruct (at_ l) as [| | |[|[|script] rest]| |[|cb rest]|] eqn:Hat; try done; injection Hn as <-;
      try rewrite Hrun; try apply Forall_cons in Ha as [? ?]; constructor; cbn; try done;
      by apply not_elem_of_nil.
  - apply not_elem_of_cons in Ht as [Hne Ht]. injection Hn as <-.
    destruct a as [cb|cb|]; [| | done]; unfold exec, queue_in_loop, run_in_loop; cbn;
      try destruct (_calling_pending_functors l); constructor; cbn; try done.
    all: apply not_elem_of_app; auto.
Qed.

Lemma running_inv_reached s s' :
  (forall cb, quit_loop ∉ body cb) -> running_inv s -> EventLoopThread._loop s = true ->
  reachable (fun s0 => s0 = s) (EventLoopThread.step body keeps_running) s' ->
  running_inv s' /\ EventLoopThread._loop s' = true.
Proof.
  intros Hbody Hs Hl.
  apply (reachable_invariant _ _ (fun s => running_inv s /\ EventLoopThread._loop s = true)); [by intros ? -> |].
  intros [lp th ow l] s2 [[Ho Ht Hrun Htd Ha] Hl'] Hst. cbn in *. subst.
  inversion Hst; subst; cbn in *; try done; try congruence.
  - split; [| done]. eapply running_inv_next; eauto. by constructor.
  - by rewrite H0 in Ha.
Qed.

Lemma thread_inv_reached user s : EventLoopThread.reached body user s -> thread_inv s.
Proof.
  apply reachable_invariant; [| intros; by eapply thread_inv_step].
  intros ? ->. constructor; cbn; naive_solver.
Qed.
End thread.

(** C26: [do_pending_functors] calls every functor once, in the order in which
    [queue_in_loop] took them, whatever threads post them and whenever the loop
    takes them out: what was posted is what was called, what is being called and
    what is pending, in this order. *)
Theorem functors_called_in_order body setup n sys (Hr : reached body setup n sys) :
  posted (loop sys) = called (loop sys) ++ taken (loop sys) ++ _pending_functors (loop sys).
Proof. by apply inv_reached in Hr as [Ho _ _ _ _ _]. Qed.

(** C27: no wakeup is lost. Whatever the loop's thread has done before [loop()], and
    whatever others do: while the loop waits in [poll] with functors pending, or after
    a [quit()] that came once [loop()] had begun, the eventfd is readable or a thread
    is on its way to write it. There is one exception, the first [poll]: nothing
    announces the functors that the loop's own thread has queued before it called
    [loop()] ([queued_before_loop_sleeps] shows that it then sleeps). And a [quit()]
    that comes before [loop()] is no such work: [loop()] undoes it
    ([early_quit_is_lost]). *)
Theorem loop_never_sleeps_on_work body setup n sys (Hr : reached body setup n sys)
    (Hp : at_ (loop sys) = Polling)
    (Hwork : _pending_functors (loop sys) <> [] \/ _running (loop sys) = false) :
  0 < wakeup_fd (loop sys) \/ true ∈ waking sys \/
  (setup <> [] /\ _iteratoin (loop sys) = 0 /\ _running (loop sys) = true).
Proof.
  apply inv_reached in Hr as [_ _ _ _ Hpend Hq]. rewrite Hp in *. unfold alarmed in *.
  destruct (_running (loop sys)); [| specialize (Hq eq_refl eq_refl); naive_solver].
  destruct Hwork as [Hwork|]; [| done]. specialize (Hpend eq_refl Hwork). naive_solver.
Qed.

(** Pending functors are called in the iteration that follows: [poll] returns
    the wakeup channel, and the loop reaches its next test with all of them
    called, if user code comes to an end. *)
Theorem pending_functors_run body n sys active
    (Hr : reached body [] n sys) (Hp : at_ (loop sys) = Polling)
    (Hpend : _pending_functors (loop sys) <> []) (Hidle : true ∉ waking sys)
    (Hbody : forall cb, finishes body (body cb))
    (Hpoll : poll_result (loop sys) active) (Huser : Forall (handler_finishes body) active) :
  WakeupChannel ∈ active /\
  exists s0 s1 more, next body active (loop sys) = Some s0 /\ alone body s0 s1 /\ at_ s1 = Test /\
    called s1 = called (loop sys) ++ _pending_functors (loop sys) ++ more.
Proof.
  apply inv_reached in Hr as [_ _ _ Ht Ha _]. rewrite Hp in *. split.
  { apply Hpoll. by destruct (Ha eq_refl Hpend) as [[?|?]|[? _]]. }
  destruct (next body active (loop sys)) as [s0|] eqn:Hn.
  2: { unfold next in Hn. by rewrite Ht, Hp in Hn. }
  destruct (iteration_finishes body Hbody active _ s0 Hp Ht Hn Huser) as (s1 & more & ? & ? & ?).
  by exists s0, s1, more.
Qed.

(** A functor that the loop's own thread queues before it calls [loop()] is
    not announced: no wakeup is written, and the first [poll] waits for some
    other event or its ten seconds. *)
Theorem queued_before_loop_sleeps body cb :
  exists sys, reached body [queue_in_loop_of cb] 0 sys /\ at_ (loop sys) = Polling /\
    _pending_functors (loop sys) = [cb] /\ wakeup_fd (loop sys) = 0 /\ poll_result (loop sys) [].
Proof.
  eexists. split_and!.
  - eapply reach_step; [eapply reach_step; [eapply reach_step; [by apply reach_init |] |] |].
    all: exists (LoopThread []); apply step_loop; [reflexivity | by apply poll_quiet].
  - done.
  - done.
  - done.
  - by apply poll_quiet.
Qed.

(** [start_loop()] waits only before the thread has published its loop (or
    after that loop has returned): its notification is not lost, and [_loop] is
    set exactly while the loop is alive. *)
Theorem start_loop_gets_loop body s
    (Hr : EventLoopThread.reached body (fun _ => True) s) :
  (EventLoopThread._loop s = true <->
     EventLoopThread.thread s = EventLoopThread.Looping \/
     EventLoopThread.thread s = EventLoopThread.Clearing) /\
  (EventLoopThread.owner s = EventLoopThread.Waiting ->
     EventLoopThread.thread s = EventLoopThread.Constructing \/
     EventLoopThread.thread s = EventLoopThread.Publishing \/
     at_ (EventLoopThread.loop s) = Returned).
Proof.
  apply thread_inv_reached in Hr as [Hl Hw Hret _]. split; [done |]. intros Ho.
  destruct (Hw Ho) as [?|[?|?]]; auto.
Qed.

(** [loop()] starts by setting [_running], so a [quit()] that comes between
    [start_loop()] and that point is lost: the destructor of an EventLoopThread
    then joins a thread that never returns. *)
Theorem early_quit_is_lost body (Hbody : forall cb, quit_loop ∉ body cb) :
  exists s, EventLoopThread.reached body keeps_running s /\
    EventLoopThread.owner s = EventLoopThread.Joining /\
    forall s', reachable (fun s0 => s0 = s) (EventLoopThread.step body keeps_running) s' ->
      EventLoopThread.owner s' = EventLoopThread.Joining /\
      EventLoopThread.thread s' = EventLoopThread.Looping.
Proof.
  set (s1 := EventLoopThread.start_loop EventLoopThread.make).
  set (s2 := EventLoopThread.mk false EventLoopThread.Publishing EventLoopThread.Checking
               (EventLoopThread.loop s1)).
  set (s3 := EventLoopThread.publish s2). set (s4 := EventLoopThread.check_loop s3).
  set (s5 := EventLoopThread.destroy s4).
  set (s6 := EventLoopThread.mk true EventLoopThread.Looping EventLoopThread.Joining
               (goto (set_running (EventLoopThread.loop s5) true) Test [])).
  exists s6. split_and!; [| done |].
  - apply (reach_step _ _ s5); [| by apply (EventLoopThread.step_loop _ _ s5 [WakeupChannel]);
      [ | | split; [done | by constructor] | repeat constructor]].
    apply (reach_step _ _ s4); [| by apply EventLoopThread.step_destroy].
    apply (reach_step _ _ s3); [| by apply EventLoopThread.step_check].
    apply (reach_step _ _ s2); [| by apply EventLoopThread.step_publish].
    apply (reach_step _ _ s1); [| by apply EventLoopThread.step_construct].
    apply (reach_step _ _ EventLoopThread.make); [by apply reach_init | by apply EventLoopThread.step_start].
  - intros s' Hr. apply (running_inv_reached body s6) in Hr as [[Ho Ht _ _ _] _]; try done.
    constructor; cbn; try done. by apply not_elem_of_nil.
Qed.

Section pool.
Context {B : Build} (base : Z) (start_loop : Z -> Z) (n : Z) (Hn : n < 2147483648).
Import EventLoopThreadPool.

Definition pool_loops : list Z := map start_loop (map Z.of_nat (seq 0 (Z.to_nat n))).

Lemma pool_base k :
  next_loops k (EventLoopThreadPool.mk base true n 0 [])
  = Ret (replicate k base, EventLoopThreadPool.mk base true n 0 []).
Proof.
  induction k as [|k IH]; [done |]. cbn [next_loops]. unfold get_next_loop. cbn [_started].
  rewrite assert_true by done. cbn [mbind res_bind mret res_ret _loops _base_loop]. by rewrite IH.
Qed.

Lemma map_const_seq {A} (x : A) k : replicate k x = map (fun _ => x) (seq 0 k).
Proof. generalize 0%nat. induction k as [|k IH]; intros i; cbn; [done |]. by f_equal. Qed.

Lemma pool_turns k next :
  0 < n -> 0 <= next < n ->
  exists p, next_loops k (EventLoopThreadPool.mk base true n next pool_loops)
    = Ret (map (fun i => start_loop ((next + Z.of_nat i) mod n)) (seq 0 k), p).
Proof.
  intros Hpos. revert next. induction k as [|k IH]; intros next Hnext; [by eexists |].
  assert (Hlen : zlen pool_loops = n) by (unfold pool_loops; rewrite !length_map, length_seq; lia).
  destruct (IH ((next + 1) mod n)) as (p & E); [by apply Z.mod_pos_bound |].
  exists p. cbn [next_loops seq map]. unfold get_next_loop.
  cbn [_started _loops EventLoopThreadPool._next _base_loop _thread_nums].
  rewrite assert_true by done. cbn [mbind res_bind].
  destruct pool_loops as [|l0 ls] eqn:Hloops; [cbn in Hlen; lia | rewrite <- Hloops in *].
  assert (Hl : pool_loops !! Z.to_nat next = Some (start_loop next)).
  { unfold pool_loops. rewrite map_map, list_lookup_fmap, lookup_seq_lt by lia. cbn. f_equal. f_equal. lia. }
  rewrite Hl, (proj2 (Z.ltb_ge _ _)) by lia. cbn [mbind res_bind].
  rewrite i32_checked_Ret by lia. cbn [mbind res_bind mret res_ret].
  rewrite Hlen, u64_small by lia.
  replace (if n <=? next + 1 then 0 else next + 1) with ((next + 1) mod n).
  2: { destruct (Z.leb_spec n (next + 1)).
       - replace (next + 1) with n by lia. by rewrite Z.mod_same by lia.
       - apply Z.mod_small. lia. }
  rewrite E. cbn [mbind res_bind mret res_ret]. do 3 f_equal.
  - f_equal. rewrite Z.add_0_r. symmetry. by apply Z.mod_small.
  - rewrite <- seq_shift, map_map. apply map_ext. intros i.
    rewrite Zplus_mod_idemp_l. do 2 f_equal. lia.
Qed.
End pool.

(** A started pool of [n] threads hands out its loops in turn, the base loop
    when it has none. *)
Theorem pool_round_robin {B : Build} base start_loop n k (Hn : n < 2147483648) :
  let p := EventLoopThreadPool.set_thread_num (EventLoopThreadPool.make base) n in
  exists p1 p2, EventLoopThreadPool.start start_loop p = Ret p1 /\
    EventLoopThreadPool.next_loops k p1
    = Ret (map (fun i => if n <=? 0 then base else start_loop (Z.of_nat i mod n)) (seq 0 k), p2).
Proof.
  intros p. assert (E : EventLoopThreadPool.start start_loop p
    = Ret (EventLoopThreadPool.mk base true n 0 (pool_loops start_loop n))).
  { unfold EventLoopThreadPool.start. by rewrite assert_true. }
  rewrite E. eexists. destruct (Z.leb_spec n 0).
  - eexists. split; [reflexivity |]. unfold pool_loops. replace (Z.to_nat n) with 0%nat by lia.
    rewrite <- map_const_seq. apply pool_base.
  - edestruct (pool_turns base start_loop n Hn k 0) as (p2 & E2); [done | lia |].
    exists p2. split; [done |]. by rewrite E2.
Qed.

(** *** Witnesses: functor 7 posts functor 8. *)

Definition body78 (cb : Functor) : list action := if cb =? 7 then [queue_in_loop_of 8] else [].

(** Another thread posts 7 while the loop waits in [poll]. *)
Definition posted7 : system :=
  mk_system (wakeup (push_functor 7 (goto (set_running (make []) true) Polling []))) [false].

Lemma posted7_reached : reached body78 [] 1 posted7.
Proof.
  set (s1 := mk_system (goto (set_running (make []) true) Test []) [false]).
  set (s2 := mk_system (goto (set_running (make []) true) Polling []) [false]).
  set (s3 := mk_system (push_functor 7 (loop s2)) [true]).
  apply (reach_step _ _ s3); [| exists (Wakeup 0); by apply (step_wakeup _ 0)].
  apply (reach_step _ _ s2); [| exists (Queue 0 7); by apply (step_queue _ 0)].
  apply (reach_step _ _ s1); [| exists (LoopThread []); by apply step_loop; [| apply poll_quiet]].
  apply (reach_step _ _ (start [] 1)); [by apply reach_init |].
  exists (LoopThread []). by apply step_loop; [| apply poll_quiet].
Qed.

Lemma body78_finishes cb : finishes body78 (body78 cb).
Proof. unfold body78 at 2. destruct (cb =? 7); repeat constructor. Qed.

Lemma functors_called_in_order_witness :
  posted (loop posted7) = called (loop posted7) ++ taken (loop posted7) ++ _pending_functors (loop posted7).
Proof. exact (functors_called_in_order body78 [] 1 posted7 posted7_reached). Defined.

Lemma loop_never_sleeps_on_work_witness : 0 < wakeup_fd (loop posted7) \/ true ∈ waking posted7.
Proof.
  destruct (loop_never_sleeps_on_work body78 [] 1 posted7 posted7_reached) as [H|[H|[H _]]];
    [reflexivity | by left | by left | by right | done].
Defined.

Lemma pending_functors_run_witness :
  WakeupChannel ∈ [WakeupChannel] /\
  exists s0 s1 more, next body78 [WakeupChannel] (loop posted7) = Some s0 /\ alone body78 s0 s1 /\
    at_ s1 = Test /\ called s1 = [] ++ [7] ++ more.
Proof.
  apply (pending_functors_run body78 1 posted7 [WakeupChannel]).
  - exact posted7_reached.
  - reflexivity.
  - done.
  - by intros ?%list_elem_of_singleton.
  - exact body78_finishes.
  - split; [by vm_compute | by constructor].
  - repeat constructor.
Defined.

Lemma start_loop_gets_loop_witness :
  (EventLoopThread._loop EventLoopThread.make = true <->
     EventLoopThread.thread EventLoopThread.make = EventLoopThread.Looping \/
     EventLoopThread.thread EventLoopThread.make = EventLoopThread.Clearing) /\
  (EventLoopThread.owner EventLoopThread.make = EventLoopThread.Waiting ->
     EventLoopThread.thread EventLoopThread.make = EventLoopThread.Constructing \/
     EventLoopThread.thread EventLoopThread.make = EventLoopThread.Publishing \/
     at_ (EventLoopThread.loop EventLoopThread.make) = Returned).
Proof. apply (start_loop_gets_loop body78). by apply reach_init. Defined.

Lemma early_quit_is_lost_witness :
  exists s, EventLoopThread.reached body78 keeps_running s /\
    EventLoopThread.owner s = EventLoopThread.Joining /\
    forall s', reachable (fun s0 => s0 = s) (EventLoopThread.step body78 keeps_running) s' ->
      EventLoopThread.owner s' = EventLoopThread.Joining /\
      EventLoopThread.thread s' = EventLoopThread.Looping.
Proof.
  apply early_quit_is_lost. intros cb. unfold body78. destruct (cb =? 7);
    [by intros ?%list_elem_of_singleton | by intros ?%elem_of_nil].
Defined.

Lemma pool_round_robin_witness :
  let p := EventLoopThreadPool.set_thread_num (EventLoopThreadPool.make 100) 3 in
  exists p1 p2, @EventLoopThreadPool.start {| ndebug := false |} (fun i => 200 + i) p = Ret p1 /\
    @EventLoopThreadPool.next_loops {| ndebug := false |} 4 p1 = Ret ([200; 201; 202; 200], p2).
Proof. exact (@pool_round_robin {| ndebug := false |} 100 (fun i => 200 + i) 3 4 eq_refl). Defined.

End LoopsProps.
