(* ===== verification/TcpConnections.v ===== *)
(** One TCP connection (suduo/net/TcpConnection.h/.cpp) in its loop.

    [Section kernel] takes the system calls as parameters, [Section callbacks]
    the user's callbacks, as the calls they make on their connection. The
    handlers run on the loop's thread, so [assert_in_loop_thread] holds. The
    channel is its state and whether its poller holds it; what the poller makes
    of it is in Pollers.v. *)

From S2P Require Import Prelude.
From S2P Require Import ByteBuffer.
From S2P Require Import Pollers.

(** <errno.h> *)
Definition EWOULDBLOCK : Z := 11.
Definition EPIPE : Z := 32.
Definition ECONNRESET : Z := 104.

Inductive write_result := Wrote (n : Z) | WriteError (errno : Z).

(** The system calls on the connection's socket; the first argument counts the
    calls made so far, so that they need not answer alike twice. [write] also
    depends on whether the connection has shut its writing side down. *)
Class Kernel := {
  k_write : nat -> bool -> list byte -> write_result;
  k_readv : nat -> Z -> list Z -> io_result;
  k_shutdown : nat -> bool;
  k_socket_error : nat -> option Z
}.

(** Their documented behaviour: write(2) and readv(2) move no more than they were
    given room for, and after shutdown(SHUT_WR) writing fails with EPIPE. *)
Class KernelLaws `{Kernel} : Prop := {
  k_write_bounded i fin d n : k_write i fin d = Wrote n -> 0 <= n <= zlen d;
  k_write_shut i d : k_write i true d = WriteError EPIPE;
  k_readv_bounded i : BufferSpec.readv_bounded (k_readv i);
  k_socket_error_ok i : is_Some (k_socket_error i)
}.

Module TcpConnection.

Inductive State := Disconnected | Connecting | Connected | Disconnecting.
#[global] Instance State_eq_dec : EqDecision State.
Proof. solve_decision. Defined.

(** What [run_in_loop] and [queue_in_loop] take. *)
Inductive functor :=
  | SendInLoop (message : list byte)
  | ShutdownInLoop
  | ForceCloseInLoop
  | StartReadInLoop
  | StopReadInLoop
  | WriteComplete
  | HighWaterMark (len : Z)
  | ConnectDestroyed.

(** The callbacks, with what they can see of the connection. *)
Inductive event :=
  | OnConnection (connected : bool)
  | OnMessage (input : Buffer.t)
  | OnWriteComplete
  | OnHighWaterMark (len : Z)
  | OnClose.

(** What a thread, or a callback, calls on a connection; the last one is the
    owner's [queue_in_loop(&TcpConnection::connect_destroyed)]. *)
Inductive call :=
  | send (message : list byte)
  | shutdown
  | force_close
  | force_close_with_delay
  | start_read
  | stop_read
  | retrieve_input (len : Z)
  | queue_connect_destroyed.

Record t := mk {
  _state : State;
  _reading : bool;
  _channel : Channel.t;
  _registered : bool;                  (** the poller holds [_channel] *)
  _write_complete_callback : bool;     (** set, or empty *)
  _high_water_mark_callback : bool;
  _hight_water_mark : Z;
  _input_buffer : Buffer.t;
  _output_buffer : Buffer.t;
  pending : list functor;              (** the loop's [_pending_functors] *)
  delayed : nat;                       (** timers that will call [force_close] *)
  calls : nat;                         (** system calls made *)
  wire : list byte;                    (** bytes the kernel has accepted *)
  fin : bool;                          (** shut down for writing *)
  accepted : list byte;                (** history: the messages [send_in_loop] took *)
  received : list (list byte);         (** history: what each read delivered *)
  log : list event                     (** history: the callbacks that ran *)
}.

Definition make (fd : Z) (write_complete high_water : bool) : t :=
  mk Connecting true (Channel.with_callbacks (Channel.make fd)) false write_complete high_water
     67108864 (Buffer.make 0) (Buffer.make 0) [] 0 0 [] false [] [] [].

Definition set_state (s : t) (st : State) : t :=
  mk st (_reading s) (_channel s) (_registered s) (_write_complete_callback s)
    (_high_water_mark_callback s) (_hight_water_mark s) (_input_buffer s) (_output_buffer s)
    (pending s) (delayed s) (calls s) (wire s) (fin s) (accepted s) (received s) (log s).
Definition set_reading (s : t) (b : bool) : t :=
  mk (_state s) b (_channel s) (_registered s) (_write_complete_callback s)
    (_high_water_mark_callback s) (_hight_water_mark s) (_input_buffer s) (_output_buffer s)
    (pending s) (delayed s) (calls s) (wire s) (fin s) (accepted s) (received s) (log s).
Definition set_channel (s : t) (c : Channel.t) (registered : bool) : t :=
  mk (_state s) (_reading s) c registered (_write_complete_callback s)
    (_high_water_mark_callback s) (_hight_water_mark s) (_input_buffer s) (_output_buffer s)
    (pending s) (delayed s) (calls s) (wire s) (fin s) (accepted s) (received s) (log s).
Definition set_input (s : t) (b : Buffer.t) : t :=
  mk (_state s) (_reading s) (_channel s) (_registered s) (_write_complete_callback s)
    (_high_water_mark_callback s) (_hight_water_mark s) b (_output_buffer s)
    (pending s) (delayed s) (calls s) (wire s) (fin s) (accepted s) (received s) (log s).
Definition set_output (s : t) (b : Buffer.t) : t :=
  mk (_state s) (_reading s) (_channel s) (_registered s) (_write_complete_callback s)
    (_high_water_mark_callback s) (_hight_water_mark s) (_input_buffer s) b
    (pending s) (delayed s) (calls s) (wire s) (fin s) (accepted s) (received s) (log s).
Definition set_pending (s : t) (l : list functor) : t :=
  mk (_state s) (_reading s) (_channel s) (_registered s) (_write_complete_callback s)
    (_high_water_mark_callback s) (_hight_water_mark s) (_input_buffer s) (_output_buffer s)
    l (delayed s) (calls s) (wire s) (fin s) (accepted s) (received s) (log s).
Definition set_delayed (s : t) (n : nat) : t :=
  mk (_state s) (_reading s) (_channel s) (_registered s) (_write_complete_callback s)
    (_high_water_mark_callback s) (_hight_water_mark s) (_input_buffer s) (_output_buffer s)
    (pending s) n (calls s) (wire s) (fin s) (accepted s) (received s) (log s).
(** A system call has been made; it may have moved bytes or shut the socket. *)
Definition syscall (s : t) (written : list byte) (shut : bool) : t :=
  mk (_state s) (_reading s) (_channel s) (_registered s) (_write_complete_callback s)
    (_high_water_mark_callback s) (_hight_water_mark s) (_input_buffer s) (_output_buffer s)
    (pending s) (delayed s) (S (calls s)) (wire s ++ written) (fin s || shut) (accepted s) (received s) (log s).
Definition accept (s : t) (message : list byte) : t :=
  mk (_state s) (_reading s) (_channel s) (_registered s) (_write_complete_callback s)
    (_high_water_mark_callback s) (_hight_water_mark s) (_input_buffer s) (_output_buffer s)
    (pending s) (delayed s) (calls s) (wire s) (fin s) (accepted s ++ message) (received s) (log s).
Definition receive (s : t) (d : list byte) : t :=
  mk (_state s) (_reading s) (_channel s) (_registered s) (_write_complete_callback s)
    (_high_water_mark_callback s) (_hight_water_mark s) (_input_buffer s) (_output_buffer s)
    (pending s) (delayed s) (calls s) (wire s) (fin s) (accepted s) (received s ++ [d]) (log s).
Definition record_event (s : t) (e : event) : t :=
  mk (_state s) (_reading s) (_channel s) (_registered s) (_write_complete_callback s)
    (_high_water_mark_callback s) (_hight_water_mark s) (_input_buffer s) (_output_buffer s)
    (pending s) (delayed s) (calls s) (wire s) (fin s) (accepted s) (received s) (log s ++ [e]).

(** [defaultConnectionCallback] only logs, [defaultMessageCallback] drops the input. *)
Definition default_callbacks (_ : list event) (e : event) : list call :=
  match e with OnMessage buf => [retrieve_input (Buffer.readable_bytes buf)] | _ => [] end.

Definition state_to_string (s : t) : list byte :=
  match _state s with
  | Disconnected => bytes "Disconnected"
  | Connecting => bytes "Connecting"
  | Connected => bytes "Connected"
  | Disconnecting => bytes "Disconnecting"
  end.

Definition connected (s : t) : bool := bool_decide (_state s = Connected).
Definition disconnected (s : t) : bool := bool_decide (_state s = Disconnected).
Definition is_reading (s : t) : bool := _reading s.

(** The channel's calls: the new mask, then [update()], which registers it. *)
Definition channel_events (s : t) (ch : change) : t :=
  set_channel s (Channel.set_events (_channel s) (new_events ch (Channel.events (_channel s)))) true.
Definition channel_remove (s : t) : t := set_channel s (_channel s) false.

Definition queue_in_loop (f : functor) (s : t) : t := set_pending s (pending s ++ [f]).

Section operations.
Context {B : Build} `{Kernel}.

(** [send_in_loop], first part: when nothing is buffered the message goes to the
    socket at once. The result is [nwrote], [remaining] and [fault_error]. *)
Definition write_directly (message : list byte) (s : t) : Z * Z * bool * t :=
  let len := zlen message in
  if negb (Channel.is_writing (_channel s)) && (Buffer.readable_bytes (_output_buffer s) =? 0) then
    match k_write (calls s) (fin s) message with
    | Wrote n =>
        let s := syscall s (take (Z.to_nat n) message) false in
        let remaining := u64 (len - n) in
        (n, remaining, false,
         if (remaining =? 0) && _write_complete_callback s then queue_in_loop WriteComplete s else s)
    | WriteError errno =>
        (0, len, negb (errno =? EWOULDBLOCK) && ((errno =? EPIPE) || (errno =? ECONNRESET)),
         syscall s [] false)
    end
  else (0, len, false, s).

(** Second part: the rest is buffered. *)
Definition high_water (remaining : Z) (s : t) : t :=
  let old_len := Buffer.readable_bytes (_output_buffer s) in
  if (_hight_water_mark s <=? u64 (old_len + remaining)) && (old_len <? _hight_water_mark s)
     && _high_water_mark_callback s
  then queue_in_loop (HighWaterMark (u64 (old_len + remaining))) s else s.

Definition buffer_rest (message : list byte) (nwrote remaining : Z) (s : t) : res t :=
  let s := high_water remaining s in
  b ← Buffer.append (_output_buffer s) (slice nwrote (nwrote + remaining) message);
  let s := accept (set_output s b) message in
  mret (if Channel.is_writing (_channel s) then s else channel_events s enable_writing).

Definition send_in_loop (message : list byte) (s : t) : res t :=
  if bool_decide (_state s = Disconnected) then mret s else
  let '(nwrote, remaining, fault_error, s) := write_directly message s in
  _ ← assert_ (remaining <=? zlen message);
  if negb fault_error && (0 <? remaining) then buffer_rest message nwrote remaining s
  else mret (if fault_error then s else accept s message).

(** [sockets::shutdown_write] aborts the program when shutdown(2) fails. *)
Definition shutdown_in_loop (s : t) : res t :=
  if Channel.is_writing (_channel s) then mret s
  else if k_shutdown (calls s) then mret (syscall s [] true) else Stop Aborted.

Definition start_read_in_loop (s : t) : t :=
  if negb (_reading s) || negb (Channel.is_reading (_channel s))
  then set_reading (channel_events s enable_reading) true else s.
Definition stop_read_in_loop (s : t) : t :=
  if _reading s || Channel.is_reading (_channel s)
  then set_reading (channel_events s disable_reading) false else s.

Definition open (s : t) : bool :=
  bool_decide (_state s = Connected) || bool_decide (_state s = Disconnecting).

(** The public calls. [send] has three overloads: the one on a string and the one
    on a Buffer agree on the bytes sent. *)
Definition api (is_in_loop_thread : bool) (c : call) (s : t) : res t :=
  match c with
  | send message =>
      if bool_decide (_state s = Connected) then
        if is_in_loop_thread then send_in_loop message s
        else mret (queue_in_loop (SendInLoop message) s)
      else mret s
  | shutdown =>
      if bool_decide (_state s = Connected) then
        let s := set_state s Disconnecting in
        if is_in_loop_thread then shutdown_in_loop s else mret (queue_in_loop ShutdownInLoop s)
      else mret s
  | force_close =>
      if open s then mret (queue_in_loop ForceCloseInLoop (set_state s Disconnecting)) else mret s
  | force_close_with_delay =>
      if open s then mret (set_delayed (set_state s Disconnecting) (S (delayed s))) else mret s
  | start_read =>
      mret (if is_in_loop_thread then start_read_in_loop s else queue_in_loop StartReadInLoop s)
  | stop_read =>
      mret (if is_in_loop_thread then stop_read_in_loop s else queue_in_loop StopReadInLoop s)
  | retrieve_input len => mret (set_input s (Buffer.retrieve (_input_buffer s) len))
  | queue_connect_destroyed => mret (queue_in_loop ConnectDestroyed s)
  end.

Fixpoint run_calls (cs : list call) (s : t) : res t :=
  match cs with
  | [] => mret s
  | c :: cs' => s ← api true c s; run_calls cs' s
  end.

Section callbacks.
(** The user's callbacks may keep a state of their own, such as the connection's
    [_context]: it is what they make of the callbacks there were before. *)
Context (user : list event -> event -> list call).

(** A callback runs; it is the user's code, and its calls do not nest. *)
Definition callback (e : event) (s : t) : res t := run_calls (user (log s) e) (record_event s e).

Definition handle_close (s : t) : res t :=
  _ ← assert_ (open s);
  let s := channel_events (set_state s Disconnected) disable_all in
  s ← callback (OnConnection false) s;
  callback OnClose s.

Definition handle_error (s : t) : res t :=
  match k_socket_error (calls s) with
  | Some _ => mret (syscall s [] false)
  | None => Stop Aborted
  end.

Definition handle_read (s : t) : res t :=
  '(n, saved_errno, b) ← Buffer.read_fd (k_readv (calls s)) (_input_buffer s) (Channel.fd (_channel s));
  let s := set_input (syscall s [] false) b in
  if 0 <? n then
    let s := receive s (drop (length (Buffer.content (_input_buffer s)) - Z.to_nat n) (Buffer.content (_input_buffer s))) in
    callback (OnMessage (_input_buffer s)) s
  else if n =? 0 then handle_close s
  else handle_error s.

Definition handle_write (s : t) : res t :=
  if Channel.is_writing (_channel s) then
    d ← Buffer.mem (_output_buffer s) (Buffer.peek (_output_buffer s))
          (Buffer.peek (_output_buffer s) + Buffer.readable_bytes (_output_buffer s));
    match k_write (calls s) (fin s) d with
    | Wrote n =>
        let s := syscall s (take (Z.to_nat n) d) false in
        if 0 <? n then
          let s := set_output s (Buffer.retrieve (_output_buffer s) n) in
          if Buffer.readable_bytes (_output_buffer s) =? 0 then
            let s := channel_events s disable_writing in
            let s := if _write_complete_callback s then queue_in_loop WriteComplete s else s in
            if bool_decide (_state s = Disconnecting) then shutdown_in_loop s else mret s
          else mret s
        else mret s
    | WriteError _ => mret (syscall s [] false)
    end
  else mret s.

Definition connect_established (s : t) : res t :=
  _ ← assert_ (bool_decide (_state s = Connecting));
  let s := set_state s Connected in
  let s := set_channel s (Channel.tie (_channel s) 0) (_registered s) in
  callback (OnConnection true) (channel_events s enable_reading).

Definition connect_destroyed (s : t) : res t :=
  s ← (if bool_decide (_state s = Connected) then
         callback (OnConnection false) (channel_events (set_state s Disconnected) disable_all)
       else mret s);
  mret (channel_remove s).

Definition force_close_in_loop (s : t) : res t :=
  if open s then handle_close s else mret s.

Definition run_functor (f : functor) (s : t) : res t :=
  match f with
  | SendInLoop message => send_in_loop message s
  | ShutdownInLoop => shutdown_in_loop s
  | ForceCloseInLoop => force_close_in_loop s
  | StartReadInLoop => mret (start_read_in_loop s)
  | StopReadInLoop => mret (stop_read_in_loop s)
  | WriteComplete => callback OnWriteComplete s
  | HighWaterMark len => callback (OnHighWaterMark len) s
  | ConnectDestroyed => connect_destroyed s
  end.

(** [do_pending_functors]: what the functors queue waits for the next round. *)
Fixpoint run_functors (fs : list functor) (s : t) : res t :=
  match fs with
  | [] => mret s
  | f :: fs' => s ← run_functor f s; run_functors fs' s
  end.
Definition do_pending_functors (s : t) : res t :=
  run_functors (pending s) (set_pending s []).

(** [Channel::handle_event] on the connection's channel. *)
Definition run_handler (cb : Channel.callback) (s : t) : res t :=
  match cb with
  | Channel.OnClose => handle_close s
  | Channel.OnError => handle_error s
  | Channel.OnRead => handle_read s
  | Channel.OnWrite => handle_write s
  end.
Fixpoint run_handlers (cbs : list Channel.callback) (s : t) : res t :=
  match cbs with
  | [] => mret s
  | cb :: cbs' => s ← run_handler cb s; run_handlers cbs' s
  end.
Definition handle_event (revents : Z) (s : t) : res t :=
  run_handlers (Channel.handle_event (fun _ => true) (Channel.set_revents (_channel s) revents)) s.

(** What happens to a connection: its owner establishes it, threads call it, its
    channel is ready, the loop runs what is pending, a timer of
    [force_close_with_delay] expires. *)
Inductive input :=
  | Establish
  | Call (is_in_loop_thread : bool) (c : call)
  | Ready (revents : Z)
  | Pending
  | Expire.

Definition step (i : input) (s : t) : res t :=
  match i with
  | Establish => connect_established s
  | Call b c => api b c s
  | Ready revents => handle_event revents s
  | Pending => do_pending_functors s
  | Expire => api true force_close (set_delayed s (pred (delayed s)))
  end.

Fixpoint run (inputs : list input) (s : t) : res t :=
  match inputs with
  | [] => mret s
  | i :: inputs' => s ← step i s; run inputs' s
  end.
End callbacks.
End operations.

(** The close callbacks a connection has made. *)
Definition closes (l : list event) : nat :=
  count (fun e => match e with OnClose => true | _ => false end) l.

End TcpConnection.

(** ** Invariants *)

Module ConnectionSpec.
Import TcpConnection.

(** A call succeeds with [Q], or a buffer has outgrown its vector. *)
Definition outcome {A} (Q : A -> Prop) (m : res A) : Prop :=
  match m with Ret a => Q a | Stop f => f = LengthError end.

Lemma outcome_bind {A C} (P : A -> Prop) (Q : C -> Prop) m (k : A -> res C) :
  outcome P m -> (forall a, P a -> outcome Q (k a)) -> outcome Q (m ≫= k).
Proof. destruct m; cbn; auto. Qed.

Lemma outcome_mono {A} (P Q : A -> Prop) m : outcome P m -> (forall a, P a -> Q a) -> outcome Q m.
Proof. destruct m; cbn; auto. Qed.

Definition writing (s : t) : bool := Channel.is_writing (_channel s).
Definition output (s : t) : list byte := Buffer.content (_output_buffer s).
Definition events (s : t) : Z := Channel.events (_channel s).

(** A functor that may be pending in state [st]. *)
Definition functor_ok (st : State) (f : functor) : Prop :=
  match f with
  | SendInLoop message => zlen message <= int64_max /\ st <> Connecting
  | StartReadInLoop | StopReadInLoop => False
  | WriteComplete | HighWaterMark _ => st <> Connecting
  | ConnectDestroyed => st = Disconnected
  | _ => True
  end.

Record core (s : t) : Prop := mk_core {
  c_input : Buffer.wf (_input_buffer s);
  c_output : Buffer.wf (_output_buffer s);
  (** what was accepted is on the wire or buffered, in order *)
  c_stream : wire s ++ output s = accepted s;
  (** buffered bytes wait for the socket to be writable *)
  c_writing : _state s <> Disconnected -> writing s = bool_decide (output s <> []);
  c_closed : _state s = Disconnected -> events s = 0;
  c_events : events s = 0 \/ events s = 3 \/ events s = 4 \/ events s = 7;
  c_fin : fin s = true -> _state s <> Disconnected -> output s = [];
  c_pending : Forall (functor_ok (_state s)) (pending s);
  c_callbacks : Channel._read_callback (_channel s) = true /\ Channel._write_callback (_channel s) = true /\
    Channel._close_callback (_channel s) = true /\ Channel._error_callback (_channel s) = true;
  c_tie : Channel._tied (_channel s) = true -> Channel._tie (_channel s) = Some 0
}.

(** Steps that run no callback. *)
Record calm (s s' : t) : Prop := mk_calm {
  m_log : log s' = log s;
  m_closed : _state s' = Disconnected <-> _state s = Disconnected;
  m_fresh : _state s' = Connecting <-> _state s = Connecting;
  m_pending : exists more, pending s' = pending s ++ more
}.
#[global] Instance calm_refl : Reflexive calm.
Proof. intros s. constructor; try done. exists []. by rewrite app_nil_r. Qed.
#[global] Instance calm_trans : Transitive calm.
Proof.
  intros s1 s2 s3 [L1 C1 F1 [m1 P1]] [L2 C2 F2 [m2 P2]]. constructor.
  - congruence.
  - by rewrite C2.
  - by rewrite F2.
  - exists (m1 ++ m2). by rewrite P2, P1, app_assoc.
Qed.

(** The calls a callback may make: messages of a possible size, reads of the
    input buffer; reading is not switched once the connection is down. *)
Definition call_ok (is_in_loop_thread : bool) (st : State) (c : call) : Prop :=
  match c with
  | send message => zlen message <= int64_max
  | retrieve_input len => 0 <= len
  | start_read | stop_read => is_in_loop_thread = true /\ st <> Disconnected
  | queue_connect_destroyed => st = Disconnected
  | _ => True
  end.

Section core.
Context {B : Build} `{KernelLaws} (Hshut : forall i, k_shutdown i = true).

Lemma readable_output s : core s -> Buffer.readable_bytes (_output_buffer s) = zlen (output s).
Proof. intros Hc. apply BufferSpec.readable_bytes_content, Hc. Qed.

Lemma zlen_zero {A} (l : list A) : (zlen l =? 0) = bool_decide (l = []).
Proof. destruct l; [done |]. rewrite bool_decide_false by done. apply Z.eqb_neq. cbn. lia. Qed.

(** Queuing a functor changes nothing else. *)
Lemma core_queue s f : core s -> functor_ok (_state s) f -> core (queue_in_loop f s).
Proof.
  intros [] Hf. constructor; cbn; try done. apply Forall_app. by split; [| apply Forall_singleton].
Qed.

Lemma calm_queue s f : calm s (queue_in_loop f s).
Proof. constructor; try done. by exists [f]. Qed.

Lemma core_syscall s d message :
  core s -> wire s ++ d ++ output s = accepted s ++ message ->
  core (accept (syscall s d false) message).
Proof.
  intros [] E. constructor; cbn in *; try done; [| by rewrite orb_false_r].
  unfold output in *. cbn. by rewrite <- app_assoc.
Qed.

Lemma core_accept_nil s : core (accept s []) <-> core s.
Proof.
  split; intros []; constructor; cbn in *; try done.
  - by rewrite app_nil_r in *.
  - by rewrite app_nil_r.
Qed.

Lemma calm_syscall s d shut : calm s (syscall s d shut).
Proof. constructor; try done. exists []. by rewrite app_nil_r. Qed.

Lemma write_directly_ok message s :
  core s -> zlen message <= int64_max -> _state s <> Disconnected -> _state s <> Connecting ->
  let '(nwrote, remaining, fault, s1) := write_directly message s in
  calm s s1 /\ _state s1 = _state s /\ core (accept s1 (take (Z.to_nat nwrote) message)) /\
  0 <= nwrote /\ nwrote + remaining = zlen message /\ 0 <= remaining /\
  if fault then nwrote = 0 else fin s1 = false.
Proof.
  intros Hc Hlen Hst Hst'. unfold int64_max in Hlen. unfold write_directly. rewrite readable_output, zlen_zero by done.
  fold (writing s). rewrite (c_writing _ Hc) by done.
  destruct (output s) as [|x out] eqn:Hout.
  2: { rewrite !bool_decide_true, bool_decide_false by done. cbn [negb andb].
       split_and!; try done; try lia; [by apply core_accept_nil |].
       destruct (fin s) eqn:Hf; [| done]. by rewrite (c_fin _ Hc) in Hout. }
  rewrite bool_decide_false, bool_decide_true by auto. cbn [negb andb].
  destruct (k_write (calls s) (fin s) message) as [n|errno] eqn:Hk.
  - pose proof (k_write_bounded _ _ _ _ Hk) as Hn. rewrite u64_small by lia.
    assert (fin s = false).
    { destruct (fin s); [| done]. by rewrite k_write_shut in Hk. }
    assert (core (accept (syscall s (take (Z.to_nat n) message) false) (take (Z.to_nat n) message)))
      as Hc1.
    { apply core_syscall; [done |]. rewrite Hout, app_nil_r, <- (c_stream _ Hc).
      by rewrite Hout, app_nil_r. }
    destruct (_ && _).
    + split_and!; try done; try lia; [| | cbn; by rewrite orb_false_r].
      * by etrans; [apply calm_syscall | apply calm_queue].
      * by apply (core_queue _ WriteComplete) in Hc1.
    + split_and!; try done; try lia; [apply calm_syscall | cbn; by rewrite orb_false_r].
  - assert (core (accept (syscall s [] false) (take (Z.to_nat 0) message))).
    { apply core_syscall; [done |]. by rewrite app_nil_r, <- (c_stream _ Hc). }
    split_and!; try done; try lia; [apply calm_syscall |].
    destruct (negb _ && _) eqn:Hfault; [done |]. cbn.
    destruct (fin s); [| done]. rewrite k_write_shut in Hk. by injection Hk as <-.
Qed.

Lemma high_water_ok remaining s :
  core s -> _state s <> Connecting -> core (high_water remaining s) /\ calm s (high_water remaining s) /\
    _state (high_water remaining s) = _state s /\
    high_water remaining s = set_pending s (pending (high_water remaining s)).
Proof.
  intros Hc Hst'. unfold high_water. destruct (_ && _).
  - split_and!; [by apply core_queue | apply calm_queue | done | done].
  - split_and!; try done. by destruct s.
Qed.

(** The masks a connection uses, and what the channel's calls make of them. *)
Definition masks (ev : Z) : Prop := ev = 0 \/ ev = 3 \/ ev = 4 \/ ev = 7.

Lemma masks_new ch ev : masks ev -> masks (new_events ch ev).
Proof. unfold masks. intros [-> | [-> | [-> | ->]]]; destruct ch; vm_compute; auto. Qed.

Lemma writing_channel_events s ch :
  masks (events s) ->
  writing (channel_events s ch)
  = match ch with
    | enable_writing => true
    | disable_writing | disable_all => false
    | _ => writing s
    end.
Proof.
  unfold masks, events, writing, channel_events, Channel.is_writing, Channel.events, Channel.set_events.
  cbn. intros [-> | [-> | [-> | ->]]]; by destruct ch.
Qed.

Lemma core_channel_events s ch :
  core s -> (_state s <> Disconnected -> writing (channel_events s ch) = writing s) ->
  (_state s = Disconnected -> ch = disable_all \/ ch = disable_writing) ->
  core (channel_events s ch).
Proof.
  intros [? ? ? Hw Hcl Hev ? ? ? ?] Hsame Hdown. constructor; try done.
  - intros Hst. rewrite Hsame by done. by apply Hw.
  - intros Hst. specialize (Hcl Hst). specialize (Hdown Hst).
    unfold events, channel_events, events in *. cbn in *. unfold Channel.events in *. cbn. rewrite Hcl.
    by destruct Hdown as [->| ->].
  - by apply masks_new.
Qed.

Lemma core_buffered s b d :
  core s -> _state s <> Disconnected -> fin s = false -> d <> [] ->
  BufferSpec.extended (_output_buffer s) b d ->
  let s1 := accept (set_output s b) d in
  core (if writing s1 then s1 else channel_events s1 enable_writing).
Proof.
  intros Hc Hst Hfin Hd (Hwf & Hcont & _) s1.
  assert (Hne : output s1 <> []).
  { unfold output. cbn. rewrite Hcont. intros [_ ?]%app_nil. done. }
  assert (Hstream : wire s1 ++ output s1 = accepted s1).
  { unfold output. cbn. rewrite Hcont, app_assoc. f_equal. apply Hc. }
  destruct Hc as [? ? ? ? ? Hev ? ? ? ?]. destruct (writing s1) eqn:Hw.
  - constructor; try done; cbn; [by rewrite bool_decide_true | by rewrite Hfin].
  - constructor; try done; [| by apply masks_new | cbn; by rewrite Hfin].
    intros _. rewrite writing_channel_events by done. by rewrite bool_decide_true.
Qed.

Lemma calm_channel_events s ch : calm s (channel_events s ch).
Proof. constructor; try done. exists []. by rewrite app_nil_r. Qed.

Lemma accept_accept s m1 m2 : accept (accept s m1) m2 = accept s (m1 ++ m2).
Proof. destruct s. unfold accept. cbn. by rewrite app_assoc. Qed.

Lemma high_water_accept remaining s m : high_water remaining (accept s m) = accept (high_water remaining s) m.
Proof. unfold high_water. cbn. by destruct (_ && _). Qed.

Lemma buffer_rest_ok message nwrote remaining s :
  core (accept s (take (Z.to_nat nwrote) message)) -> _state s <> Disconnected ->
  _state s <> Connecting -> fin s = false -> zlen message <= int64_max -> 0 <= nwrote -> nwrote + remaining = zlen message -> 0 < remaining ->
  outcome (fun s' => core s' /\ calm s s') (buffer_rest message nwrote remaining s).
Proof.
  intros Hc Hst Hst' Hfin Hlen Hn Hsum Hpos. unfold buffer_rest.
  set (rest := slice nwrote (nwrote + remaining) message).
  assert (Hrest : take (Z.to_nat nwrote) message ++ rest = message).
  { unfold rest, slice. rewrite (take_ge (drop _ _)) by (rewrite length_drop; lia). apply take_drop. }
  assert (Hrl : zlen rest = remaining) by (unfold rest; rewrite slice_length; lia).
  destruct (high_water_ok remaining _ Hc Hst') as (Hc2 & Hcalm2 & Hst2 & E2).
  rewrite high_water_accept in Hc2, Hcalm2, Hst2, E2.
  set (s2 := high_water remaining s) in *.
  destruct (BufferSpec.append_total (_output_buffer s2) rest) as [(b & -> & Hb)|[-> _]];
    [apply Hc2 | lia | | done].
  cbn [mbind res_bind mret res_ret outcome].
  pose proof (core_buffered (accept s2 (take (Z.to_nat nwrote) message)) b rest Hc2) as Hcore.
  change (accept (set_output (accept s2 (take (Z.to_nat nwrote) message)) b) rest)
    with (accept (accept (set_output s2 b) (take (Z.to_nat nwrote) message)) rest) in Hcore.
  rewrite accept_accept, Hrest in Hcore. unfold writing in Hcore.
  assert (Hcs : calm s (accept (set_output s2 b) message)).
  { destruct Hcalm2. constructor; try done. }
  split.
  - apply Hcore; try done.
    + cbn in Hst2 |- *. by rewrite Hst2.
    + rewrite (f_equal fin E2). cbn. done.
    + intros E. rewrite E in Hrl. cbn in Hrl. lia.
  - destruct (Channel.is_writing _); [done |]. by etrans; [| apply calm_channel_events].
Qed.

Lemma send_in_loop_ok message s :
  core s -> zlen message <= int64_max -> _state s <> Connecting ->
  outcome (fun s' => core s' /\ calm s s') (send_in_loop message s).
Proof.
  intros Hc Hlen Hst'. unfold send_in_loop. case_bool_decide as Hst; [done |].
  pose proof (write_directly_ok message s Hc Hlen Hst Hst') as Hd.
  destruct (write_directly message s) as [[[nwrote remaining] fault] s1].
  destruct Hd as (Hcalm & Hst1 & Hc1 & Hn & Hsum & Hr & Hf).
  rewrite assert_true by (apply Z.leb_le; lia). cbn [mbind res_bind].
  destruct fault; cbn [negb andb].
  { subst nwrote. split; [by apply core_accept_nil | done]. }
  destruct (Z.ltb_spec 0 remaining) as [Hpos|Hz]; cbn [andb].
  2: { split; [| destruct Hcalm; by constructor]. by rewrite take_ge in Hc1 by lia. }
  apply outcome_mono with (P := fun s' => core s' /\ calm s1 s').
  2: { intros s' [? ?]. split; [done |]. by etrans. }
  apply buffer_rest_ok; try done; lia || congruence.
Qed.

Lemma shutdown_in_loop_ok s :
  core s -> outcome (fun s' => core s' /\ calm s s') (shutdown_in_loop s).
Proof.
  intros Hc. unfold shutdown_in_loop. fold (writing s). destruct (writing s) eqn:Hw; [done |].
  rewrite Hshut. split; [| apply calm_syscall]. destruct Hc as [? ? Hs Hwr ? ? ? ? ? ?].
  constructor; try done; cbn.
  - unfold output in *. cbn. by rewrite app_nil_r.
  - intros _ Hst. specialize (Hwr Hst). rewrite Hw in Hwr. symmetry in Hwr.
    apply bool_decide_eq_false in Hwr. by destruct (decide (output s = [])).
Qed.

Lemma functor_ok_mono st st' f :
  (st = Disconnected -> st' = Disconnected) -> (st <> Connecting -> st' <> Connecting) ->
  functor_ok st f -> functor_ok st' f.
Proof. destruct f; cbn; naive_solver. Qed.

Lemma open_spec s : open s = true <-> _state s = Connected \/ _state s = Disconnecting.
Proof. unfold open. rewrite orb_true_iff, !bool_decide_eq_true. done. Qed.

Lemma core_disconnecting s :
  core s -> open s = true -> core (set_state s Disconnecting) /\ calm s (set_state s Disconnecting).
Proof.
  intros [? ? ? Hw ? ? Hf Hp ? ?] Ho%open_spec. split.
  - constructor; try done; cbn.
    + intros _. apply Hw. destruct Ho; congruence.
    + intros Hfin _. apply Hf; [done |]. destruct Ho; congruence.
    + eapply Forall_impl; [exact Hp |]. intros f. apply functor_ok_mono; destruct Ho; congruence.
  - constructor; cbn; try done; [| | exists []; by rewrite app_nil_r]; destruct Ho as [-> | ->]; done.
Qed.

Lemma core_pending s l :
  core s -> Forall (functor_ok (_state s)) l -> core (set_pending s l).
Proof. intros [] Hl. by constructor. Qed.

Lemma core_reading s b : core s -> core (set_reading s b) /\ calm s (set_reading s b).
Proof. intros []. split; constructor; try done. exists []. by rewrite app_nil_r. Qed.

Lemma core_input s b : core s -> Buffer.wf b -> core (set_input s b) /\ calm s (set_input s b).
Proof. intros [] Hb. split; constructor; try done. exists []. by rewrite app_nil_r. Qed.

Lemma start_read_ok s :
  core s -> _state s <> Disconnected ->
  (core (start_read_in_loop s) /\ calm s (start_read_in_loop s)) /\
  (core (stop_read_in_loop s) /\ calm s (stop_read_in_loop s)).
Proof.
  intros Hc Hst. unfold start_read_in_loop, stop_read_in_loop.
  assert (Hev : forall ch, ch = enable_reading \/ ch = disable_reading ->
            forall b, core (set_reading (channel_events s ch) b) /\ calm s (set_reading (channel_events s ch) b)).
  { intros ch Hch b. destruct (core_reading (channel_events s ch) b) as [? ?].
    { apply core_channel_events; [done | | done]. intros _.
      rewrite writing_channel_events by apply Hc. by destruct Hch as [-> | ->]. }
    split; [done |]. by etrans; [apply calm_channel_events |]. }
  split; destruct (_ || _); first [apply Hev; auto | done].
Qed.

Lemma api_ok b c s :
  core s -> _state s <> Connecting -> call_ok b (_state s) c ->
  outcome (fun s' => core s' /\ calm s s') (api b c s).
Proof.
  intros Hc Hst Hcall. destruct c as [message| | | | | |len|]; cbn [api]; cbn in Hcall.
  - case_bool_decide as Hs; [| done]. destruct b; [by apply send_in_loop_ok |].
    split; [by apply core_queue | apply calm_queue].
  - case_bool_decide as Hs; [| done]. destruct (core_disconnecting s Hc) as [Hc' Hcalm].
    { apply open_spec. by left. }
    destruct b.
    + apply outcome_mono with (1 := shutdown_in_loop_ok _ Hc'). intros s' [? ?].
      split; [done | by etrans].
    + split; [by apply core_queue | by etrans; [| apply calm_queue]].
  - destruct (open s) eqn:Ho; [| done]. destruct (core_disconnecting s Hc Ho) as [Hc' Hcalm].
    split; [by apply core_queue | by etrans; [| apply calm_queue]].
  - destruct (open s) eqn:Ho; [| done]. destruct (core_disconnecting s Hc Ho) as [[] []].
    split; by constructor.
  - destruct Hcall as [-> Hd]. by apply start_read_ok.
  - destruct Hcall as [-> Hd]. by apply start_read_ok.
  - apply core_input; [done |]. apply BufferSpec.retrieve_wf; [apply Hc | done].
  - split; [by apply core_queue | apply calm_queue].
Qed.

Lemma call_ok_mono b st st' c :
  (st = Disconnected <-> st' = Disconnected) -> call_ok b st c -> call_ok b st' c.
Proof. destruct c; cbn; naive_solver. Qed.

Lemma run_calls_ok cs s :
  core s -> _state s <> Connecting -> Forall (call_ok true (_state s)) cs ->
  outcome (fun s' => core s' /\ calm s s') (run_calls cs s).
Proof.
  revert s. induction cs as [|c cs IH]; intros s Hc Hst Hall; [done |].
  apply Forall_cons in Hall as [Hc1 Hall]. cbn [run_calls].
  eapply outcome_bind; [by apply api_ok |]. intros s1 [Hcore Hcalm].
  eapply outcome_mono; [apply IH; [done | |] |].
  - by rewrite (m_fresh _ _ Hcalm).
  - eapply Forall_impl; [exact Hall |]. intros c'. apply call_ok_mono. by rewrite (m_closed _ _ Hcalm).
  - intros s2 [? ?]. split; [done | by etrans].
Qed.

(** *** Callbacks and the connection's life *)

(** In which state a callback can find its connection, and its input buffer. *)
Definition possible (e : event) (st : State) : Prop :=
  match e with
  | OnConnection up => if up : bool then st <> Disconnected else st = Disconnected
  | OnMessage buf => Buffer.wf buf /\ st <> Disconnected
  | OnClose => st = Disconnected
  | _ => True
  end.

Context (user : list event -> event -> list call).
Context (Huser : forall h e st, possible e st -> Forall (call_ok true st) (user h e)).

Lemma callback_ok e s :
  core s -> _state s <> Connecting -> possible e (_state s) ->
  outcome (fun s' => core s' /\ calm (record_event s e) s') (callback user e s).
Proof.
  intros Hc Hst Hp. unfold callback. apply run_calls_ok; [| done | by apply Huser].
  by destruct Hc.
Qed.

Definition traffic (e : event) : Prop :=
  match e with OnMessage _ | OnWriteComplete | OnHighWaterMark _ => True | _ => False end.
Definition late (e : event) : Prop :=
  match e with OnWriteComplete | OnHighWaterMark _ => True | _ => False end.

(** The callbacks a connection has had: up; traffic; down and close, once. *)
Definition log_ok (st : State) (l : list event) : Prop :=
  match st with
  | Connecting => l = []
  | Connected | Disconnecting => exists m, l = OnConnection true :: m /\ Forall traffic m
  | Disconnected => exists m n, l = OnConnection true :: m ++ OnConnection false :: OnClose :: n /\
      Forall traffic m /\ Forall late n
  end.

Lemma log_ok_calm s s' : calm s s' -> log_ok (_state s) (log s) -> log_ok (_state s') (log s').
Proof.
  intros [El Hd Hf _]. rewrite El.
  destruct (_state s), (_state s'); cbn; try done; naive_solver.
Qed.

Lemma log_ok_traffic st l e :
  st <> Connecting -> traffic e -> (st = Disconnected -> late e) -> log_ok st l -> log_ok st (l ++ [e]).
Proof.
  intros Hst He Hl. destruct st; cbn; try done.
  - intros (m & n & -> & Hm & Hn). exists m, (n ++ [e]). cbn. rewrite <- app_assoc. split_and!; try done.
    apply Forall_app. split; [done |]. apply Forall_singleton. auto.
  - intros (m & -> & Hm). exists (m ++ [e]). split; [done |].
    apply Forall_app. split; [done | by apply Forall_singleton].
  - intros (m & -> & Hm). exists (m ++ [e]). split; [done |].
    apply Forall_app. split; [done | by apply Forall_singleton].
Qed.

(** A connection has called back its close once when it is down, never before. *)
Lemma closes_app l k : closes (l ++ k) = (closes l + closes k)%nat.
Proof. unfold closes. induction l as [|e l IH]; cbn; [done |]. rewrite IH. lia. Qed.
Lemma closes_none (P : event -> Prop) l :
  (forall e, P e -> e <> OnClose) -> Forall P l -> closes l = 0%nat.
Proof.
  intros HP. unfold closes. induction 1 as [|e l He _ IH]; cbn; [done |].
  rewrite IH. apply HP in He. by destruct e.
Qed.
Lemma closes_log st l :
  log_ok st l -> closes l = if bool_decide (st = Disconnected) then 1%nat else 0%nat.
Proof.
  assert (Ht : forall e, traffic e -> e <> OnClose) by (by intros [] ?).
  assert (Hl : forall e, late e -> e <> OnClose) by (by intros [] ?).
  destruct st; cbn.
  - intros (m & n & -> & Hm & Hn). change (?x :: m ++ ?y :: ?z :: n) with ([x] ++ m ++ [y] ++ [z] ++ n).
    rewrite !closes_app, (closes_none _ m Ht Hm), (closes_none _ n Hl Hn). done.
  - by intros ->.
  - intros (m & -> & Hm). change (?x :: m) with ([x] ++ m). by rewrite closes_app, (closes_none _ m Ht Hm).
  - intros (m & -> & Hm). change (?x :: m) with ([x] ++ m). by rewrite closes_app, (closes_none _ m Ht Hm).
Qed.

Record inv (s : t) : Prop := mk_inv { inv_core : core s; inv_log : log_ok (_state s) (log s) }.

(** A connection does not come back. *)
Record later (s s' : t) : Prop := mk_later {
  l_closed : _state s = Disconnected -> _state s' = Disconnected;
  l_fresh : _state s <> Connecting -> _state s' <> Connecting
}.
#[global] Instance later_refl : Reflexive later.
Proof. by constructor. Qed.
#[global] Instance later_trans : Transitive later.
Proof. intros s1 s2 s3 [] []. constructor; auto. Qed.
Lemma calm_later s s' : calm s s' -> later s s'.
Proof. intros [_ Hd Hf _]. constructor; [apply Hd | by rewrite Hf]. Qed.

Definition good (s s' : t) : Prop := inv s' /\ later s s'.

Lemma calm_good s s' : inv s -> core s' /\ calm s s' -> good s s'.
Proof.
  intros Hi [Hc Hm]. split; [| by apply calm_later]. constructor; [done |].
  eapply log_ok_calm; [done | apply Hi].
Qed.

Lemma callback_traffic_ok e s :
  inv s -> _state s <> Connecting -> possible e (_state s) -> traffic e ->
  (_state s = Disconnected -> late e) -> outcome (good s) (callback user e s).
Proof.
  intros Hi Hst Hp He Hl. eapply outcome_mono; [by apply callback_ok; [apply Hi | |] |].
  intros s' [Hc Hm]. split; [constructor; [done |] |].
  - eapply log_ok_calm; [exact Hm |]. apply log_ok_traffic; try done. apply Hi.
  - destruct Hm as [_ Hd Hf _]. constructor; [apply Hd | by rewrite Hf].
Qed.

Lemma core_closed s :
  core s -> core (channel_events (set_state s Disconnected) disable_all).
Proof.
  intros []. constructor; try done; cbn.
  - by left.
  - eapply Forall_impl; [done |]. intros f. apply functor_ok_mono; done.
Qed.

(** What closing does, whatever the state was. *)
Lemma close_calls_back s :
  core (channel_events (set_state s Disconnected) disable_all) ->
  outcome (fun s' => core s' /\ _state s' = Disconnected /\ log s' = log s ++ [OnConnection false; OnClose])
    (s ← callback user (OnConnection false) (channel_events (set_state s Disconnected) disable_all);
     callback user OnClose s).
Proof.
  intros Hc1. eapply outcome_bind; [by apply callback_ok |]. intros s2 [Hc2 [El2 Hd2 Hf2 _]].
  assert (Hst2 : _state s2 = Disconnected) by (by apply Hd2).
  eapply outcome_mono; [apply callback_ok; [done | by rewrite Hst2 | by rewrite Hst2] |].
  intros s3 [Hc3 [El3 Hd3 _ _]]. split_and!; [done | by apply Hd3 |].
  rewrite El3. cbn [log record_event]. rewrite El2. cbn [log record_event]. by rewrite <- app_assoc.
Qed.

Lemma handle_close_ok s : inv s -> open s = true -> outcome (good s) (handle_close user s).
Proof.
  intros [Hc Hl] Ho. unfold handle_close. rewrite assert_true by done. cbn [mbind res_bind].
  eapply outcome_mono; [by apply close_calls_back, core_closed |]. intros s3 (Hc3 & Hst3 & El3).
  split; [constructor; [done |] |].
  - rewrite Hst3, El3. apply open_spec in Ho.
    assert (exists m, log s = OnConnection true :: m /\ Forall traffic m) as (m & -> & Hm)
      by (destruct Ho as [Ho | Ho]; by rewrite Ho in Hl).
    exists m, []. by split_and!.
  - by constructor; rewrite Hst3.
Qed.

Lemma handle_error_ok s : core s -> outcome (fun s' => core s' /\ calm s s') (handle_error s).
Proof.
  intros Hc. unfold handle_error. destruct (k_socket_error_ok (calls s)) as [e ->].
  split; [| apply calm_syscall]. apply core_accept_nil, core_syscall; [done |].
  rewrite app_nil_r. apply Hc.
Qed.

Lemma core_syscall_nil s : core s -> core (syscall s [] false) /\ calm s (syscall s [] false).
Proof.
  intros Hc. split; [| apply calm_syscall]. apply core_accept_nil, core_syscall; [done |].
  rewrite app_nil_r. apply Hc.
Qed.

Lemma good_trans s1 s2 s3 : good s1 s2 -> good s2 s3 -> good s1 s3.
Proof. intros [_ ?] [? ?]. split; [done | by etrans]. Qed.

(** The bytes of the socket go to the input buffer and the message callback. *)
Lemma received_ok s b :
  inv s -> open s = true -> Buffer.wf b ->
  let s1 := set_input (syscall s [] false) b in good s s1 /\ open s1 = true.
Proof.
  intros Hi Ho Hb s1. split; [| done]. apply calm_good; [done |].
  destruct (core_syscall_nil s) as [Hc Hm]; [apply Hi |].
  destruct (core_input _ b Hc Hb) as [? ?]. split; [done | by etrans].
Qed.

Lemma receive_good s s1 d : good s s1 -> good s (receive s1 d).
Proof. intros [[Hc Hl] [Hd Hf]]. split; [| by constructor]. constructor; [by destruct Hc | done]. Qed.

Lemma handle_read_ok s : inv s -> open s = true -> outcome (good s) (handle_read user s).
Proof.
  intros Hi Ho. pose proof (proj1 (open_spec _) Ho) as Hst. unfold handle_read, Buffer.read_fd.
  set (fd := Channel.fd (_channel s)).
  assert (Hread : outcome (fun r => Buffer.wf r.2 /\ (r.1.1 = -1 \/ 0 <= r.1.1))
            (Buffer.read_fd (k_readv (calls s)) (_input_buffer s) fd)).
  { pose proof (c_input _ (inv_core _ Hi)) as Hb.
    destruct (k_readv (calls s) fd (Buffer.read_fd_vec (_input_buffer s))) as [d|e] eqn:Hk.
    - destruct (BufferSpec.read_fd_total (k_readv (calls s)) _ fd d Hb Hk) as [(b' & -> & Hb' & _)|[-> _]];
        [by eapply k_readv_bounded | | done].
      cbn. split; [done | right; lia].
    - unfold Buffer.read_fd. rewrite Hk. cbn. auto. }
  eapply outcome_bind; [exact Hread |]. intros [[n e] b] [Hb Hn]. cbn [fst snd] in *.
  destruct (received_ok s b Hi Ho Hb) as [Hg1 Ho1]. set (s1 := set_input _ _) in *.
  assert (Hst1 : _state s1 <> Connecting /\ _state s1 <> Disconnected)
    by (destruct Hst as [E | E]; cbn; rewrite E; done).
  destruct (0 <? n); [| destruct (n =? 0)].
  - eapply outcome_mono; [apply callback_traffic_ok; try done; [apply (receive_good _ _ _ Hg1) | apply Hst1 | split; [done | apply Hst1] | intros Hd; by destruct (proj2 Hst1)] |].
    intros s2 H2. eapply good_trans; [by apply receive_good | exact H2].
  - eapply outcome_mono; [apply handle_close_ok; [apply Hg1 | done] |]. intros. by eapply good_trans.
  - eapply outcome_mono; [apply handle_error_ok, Hg1 |]. intros s2 H2.
    eapply good_trans; [exact Hg1 |]. apply calm_good; [apply Hg1 | done].
Qed.

Lemma core_flushed s n d :
  core s -> output s = d -> 0 <= n <= zlen d -> writing s = true ->
  let s1 := set_output (syscall s (take (Z.to_nat n) d) false) (Buffer.retrieve (_output_buffer s) n) in
  output s1 = drop (Z.to_nat n) d /\ (output s1 <> [] -> core s1) /\
  (output s1 = [] -> core (channel_events s1 disable_writing)).
Proof.
  intros [? Hwf Hs Hw Hcl ? Hf ? ? ?] <- Hn Hwr s1.
  assert (Eo : output s1 = drop (Z.to_nat n) (output s)) by (apply BufferSpec.retrieve_content; [done | lia]).
  assert (Hwf1 : Buffer.wf (_output_buffer s1)) by (apply BufferSpec.retrieve_wf; [done | lia]).
  assert (Hs1 : wire s1 ++ output s1 = accepted s1).
  { rewrite Eo. cbn. by rewrite <- app_assoc, take_drop. }
  assert (Hf1 : fin s1 = true -> _state s1 <> Disconnected -> output s1 = []).
  { cbn. rewrite orb_false_r. intros Hfin Hst. by rewrite Eo, Hf, drop_nil. }
  split_and!; [done | |]; intros Ho.
  - constructor; try done. intros _. rewrite bool_decide_true by done. exact Hwr.
  - constructor; try done.
    + intros _. rewrite writing_channel_events by done. by rewrite bool_decide_false by auto.
    + intros Hst. cbn in Hst. unfold writing, events in *. unfold Channel.is_writing in Hwr.
      unfold Channel.events in *. by rewrite (Hcl Hst) in Hwr.
    + by apply masks_new.
Qed.

Lemma handle_write_ok s :
  core s -> _state s <> Connecting -> outcome (fun s' => core s' /\ calm s s') (handle_write s).
Proof.
  intros Hc Hst. unfold handle_write. fold (writing s). destruct (writing s) eqn:Hw; [| done].
  change (Buffer.mem (_output_buffer s) _ _) with (Buffer.to_string (_output_buffer s)).
  rewrite BufferSpec.to_string_spec by apply Hc.
  cbn [mbind res_bind]. change (Buffer.content (_output_buffer s)) with (output s).
  destruct (k_write (calls s) (fin s) (output s)) as [n|e] eqn:Hk.
  2: { by apply core_syscall_nil. }
  pose proof (k_write_bounded _ _ _ _ Hk) as Hn.
  destruct (core_flushed s n (output s) Hc eq_refl Hn Hw) as (Eo & Hmore & Hall).
  destruct (Z.ltb_spec 0 n) as [Hpos|Hz].
  2: { replace n with 0 by lia. by apply core_syscall_nil. }
  set (s1 := set_output (syscall s (take (Z.to_nat n) (output s)) false) _) in *.
  assert (Hcalm1 : calm s s1) by (constructor; try done; exists []; by rewrite app_nil_r).
  rewrite BufferSpec.readable_bytes_content by (apply BufferSpec.retrieve_wf; [apply Hc | lia]).
  change (Buffer.content (_output_buffer s1)) with (output s1). rewrite zlen_zero.
  case_bool_decide as Ho; [| by split; [apply Hmore |]].
  set (s2 := channel_events s1 disable_writing).
  assert (Hc2 : core s2) by (by apply Hall).
  assert (Hcalm2 : calm s s2) by (by etrans; [| apply calm_channel_events]).
  set (s3 := if _write_complete_callback s2 then queue_in_loop WriteComplete s2 else s2).
  assert (Hc3 : core s3 /\ calm s s3).
  { unfold s3. destruct (_write_complete_callback s2); [| done].
    split; [by apply core_queue | by etrans; [| apply calm_queue]]. }
  case_bool_decide; [| done].
  eapply outcome_mono; [apply shutdown_in_loop_ok, Hc3 |]. intros s4 [? ?].
  split; [done | etrans; [apply Hc3 | done]].
Qed.

Lemma connect_established_ok s :
  inv s -> _state s = Connecting ->
  outcome (fun s' => inv s' /\ _state s' <> Connecting /\ _state s' <> Disconnected) (connect_established user s).
Proof.
  intros [Hc Hl] Hst. unfold connect_established. rewrite assert_true by (by rewrite bool_decide_true).
  cbn [mbind res_bind].
  set (s1 := channel_events _ enable_reading). rewrite Hst in Hl. cbn in Hl.
  assert (Hc1 : core s1).
  { destruct Hc as [? ? ? Hw ? ? Hf Hp ? ?]. apply core_channel_events; [| | done].
    - constructor; try done; cbn.
      + intros _. apply Hw. by rewrite Hst.
      + intros Hfin _. apply Hf; [done | by rewrite Hst].
      + eapply Forall_impl; [exact Hp |]. intros f. rewrite Hst. by apply functor_ok_mono.
    - intros _. rewrite writing_channel_events by done. done. }
  eapply outcome_mono; [by apply callback_ok |]. intros s2 [Hc2 Hm2].
  assert (_state s2 <> Connecting /\ _state s2 <> Disconnected).
  { by rewrite (m_fresh _ _ Hm2), (m_closed _ _ Hm2). }
  split; [| done]. constructor; [done |]. eapply log_ok_calm; [exact Hm2 |]. cbn. rewrite Hl. by exists [].
Qed.

Lemma run_functor_ok f s :
  inv s -> functor_ok (_state s) f -> outcome (good s) (run_functor user f s).
Proof.
  intros Hi Hf. pose proof (inv_core _ Hi) as Hc. destruct f as [message| | | | | |len|]; cbn [run_functor];
    cbn in Hf; try done.
  - eapply outcome_mono; [apply send_in_loop_ok; [done | apply Hf | apply Hf] |].
    intros. by apply calm_good.
  - eapply outcome_mono; [by apply shutdown_in_loop_ok |]. intros. by apply calm_good.
  - unfold force_close_in_loop. destruct (open s) eqn:Ho; [by apply handle_close_ok | by split].
  - by apply callback_traffic_ok.
  - by apply callback_traffic_ok.
  - unfold connect_destroyed. rewrite bool_decide_false by (by rewrite Hf). cbn.
    split; [| by constructor]. constructor; [by destruct Hc | apply Hi].
Qed.

Lemma run_functors_ok fs s :
  inv s -> Forall (functor_ok (_state s)) fs -> outcome (good s) (run_functors user fs s).
Proof.
  revert s. induction fs as [|f fs IH]; intros s Hi Hall; [by split |].
  apply Forall_cons in Hall as [Hf Hall]. cbn [run_functors].
  eapply outcome_bind; [by apply run_functor_ok |]. intros s1 Hg.
  eapply outcome_mono; [apply IH; [apply Hg |] |].
  - eapply Forall_impl; [exact Hall |]. intros g. apply functor_ok_mono; apply Hg.
  - intros. by eapply good_trans.
Qed.

Lemma do_pending_functors_ok s : inv s -> outcome (good s) (do_pending_functors user s).
Proof.
  intros [Hc Hl]. unfold do_pending_functors.
  eapply outcome_mono; [apply run_functors_ok; [| apply Hc] |].
  - constructor; [by apply core_pending | done].
  - intros s' [? []]. split; [done | by constructor].
Qed.

(** A hang-up of a connection that is closed and whose channel is disabled, but not
    removed yet. poll(2) does not look at the descriptor of such a channel
    ([poll_disabled_is_silent]), so PollPoller never reports it; epoll, under the default
    EPollPoller, may ([epoll_disabled_hangs_up]), and then [handle_close] runs again:
    what it does is the last part of [tcp_callbacks_in_order]. *)
Definition late_hang_up (revents : Z) (s : t) : Prop :=
  _state s = Disconnected /\ Z.testbit revents 4 = true.

(** What the poller reports: the events asked for, errors, and a hang-up of both
    directions, which TCP reports together with POLLIN to who asks for it; but no late
    hang-up. Theorems about [allowed] inputs hold of PollPoller, and of EPollPoller as
    long as no connection is reset by its peer between its close and its removal. *)
Definition ready_ok (revents : Z) (s : t) : Prop :=
  let rev i := Z.testbit revents i = true in
  let asked i := Z.testbit (events s) i = true in
  _state s <> Connecting /\
  (rev 0 -> asked 0) /\ (rev 1 -> asked 1) /\ (rev 2 -> asked 2) /\ ~ rev 13 /\
  (rev 4 -> asked 0 -> rev 0) /\ ~ late_hang_up revents s.

Definition when {A} (b : bool) (x : A) : list A := if b then [x] else [].

(** The handlers of an event: not both closing and reading. *)
Lemma handlers_of revents s :
  core s -> ready_ok revents s ->
  exists close error read write : bool,
    Channel.handle_event (fun _ => true) (Channel.set_revents (_channel s) revents)
    = when close Channel.OnClose ++ when error Channel.OnError ++ when read Channel.OnRead
      ++ when write Channel.OnWrite /\
    (close = true -> open s = true /\ read = false) /\ (read = true -> open s = true).
Proof.
  intros Hc (Hst & R0 & R1 & R2 & R13 & Rh & Hlate).
  assert (Rd : Z.testbit revents 4 = true -> _state s <> Disconnected) by (intros ? ?; by apply Hlate).
  set (c := Channel.set_revents (_channel s) revents).
  assert (Hg : Channel.handle_event (fun _ => true) c = Channel.handle_event_with_guard c).
  { unfold Channel.handle_event. destruct (Channel._tied c) eqn:Ht; [| done].
    change (Channel._tie c) with (Channel._tie (_channel s)). by rewrite (c_tie _ Hc Ht). }
  destruct (c_callbacks _ Hc) as (Hr & Hw & Hcl & He).
  rewrite Hg. unfold Channel.handle_event_with_guard.
  change (Channel._close_callback c) with (Channel._close_callback (_channel s)).
  change (Channel._error_callback c) with (Channel._error_callback (_channel s)).
  change (Channel._read_callback c) with (Channel._read_callback (_channel s)).
  change (Channel._write_callback c) with (Channel._write_callback (_channel s)).
  rewrite Hr, Hw, Hcl, He, !andb_true_r. cbn [Channel._revents c].
  change (Channel._revents c) with revents.
  do 4 eexists. split; [reflexivity |].
  rewrite !has_lor. change POLLHUP with (2 ^ 4). change POLLIN with (2 ^ 0).
  change POLLPRI with (2 ^ 1). change POLLRDHUP with (2 ^ 13). rewrite !has_bit by lia.
  assert (Hopen : _state s <> Disconnected -> open s = true).
  { intros Hd. apply open_spec. destruct (_state s); auto; done. }
  assert (Hmask : forall i, i = 0 \/ i = 1 -> Z.testbit (events s) i = true ->
            _state s <> Disconnected /\ Z.testbit (events s) 0 = true).
  { intros i Hi Hb. split.
    - intros Hd. rewrite (c_closed _ Hc Hd) in Hb. by rewrite Z.bits_0 in Hb.
    - destruct (c_events _ Hc) as [E | [E | [E | E]]]; rewrite E in *; try done;
        by destruct Hi as [-> | ->]. }
  apply not_true_is_false in R13. rewrite R13, orb_false_r. split.
  - intros [H4 H0']%andb_true_iff. apply negb_true_iff in H0'. split; [by apply Hopen, Rd |].
    rewrite H0'. cbn. apply not_true_is_false. intros H1.
    destruct (Hmask 1) as [_ Hm]; auto. rewrite (Rh H4 Hm) in H0'. done.
  - intros [H1|H1]%orb_true_iff; apply Hopen; [apply (Hmask 0) | apply (Hmask 1)]; auto.
Qed.

Lemma run_handlers_app l k s :
  run_handlers user (l ++ k) s = (s1 ← run_handlers user l s; run_handlers user k s1).
Proof.
  revert s. induction l as [|cb l IH]; intros s; cbn [app run_handlers]; [done |].
  destruct (run_handler user cb s) as [s1|]; [| done]. cbn [mbind res_bind]. apply IH.
Qed.

Lemma run_when (Q : t -> Prop) (b : bool) cb s :
  (b = false -> Q s) -> (b = true -> outcome Q (run_handler user cb s)) ->
  outcome Q (run_handlers user (when b cb) s).
Proof.
  intros Hs Hcb. destruct b; cbn; [| by apply Hs]. destruct (run_handler user cb s); by apply Hcb.
Qed.

Lemma outcome_and {A} (P Q : A -> Prop) m :
  outcome P m -> outcome Q m -> outcome (fun a => P a /\ Q a) m.
Proof. by destruct m. Qed.

(** A handler that keeps the invariant, after what went before it. *)
Lemma handler_keeps (I : t -> Prop) s s1 m :
  good s s1 -> outcome (good s1) m -> outcome I m -> outcome (fun s2 => good s s2 /\ I s2) m.
Proof.
  intros Hg Hm HI. eapply outcome_mono; [exact (outcome_and _ _ _ Hm HI) |].
  intros s2 []. split; [by eapply good_trans | done].
Qed.

(** What the four handlers keep is kept by [handle_event]. *)
Lemma handle_event_keeps (I : t -> Prop) revents s :
  (forall s, inv s -> I s -> open s = true -> outcome I (handle_close user s)) ->
  (forall s, inv s -> I s -> outcome I (handle_error s)) ->
  (forall s, inv s -> I s -> open s = true -> outcome I (handle_read user s)) ->
  (forall s, inv s -> I s -> _state s <> Connecting -> outcome I (handle_write s)) ->
  inv s -> I s -> ready_ok revents s ->
  outcome (fun s' => good s s' /\ I s') (handle_event user revents s).
Proof.
  intros Kclose Kerror Kread Kwrite Hi HI Hr. unfold handle_event. pose proof (proj1 Hr) as Hst.
  destruct (handlers_of revents s (inv_core _ Hi) Hr) as (close & error & read & write & -> & Hc & Hrd).
  set (P s1 := (good s s1 /\ I s1) /\ (read = true -> open s1 = true)).
  rewrite run_handlers_app. apply outcome_bind with (P := P).
  { apply run_when; [by split; [split |] |]. intros ->. destruct (Hc eq_refl) as [Ho ->].
    eapply outcome_mono; [eapply handler_keeps; [by split | by apply handle_close_ok | by apply Kclose] |].
    by split. }
  intros s1 [[Hg1 HI1] Ho1]. pose proof Hg1 as [Hi1 _].
  rewrite run_handlers_app. apply outcome_bind with (P := P).
  { apply run_when; [by split |]. intros _. cbn [run_handler].
    pose proof (handle_error_ok s1 (inv_core _ Hi1)) as H1. specialize (Kerror s1 Hi1 HI1).
    destruct (handle_error s1) as [s2|]; [| done]. split; [split; [| done] |].
    - eapply good_trans; [done | by apply calm_good].
    - intros Hb. specialize (Ho1 Hb). apply open_spec in Ho1. apply open_spec.
      destruct H1 as [_ [_ Hcl Hfr _]]. destruct Ho1 as [E | E]; rewrite E in *; destruct (_state s2); naive_solver. }
  intros s2 [[Hg2 HI2] Ho2]. pose proof Hg2 as [Hi2 _]. rewrite run_handlers_app.
  apply outcome_bind with (P := fun s3 => good s s3 /\ I s3).
  { apply run_when; [done |]. intros Hb. eapply handler_keeps; [done | apply handle_read_ok | apply Kread]; auto. }
  intros s3 [Hg3 HI3]. pose proof Hg3 as [Hi3 [_ Hf3]]. apply run_when; [done |]. intros _.
  eapply handler_keeps; [done | | by apply Kwrite; auto].
  eapply outcome_mono; [apply handle_write_ok; [apply Hi3 | auto] |]. intros. by apply calm_good.
Qed.

Lemma handle_event_ok revents s :
  inv s -> ready_ok revents s -> outcome (good s) (handle_event user revents s).
Proof.
  intros Hi Hr. eapply outcome_mono; [apply (handle_event_keeps (fun _ => True)); try done |]; [..| by intros ? []].
  - intros. eapply outcome_mono; [by apply handle_close_ok | done].
  - intros s1 H1 _. eapply outcome_mono; [apply handle_error_ok, H1 | done].
  - intros. eapply outcome_mono; [by apply handle_read_ok | done].
  - intros s1 H1 _ ?. eapply outcome_mono; [by apply handle_write_ok; [apply H1 |] | done].
Qed.

(** *** Histories *)

Definition input_ok (i : input) (s : t) : Prop :=
  match i with
  | Establish => _state s = Connecting
  | Call b c => _state s <> Connecting /\ call_ok b (_state s) c
  | Ready revents => ready_ok revents s
  | Pending => True
  | Expire => _state s <> Connecting
  end.
Fixpoint allowed (inputs : list input) (s : t) : Prop :=
  match inputs with
  | [] => True
  | i :: inputs' => input_ok i s /\ forall s', step user i s = Ret s' -> allowed inputs' s'
  end.

Lemma step_good i s : inv s -> input_ok i s -> outcome (good s) (step user i s).
Proof.
  intros Hi Hin. destruct i as [|b c|revents| |]; cbn [step]; cbn in Hin.
  - eapply outcome_mono; [by apply connect_established_ok |]. intros s' (? & ? & _).
    split; [done |]. constructor; by rewrite Hin.
  - eapply outcome_mono; [apply api_ok; [apply Hi | apply Hin | apply Hin] |].
    intros s' H1. by apply calm_good.
  - by apply handle_event_ok.
  - by apply do_pending_functors_ok.
  - assert (inv (set_delayed s (pred (delayed s)))) as Hi'.
    { destruct Hi as [[] ?]. by constructor. }
    eapply outcome_mono; [by apply (api_ok true force_close); [apply Hi' | |] |].
    intros s' H1. destruct (calm_good _ _ Hi' H1) as [? []]. split; [done | by constructor].
Qed.

Lemma step_ok i s : inv s -> input_ok i s -> outcome inv (step user i s).
Proof. intros Hi Hin. eapply outcome_mono; [by apply step_good |]. by intros s' []. Qed.

Lemma run_ok inputs s : inv s -> allowed inputs s -> outcome inv (run user inputs s).
Proof.
  revert s. induction inputs as [|i inputs IH]; intros s Hi Hall; [done |].
  destruct Hall as [Hin Hall]. cbn [run].
  pose proof (step_ok i s Hi Hin) as H1. destruct (step user i s) as [s1|] eqn:E; [| done].
  cbn [mbind res_bind]. apply IH; [done |]. by apply Hall.
Qed.

Lemma make_inv fd wc hw : inv (make fd wc hw).
Proof.
  constructor; [| done]. constructor; try apply BufferSpec.make_wf; try done; cbn; auto.
Qed.

(** *** Flushing the buffer after [shutdown()] *)

Lemma dispatch_one s revents cb :
  core s -> Channel.handle_event_with_guard (Channel.set_revents (_channel s) revents) = [cb] ->
  handle_event user revents s = run_handler user cb s.
Proof.
  intros Hc E. unfold handle_event, Channel.handle_event.
  assert (Hg : (if Channel._tied (Channel.set_revents (_channel s) revents)
     then match Channel._tie (Channel.set_revents (_channel s) revents) with
          | Some _ => Channel.handle_event_with_guard (Channel.set_revents (_channel s) revents)
          | None => []
          end
     else Channel.handle_event_with_guard (Channel.set_revents (_channel s) revents)) = [cb]).
  { destruct (Channel._tied _) eqn:Ht; [| done].
    change (Channel._tie _) with (Channel._tie (_channel s)). by rewrite (c_tie _ Hc Ht). }
  rewrite Hg. cbn [run_handlers]. by destruct (run_handler user cb s).
Qed.

Lemma pollout_writes s : core s -> handle_event user POLLOUT s = handle_write s.
Proof.
  intros Hc. apply (dispatch_one s POLLOUT Channel.OnWrite); [done |].
  destruct (c_callbacks _ Hc) as (_ & Hw & _). unfold Channel.handle_event_with_guard.
  destruct (_channel s). cbn in *. by rewrite Hw.
Qed.

Context (Hprogress : forall i d, d <> [] -> exists n, 0 < n /\ k_write i false d = Wrote n).

Lemma pollout_step s n :
  core s -> _state s = Disconnecting -> writing s = true ->
  k_write (calls s) (fin s) (output s) = Wrote n -> 0 < n ->
  let s1 := set_output (syscall s (take (Z.to_nat n) (output s)) false) (Buffer.retrieve (_output_buffer s) n) in
  step user (Ready POLLOUT) s
  = if bool_decide (output s1 = []) then
      let s2 := channel_events s1 disable_writing in
      shutdown_in_loop (if _write_complete_callback s2 then queue_in_loop WriteComplete s2 else s2)
    else Ret s1.
Proof.
  intros Hc Hst Hw Hk Hpos s1. cbn [step]. rewrite pollout_writes by done. unfold handle_write. fold (writing s). rewrite Hw.
  change (Buffer.mem (_output_buffer s) _ _) with (Buffer.to_string (_output_buffer s)).
  rewrite BufferSpec.to_string_spec by apply Hc. cbn [mbind res_bind].
  change (Buffer.content (_output_buffer s)) with (output s). rewrite Hk.
  rewrite (proj2 (Z.ltb_lt _ _)) by done. fold s1.
  change (_output_buffer s1) with (Buffer.retrieve (_output_buffer s) n).
  rewrite BufferSpec.readable_bytes_content by (apply BufferSpec.retrieve_wf; [apply Hc | lia]).
  rewrite zlen_zero.
  match goal with |- context [Buffer.content ?x = []] => change (Buffer.content x) with (output s1) end.
  destruct (bool_decide (output s1 = [])); [| done].
  rewrite bool_decide_true; [done |]. by destruct (_write_complete_callback _).
Qed.

Lemma flush_completes len s :
  core s -> _state s = Disconnecting -> fin s = false -> output s <> [] ->
  (length (output s) <= len)%nat ->
  exists k s', (k <= len)%nat /\ run user (replicate k (Ready POLLOUT)) s = Ret s' /\
    output s' = [] /\ fin s' = true /\ wire s' = accepted s.
Proof.
  revert s. induction len as [|len IH]; intros s Hc Hst Hfin Ho Hlen.
  { destruct (output s); [done | cbn in Hlen; lia]. }
  assert (Hw : writing s = true) by (rewrite (c_writing _ Hc) by (by rewrite Hst); by rewrite bool_decide_true).
  destruct (Hprogress (calls s) (output s) Ho) as (n & Hpos & Hk).
  rewrite <- Hfin in Hk. pose proof (k_write_bounded _ _ _ _ Hk) as Hn.
  destruct (core_flushed s n (output s) Hc eq_refl Hn Hw) as (Eo & Hmore & Hall).
  set (s1 := set_output (syscall s (take (Z.to_nat n) (output s)) false)
               (Buffer.retrieve (_output_buffer s) n)) in *.
  pose proof (pollout_step s n Hc Hst Hw Hk ltac:(lia)) as Hstep. cbn zeta in Hstep. fold s1 in Hstep.
  destruct (decide (output s1 = [])) as [He|He].
  - set (s2 := channel_events s1 disable_writing).
    set (s3 := if _write_complete_callback s2 then queue_in_loop WriteComplete s2 else s2).
    assert (Hw3 : Channel.is_writing (_channel s3) = false).
    { transitivity (writing s2); [by unfold s3; destruct (_write_complete_callback s2) |].
      apply writing_channel_events, Hc. }
    exists 1%nat, (syscall s3 [] true). split_and!; [lia | | | |].
    + cbn [replicate run]. rewrite Hstep, bool_decide_true by done. cbn zeta. fold s2. fold s3.
      unfold shutdown_in_loop. by rewrite Hw3, Hshut.
    + unfold output, s3. by destruct (_write_complete_callback s2).
    + cbn. apply orb_true_r.
    + cbn. rewrite app_nil_r. transitivity (wire s1); [by unfold s3; destruct (_write_complete_callback s2) |].
      pose proof (c_stream _ (Hall He)) as E. change (wire (channel_events s1 disable_writing)) with (wire s1) in E.
      change (output (channel_events s1 disable_writing)) with (output s1) in E.
      rewrite He, app_nil_r in E. exact E.
  - destruct (IH s1) as (k & s' & Hk' & Hr & ? & ? & Hwire); try done.
    + auto.
    + cbn. by rewrite Hfin.
    + rewrite Eo, length_drop. lia.
    + exists (S k), s'. split_and!; try done; [lia |]. cbn [replicate run].
      rewrite Hstep, bool_decide_false by done. done.
Qed.
End core.
End ConnectionSpec.

(** ** The properties *)

Module ConnectionProps.
Import TcpConnection ConnectionSpec.

(** User callbacks that keep to the rules of [call_ok]. *)
Definition polite (user : list event -> event -> list call) : Prop :=
  forall h e st, possible e st -> Forall (call_ok true st) (user h e).

(** C16: bytes go out in the order in which they were sent. Whatever mixture of
    calls ([start_read] and [stop_read] in the loop's thread and not after the end),
    events (short of a [late_hang_up]), callbacks and short or failing writes a
    connection goes through, no assert and no abort stops it (only a buffer outgrowing
    [std::vector] could, or a shutdown(2) that fails); what [send_in_loop] accepted is
    what the kernel took followed by the output buffer; while the connection is up, writing is enabled
    exactly when something is buffered; and once the write side is shut down,
    every accepted byte has been handed to the kernel. *)
Theorem tcp_stream_in_order {B : Build} `{KernelLaws} user inputs fd wc hw
    (Hshut : forall i, k_shutdown i = true) (Huser : polite user)
    (Hinputs : allowed user inputs (make fd wc hw)) :
  outcome (fun s =>
      wire s ++ output s = accepted s /\
      (_state s <> Disconnected -> writing s = bool_decide (output s <> [])) /\
      (fin s = true -> _state s <> Disconnected -> wire s = accepted s))
    (run user inputs (make fd wc hw)).
Proof.
  eapply outcome_mono; [apply run_ok; [done | done | apply make_inv | done] |].
  intros s [[_ _ Hs Hw _ _ Hf _ _ _] _]. split_and!; [done | done |].
  intros Hfin Hst. by rewrite <- Hs, Hf, app_nil_r.
Qed.

Definition debug : Build := {| ndebug := false |}.
Definition release : Build := {| ndebug := true |}.

(** A connection that is closed but still registered, as it is with
    EPollPoller until [connect_destroyed] runs, is closed a second time when the
    kernel reports the hang-up: a debug build aborts, a release build tells the
    user and the owner again that the connection is gone. *)
Theorem closed_connection_hangs_up `{KernelLaws} user s
    (Hshut : forall i, k_shutdown i = true) (Huser : polite user)
    (Hc : core s) (Hst : _state s = Disconnected) :
  @handle_event debug _ user POLLHUP s = Stop AssertionFailed /\
  outcome (fun s' => log s' = log s ++ [OnConnection false; OnClose]) (@handle_event release _ user POLLHUP s).
Proof.
  assert (Hd : Channel.handle_event_with_guard (Channel.set_revents (_channel s) POLLHUP) = [Channel.OnClose]).
  { destruct (c_callbacks _ Hc) as (_ & _ & Hcl & _). unfold Channel.handle_event_with_guard.
    destruct (_channel s). cbn in *. by rewrite Hcl. }
  split.
  - rewrite (@dispatch_one debug _ user s POLLHUP Channel.OnClose) by done.
    cbn [run_handler]. unfold handle_close. unfold open. by rewrite Hst.
  - rewrite (@dispatch_one release _ user s POLLHUP Channel.OnClose) by done.
    cbn [run_handler]. unfold handle_close. rewrite assert_release. cbn [mbind res_bind].
    eapply outcome_mono; [by apply (close_calls_back Hshut user Huser), core_closed |]. by intros s' (_ & _ & ?).
Qed.


(** C18: [shutdown()] with data still buffered closes the write side only after
    the last byte: as long as each write takes something, at most one POLLOUT per
    buffered byte flushes the buffer, and then FIN is sent. *)
Theorem tcp_shutdown_flushes {B : Build} `{KernelLaws} user s
    (Hshut : forall i, k_shutdown i = true) (Huser : polite user)
    (Hprogress : forall i d, d <> [] -> exists n, 0 < n /\ k_write i false d = Wrote n)
    (Hc : core s) (Hst : _state s = Connected) (Hfin : fin s = false) (Hout : output s <> []) :
  exists k s', (k <= length (output s))%nat /\
    run user (Call true shutdown :: replicate k (Ready POLLOUT)) s = Ret s' /\
    output s' = [] /\ fin s' = true /\ wire s' = accepted s.
Proof.
  destruct (core_disconnecting s Hc) as [Hc1 _]; [apply open_spec; by left |].
  destruct (flush_completes Hshut user Hprogress (length (output s)) (set_state s Disconnecting))
    as (k & s' & Hk & Hr & ? & ? & ?); try done.
  exists k, s'. split_and!; try done. cbn [run step api]. rewrite bool_decide_true by done.
  unfold shutdown_in_loop.
  change (Channel.is_writing (_channel (set_state s Disconnecting))) with (writing s).
  rewrite (c_writing _ Hc) by (by rewrite Hst). by rewrite bool_decide_true.
Qed.

(** Nothing in [start_read_in_loop] looks at the state: called once more when the
    connection is down and its channel has left the poller, it registers the channel
    again, and nobody will remove it. *)
Theorem closed_connection_reads_again {B : Build} `{Kernel} s
    (Hdown : _state s = Disconnected) (Hidle : Channel.is_reading (_channel s) = false) :
  let s' := start_read_in_loop s in
  _registered s' = true /\ Channel.is_reading (_channel s') = true /\ _state s' = Disconnected /\
  force_close_in_loop default_callbacks s' = Ret s'.
Proof.
  unfold start_read_in_loop. rewrite Hidle, orb_true_r. split_and!; [done | | done |].
  - change (has (Z.lor (Channel.events (_channel s)) 3) (Z.lor (2 ^ 0) 2) = true).
    by rewrite has_lor, has_bit, Z.lor_spec, orb_true_r by done.
  - unfold force_close_in_loop, open. cbn. by rewrite Hdown.
Qed.

(** *** Witnesses: a socket that takes three bytes at a time and whose peer sends
    nothing; a user who greets, and an owner who lets go of closed connections. *)

#[local] Instance three_bytes : Kernel := {|
  k_write _ fin d := if fin : bool then WriteError EPIPE else Wrote (Z.min 3 (zlen d));
  k_readv _ _ vec := if foldr Z.add 0 vec <? 0 then IoError EWOULDBLOCK else IoData [];
  k_shutdown _ := true;
  k_socket_error _ := Some 0
|}.
#[local] Instance three_bytes_laws : KernelLaws.
Proof.
  split; cbn.
  - intros _ [] d n; [done |]. intros [= <-]. lia.
  - done.
  - intros _ fd vec d. cbn. destruct (Z.ltb_spec (foldr Z.add 0 vec) 0); [done |].
    intros [= <-]. cbn. lia.
  - by eexists.
Qed.

Lemma default_polite : polite default_callbacks.
Proof. intros h [[]|b| | |] st Hp; repeat constructor. apply u64_range. Qed.

Definition greeter (_ : list event) (e : event) : list call :=
  match e with
  | OnConnection true => [send (bytes "hello, ")]
  | OnMessage b => [retrieve_input (Buffer.readable_bytes b)]
  | OnClose => [queue_connect_destroyed]
  | _ => []
  end.
Lemma greeter_polite : polite greeter.
Proof.
  intros h [[]| | | |] st Hp; cbn in *; repeat constructor; cbn; try done; apply u64_range.
Qed.

Definition greeting : list input :=
  [Establish; Call false (send (bytes "world")); Pending; Ready POLLOUT; Ready POLLOUT].
Definition goodbye : list input := greeting ++ [Call true shutdown; Ready POLLOUT; Ready POLLIN; Pending].

#[global] Instance input_ok_dec i s : Decision (input_ok i s).
Proof.
  destruct i as [|b c|revents| |]; cbn [input_ok]; unfold ready_ok, late_hang_up; try apply _.
  destruct c; cbn [call_ok]; apply _.
Defined.
Fixpoint check_inputs {B : Build} `{Kernel} user (inputs : list input) (s : t) : bool :=
  match inputs with
  | [] => true
  | i :: inputs' => bool_decide (input_ok i s) &&
      match step user i s with Ret s' => check_inputs user inputs' s' | Stop _ => true end
  end.
Lemma check_inputs_ok {B : Build} `{Kernel} user inputs s :
  check_inputs user inputs s = true -> allowed user inputs s.
Proof.
  revert s. induction inputs as [|i inputs IH]; intros s; cbn [check_inputs allowed]; [done |].
  intros [Hi Hrest]%andb_true_iff. apply bool_decide_eq_true in Hi. split; [done |].
  intros s' E. rewrite E in Hrest. by apply IH.
Qed.

Lemma goodbye_allowed : @allowed debug _ greeter goodbye (make 7 true true).
Proof. apply check_inputs_ok. by vm_compute. Qed.

Lemma tcp_stream_in_order_witness :
  outcome (fun s =>
      wire s ++ output s = accepted s /\
      (_state s <> Disconnected -> writing s = bool_decide (output s <> [])) /\
      (fin s = true -> _state s <> Disconnected -> wire s = accepted s))
    (@run debug _ greeter goodbye (make 7 true true)).
Proof.
  apply (@tcp_stream_in_order debug three_bytes three_bytes_laws); [done | exact greeter_polite | exact goodbye_allowed].
Defined.


(** The connection after a history. *)
Definition after (inputs : list input) : t :=
  match @run debug _ greeter inputs (make 7 true true) with Ret s => s | Stop _ => make 7 true true end.

Lemma after_core inputs :
  @check_inputs debug _ greeter inputs (make 7 true true) = true -> core (after inputs).
Proof.
  intros Hi%check_inputs_ok. unfold after.
  pose proof (@run_ok debug _ _ (fun _ => eq_refl) greeter greeter_polite inputs _
                (make_inv 7 true true) Hi) as H1.
  destruct (run _ _ _); [apply H1 | apply make_inv].
Qed.

Lemma tcp_shutdown_flushes_witness :
  let s := after [Establish; Call false (send (bytes "world")); Pending] in
  exists k s', (k <= length (output s))%nat /\
    @run debug _ greeter (Call true shutdown :: replicate k (Ready POLLOUT)) s = Ret s' /\
    output s' = [] /\ fin s' = true /\ wire s' = accepted s.
Proof.
  intros s. apply (@tcp_shutdown_flushes debug three_bytes three_bytes_laws).
  - done.
  - exact greeter_polite.
  - intros i d Hd. exists (Z.min 3 (zlen d)). split; [| done]. destruct d; [done |]. cbn [length]. lia.
  - apply after_core. by vm_compute.
  - by vm_compute.
  - by vm_compute.
  - by vm_compute.
Defined.

Lemma closed_connection_hangs_up_witness :
  let s := after (greeting ++ [Ready POLLIN]) in
  @handle_event debug _ greeter POLLHUP s = Stop AssertionFailed /\
  outcome (fun s' => log s' = log s ++ [OnConnection false; OnClose])
    (@handle_event release _ greeter POLLHUP s).
Proof.
  intros s. apply closed_connection_hangs_up.
  - done.
  - exact greeter_polite.
  - apply after_core. by vm_compute.
  - by vm_compute.
Defined.

End ConnectionProps.
