(* ===== verification/ConnectionRaces.v ===== *)
(** A TcpConnection that other threads call (suduo/net/TcpConnection.cpp): a call
    tests [_state], changes it and queues a functor, and the loop goes on between
    these; its life as the [shared_ptr]s to it make it, up to ~TcpConnection, with
    the functors that hold one and those that hold only [this], and with the
    WeakCallback (suduo/base/WeakCallback.h) of [force_close_with_delay].

    The loop's own handlers are single steps, those of TcpConnections.v. *)

From S2P Require Import Prelude.
From S2P Require Import ByteBuffer.
From S2P Require Import Pollers.
From S2P Require Import TcpConnections.

Module SharedConnection.
Import TcpConnection.

(** A call of another thread: [_state] has passed the test, [_state] has been set. *)
Inductive half := Tested (c : call) | Stated (c : call).

Record t := mk {
  conn : TcpConnection.t;
  halves : list half;
  owner : bool;          (** the server or the client has its pointer *)
  refs : nat;            (** the pointers of other threads *)
  alive : bool
}.
Definition make (c : TcpConnection.t) : t := mk c [] true 0 true.
Definition set_conn (s : t) (c : TcpConnection.t) : t := mk c (halves s) (owner s) (refs s) (alive s).
Definition set_halves (s : t) (l : list half) : t := mk (conn s) l (owner s) (refs s) (alive s).
Definition set_refs (s : t) (n : nat) : t := mk (conn s) (halves s) (owner s) n (alive s).

(** The functors bound to [shared_from_this()]; the others are bound to [this]. *)
Definition holds (f : functor) : bool :=
  match f with
  | ForceCloseInLoop | WriteComplete | HighWaterMark _ | ConnectDestroyed => true
  | _ => false
  end.
Definition is_destroyed (f : functor) : bool := match f with ConnectDestroyed => true | _ => false end.

(** What a call does first, and in how many pieces the rest comes. *)
Definition test (c : call) (s : TcpConnection.t) : bool :=
  match c with
  | send _ | shutdown => bool_decide (_state s = Connected)
  | force_close | force_close_with_delay => open s
  | _ => false
  end.
Definition racing (c : call) : bool :=
  match c with send _ | shutdown | force_close | force_close_with_delay => true | _ => false end.
Definition pieces (c : call) : nat := match c with send _ => 1 | _ => 2 end.
Definition resume (h : half) (s : TcpConnection.t) : TcpConnection.t * option half :=
  match h with
  | Tested (send message) => (queue_in_loop (SendInLoop message) s, None)
  | Tested c => (set_state s Disconnecting, Some (Stated c))
  | Stated shutdown => (queue_in_loop ShutdownInLoop s, None)
  | Stated force_close => (queue_in_loop ForceCloseInLoop s, None)
  | Stated force_close_with_delay => (set_delayed s (S (delayed s)), None)
  | Stated _ => (s, None)
  end.

Inductive label :=
  | Loop (i : input)       (** in the loop's thread *)
  | Share                  (** another thread gets a pointer *)
  | Drop                   (** and lets it go *)
  | Begin (c : call)       (** it makes a call *)
  | Continue (k : nat).    (** the [k]-th of the calls that are under way goes on *)

Section operations.
Context {B : Build} `{Kernel} (user : list event -> event -> list call).

(** [WeakCallback::operator()]: [function_] runs if the object is still there. *)
Definition weak_callback (lock : bool) (function_ : TcpConnection.t -> res TcpConnection.t)
    (c : TcpConnection.t) : res TcpConnection.t :=
  if lock then function_ c else mret c.

(** The loop's steps; they are undefined without the object. *)
Definition loop_step (i : input) (s : t) : res TcpConnection.t :=
  let c := conn s in
  match i with
  | Expire => weak_callback (alive s) (api true force_close) (set_delayed c (pred (delayed c)))
  | _ =>
      if alive s || match i, pending c with Pending, [] => true | _, _ => false end
      then TcpConnection.step user i c else Stop UndefinedBehaviour
  end.

(** The last pointer gone, [~TcpConnection] runs. *)
Definition held (s : t) : bool := owner s || existsb holds (pending (conn s)) || (0 <? refs s)%nat.
Definition release (s : t) : res t :=
  if alive s && negb (held s) then
    _ ← assert_ (bool_decide (_state (conn s) = Disconnected));
    mret (mk (conn s) (halves s) (owner s) (refs s) false)
  else mret s.

(** The owner passes its pointer on to the functor that runs [connect_destroyed]. *)
Definition hand_over (s : t) : t :=
  mk (conn s) (halves s) (owner s && negb (existsb is_destroyed (pending (conn s)))) (refs s) (alive s).

Definition move (l : label) (s : t) : res t :=
  match l with
  | Loop i => c ← loop_step i s; mret (set_conn s c)
  | Share => mret (set_refs s (S (refs s)))
  | Drop => mret (set_refs s (pred (refs s)))
  | Begin c =>
      if racing c then
        mret (if (test c (conn s) : bool) then set_halves s (halves s ++ [Tested c]) else s)
      else c ← api false c (conn s); mret (set_conn s c)
  | Continue k =>
      match halves s !! k with
      | Some h =>
          let '(c, h') := resume h (conn s) in
          mret (set_halves (set_conn s c)
                  (match h' with Some h' => <[k := h']> (halves s) | None => delete k (halves s) end))
      | None => mret s
      end
  end.
Definition step (l : label) (s : t) : res t := s ← move l s; release (hand_over s).
Fixpoint run (ls : list label) (s : t) : res t :=
  match ls with
  | [] => mret s
  | l :: ls => s ← step l s; run ls s
  end.
End operations.

(** What can happen: the loop's thread makes its own calls, and needs the object but
    for its functors and its timers; a pointer comes from the owner or another thread;
    a thread keeps it for as long as its call takes. *)
Definition possible (l : label) (s : t) : Prop :=
  match l with
  | Loop (Call b c) => b = true /\ alive s = true
  | Loop Pending | Loop Expire => True
  | Loop _ => alive s = true
  | Share => alive s = true
  | Drop => (length (halves s) < refs s)%nat
  | Begin c => (length (halves s) < refs s)%nat
  | Continue k => (k < length (halves s))%nat
  end.
End SharedConnection.

(** ** What the loop queues *)

Module RaceSpec.
Import TcpConnection ConnectionSpec SharedConnection.

Definition all_hold (l : list functor) : Prop := Forall (fun f => holds f = true) l.

(** The loop's thread only queues functors that hold the connection. *)
Definition queues (s s' : TcpConnection.t) : Prop := exists more, pending s' = pending s ++ more /\ all_hold more.
#[global] Instance queues_refl : Reflexive queues.
Proof. intros s. exists []. rewrite app_nil_r. split; [done | constructor]. Qed.
#[global] Instance queues_trans : Transitive queues.
Proof.
  intros s1 s2 s3 (m1 & E1 & H1) (m2 & E2 & H2). exists (m1 ++ m2).
  rewrite E2, E1, app_assoc. split; [done | by apply Forall_app].
Qed.
Definition returns {A} (Q : A -> Prop) (m : res A) : Prop := forall a, m = Ret a -> Q a.
Lemma returns_bind {A C} (P : A -> Prop) (Q : C -> Prop) m (k : A -> res C) :
  returns P m -> (forall a, P a -> returns Q (k a)) -> returns Q (m ≫= k).
Proof. intros Hm Hk c. destruct m as [a|]; [| done]. intros E. by apply (Hk a (Hm a eq_refl)). Qed.
Lemma returns_ret {A} (Q : A -> Prop) (a : A) : Q a -> returns Q (mret a).
Proof. by intros Ha ? [= <-]. Qed.
Lemma returns_stop {A} (Q : A -> Prop) f : returns Q (Stop f).
Proof. by intros ? ?. Qed.
Lemma queues_pending s s' : pending s' = pending s -> queues s s'.
Proof. intros E. exists []. rewrite E, app_nil_r. split; [done | constructor]. Qed.
Lemma queues_queue s s' f : holds f = true -> queues s s' -> queues s (queue_in_loop f s').
Proof.
  intros Hf Hq. etrans; [exact Hq |]. exists [f]. split; [done | by apply Forall_singleton].
Qed.
Lemma returns_then (m : res TcpConnection.t) (k : TcpConnection.t -> res TcpConnection.t) s :
  returns (queues s) m -> (forall s1, returns (queues s1) (k s1)) -> returns (queues s) (m ≫= k).
Proof.
  intros Hm Hk. eapply returns_bind; [exact Hm |]. intros s1 H1 s2 E. etrans; [exact H1 |]. by eapply Hk.
Qed.
(** What computes a value and not a connection. *)
Lemma returns_value {A} (m : res A) (k : A -> res TcpConnection.t) s :
  (forall a, returns (queues s) (k a)) -> returns (queues s) (m ≫= k).
Proof. intros Hk. by eapply (returns_bind (fun _ => True)). Qed.
Lemma returns_after (m : res TcpConnection.t) s s1 :
  queues s s1 -> returns (queues s1) m -> returns (queues s) m.
Proof. intros Hq Hm s2 E. etrans; [exact Hq | by apply Hm]. Qed.

(** Every arm of every test ends in a connection with the functors it queued. *)
Ltac queued :=
  first [ apply queues_pending; reflexivity | apply queues_queue; [reflexivity | queued] ].
Ltac arms :=
  repeat match goal with
  | |- returns _ (Stop _) => apply returns_stop
  | |- returns _ (mret (if ?b then _ else _)) => destruct b
  | |- returns _ (mret _) => apply returns_ret; queued
  | |- returns _ (Ret _) => apply returns_ret; queued
  | |- returns _ (if ?b then _ else _) => destruct b
  end.

Section queues.
Context {B : Build} `{Kernel}.

Lemma write_directly_queues message s : queues s (write_directly message s).2.
Proof.
  unfold write_directly. destruct (_ && _); [| queued].
  destruct (k_write _ _ _); cbn; [destruct (_ && _) |]; queued.
Qed.

Lemma buffer_rest_queues message nwrote remaining s :
  returns (queues s) (buffer_rest message nwrote remaining s).
Proof.
  unfold buffer_rest, high_water. cbv zeta. apply returns_value. intros b.
  destruct (_ && _ && _); arms.
Qed.

Lemma send_in_loop_queues message s : returns (queues s) (send_in_loop message s).
Proof.
  unfold send_in_loop. case_bool_decide; [arms |].
  pose proof (write_directly_queues message s) as Hq.
  destruct (write_directly message s) as [[[nwrote remaining] fault] s1].
  apply (returns_after _ s s1 Hq). apply returns_value. intros _.
  destruct (_ && _); [apply buffer_rest_queues | arms].
Qed.

Lemma shutdown_in_loop_queues s : returns (queues s) (shutdown_in_loop s).
Proof. unfold shutdown_in_loop. arms. Qed.

Lemma api_queues c s : returns (queues s) (api true c s).
Proof.
  destruct c; cbn [api]; unfold start_read_in_loop, stop_read_in_loop; arms.
  - apply send_in_loop_queues.
  - apply (returns_after _ s (set_state s Disconnecting)); [queued | apply shutdown_in_loop_queues].
Qed.

Lemma run_calls_queues cs s : returns (queues s) (run_calls cs s).
Proof.
  revert s. induction cs as [|c cs IH]; intros s; cbn [run_calls]; [arms |].
  apply returns_then; [apply api_queues | exact IH].
Qed.

Context (user : list event -> event -> list call).

Lemma callback_queues e s : returns (queues s) (callback user e s).
Proof. apply (returns_after _ s (record_event s e)); [queued | apply run_calls_queues]. Qed.

Lemma handle_close_queues s : returns (queues s) (handle_close user s).
Proof.
  unfold handle_close. apply returns_value. intros _. apply returns_then; [| apply callback_queues].
  eapply returns_after; [| apply callback_queues]. queued.
Qed.

Lemma handle_error_queues s : returns (queues s) (handle_error s).
Proof. unfold handle_error. destruct (k_socket_error _); arms. Qed.

Lemma handle_read_queues s : returns (queues s) (handle_read user s).
Proof.
  unfold handle_read. apply returns_value. intros [[n e] b]. cbv zeta.
  destruct (0 <? n); [| destruct (n =? 0)];
    (eapply returns_after; [| first [apply callback_queues | apply handle_close_queues | apply handle_error_queues]]; queued).
Qed.

Lemma handle_write_queues s : returns (queues s) (handle_write s).
Proof.
  unfold handle_write. destruct (Channel.is_writing _); [| arms]. apply returns_value. intros d.
  destruct (k_write _ _ _) as [n|]; cbv zeta; [| arms].
  destruct (0 <? n); [| arms]. destruct (_ =? 0); [| arms].
  set (s1 := channel_events _ _).
  set (s2 := if _write_complete_callback s1 then queue_in_loop WriteComplete s1 else s1).
  assert (queues s s2) as H2 by (unfold s2; destruct (_write_complete_callback s1); queued).
  apply (returns_after _ s s2 H2). case_bool_decide; [apply shutdown_in_loop_queues | arms].
Qed.

Lemma connect_destroyed_queues s : returns (queues s) (connect_destroyed user s).
Proof.
  unfold connect_destroyed. apply returns_then; [| intros s1; arms].
  case_bool_decide; [| arms]. eapply returns_after; [| apply callback_queues]. queued.
Qed.

Lemma run_functor_queues f s : returns (queues s) (run_functor user f s).
Proof.
  destruct f; cbn [run_functor]; unfold start_read_in_loop, stop_read_in_loop, force_close_in_loop; arms.
  - apply send_in_loop_queues.
  - apply shutdown_in_loop_queues.
  - apply handle_close_queues.
  - apply callback_queues.
  - apply callback_queues.
  - apply connect_destroyed_queues.
Qed.

Lemma run_functors_queues fs s : returns (queues s) (run_functors user fs s).
Proof.
  revert s. induction fs as [|f fs IH]; intros s; cbn [run_functors]; [arms |].
  apply returns_then; [apply run_functor_queues | exact IH].
Qed.

Lemma run_handlers_queues cbs s : returns (queues s) (run_handlers user cbs s).
Proof.
  revert s. induction cbs as [|cb cbs IH]; intros s; cbn [run_handlers]; [arms |].
  apply returns_then; [| exact IH].
  destruct cb; cbn [run_handler];
    auto using handle_close_queues, handle_error_queues, handle_read_queues, handle_write_queues.
Qed.

Lemma connect_established_queues s : returns (queues s) (connect_established user s).
Proof.
  unfold connect_established. apply returns_value. intros _.
  eapply returns_after; [| apply callback_queues]. queued.
Qed.

(** A step of the loop's thread, timers apart. *)
Lemma loop_queues i s :
  match i with Call b _ => b = true | Pending => False | _ => True end ->
  returns (queues s) (TcpConnection.step user i s).
Proof.
  destruct i as [|b c|revents| |]; cbn [TcpConnection.step]; intros Hi.
  - apply connect_established_queues.
  - subst b. apply api_queues.
  - apply run_handlers_queues.
  - done.
  - eapply returns_after; [| apply api_queues]. queued.
Qed.
Lemma pending_queues s : returns (fun s' => all_hold (pending s')) (TcpConnection.step user Pending s).
Proof.
  intros s' E. cbn [TcpConnection.step] in E. unfold do_pending_functors in E.
  destruct (run_functors_queues _ _ _ E) as (more & -> & Hm). exact Hm.
Qed.
End queues.

(** *** The invariant *)

Section invariant.
Context {B : Build} `{KernelLaws} (Hshut : forall i, k_shutdown i = true).
Context (user : list event -> event -> list call).
Context (Huser : forall h e st, ConnectionSpec.possible e st -> Forall (call_ok true st) (user h e)).

Definition half_ok (h : half) : Prop :=
  match h with
  | Tested (send message) => zlen message <= int64_max
  | Tested c | Stated c => c = shutdown \/ c = force_close \/ c = force_close_with_delay
  end.
(** Once [connect_destroyed] is queued, only functors that hold the connection come
    after it. *)
Definition settled (l : list functor) : Prop :=
  all_hold l \/ exists a b, l = a ++ ConnectDestroyed :: b /\ all_hold b.

Record inv (s : t) : Prop := mk_inv {
  i_conn : ConnectionSpec.inv (conn s);
  i_halves : Forall half_ok (halves s);
  i_refs : (length (halves s) <= refs s)%nat;
  i_fresh : halves s <> [] -> _state (conn s) <> Connecting;
  i_owner : owner s = true -> existsb is_destroyed (pending (conn s)) = false;
  i_gone : owner s = false -> _state (conn s) = Disconnected /\ settled (pending (conn s));
  i_alive : alive s = held s;
  i_dead : alive s = false -> pending (conn s) = []
}.

Lemma settled_app l m : settled l -> all_hold m -> settled (l ++ m).
Proof.
  intros [Hl | (a & b & -> & Hb)] Hm; [left; by apply Forall_app |].
  right. exists a, (b ++ m). split; [by rewrite <- app_assoc | by apply Forall_app].
Qed.
Lemma settled_new l m :
  existsb is_destroyed l = false -> existsb is_destroyed (l ++ m) = true -> all_hold m -> settled (l ++ m).
Proof.
  rewrite existsb_app. intros -> Hx Hm. cbn in Hx. apply existsb_exists in Hx as (f & Hin & Hf).
  destruct f; try done. apply list_elem_of_In, list_elem_of_split in Hin as (a & b & ->).
  right. exists (l ++ a), b. split; [by rewrite <- app_assoc |].
  by apply Forall_app in Hm as [_ [_ ?]%Forall_cons].
Qed.
Lemma none_hold l : settled l -> existsb holds l = false -> l = [].
Proof.
  intros [Hl | (a & b & -> & _)]; [| rewrite existsb_app; cbn; by rewrite orb_true_r].
  destruct l as [|f l]; [done |]. apply Forall_cons in Hl as [Hf _]. cbn. by rewrite Hf.
Qed.

(** The functors of a step: the loop's own, one of another thread, or a new round. *)
Inductive grows (s s' : TcpConnection.t) : Prop :=
  | grows_held : queues s s' -> grows s s'
  | grows_open more : _state s <> Disconnected -> pending s' = pending s ++ more ->
      existsb is_destroyed more = false -> grows s s'
  | grows_round : all_hold (pending s') -> grows s s'.

Lemma settled_step s s1 :
  inv s -> good (conn s) (conn s1) -> grows (conn s) (conn s1) ->
  owner s = false \/ existsb is_destroyed (pending (conn s1)) = true ->
  _state (conn s1) = Disconnected /\ settled (pending (conn s1)).
Proof.
  intros Hi [Hi1 Hl] Hg Ho. destruct (owner s) eqn:Es.
  - destruct Ho as [Ho | Hx]; [done |]. split.
    { pose proof (c_pending _ (inv_core _ Hi1)) as Hp. apply existsb_exists in Hx as (f & Hin & Hf).
      rewrite Forall_forall in Hp. apply list_elem_of_In in Hin. specialize (Hp f Hin). by destruct f. }
    destruct Hg as [(more & E & Hm) | more _ E Hm | Hr]; [| | by left].
    + rewrite E in *. apply settled_new; [by apply (i_owner s Hi) | done | done].
    + rewrite E, existsb_app, (i_owner s Hi Es), Hm in Hx. done.
  - destruct (i_gone s Hi Es) as [Hd Hs]. split; [by apply (l_closed _ _ Hl) |].
    destruct Hg as [(more & E & Hm) | more Hst _ _ | Hr]; [| done | by left].
    rewrite E. by apply settled_app.
Qed.

(** What a move has to keep. *)
Lemma after_move s s1 :
  inv s -> good (conn s) (conn s1) -> grows (conn s) (conn s1) ->
  Forall half_ok (halves s1) -> (length (halves s1) <= refs s1)%nat ->
  (halves s1 <> [] -> _state (conn s1) <> Connecting) ->
  owner s1 = owner s -> alive s1 = alive s ->
  (alive s = false -> refs s1 = 0%nat /\ pending (conn s1) = []) ->
  outcome inv (release (hand_over s1)).
Proof.
  intros Hi Hgood Hg Hh Hr Hf Eo Ea Hdead. pose proof (settled_step s s1 Hi Hgood Hg) as Hs.
  assert (Hown : owner (hand_over s1) = false ->
            _state (conn s1) = Disconnected /\ settled (pending (conn s1))).
  { cbn. rewrite Eo. intros [?|?%negb_false_iff]%andb_false_iff; auto. }
  assert (Hkeep : owner (hand_over s1) = true -> existsb is_destroyed (pending (conn s1)) = false).
  { cbn. by intros [_ ?%negb_true_iff]%andb_true_iff. }
  unfold release. destruct (alive (hand_over s1)) eqn:Ha; cbn [andb].
  - destruct (held (hand_over s1)) eqn:Hh1; cbn [negb].
    + constructor; try done; [apply Hgood | by rewrite Ha, Hh1 | by rewrite Ha].
    + unfold held in Hh1. apply orb_false_iff in Hh1 as [[H1 H2]%orb_false_iff H3].
      destruct (Hown H1) as [Hd Hset]. change (conn (hand_over s1)) with (conn s1) in *.
      rewrite assert_true by by rewrite bool_decide_true. cbn [mbind res_bind outcome mret res_ret].
      constructor; try done; [apply Hgood | |].
      * unfold held. change (owner _) with (owner (hand_over s1)). cbn [conn refs].
        change (refs s1) with (refs (hand_over s1)). by rewrite H1, H2, H3.
      * intros _. by apply none_hold.
  - change (alive (hand_over s1)) with (alive s1) in Ha. rewrite Ea in Ha.
    destruct (Hdead Ha) as [E1 E2]. pose proof (i_alive s Hi) as Hal. rewrite Ha in Hal.
    unfold held in Hal. symmetry in Hal. apply orb_false_iff in Hal as [[Hos _]%orb_false_iff _].
    constructor; try done; [apply Hgood |].
    change (alive (hand_over s1)) with (alive s1). rewrite Ea, Ha. unfold held. cbn.
    by rewrite Eo, Hos, E1, E2.
Qed.

(** *** Every move keeps it *)

Lemma outcome_returns {A} (P Q : A -> Prop) m :
  outcome P m -> returns Q m -> outcome (fun a => P a /\ Q a) m.
Proof. destruct m; cbn; [| done]. intros Hp Hq. split; [done | by apply Hq]. Qed.

(** What the calls may carry. *)
Definition label_ok (l : label) (s : t) : Prop :=
  match l with
  | Loop i => input_ok i (conn s)
  | Begin c => _state (conn s) <> Connecting /\ call_ok false (_state (conn s)) c
  | _ => True
  end.
(** A call is disturbed when the connection closes while it is under way. *)
Definition fragile (h : half) : bool :=
  match h with Stated force_close | Stated force_close_with_delay => false | _ => true end.
Definition undisturbed (l : label) (s : t) : Prop :=
  match l with
  | Continue k =>
      match halves s !! k with
      | Some h => fragile h = true -> _state (conn s) <> Disconnected
      | None => True
      end
  | _ => True
  end.

Lemma loop_step_ok i s :
  inv s -> possible (Loop i) s -> input_ok i (conn s) ->
  outcome (fun c => good (conn s) c /\ grows (conn s) c /\ (alive s = false -> pending c = []))
    (loop_step user i s).
Proof.
  intros Hi Hp Hin. pose proof (i_conn s Hi) as Hc.
  assert (Halive : alive s = true -> outcome (fun c => good (conn s) c /\ grows (conn s) c /\
            (alive s = false -> pending c = [])) (TcpConnection.step user i (conn s))).
  { intros Ha. rewrite Ha. eapply outcome_mono with (P := fun c => good (conn s) c /\ grows (conn s) c).
    2: { by intros c []. }
    apply outcome_returns; [by apply step_good |]. intros c E.
    destruct i as [|b c0|revents| |]; try (apply grows_held; eapply loop_queues; [| exact E]; done || apply Hp).
    by apply grows_round, (pending_queues user (conn s)). }
  unfold loop_step. destruct (alive s) eqn:Ha.
  - destruct i; by apply Halive.
  - pose proof (i_dead s Hi Ha) as Hnil. destruct i as [|b c|revents| |]; cbn in Hp; try congruence; [by destruct Hp; congruence | |].
    + cbn [orb TcpConnection.step]. unfold do_pending_functors. rewrite Hnil. cbn [run_functors].
      assert (set_pending (conn s) [] = conn s) as -> by (rewrite <- Hnil; by destruct (conn s)).
      split_and!; [by split | by apply grows_held | done].
    + cbn. split_and!; [| by apply grows_held, queues_pending | done].
      split; [| by constructor]. destruct Hc as [[] ?]. by constructor.
Qed.

Lemma racing_spec c : racing c = true <-> (exists m, c = send m) \/ c = shutdown \/ c = force_close \/ c = force_close_with_delay.
Proof. destruct c; cbn; naive_solver. Qed.

(** A call is under way only while its thread keeps the connection alive. *)
Lemma held_by_thread s : inv s -> (0 < refs s)%nat -> alive s = true.
Proof.
  intros Hi Hr. rewrite (i_alive s Hi). unfold held. rewrite (proj2 (Nat.ltb_lt _ _) Hr). apply orb_true_r.
Qed.

Lemma resume_ok h s :
  inv s -> half_ok h -> _state (conn s) <> Connecting -> (fragile h = true -> _state (conn s) <> Disconnected) ->
  let '(c, h') := resume h (conn s) in
  good (conn s) c /\ grows (conn s) c /\ (forall h1, h' = Some h1 -> half_ok h1) /\ _state c <> Connecting.
Proof.
  intros Hi Hh Hst Hd. pose proof (i_conn s Hi) as Hc. pose proof (inv_core _ Hc) as Hcore.
  assert (Hq : forall f, functor_ok (_state (conn s)) f -> good (conn s) (queue_in_loop f (conn s))).
  { intros f Hf. apply calm_good; [done |]. split; [by apply core_queue | apply calm_queue]. }
  assert (Hset : _state (conn s) <> Disconnected -> good (conn s) (set_state (conn s) Disconnecting)).
  { intros Hd'. apply calm_good; [done |]. apply core_disconnecting; [done |]. apply open_spec.
    destruct (_state (conn s)); naive_solver. }
  destruct h as [c|c]; destruct c; cbn in Hh; try (by destruct Hh as [|[|]]); cbn [resume fragile] in *.
  - split_and!; [by apply Hq | by eapply grows_open; [apply Hd | |] | done | done].
  - split_and!; [by apply Hset, Hd | by apply grows_held, queues_pending | intros ? [= <-]; cbn; auto | done].
  - split_and!; [by apply Hset, Hd | by apply grows_held, queues_pending | intros ? [= <-]; cbn; auto | done].
  - split_and!; [by apply Hset, Hd | by apply grows_held, queues_pending | intros ? [= <-]; cbn; auto | done].
  - split_and!; [by apply Hq | by eapply grows_open; [apply Hd | |] | done | done].
  - split_and!; [by apply Hq | by apply grows_held, queues_queue | done | done].
  - split_and!; [| by apply grows_held, queues_pending | done | done].
    split; [| by constructor]. destruct Hc as [[] ?]. by constructor.
Qed.

(** Moves that leave the connection itself alone. *)
Lemma same_conn s s1 :
  inv s -> conn s1 = conn s -> Forall half_ok (halves s1) -> (length (halves s1) <= refs s1)%nat ->
  (halves s1 <> [] -> _state (conn s) <> Connecting) -> owner s1 = owner s -> alive s1 = alive s ->
  (alive s = false -> refs s1 = 0%nat) -> outcome inv (release (hand_over s1)).
Proof.
  intros Hi E Hh Hr Hf Eo Ea Hd. apply (after_move s); rewrite ?E; try done.
  - by split; [apply Hi |].
  - by apply grows_held.
  - intros Ha. split; [by apply Hd | by apply (i_dead s Hi)].
Qed.

Lemma refs_dead s : inv s -> alive s = false -> refs s = 0%nat.
Proof.
  intros Hi Ha. destruct (refs s) eqn:E; [done |].
  rewrite (held_by_thread s Hi) in Ha by lia. done.
Qed.

Lemma begin_ok c s :
  inv s -> possible (Begin c) s -> label_ok (Begin c) s ->
  outcome inv (step user (Begin c) s).
Proof.
  intros Hi Hp [Hst Hcall]. cbn in Hp. assert (alive s = true) as Ha by (apply held_by_thread; [done | lia]).
  unfold step. cbn [move]. destruct (racing c) eqn:Hr.
  - cbn [mbind res_bind mret res_ret]. apply (same_conn s); try (by destruct (test c (conn s))).
    + destruct (test c (conn s)); [| apply Hi]. apply Forall_app. split; [apply Hi |].
      apply Forall_singleton. apply racing_spec in Hr as [[m ->] | Hr]; [done |].
      cbn. destruct Hr as [-> | [-> | ->]]; auto.
    + pose proof (i_refs s Hi). destruct (test c (conn s)); cbn; rewrite ?length_app; cbn; lia.
    + congruence.
  - pose proof (i_conn s Hi) as Hc. pose proof (api_ok Hshut false c (conn s) (inv_core _ Hc) Hst Hcall) as Hok.
    assert (returns (queues (conn s)) (api false c (conn s))) as Hq.
    { destruct c; cbn in Hr, Hcall; try done; try by destruct Hcall.
      - by apply returns_ret, queues_pending.
      - by apply returns_ret, queues_queue. }
    destruct (api false c (conn s)) as [c1|]; [| done]. cbn [mbind res_bind mret res_ret].
    apply (after_move s); try done; try apply Hi.
    + by apply calm_good.
    + by apply grows_held, Hq.
    + intros _. rewrite (m_fresh _ _ (proj2 Hok)). exact Hst.
    + congruence.
Qed.

Lemma continue_ok k s :
  inv s -> possible (Continue k) s -> undisturbed (Continue k) s ->
  outcome inv (step user (Continue k) s).
Proof.
  intros Hi Hp Hu. cbn in Hp, Hu. destruct (lookup_lt_is_Some_2 _ _ Hp) as [h Eh]. rewrite Eh in Hu.
  assert (halves s <> []) as Hne by (by intros E; rewrite E in Eh).
  pose proof (i_refs s Hi) as Hrefs. pose proof (i_fresh s Hi Hne) as Hst.
  pose proof (resume_ok h s Hi (Forall_lookup_1 _ _ _ _ (i_halves s Hi) Eh) Hst Hu) as Hres.
  unfold step. cbn [move]. rewrite Eh. destruct (resume h (conn s)) as [c h'].
  destruct Hres as (Hg & Hgr & Hh & Hst'). cbn [mbind res_bind mret res_ret].
  apply (after_move s); try done.
  - cbn. destruct h' as [h1|].
    + apply Forall_insert; [apply Hi | by apply Hh].
    + apply Forall_delete, Hi.
  - cbn. destruct h'; [by rewrite length_insert | rewrite length_delete by done; lia].
  - intros Ha. rewrite (held_by_thread s Hi) in Ha by lia. done.
Qed.

Lemma step_keeps l s :
  inv s -> possible l s -> label_ok l s -> undisturbed l s -> outcome inv (step user l s).
Proof.
  intros Hi Hp Hl Hu. destruct l as [i| | |c|k].
  - unfold step. cbn [move]. pose proof (loop_step_ok i s Hi Hp Hl) as Hok.
    destruct (loop_step user i s) as [c|]; [| done]. destruct Hok as (Hg & Hgr & Hd).
    cbn [mbind res_bind mret res_ret]. apply (after_move s); try done; try apply Hi.
    + intros Hne. apply (l_fresh _ _ (proj2 Hg)), (i_fresh s Hi), Hne.
    + intros Ha. split; [exact (refs_dead s Hi Ha) | by apply Hd].
  - apply (same_conn s); try done; try apply Hi.
    + cbn. pose proof (i_refs s Hi). lia.
    + cbn in Hp. congruence.
  - cbn in Hp. apply (same_conn s); try done; try apply Hi.
    + cbn. lia.
    + intros Ha. pose proof (refs_dead s Hi Ha). lia.
  - by apply begin_ok.
  - by apply continue_ok.
Qed.

Fixpoint allowed (ls : list label) (s : t) : Prop :=
  match ls with
  | [] => True
  | l :: ls => (possible l s /\ label_ok l s /\ undisturbed l s) /\ forall s', step user l s = Ret s' -> allowed ls s'
  end.

Lemma run_keeps ls s : inv s -> allowed ls s -> outcome inv (run user ls s).
Proof.
  revert s. induction ls as [|l ls IH]; intros s Hi; cbn [allowed run]; [done |].
  intros [(Hp & Hl & Hu) Hall]. pose proof (step_keeps l s Hi Hp Hl Hu) as H1.
  destruct (step user l s) as [s1|] eqn:E; [| done]. cbn [mbind res_bind]. apply IH; [done | by apply Hall].
Qed.

Lemma make_keeps fd wc hw : inv (SharedConnection.make (TcpConnection.make fd wc hw)).
Proof. constructor; try done. apply make_inv. Qed.
End invariant.
End RaceSpec.

(** ** The properties *)

Module RaceProps.
Import TcpConnection ConnectionSpec ConnectionProps SharedConnection RaceSpec.

(** C19: threads share a connection. However calls of [send], [shutdown], [force_close]
    and [force_close_with_delay] by any number of threads interleave with the loop's
    steps, piece by piece, under three conditions: the connection does not close while one
    of the calls is under way (what happens then is [disturbed_calls]); [start_read] and
    [stop_read], whose functors hold nothing, are left to the loop's thread
    ([start_read_elsewhere]) and not called after the end; and the poller reports no [late_hang_up] (see
    [tcp_callbacks_in_order]). Then no assertion fails, the destructor's among them, and
    no functor or handler runs on a connection that is gone; bytes go out in order and
    the callbacks come in order; and the connection goes away exactly when it is closed,
    nothing is queued for it, and nobody has a pointer to it. *)
Theorem shared_connection {B : Build} `{KernelLaws} user ls fd wc hw
    (Hshut : forall i, k_shutdown i = true) (Huser : polite user)
    (Hls : allowed user ls (SharedConnection.make (TcpConnection.make fd wc hw))) :
  outcome (fun s =>
      wire (conn s) ++ output (conn s) = accepted (conn s) /\
      log_ok (_state (conn s)) (log (conn s)) /\
      alive s = held s /\
      (alive s = false -> _state (conn s) = Disconnected /\ pending (conn s) = [] /\ refs s = 0%nat))
    (run user ls (SharedConnection.make (TcpConnection.make fd wc hw))).
Proof.
  eapply outcome_mono; [by apply (run_keeps Hshut user Huser); [apply make_keeps |] |].
  intros s Hi. split_and!; [apply Hi | apply Hi | apply Hi |]. intros Ha. split_and!.
  - apply (i_gone s Hi). pose proof (i_alive s Hi) as E. rewrite Ha in E. unfold held in E.
    symmetry in E. by apply orb_false_iff in E as [[? _]%orb_false_iff _].
  - by apply (i_dead s Hi).
  - by apply refs_dead.
Qed.

(** A call that nothing comes between is the call of TcpConnections.v. *)
Theorem whole_call {B : Build} `{KernelLaws} user c s
    (Hi : RaceSpec.inv s) (Hr : (0 < refs s)%nat) (Hc : racing c = true) :
  run user (Begin c :: if test c (conn s) then replicate (pieces c) (Continue (length (halves s))) else []) s
  = (c' ← api false c (conn s); mret (set_conn s c')).
Proof.
  assert (forall s1, refs s1 = refs s -> owner s1 = owner s ->
            existsb is_destroyed (pending (conn s1)) = existsb is_destroyed (pending (conn s)) ->
            release (hand_over s1) = Ret s1) as Hstill.
  { intros s1 E1 E2 E3. pose proof (i_owner s Hi) as Ho. unfold release.
    assert (held (hand_over s1) = true) as ->.
    { unfold held. change (refs (hand_over s1)) with (refs s1).
      rewrite E1, (proj2 (Nat.ltb_lt _ _) Hr). apply orb_true_r. }
    rewrite andb_false_r. unfold hand_over. rewrite E2, E3.
    destruct s1 as [c1 h1 o1 r1 a1]. cbn in *. subst o1. destruct (owner s); [| done]. by rewrite Ho. }
  assert (Hgo : forall h sc, let s1 := set_halves (set_conn s sc) (halves s ++ [h]) in
            existsb is_destroyed (pending (resume h sc).1) = existsb is_destroyed (pending (conn s)) ->
            step user (Continue (length (halves s))) s1
            = Ret (set_halves (set_conn s (resume h sc).1)
                     (match (resume h sc).2 with Some h' => halves s ++ [h'] | None => halves s end))).
  { intros h sc s1 E. unfold step. cbn [move s1 halves set_halves].
    rewrite (list_lookup_middle (halves s) [] h _ eq_refl). change (conn s1) with sc.
    destruct (resume h sc) as [c' h']. cbn [mbind res_bind mret res_ret]. rewrite Hstill by done. f_equal.
    unfold set_halves. cbn. f_equal. destruct h' as [h'|].
    - rewrite <- (Nat.add_0_r (length (halves s))). by rewrite insert_app_r.
    - rewrite delete_middle. apply app_nil_r. }
  assert (set_halves s (halves s) = s) as Hsame by by destruct s.
  assert (forall f sc, is_destroyed f = false -> pending sc = pending (conn s) ->
            existsb is_destroyed (pending (queue_in_loop f sc)) = existsb is_destroyed (pending (conn s))) as Hf.
  { intros f sc Ef Ep. cbn. rewrite Ep, existsb_app. cbn. by rewrite Ef, !orb_false_r. }
  assert (step user (Begin c) s = Ret (if test c (conn s) then set_halves s (halves s ++ [Tested c]) else s)) as Hb.
  { unfold step. cbn [move]. rewrite Hc. cbn [mbind res_bind mret res_ret]. destruct (test c (conn s)); by apply Hstill. }
  cbn [run]. rewrite Hb. cbn [mbind res_bind].
  pose proof (Hgo (Tested c) (conn s)) as H1. pose proof (Hgo (Stated c) (set_state (conn s) Disconnecting)) as H2.
  assert (set_conn s (conn s) = s) as Hsc by by destruct s. rewrite Hsc in H1.
  destruct c; try done; cbn [test api] in *; 
    match goal with |- context [if ?b then _ else _] => destruct b end; cbn [pieces replicate run resume fst snd] in *; try (by cbn; rewrite Hsc).
  - rewrite H1 by by apply Hf. done.
  - rewrite H1 by done. cbn [mbind res_bind]. rewrite H2 by by apply Hf. done.
  - rewrite H1 by done. cbn [mbind res_bind]. rewrite H2 by by apply Hf. done.
  - rewrite H1 by done. cbn [mbind res_bind]. rewrite H2 by done. done.
Qed.

(** C20: the calls of another thread that a close comes in between. With the
    connection closed and destroyed and the calling thread's pointer the last one: a
    [send] that saw it up queues a functor that runs on freed memory; a [shutdown] sets
    the closed connection to Disconnecting, which the destructor's assertion rejects;
    and a [force_close] closes it a second time, in a debug build too. *)
Theorem disturbed_calls `{KernelLaws} user s
    (Hshut : forall i, k_shutdown i = true) (Huser : polite user)
    (Hc : core (conn s)) (Hst : _state (conn s) = Disconnected) (Hp : pending (conn s) = [])
    (Ho : owner s = false) (Hr : refs s = 1%nat) (Ha : alive s = true) :
  (forall (B : Build) message,
     run user [Continue 0; Drop; Loop Pending] (set_halves s [Tested (send message)]) = Stop UndefinedBehaviour) /\
  @run debug _ user [Continue 0; Continue 0; Loop Pending; Drop] (set_halves s [Tested shutdown])
  = Stop AssertionFailed /\
  (forall B : Build,
     outcome (fun s' => log (conn s') = log (conn s) ++ [OnConnection false; OnClose])
       (run user [Continue 0; Continue 0; Loop Pending] (set_halves s [Tested force_close]))).
Proof.
  destruct s as [c hs o r a]. cbn [conn owner refs alive] in *. subst o r a.
  assert (Hw : Channel.is_writing (_channel c) = false).
  { pose proof (c_closed _ Hc Hst) as E. change (Channel._events (_channel c) = 0) in E.
    unfold Channel.is_writing. by rewrite E. }
  split_and!.
  - intros [[]] message; destruct c; cbn in Hst, Hp; subst; reflexivity.
  - clear Hc. destruct c. cbn in Hst, Hp, Hw. subst. cbn. unfold shutdown_in_loop. cbn. rewrite Hw, Hshut. reflexivity.
  - intros B. set (c2 := set_pending (set_state c Disconnecting) []).
    set (s2 := mk (queue_in_loop ForceCloseInLoop (set_state c Disconnecting)) [] false 1 true).
    assert (run user [Continue 0; Continue 0; Loop Pending] (set_halves (mk c hs false 1 true) [Tested force_close])
            = (s' ← step user (Loop Pending) s2; Ret s')) as ->.
    { destruct B as [[]]; destruct c; cbn in Hst, Hp; subst; reflexivity. }
    assert (TcpConnection.step user Pending (conn s2) = (c' ← handle_close user c2; Ret c')) as E.
    { cbn [TcpConnection.step]. unfold do_pending_functors. change (pending (conn s2)) with (pending c ++ [ForceCloseInLoop]).
      rewrite Hp. reflexivity. }
    pose proof (@close_calls_back B _ _ Hshut user Huser c2) as Hclose.
    unfold step. cbn [move loop_step alive s2 orb]. change (conn (mk _ _ _ _ _)) with (conn s2). rewrite E.
    unfold handle_close. rewrite assert_true by done. cbn [mbind res_bind] in *.
    match type of Hclose with _ -> outcome _ ?m => destruct m as [c3|f] end.
    2: { cbn in *. apply Hclose. exact (core_closed _ (core_pending c [] Hc (Forall_nil_2 _))). }
    destruct Hclose as (_ & _ & El); [exact (core_closed _ (core_pending c [] Hc (Forall_nil_2 _))) |].
    cbn [mbind res_bind mret res_ret]. unfold release, held. cbn [refs hand_over set_conn s2 Nat.ltb Nat.leb].
    rewrite orb_true_r, andb_false_r. exact El.
Qed.

(** [start_read] and [stop_read] do not even test the state: called by a thread that has
    the last pointer, their functor runs on freed memory. *)
Theorem start_read_elsewhere {B : Build} `{KernelLaws} user s c
    (Hst : _state (conn s) = Disconnected) (Hp : pending (conn s) = []) (Hh : halves s = [])
    (Ho : owner s = false) (Hr : refs s = 1%nat) (Ha : alive s = true) (Hc : c = start_read \/ c = stop_read) :
  run user [Begin c; Drop; Loop Pending] s = Stop UndefinedBehaviour.
Proof.
  destruct s as [[] hs o r a]. cbn in *. subst. by destruct Hc as [-> | ->], B as [[]].
Qed.

(** *** Witnesses *)

#[local] Existing Instances three_bytes three_bytes_laws.
#[local] Instance possible_dec l s : Decision (SharedConnection.possible l s).
Proof. destruct l as [[]| | | |]; cbn [SharedConnection.possible]; apply _. Defined.
#[local] Instance label_ok_dec l s : Decision (label_ok l s).
Proof. destruct l as [i| | |c|k]; cbn [label_ok]; [apply _ | apply _ | apply _ | destruct c; cbn [call_ok]; apply _ | apply _]. Defined.
#[local] Instance undisturbed_dec l s : Decision (undisturbed l s).
Proof. destruct l; cbn [undisturbed]; try apply _. destruct (_ !! _); apply _. Defined.
Fixpoint check_labels {B : Build} `{Kernel} user (ls : list label) (s : t) : bool :=
  match ls with
  | [] => true
  | l :: ls => bool_decide (SharedConnection.possible l s) && bool_decide (label_ok l s) && bool_decide (undisturbed l s) &&
      match step user l s with Ret s' => check_labels user ls s' | Stop _ => true end
  end.
Lemma check_labels_ok {B : Build} `{Kernel} user ls s : check_labels user ls s = true -> allowed user ls s.
Proof.
  revert s. induction ls as [|l ls IH]; intros s; cbn [check_labels allowed]; [done |].
  intros [[[Hp Hl]%andb_true_iff Hu]%andb_true_iff Hrest]%andb_true_iff.
  apply bool_decide_eq_true in Hp, Hl, Hu. split; [done |].
  intros s' E. rewrite E in Hrest. by apply IH.
Qed.

(** Two threads send while a third closes the connection; they let go of it last. *)
Definition traffic_jam : list label :=
  [Loop Establish; Share; Begin (send (bytes "one")); Share; Share; Begin (send (bytes "two")); Begin force_close;
   Continue 1; Loop Pending; Continue 1; Continue 0; Continue 0; Loop Pending; Drop; Drop; Loop Pending; Drop].
Lemma traffic_jam_allowed :
  @allowed debug _ greeter traffic_jam (SharedConnection.make (TcpConnection.make 7 true true)).
Proof. apply check_labels_ok. by vm_compute. Qed.
Lemma shared_connection_witness :
  outcome (fun s =>
      wire (conn s) ++ output (conn s) = accepted (conn s) /\
      log_ok (_state (conn s)) (log (conn s)) /\
      alive s = held s /\
      (alive s = false -> _state (conn s) = Disconnected /\ pending (conn s) = [] /\ refs s = 0%nat))
    (@run debug _ greeter traffic_jam (SharedConnection.make (TcpConnection.make 7 true true))).
Proof.
  apply (@shared_connection debug three_bytes three_bytes_laws); [done | exact greeter_polite | exact traffic_jam_allowed].
Defined.
Example traffic_jam_over :
  match @run debug _ greeter traffic_jam (SharedConnection.make (TcpConnection.make 7 true true)) with
  | Ret s => alive s = false /\ accepted (conn s) = bytes "hello, twoone"
  | Stop _ => False
  end.
Proof. by vm_compute. Qed.

(** The peer hangs up in the middle of a call. *)
Definition hang_up_in (c : call) : list label :=
  [Loop Establish; Share; Begin c; Loop (Ready (Z.lor POLLIN POLLHUP)); Loop Pending].
Definition hung_up (c : call) : t :=
  match @run debug _ greeter (hang_up_in c) (SharedConnection.make (TcpConnection.make 7 true true)) with
  | Ret s => s
  | Stop _ => SharedConnection.make (TcpConnection.make 7 true true)
  end.
Example hung_up_halves :
  Forall (fun c => halves (hung_up c) = [Tested c] /\ conn (hung_up c) = conn (hung_up shutdown))
    [send (bytes "x"); shutdown; force_close].
Proof. do 3 (apply Forall_cons; split; [split; vm_compute; reflexivity |]). by apply Forall_nil. Qed.
Lemma hung_up_core : core (conn (hung_up shutdown)).
Proof.
  assert (@allowed debug _ greeter (hang_up_in shutdown) (SharedConnection.make (TcpConnection.make 7 true true))) as Ha
    by (apply check_labels_ok; by vm_compute).
  pose proof (@run_keeps debug _ _ (fun _ => eq_refl) greeter greeter_polite _ _ (make_keeps 7 true true) Ha) as H1.
  unfold hung_up. destruct (run greeter (hang_up_in shutdown) _) as [s|]; [apply H1 | apply make_inv].
Qed.
Lemma disturbed_calls_witness :
  let s := hung_up shutdown in
  (forall (B : Build) message,
     run greeter [Continue 0; Drop; Loop Pending] (set_halves s [Tested (send message)]) = Stop UndefinedBehaviour) /\
  @run debug _ greeter [Continue 0; Continue 0; Loop Pending; Drop] (set_halves s [Tested shutdown])
  = Stop AssertionFailed /\
  (forall B : Build,
     outcome (fun s' => log (conn s') = log (conn s) ++ [OnConnection false; OnClose])
       (run greeter [Continue 0; Continue 0; Loop Pending] (set_halves s [Tested force_close]))).
Proof.
  intros s. apply (@disturbed_calls three_bytes three_bytes_laws).
  - done.
  - exact greeter_polite.
  - exact hung_up_core.
  - by vm_compute.
  - by vm_compute.
  - by vm_compute.
  - by vm_compute.
  - by vm_compute.
Defined.
End RaceProps.
