(* ===== verification/StreamServers.v ===== *)
(** Servers on a byte stream: user code as the callbacks of a TcpConnection
    (suduo/net/TcpConnection.cpp), and what a client may rely on.

    [Class Handler] is what a server does with a connection's [_context] and its
    input buffer, [Class HandlerSpec] the same as a function on bytes. The theorems
    are proved for every handler that keeps [HandlerLaws]; HttpServer
    (HttpConnections.v), the ping-pong server and the server of zeromq/local_lat.cpp
    (EchoServers.v) do. *)

From S2P Require Import Prelude.
From S2P Require Import ByteBuffer.
From S2P Require Import Time.
From S2P Require Import Pollers.
From S2P Require Import TcpConnections.

(** [C]: what the server keeps in the connection's [_context]; the connection
    callback and the message callback, with the calls the latter makes. *)
Class Handler (C : Type) := {
  h_new : C;
  h_connection : bool -> C -> C;
  h_message : Timestamp.t -> C -> Buffer.t -> res (list TcpConnection.call * C * Buffer.t)
}.

Module StreamServer.
Import TcpConnection.

Section server.
Context {C : Type} `{Handler C}.

(** A callback: the calls it makes and [_context] after it. What the message
    callback takes from the input buffer it takes before it sends. *)
Definition on_event (receiveTime : Timestamp.t) (context : C) (e : event) : res (list call * C) :=
  match e with
  | OnConnection connected => mret ([], h_connection connected context)
  | OnMessage buf =>
      '(calls, context, buf') ← h_message receiveTime context buf;
      mret (retrieve_input (u64 (Buffer.readable_bytes buf - Buffer.readable_bytes buf')) :: calls, context)
  | _ => mret ([], context)
  end.

(** The callbacks so far: the number of messages there were, the [n]-th of them at
    [clock n], and [_context]. *)
Context (clock : nat -> Timestamp.t).
Definition after (past : nat * C) (e : event) : nat * C :=
  (match e with OnMessage _ => S past.1 | _ => past.1 end,
   match on_event (clock past.1) past.2 e with Ret (_, context) => context | Stop _ => past.2 end).
Definition history (h : list event) : nat * C := foldl after (0%nat, h_new) h.

(** The server as the user of a connection. A handler that stops the program would
    make no calls; that it never does is part of what is proved. *)
Definition callbacks (h : list event) (e : event) : list call :=
  match on_event (clock (history h).1) (history h).2 e with Ret (calls, _) => calls | Stop _ => [] end.
End server.
End StreamServer.

(** ** What the client relies on *)

(** The contexts a message may find, and the handler on bytes: the calls, the context
    after it, and the bytes it leaves for the next time. *)
Class HandlerSpec (C : Type) := {
  h_ready : C -> Prop;
  h_stream : Timestamp.t -> C -> list byte -> res (list TcpConnection.call * C * list byte)
}.

(** A server sends and shuts down, and does nothing else. *)
Definition stream_call (c : TcpConnection.call) : Prop :=
  match c with
  | TcpConnection.send message => zlen message <= int64_max
  | TcpConnection.shutdown => True
  | _ => False
  end.

Class HandlerLaws (C : Type) `{Handler C} `{HandlerSpec C} : Prop := {
  h_up : h_ready (h_connection true h_new);
  h_serves time c bs : h_ready c -> exists calls c' rest,
    h_stream time c bs = Ret (calls, c', rest) /\ h_ready c' /\ suffix rest bs /\
    forall b, Buffer.wf b -> Buffer.content b = bs -> exists b',
      h_message time c b = Ret (calls, c', b') /\ Buffer.wf b' /\ Buffer.content b' = rest /\
      Buffer.storage b' = Buffer.storage b;
  h_calls time c b calls c' b' : Buffer.wf b -> h_message time c b = Ret (calls, c', b') -> Forall stream_call calls
}.

Module ByteStream.
Import TcpConnection.
Section server.
Context {C : Type} `{HandlerSpec C} (clock : nat -> Timestamp.t).

(** The [n]-th chunk arrives at [clock n]. *)
Fixpoint serve (n : nat) (c : C) (bs : list byte) (chunks : list (list byte)) : res (list call * C * list byte) :=
  match chunks with
  | [] => mret ([], c, bs)
  | d :: ds =>
      '(calls, c, bs) ← h_stream (clock n) c (bs ++ d);
      '(more, c, bs) ← serve (S n) c bs ds;
      mret (calls ++ more, c, bs)
  end.
End server.

(** The bytes the client gets: nothing is sent after a shutdown. *)
Fixpoint sent (calls : list call) : list byte :=
  match calls with
  | send message :: calls => message ++ sent calls
  | shutdown :: _ => []
  | _ :: calls => sent calls
  | [] => []
  end.
Definition closing (calls : list call) : bool :=
  existsb (fun c => match c with shutdown => true | _ => false end) calls.

Lemma sent_app a b : sent (a ++ b) = sent a ++ if closing a then [] else sent b.
Proof. induction a as [|[] a IH]; cbn; try done. by rewrite IH, app_assoc. Qed.
Lemma closing_app a b : closing (a ++ b) = closing a || closing b.
Proof. apply existsb_app. Qed.

Lemma serve_snoc `{HandlerSpec} clock n c bs ds d :
  serve clock n c bs (ds ++ [d]) =
    ('(calls, c, bs) ← serve clock n c bs ds;
     '(more, c, bs) ← h_stream (clock (n + length ds)%nat) c (bs ++ d);
     mret (calls ++ more, c, bs)).
Proof.
  revert n c bs. induction ds as [|d' ds IH]; intros n c bs; cbn [app serve length].
  - rewrite Nat.add_0_r. cbn [mbind res_bind mret res_ret].
    destruct (h_stream _ _ _) as [[[a1 c1] b1]|]; [| done]. cbn. by rewrite app_nil_r.
  - destruct (h_stream (clock n) c (bs ++ d')) as [[[a1 c1] b1]|]; [| done]. cbn [mbind res_bind]. rewrite IH.
    destruct (serve _ _ _ _ _) as [[[a2 c2] b2]|]; [| done]. cbn [mbind res_bind mret res_ret].
    replace (S n + length ds)%nat with (n + S (length ds))%nat by lia.
    destruct (h_stream _ _ _) as [[[a3 c3] b3]|]; [| done]. cbn. by rewrite app_assoc.
Qed.
End ByteStream.

(** ** The connection serves the stream *)

Module StreamServerSpec.
Import TcpConnection ConnectionSpec StreamServer ByteStream.

Lemma outcome_ret {A} (P Q : A -> Prop) m : outcome P m -> (forall a, m = Ret a -> P a -> Q a) -> outcome Q m.
Proof. destruct m; cbn; auto. Qed.

(** What the handlers queue in their loop. *)
Definition quiet (f : functor) : Prop :=
  match f with WriteComplete | HighWaterMark _ | ConnectDestroyed => True | _ => False end.

(** What a step leaves alone. *)
Record kept (s s' : t) : Prop := mk_kept {
  k_input : _input_buffer s' = _input_buffer s;
  k_received : received s' = received s;
  k_log : log s' = log s;
  k_pending : Forall quiet (pending s) -> Forall quiet (pending s')
}.
#[global] Instance kept_refl : Reflexive kept.
Proof. by constructor. Qed.
#[global] Instance kept_trans : Transitive kept.
Proof. intros s1 s2 s3 [] []. constructor; [congruence .. | auto]. Qed.
Lemma kept_queue f s : quiet f -> kept s (queue_in_loop f s).
Proof. intros Hf. constructor; try done. intros Hall. apply Forall_app. by split; [| apply Forall_singleton]. Qed.

Section kernel.
Context {B : Build} `{KernelLaws} (Hshut : forall i, k_shutdown i = true).

(** Writing has not failed for good: the peer is there. *)
Definition alive : Prop :=
  forall i d errno, k_write i false d = WriteError errno -> errno <> EPIPE /\ errno <> ECONNRESET.

Lemma write_directly_kept (Halive : alive) d s nwrote remaining fault s' :
  fin s = false -> write_directly d s = (nwrote, remaining, fault, s') ->
  fault = false /\ accepted s' = accepted s /\ _state s' = _state s /\ fin s' = false /\ kept s s'.
Proof.
  intros Hf. unfold write_directly. rewrite Hf.
  destruct (_ && _); [| by intros [= <- <- <- <-]].
  destruct (k_write (calls s) false d) as [n|errno] eqn:Hk.
  - destruct (_ && _); intros [= <- <- <- <-]; split_and!; try done; cbn; rewrite ?Hf; try done.
    by etrans; [| apply kept_queue].
  - apply Halive in Hk as [H1 H2]. intros [= <- <- <- <-]. split_and!; try done.
    + apply Z.eqb_neq in H1, H2. by rewrite H1, H2, andb_false_r.
    + cbn. by rewrite Hf.
Qed.

Lemma buffer_rest_kept d nwrote remaining s s' :
  buffer_rest d nwrote remaining s = Ret s' ->
  accepted s' = accepted s ++ d /\ _state s' = _state s /\ fin s' = fin s /\ kept s s'.
Proof.
  unfold buffer_rest. set (s1 := high_water remaining s).
  assert (H1 : accepted s1 = accepted s /\ _state s1 = _state s /\ fin s1 = fin s /\ kept s s1).
  { unfold s1, high_water. destruct (_ && _ && _); [| done]. by split_and!; try apply kept_queue. }
  clearbody s1. destruct H1 as (<- & <- & <- & Hk). intros E. res_inv.
  destruct (Channel.is_writing _); split_and!; try done; (etrans; [exact Hk | done]).
Qed.

(** A message sent on a connection that is up and has not been shut down. *)
Lemma send_accepts (Halive : alive) d s s' :
  _state s = Connected -> fin s = false -> send_in_loop d s = Ret s' ->
  accepted s' = accepted s ++ d /\ _state s' = Connected /\ fin s' = false /\ kept s s'.
Proof.
  intros Hst Hf. unfold send_in_loop. rewrite bool_decide_false by (by rewrite Hst).
  destruct (write_directly d s) as [[[n rem] fault] s1] eqn:Ew.
  apply write_directly_kept in Ew as (-> & <- & Es & Hf1 & Hk); [| done..]. rewrite Hst in Es. cbn [negb andb].
  intros E. res_inv. destruct (0 <? rem).
  - apply buffer_rest_kept in E as (? & ? & ? & ?). split_and!; [done | congruence | congruence | by etrans].
  - res_inv. by split_and!; [| | | etrans].
Qed.

(** The calls of a handler. *)
Lemma run_stream_calls (Halive : alive) calls s s' :
  _state s = Connected \/ _state s = Disconnecting -> (_state s = Connected -> fin s = false) ->
  Forall stream_call calls -> run_calls calls s = Ret s' ->
  accepted s' = accepted s ++ (if bool_decide (_state s = Connected) then sent calls else []) /\
  _state s' = (if bool_decide (_state s = Connected) && negb (closing calls) then Connected else Disconnecting) /\
  (_state s' = Connected -> fin s' = false) /\ kept s s'.
Proof.
  revert s. induction calls as [|a calls IH]; intros s Hst Hf Hall; cbn [run_calls].
  { intros [= <-]. destruct Hst as [E|E]; rewrite E; cbn; by rewrite app_nil_r; split_and!; auto. }
  apply Forall_cons in Hall as [Ha0 Hall].
  intros E. apply res_bind_inv in E as (s1 & E1 & E). destruct Hst as [Hc|Hc]; rewrite Hc in *.
  - rewrite bool_decide_true by done. destruct a as [d| | | | | | |]; try done; cbn [api] in E1; rewrite Hc in E1; cbn in E1.
    + apply send_accepts in E1 as (Ha & Hs1 & Hf1 & Hk); [| done | done | by auto].
      apply IH in E as (Ha' & Hs' & Hf' & Hk'); [| by left | done | done].
      rewrite Hs1, bool_decide_true in Ha', Hs' by done. cbn [sent closing existsb orb].
      split_and!; [by rewrite Ha', Ha, <- app_assoc | done | done | by etrans].
    + assert (H1 : accepted s1 = accepted s /\ _state s1 = Disconnecting /\ kept s s1).
      { unfold shutdown_in_loop in E1. destruct (Channel.is_writing _); [by injection E1 as <-|].
        destruct (k_shutdown _); [by injection E1 as <- | done]. }
      destruct H1 as (Ha & Hs1 & Hk). apply IH in E as (Ha' & Hs' & Hf' & Hk'); [| by right | by rewrite Hs1 | done].
      rewrite Hs1, bool_decide_false in Ha', Hs' by done. cbn [sent closing existsb orb negb andb] in *.
      split_and!; [by rewrite Ha', Ha | done | done | by etrans].
  - rewrite bool_decide_false by done.
    assert (s1 = s) as -> by (destruct a; try done; cbn [api] in E1; rewrite Hc in E1; by injection E1).
    apply IH in E as (Ha' & Hs' & Hf' & Hk'); [| by right | by rewrite Hc | done].
    rewrite Hc, bool_decide_false in Ha', Hs' by done. by split_and!.
Qed.

(** *** The server's callbacks *)

Context {C : Type} `{HandlerLaws C} (clock : nat -> Timestamp.t).
Let user := callbacks clock.

Lemma history_snoc h e : history clock (h ++ [e]) = after clock (history clock h) e.
Proof. unfold history. by rewrite foldl_app. Qed.

(** Only messages make a handler act. *)
Lemma callback_silent e s :
  (forall b, e <> OnMessage b) -> callback user e s = Ret (record_event s e).
Proof. intros He. unfold callback, user, callbacks. destruct e; [done | by edestruct He | done ..]. Qed.

(** The handlers keep to the rules of a connection's callbacks. *)
Lemma stream_callbacks_polite h e st : possible e st -> Forall (call_ok true st) (user h e).
Proof.
  intros He. unfold user, callbacks. destruct (history clock h) as [n context]. cbn [fst snd].
  destruct e as [up|b| | |]; cbn [on_event]; try constructor.
  destruct (h_message (clock n) context b) as [[[calls c'] b']|] eqn:E; [| constructor].
  cbn [mbind res_bind mret res_ret]. constructor; [apply u64_range |].
  apply h_calls in E; [| apply He]. eapply Forall_impl; [exact E |]. by intros [].
Qed.

(** *** The invariant *)

(** The context a new connection is given when it comes up. *)
Definition start : C := h_connection true h_new.

Record serving (s : t) (acts : list call) (c : C) (rest : list byte) : Prop := mk_serving {
  v_serve : serve clock 0 start [] (received s) = Ret (acts, c, rest);
  v_past : _state s <> Disconnected -> history clock (log s) =
    (length (received s), if bool_decide (_state s = Connecting) then h_new else c);
  v_ready : h_ready c;
  v_chunks : Forall (fun d => d <> []) (received s);
  v_input : Buffer.content (_input_buffer s) = rest;
  v_accepted : accepted s = sent acts;
  v_up : _state s = Connecting \/ _state s = Connected -> closing acts = false /\ fin s = false;
  v_down : _state s = Disconnecting -> closing acts = true;
  v_pending : Forall quiet (pending s)
}.
Definition served (s : t) : Prop := exists acts c rest, serving s acts c rest.

(** Nothing is received or sent, and the connection does not come up again. *)
Lemma served_kept s s' :
  served s -> kept s s' -> accepted s' = accepted s ->
  (_state s' = _state s /\ (fin s' = fin s \/ _state s = Disconnecting)) \/ _state s' = Disconnected ->
  served s'.
Proof.
  intros (acts & c & rest & [V1 V2 V3 V4 V5 V6 V7 V8 V9]) [Ki Kr Kl Kp] Ka Hst. exists acts, c, rest.
  constructor; rewrite ?Kr, ?Kl, ?Ki, ?Ka; auto.
  - intros Hd. destruct Hst as [[E _]|E]; rewrite E in *; [by apply V2 | done].
  - destruct Hst as [[-> [->|Hd]]| ->]; [done | | by intros []]. rewrite Hd. by intros [].
  - by destruct Hst as [[-> _]| ->].
Qed.

Lemma served_event e s :
  served s -> (forall b, e <> OnMessage b) ->
  (forall up, e = OnConnection up -> _state s = Disconnected) -> served (record_event s e).
Proof.
  intros (acts & c & rest & [V1 V2 V3 V4 V5 V6 V7 V8 V9]) Hm Hup. exists acts, c, rest.
  constructor; cbn [received log _state _input_buffer accepted fin pending record_event]; auto.
  intros Hd. rewrite history_snoc, V2 by done.
  destruct e as [up| | | |]; [by destruct Hd; eapply Hup | by edestruct Hm | done ..].
Qed.

(** *** The steps *)

Lemma close_served s s' : served s -> _state s <> Connecting -> handle_close user s = Ret s' -> served s'.
Proof.
  intros Hs Hst E. unfold handle_close in E. apply res_bind_inv in E as (_ & _ & E).
  rewrite callback_silent in E by done. cbn [mbind res_bind] in E.
  rewrite callback_silent in E by done. injection E as <-.
  repeat (apply served_event; [| done..]). apply (served_kept s); [done | by constructor | done | by right].
Qed.

Lemma error_served s s' : served s -> handle_error s = Ret s' -> served s'.
Proof.
  intros Hs E. unfold handle_error in E. destruct (k_socket_error _); [| done]. injection E as <-.
  apply (served_kept s); [done | by constructor | done |]. left. split; [done | left; apply orb_false_r].
Qed.

Lemma shutdown_served s s' :
  served s -> _state s = Disconnecting -> shutdown_in_loop s = Ret s' -> served s'.
Proof.
  intros Hs Hst. unfold shutdown_in_loop. destruct (Channel.is_writing _); [by intros [= <-] |].
  destruct (k_shutdown _); [intros [= <-] | done].
  apply (served_kept s); [done | by constructor | done | left; auto].
Qed.

Lemma write_served s s' : served s -> handle_write s = Ret s' -> served s'.
Proof.
  intros Hs E. unfold handle_write in E. destruct (Channel.is_writing _); [| by injection E as <-].
  apply res_bind_inv in E as (d & _ & E).
  assert (Hsys : served (syscall s [] false)).
  { apply (served_kept s); [done | by constructor | done |]. left. split; [done | left; apply orb_false_r]. }
  destruct (k_write _ _ _) as [n|errno]; [| by injection E as <-].
  destruct (0 <? n).
  2: { injection E as <-. apply (served_kept (syscall s [] false)); [done | by constructor | done | left; auto]. }
  set (s1 := set_output (syscall s _ false) _) in E.
  assert (V1 : served s1) by (apply (served_kept (syscall s [] false)); [apply Hsys | by constructor | done | left; auto]).
  clearbody s1. destruct (_ =? 0); [| by injection E as <-].
  set (s2 := channel_events s1 disable_writing) in E.
  assert (V2 : served s2) by (apply (served_kept s1); [done | by constructor | done | left; auto]).
  clearbody s2. set (s3 := if _write_complete_callback s2 then _ else s2) in E.
  assert (V3 : served s3).
  { unfold s3. destruct (_write_complete_callback s2); [| done].
    apply (served_kept s2); [done | by apply kept_queue | done | left; auto]. }
  clearbody s3. case_bool_decide as Hd; [| by injection E as <-].
  by eapply shutdown_served.
Qed.

Lemma establish_served s s' :
  inv s -> served s -> _state s = Connecting -> connect_established user s = Ret s' -> served s'.
Proof.
  intros [_ Hl] (acts & c & rest & [V1 V2 V3 V4 V5 V6 V7 V8 V9]) Hst E.
  rewrite Hst in Hl. cbn in Hl. rewrite Hl, Hst, bool_decide_true in V2 by done.
  injection (V2 ltac:(done)) as Hn. symmetry in Hn. apply nil_length_inv in Hn. rewrite Hn in V1.
  injection V1 as <- <- <-.
  unfold connect_established in E. apply res_bind_inv in E as (_ & _ & E).
  rewrite callback_silent in E by done. injection E as <-.
  exists [], start, []. constructor; cbn [received log _state _input_buffer accepted fin pending record_event
    channel_events set_channel set_state]; rewrite ?Hn, ?Hl; try done. auto.
Qed.

(** The message callback: the context it finds, its answer, and what it leaves. *)
Lemma message_served (Halive : alive) s d b s' :
  served s -> open s = true -> core s -> d <> [] -> Buffer.wf b ->
  Buffer.content b = Buffer.content (_input_buffer s) ++ d ->
  callback user (OnMessage b) (receive (set_input (syscall s [] false) b) d) = Ret s' -> served s'.
Proof.
  intros (acts & c & rest & [V1 V2 V3 V4 V5 V6 V7 V8 V9]) Ho%open_spec Hcore Hd Hb Hcb E.
  set (s1 := receive (set_input (syscall s [] false) b) d) in *.
  assert (Hst : _state s <> Connecting) by (by destruct Ho as [-> | ->]).
  rewrite bool_decide_false in V2 by done.
  destruct (h_serves (clock (length (received s))) c (rest ++ d) V3)
    as (more & c' & rest' & Em & Hc' & [k Hk] & Hm).
  rewrite V5 in Hcb. destruct (Hm b Hb Hcb) as (b' & Eb & Hwf' & Hb' & _).
  pose proof (h_calls _ _ _ _ _ _ Hb Eb) as Hcalls.
  assert (Eon : on_event (clock (length (received s))) c (OnMessage b)
    = Ret (retrieve_input (zlen k) :: more, c')).
  { cbn [on_event]. rewrite Eb. cbn [mbind res_bind mret res_ret]. do 4 f_equal.
    rewrite !BufferSpec.readable_bytes_content, Hcb, Hb', Hk, length_app by done. rewrite u64_small; [lia |].
    pose proof (BufferSpec.content_length _ Hb) as Hl. rewrite Hcb, Hk, length_app in Hl.
    destruct Hb. unfold vector_max_size, int64_max in *. lia. }
  assert (Ec : user (log s1) (OnMessage b) = retrieve_input (zlen k) :: more).
  { unfold user, callbacks. change (log s1) with (log s).
    rewrite V2 by (by destruct Ho as [-> | ->]). cbn [fst snd]. by rewrite Eon. }
  unfold callback in E. rewrite Ec in E. cbn [run_calls api mbind res_bind mret res_ret] in E.
  set (s2 := set_input (record_event s1 (OnMessage b)) _) in E.
  apply run_stream_calls in E as (Ea & Es & Ef & [Ki Kr Kl Kp]); [| done | exact Ho | | done].
  2: { intros Hc. cbn. rewrite orb_false_r. apply V7. auto. }
  change (_state s2) with (_state s) in *. change (accepted s2) with (accepted s) in *.
  change (received s2) with (received s ++ [d]) in *.
  change (log s2) with (log s ++ [OnMessage b]) in *.
  exists (acts ++ more), c', rest'. constructor; rewrite ?Kr, ?Kl, ?Ki, ?Ea, ?sent_app, ?closing_app; auto.
  - rewrite serve_snoc, V1. cbn [mbind res_bind Nat.add]. by rewrite Em.
  - intros _. rewrite history_snoc, V2 by (by destruct Ho as [-> | ->]).
    rewrite bool_decide_false by (rewrite Es; by destruct (_ && _)).
    unfold after. cbn [fst snd]. rewrite Eon, length_app. cbn. by rewrite Nat.add_1_r.
  - apply Forall_app. split; [done | by apply Forall_singleton].
  - cbn. rewrite BufferSpec.retrieve_content by (done || lia). rewrite Hcb, Hk, Nat2Z.id. apply drop_app_length.
  - rewrite V6. destruct Ho as [Hc|Hc]; rewrite Hc.
    + by rewrite bool_decide_true, (proj1 (V7 (or_intror Hc))).
    + by rewrite bool_decide_false, V8.
  - intros [Hc|Hc]; [by rewrite Es in Hc; destruct (_ && _) |]. split; [| auto]. rewrite Es in Hc.
    destruct Ho as [Hc0|Hc0]; rewrite Hc0 in Hc; [| done].
    rewrite (proj1 (V7 (or_intror Hc0))). rewrite bool_decide_true in Hc by done. by destruct (closing more).
  - intros Hc. rewrite Es in Hc. destruct Ho as [Hc0|Hc0]; [| by rewrite V8].
    rewrite Hc0, bool_decide_true in Hc by done. destruct (closing more); [apply orb_true_r | done].
Qed.

Lemma read_served (Halive : alive) s s' :
  served s -> open s = true -> core s -> handle_read user s = Ret s' -> served s'.
Proof.
  intros Hs Ho Hc E. unfold handle_read in E. apply res_bind_inv in E as ([[n errno] b] & Er & E).
  assert (Hst : _state s <> Connecting) by (by destruct (proj1 (open_spec _) Ho) as [-> | ->]).
  assert (Hr : (n = -1 /\ b = _input_buffer s) \/ exists d, n = zlen d /\ Buffer.wf b /\
    Buffer.content b = Buffer.content (_input_buffer s) ++ d).
  { destruct (k_readv (calls s) (Channel.fd (_channel s)) (Buffer.read_fd_vec (_input_buffer s))) as [d|e] eqn:Hk.
    - right. exists d. pose proof (k_readv_bounded _ _ _ _ Hk) as Hl.
      destruct (BufferSpec.read_fd_total _ _ _ d (c_input _ Hc) Hk Hl) as [(b' & E' & ? & ? & _)|[E' _]];
        rewrite E' in Er; [| done]. by injection Er as <- <- <-.
    - left. unfold Buffer.read_fd in Er. rewrite Hk in Er. by injection Er as <- <- <-. }
  assert (Hsys : n <= 0 -> served (set_input (syscall s [] false) b)).
  { intros Hn. destruct Hs as (acts & c & rest & [V1 V2 V3 V4 V5 V6 V7 V8 V9]). exists acts, c, rest.
    constructor; cbn; auto; [| by rewrite orb_false_r].
    destruct Hr as [[_ ->]|(d & Ed & _ & ->)]; [done |]. destruct d; [by rewrite app_nil_r | cbn in Ed; lia]. }
  destruct (Z.ltb_spec 0 n).
  - destruct Hr as [[]|(d & -> & Hb & Hcb)]; [lia |]. cbn [_input_buffer set_input] in E.
    rewrite Hcb, Nat2Z.id, length_app, Nat.add_sub, drop_app_length in E.
    eapply (message_served Halive s d b); try done. by intros ->.
  - destruct (n =? 0); [eapply close_served | eapply error_served]; try apply Hsys; try done; lia.
Qed.

Lemma functor_served f s s' : served s -> _state s <> Connecting -> quiet f -> run_functor user f s = Ret s' ->
  served s' /\ _state s' <> Connecting.
Proof.
  intros Hs Hst Hf E. destruct f as [| | | | | |len|]; try done; cbn [run_functor] in E.
  - rewrite callback_silent in E by done. injection E as <-. split; [by apply served_event | done].
  - rewrite callback_silent in E by done. injection E as <-. split; [by apply served_event | done].
  - unfold connect_destroyed in E. case_bool_decide.
    + rewrite callback_silent in E by done. injection E as <-. split; [| done].
      set (s1 := channel_events (set_state s Disconnected) disable_all).
      assert (served s1) by (apply (served_kept s); [done | by constructor | done | by right]).
      eapply (served_kept (record_event s1 (OnConnection false))); [by apply served_event | by constructor | done | left; auto].
    + injection E as <-. split; [| done]. apply (served_kept s); [done | by constructor | done | left; auto].
Qed.

Lemma functors_served fs s s' : served s -> _state s <> Connecting -> Forall quiet fs ->
  run_functors user fs s = Ret s' -> served s'.
Proof.
  revert s. induction fs as [|f fs IH]; intros s Hs Hst Hall E; [by injection E as <- |].
  apply Forall_cons in Hall as [Hf Hall]. cbn [run_functors] in E. apply res_bind_inv in E as (s1 & E1 & E).
  destruct (functor_served f s s1) as [Hs1 Hst1]; [done ..|]. by eapply IH.
Qed.

(** What happens to a connection of the server: its owner only destroys it. *)
Definition server_input (i : input) : Prop :=
  match i with
  | Establish | Ready _ | Pending => True
  | Call _ c => c = queue_connect_destroyed
  | Expire => False
  end.

Lemma step_served (Halive : alive) i s s' :
  inv s -> served s -> input_ok i s -> server_input i -> step user i s = Ret s' -> served s'.
Proof.
  intros Hi Hs Hin Hserver E. destruct i as [|b c|revents| |]; cbn [step server_input input_ok] in *; [| | | |done].
  - by eapply establish_served.
  - subst c. injection E as <-. apply (served_kept s); [done | by apply kept_queue | done | left; auto].
  - pose proof (handle_event_keeps Hshut user stream_callbacks_polite served revents s) as Hk. rewrite E in Hk. apply Hk; try done.
    + intros s1 V1 Hs1 Ho. eapply outcome_ret; [by apply (handle_close_ok Hshut user stream_callbacks_polite) |].
      intros s2 E2 _. eapply close_served; [done | | done]. by destruct (proj1 (open_spec _) Ho) as [-> | ->].
    + intros s1 V1 Hs1. eapply outcome_ret; [apply handle_error_ok, V1 |]. intros s2 E2 _. by eapply error_served.
    + intros s1 V1 Hs1 Ho. eapply outcome_ret; [by apply (handle_read_ok Hshut user stream_callbacks_polite) |].
      intros s2 E2 _. eapply read_served; try done. apply V1.
    + intros s1 V1 Hs1 Hst. eapply outcome_ret; [by apply (handle_write_ok Hshut); [apply V1 |] |].
      intros s2 E2 _. by eapply write_served.
  - unfold do_pending_functors in E. destruct Hs as (acts & c & rest & Hv). pose proof Hi as [Hc _].
    assert (Hs0 : served (set_pending s [])) by (exists acts, c, rest; destruct Hv; by constructor).
    destruct (decide (_state s = Connecting)) as [Hst|Hst]; [| by eapply functors_served; [| | apply Hv | exact E]].
    assert (pending s = []) as Hp.
    { pose proof (c_pending _ Hc) as Hf. pose proof (v_pending _ _ _ _ Hv) as Hq. rewrite Hst in Hf.
      destruct (pending s) as [|f fs]; [done |]. apply Forall_cons in Hf as [Hf _], Hq as [Hq _]. by destruct f. }
    rewrite Hp in E. by injection E as <-.
Qed.

Lemma run_served (Halive : alive) inputs s :
  inv s -> served s -> allowed user inputs s -> Forall server_input inputs ->
  outcome (fun s' => inv s' /\ served s') (run user inputs s).
Proof.
  revert s. induction inputs as [|i inputs IH]; intros s Hi Hs Hall Hserver; [done |].
  destruct Hall as [Hin Hall]. apply Forall_cons in Hserver as [Hser Hserver]. cbn [run].
  pose proof (step_ok Hshut user stream_callbacks_polite i s Hi Hin) as V1.
  destruct (step user i s) as [s1|] eqn:E; [| done]. cbn [mbind res_bind].
  apply IH; [done | by apply (step_served Halive i s) | by apply Hall | done].
Qed.


Lemma make_served fd wc hw : served (make fd wc hw).
Proof. exists [], (h_connection true h_new), []. constructor; try done. apply h_up. Qed.

Lemma server_run inputs fd wc hw (Halive : alive) :
  allowed user inputs (make fd wc hw) -> Forall server_input inputs ->
  outcome (fun s => inv s /\ served s) (run user inputs (make fd wc hw)).
Proof. intros. apply run_served; [done | apply ConnectionSpec.make_inv | apply make_served | done | done]. Qed.
End kernel.
End StreamServerSpec.

(** ** The ping-pong server (suduo/bench/pingpong/server.cpp) *)

Module PingPong.
Import TcpConnection.

(** [set_tcp_no_delay] changes nothing of the connection's state. *)
Definition onConnection (connected : bool) (context : unit) : unit := context.
(** [conn->send(buf)]: the readable bytes, which are then retrieved. (A connection
    that is not up would keep them; nobody shuts this server's connections down.) *)
Definition onMessage (receiveTime : Timestamp.t) (context : unit) (buf : Buffer.t)
    : res (list call * unit * Buffer.t) :=
  message ← Buffer.to_string buf;
  mret ([send message], context, Buffer.retrieve_all buf).

#[export] Instance handler : Handler unit := {| h_new := tt; h_connection := onConnection; h_message := onMessage |}.
#[export] Instance handler_spec : HandlerSpec unit := {|
  h_ready _ := True;
  h_stream _ c bs := mret ([send bs], c, [])
|}.
#[export] Instance handler_laws : HandlerLaws unit.
Proof.
  split; cbn; [done | |].
  - intros time c bs _. exists [send bs], c, []. split_and!; [done | done | apply suffix_nil |].
    intros b Hb <-. exists (Buffer.retrieve_all b). unfold onMessage.
    rewrite BufferSpec.to_string_spec by done.
    split_and!; [done | by apply BufferSpec.retrieve_all_wf | apply BufferSpec.retrieve_all_content | done].
  - intros time c b calls c' b' Hb. unfold onMessage. rewrite BufferSpec.to_string_spec by done.
    intros [= <- <- <-]. repeat constructor. cbn.
    pose proof (BufferSpec.content_length _ Hb). destruct Hb. unfold vector_max_size in *. lia.
Qed.
End PingPong.

(** ** The properties *)

Module StreamServerProps.
Import TcpConnection StreamServer ByteStream StreamServerSpec PingPong.
Import ConnectionSpec (outcome, outcome_mono, allowed, output, inv).

(** C10: a server on TCP, while the peer is there: no write fails with EPIPE or
    ECONNRESET ([alive]; [send_in_loop] drops the rest of a message then), shutdown(2)
    succeeds and the poller reports no [late_hang_up]. Whatever the socket delivers,
    however much of each write it takes, and when, what the client has been sent, and
    what waits in the output buffer, is what the handler on bytes makes of the chunks
    that have arrived; what it has left is in the input buffer. While the connection is
    up nothing has asked to close it; FIN is sent only when the handler has, and behind
    everything it sent before. No handler and no assert stops the program (only a buffer
    outgrowing [std::vector] could). *)
Theorem stream_server {B : Build} `{KernelLaws} {C} `{HandlerLaws C} clock inputs fd wc hw
    (Hshut : forall i, k_shutdown i = true) (Halive : alive)
    (Hinputs : allowed (callbacks clock) inputs (make fd wc hw)) (Hserver : Forall server_input inputs) :
  outcome (fun s => exists calls c rest,
      serve clock 0 start [] (received s) = Ret (calls, c, rest) /\
      wire s ++ output s = sent calls /\ Buffer.content (_input_buffer s) = rest /\
      (_state s = Connected -> closing calls = false) /\ (_state s = Disconnecting -> closing calls = true) /\
      (fin s = true -> _state s <> Disconnected -> closing calls = true /\ wire s = sent calls))
    (run (callbacks clock) inputs (make fd wc hw)).
Proof.
  eapply outcome_mono; [by apply server_run |].
  intros s [[Hc _] (calls & c & rest & [V1 _ _ _ V5 V6 V7 V8 _])]. exists calls, c, rest.
  split_and!; try done.
  - by rewrite <- V6, (ConnectionSpec.c_stream _ Hc).
  - intros Hst. apply V7. auto.
  - intros Hfin Hst. split.
    { destruct (_state s); [done | | | by apply V8]; destruct V7; auto; congruence. }
    rewrite <- V6, <- (ConnectionSpec.c_stream _ Hc). by rewrite (ConnectionSpec.c_fin _ Hc Hfin Hst), app_nil_r.
Qed.

(** What the ping-pong server receives it sends back. *)
Lemma echo_sent clock n bs chunks :
  exists calls, serve clock n tt bs chunks = Ret (calls, tt, match chunks with [] => bs | _ => [] end) /\
    sent calls = match chunks with [] => [] | _ => bs ++ concat chunks end /\ closing calls = false.
Proof.
  revert n bs. induction chunks as [|d ds IH]; intros n bs; [by exists [] |].
  destruct (IH (S n) []) as (calls & E & Es & Ecl). exists (send (bs ++ d) :: calls).
  cbn [serve h_stream PingPong.handler_spec mbind res_bind mret res_ret]. rewrite E. cbn. split_and!; [by destruct ds | | done].
  rewrite Es, <- app_assoc. do 2 f_equal. by destruct ds.
Qed.

(** The ping-pong server echoes: what it has received, and nothing else, goes back in
    order, and it never closes the connection. *)
Theorem pingpong_echoes {B : Build} `{KernelLaws} clock inputs fd wc hw
    (Hshut : forall i, k_shutdown i = true) (Halive : alive)
    (Hinputs : allowed (callbacks (C:=unit) clock) inputs (make fd wc hw)) (Hserver : Forall server_input inputs) :
  outcome (fun s => wire s ++ output s = concat (received s) /\ _state s <> Disconnecting)
    (run (callbacks (C:=unit) clock) inputs (make fd wc hw)).
Proof.
  eapply outcome_mono; [by apply (server_run Hshut clock inputs fd wc hw Halive) |].
  intros s [[Hc _] (calls & c & rest & [V1 _ _ _ V5 V6 V7 V8 _])].
  destruct (echo_sent clock 0 [] (received s)) as (calls' & E & Es & Ecl).
  change (start (C:=unit)) with tt in V1. rewrite E in V1. injection V1 as -> <- <-. split.
  - rewrite (ConnectionSpec.c_stream _ Hc), V6, Es. by destruct (received s).
  - intros Hst. rewrite (V8 Hst) in Ecl. done.
Qed.

(** *** Witnesses: a client that sends "ping" and "pong" and hangs up, over a socket
    that takes three bytes at a time. *)

Definition deliver (chunks : list (list byte)) : Kernel := {|
  k_write _ fin d := if fin : bool then WriteError EPIPE else Wrote (Z.min 3 (zlen d));
  k_readv i _ vec :=
    let d := default [] (chunks !! i) in
    if zlen d <=? foldr Z.add 0 vec then IoData d else IoError EWOULDBLOCK;
  k_shutdown _ := true;
  k_socket_error _ := Some 0
|}.
Lemma deliver_laws chunks : @KernelLaws (deliver chunks).
Proof.
  split; cbn [deliver k_write k_readv k_socket_error].
  - intros _ [] d n; [done |]. intros [= <-]. lia.
  - done.
  - intros i fd vec d. cbn [deliver k_readv]. cbv zeta.
    destruct (Z.leb_spec (zlen (default [] (chunks !! i))) (foldr Z.add 0 vec)); [| done]. by intros [= <-].
  - by eexists.
Qed.
Lemma deliver_alive chunks : @alive (deliver chunks).
Proof. intros i d e. cbn. discriminate. Qed.

Lemma check_server inputs :
  forallb (fun i => match i with Expire => false | Call _ queue_connect_destroyed => true | Call _ _ => false
    | _ => true end) inputs = true -> Forall server_input inputs.
Proof.
  intros Hall. apply Forall_forall. intros i Hi. rewrite forallb_forall in Hall.
  specialize (Hall i). destruct i as [|b []| | |]; try done; apply list_elem_of_In in Hi; by apply Hall in Hi.
Qed.

#[local] Instance debug : Build := {| ndebug := false |}.
Definition some_time (_ : nat) : Timestamp.t := 7.
Definition pings : Kernel := deliver [bytes "ping"; []; []; bytes "pong"].
Definition rally : list input := [Establish; Ready POLLIN; Ready POLLOUT; Ready POLLIN].
Definition hang_up : list input :=
  rally ++ [Ready POLLOUT; Ready POLLIN; Call true queue_connect_destroyed; Pending].

Lemma stream_server_witness :
  outcome (fun s => exists calls c rest,
      serve some_time 0 start [] (received s) = Ret (calls, c, rest) /\
      wire s ++ output s = sent calls /\ Buffer.content (_input_buffer s) = rest /\
      (_state s = Connected -> closing calls = false) /\ (_state s = Disconnecting -> closing calls = true) /\
      (fin s = true -> _state s <> Disconnected -> closing calls = true /\ wire s = sent calls))
    (@run debug pings (callbacks (C:=unit) some_time) hang_up (make 7 false false)).
Proof.
  apply (@stream_server debug pings (deliver_laws _) unit handler handler_spec handler_laws).
  - done.
  - apply deliver_alive.
  - apply (@ConnectionProps.check_inputs_ok debug pings). by vm_compute.
  - apply check_server. by vm_compute.
Defined.

Lemma pingpong_echoes_witness :
  outcome (fun s => wire s ++ output s = concat (received s) /\ _state s <> Disconnecting)
    (@run debug pings (callbacks (C:=unit) some_time) rally (make 7 false false)) /\
  match @run debug pings (callbacks (C:=unit) some_time) rally (make 7 false false) with
  | Ret s => (wire s, output s) = (bytes "pingpon", bytes "g") | Stop _ => False end.
Proof.
  split; [| by vm_compute]. apply (@pingpong_echoes debug pings (deliver_laws _)).
  - done.
  - apply deliver_alive.
  - apply (@ConnectionProps.check_inputs_ok debug pings). by vm_compute.
  - apply check_server. by vm_compute.
Defined.
End StreamServerProps.
