(* ===== verification/HttpConnections.v ===== *)
(** HTTP over TCP: HttpServer (suduo/bench/http/HttpServer.cpp) as a server on a byte
    stream, and what a client gets for its request. *)

From S2P Require Import Prelude.
From S2P Require Import ByteBuffer.
From S2P Require Import Time.
From S2P Require Import Http.
From S2P Require Import Pollers.
From S2P Require Import TcpConnections.
From S2P Require Import StreamServers.

Module HttpConnection.
Import TcpConnection.

Definition call_of (a : HttpServer.action) : call :=
  match a with HttpServer.Send d => send d | HttpServer.Shutdown => shutdown end.

Section server.
Context {B : Build} (httpCallback_ : HttpRequest.t -> HttpResponse.t -> HttpResponse.t).

(** The message callback on the connection's [_context]: [std::any_cast] of an empty
    one is a null pointer. *)
Definition onMessage (receiveTime : Timestamp.t) (context : option HttpContext.t) (buf : Buffer.t)
    : res (list call * option HttpContext.t * Buffer.t) :=
  match context with
  | Some c =>
      '(actions, c, buf) ← HttpServer.onMessage httpCallback_ c buf receiveTime;
      mret (map call_of actions, Some c, buf)
  | None => Stop UndefinedBehaviour
  end.

(** The constructor sets the two callbacks. *)
Definition server : Handler (option HttpContext.t) := {|
  h_new := None;
  h_connection := HttpServer.onConnection;
  h_message := onMessage
|}.
End server.
End HttpConnection.

(** ** The server keeps the laws of a stream server *)

Module HttpConnectionSpec.
Import TcpConnection HttpConnection.

Section server.
Context {B : Build} (cb : HttpRequest.t -> HttpResponse.t -> HttpResponse.t).

(** More input: what the parser makes of it, and the answer when it is a request. *)
Definition message (time : Timestamp.t) (c : HttpContext.t) (bs : list byte)
    : res (list HttpServer.action * HttpContext.t * list byte) :=
  '(ok, c, bs) ← HttpSpec.parse c bs time;
  let bad := if ok : bool then [] else
    [HttpServer.Send (bytes "HTTP/1.1 400 Bad Request" ++ Buffer.CRLF ++ Buffer.CRLF); HttpServer.Shutdown] in
  if HttpContext.gotAll c
  then mret (bad ++ HttpServerSpec.answer cb (HttpContext.request_ c), HttpContext.reset c, bs)
  else mret (bad, c, bs).

Definition server_spec : HandlerSpec (option HttpContext.t) := {|
  h_ready context := exists c, context = Some c /\ HttpSpec.ready c;
  h_stream time context bs :=
    match context with
    | Some c => '(acts, c, rest) ← message time c bs; mret (map call_of acts, Some c, rest)
    | None => Stop UndefinedBehaviour
    end
|}.

Context (Hrelease : ndebug = true) (Hanswers : forall req, HttpServerSpec.answerable cb req).

Lemma message_spec time c bs :
  HttpSpec.ready c ->
  exists acts c' rest, message time c bs = Ret (acts, c', rest) /\
    HttpSpec.ready c' /\ suffix rest bs /\
    forall b, Buffer.wf b -> Buffer.content b = bs ->
      exists b', HttpServer.onMessage cb c b time = Ret (acts, c', b') /\ Buffer.wf b' /\ Buffer.content b' = rest /\
        Buffer.storage b' = Buffer.storage b.
Proof.
  intros Hc. destruct (HttpSpec.loop_returns time (S (length bs)) c bs Hc) as (ok & c1 & rest & E & Hok & Hbad & Hsuf);
    [lia |]. fold (HttpSpec.parse c bs time) in E.
  unfold message. rewrite E. cbn [mbind res_bind].
  assert (Hm : forall b, Buffer.wf b -> Buffer.content b = bs ->
    exists b', HttpContext.parseRequest c b time = Ret (ok, c1, b') /\ Buffer.wf b' /\ Buffer.content b' = rest /\
      Buffer.storage b' = Buffer.storage b).
  { intros b Hb Hbs. pose proof (HttpSpec.parseRequest_lift c b time Hb) as Hl. rewrite Hbs, E in Hl.
    destruct Hl as (b' & ? & ? & ? & ?). by exists b'. }
  unfold HttpServer.onMessage. destruct (HttpContext.gotAll c1) eqn:Hg; do 3 eexists; (split; [reflexivity |]).
  - split_and!; [apply HttpSpec.make_ready | done |]. intros b Hb Hbs.
    destruct (Hm b Hb Hbs) as (b' & -> & ? & ? & ?). exists b'. cbn [mbind res_bind]. rewrite Hg.
    by rewrite HttpServerSpec.onRequest_spec by apply Hanswers.
  - split_and!; [| done |].
    + destruct ok; [by apply Hok | left; auto].
    + intros b Hb Hbs. destruct (Hm b Hb Hbs) as (b' & -> & ? & ? & ?). exists b'. cbn [mbind res_bind]. by rewrite Hg.
Qed.

(** Whatever state the parser is in, the calls are those of a stream server. *)
Lemma onMessage_calls time c b acts c' b' :
  HttpServer.onMessage cb c b time = Ret (acts, c', b') -> Forall stream_call (map call_of acts).
Proof.
  unfold HttpServer.onMessage. destruct (HttpContext.parseRequest c b time) as [[[ok c1] b1]|]; [| done].
  cbn [mbind res_bind].
  assert (Hbad : Forall stream_call (map call_of (if ok then [] else
    [HttpServer.Send (bytes "HTTP/1.1 400 Bad Request" ++ Buffer.CRLF ++ Buffer.CRLF); HttpServer.Shutdown]))).
  { destruct ok; repeat constructor; vm_compute; congruence. }
  destruct (HttpContext.gotAll c1); [| by intros [= <- _ _]].
  rewrite HttpServerSpec.onRequest_spec by apply Hanswers. intros [= <- _ _].
  rewrite map_app. apply Forall_app. split; [done |].
  destruct (Hanswers (HttpContext.request_ c1)) as [_ Hlen]. unfold HttpServerSpec.answer. constructor.
  - cbn [call_of stream_call]. unfold vector_max_size in Hlen. lia.
  - destruct (HttpResponse.closeConnection _); repeat constructor.
Qed.

Lemma http_server_laws : @HandlerLaws _ (server cb) server_spec.
Proof.
  split; cbn [server server_spec h_new h_connection h_message h_ready h_stream].
  - exists HttpContext.make. split; [done | apply HttpSpec.make_ready].
  - intros time context bs (c & -> & Hc).
    destruct (message_spec time c bs Hc) as (acts & c' & rest & -> & Hc' & Hs & Hm).
    exists (map call_of acts), (Some c'), rest. split_and!; [done | by exists c' | done |].
    intros b Hb Hbs. destruct (Hm b Hb Hbs) as (b' & E & ?). exists b'. cbn [onMessage]. by rewrite E.
  - intros time [c|] b calls c' b' _; cbn [onMessage]; [| done].
    destruct (HttpServer.onMessage cb c b time) as [[[acts c1] b1]|] eqn:E; [| done]. intros [= <- _ _].
    by eapply onMessage_calls.
Qed.

(** The server on bytes is [HttpServer.serve] on buffers, as long as there is room. *)
Lemma serve_buffers time n c b chunks :
  HttpSpec.ready c -> Buffer.wf b -> Buffer.storage b + zlen (concat chunks) <= vector_max_size ->
  exists acts c' b', HttpServer.serve cb time c b chunks = Ret (acts, c', b') /\
    @ByteStream.serve _ server_spec (fun _ => time) n (Some c) (Buffer.content b) chunks
      = Ret (map call_of acts, Some c', Buffer.content b').
Proof.
  revert n c b. induction chunks as [|d ds IH]; intros n c b Hc Hb Hroom; [by exists [], c, b |].
  cbn [concat] in Hroom. rewrite length_app in Hroom. cbn [HttpServer.serve ByteStream.serve h_stream server_spec].
  destruct (BufferSpec.append_spec b d) as (b1 & -> & Hb1 & Hc1 & Hs1 & _); [done | lia |]. cbn [mbind res_bind].
  rewrite <- Hc1. destruct (message_spec time c (Buffer.content b1) Hc) as (acts & c2 & rest & -> & Hc2 & _ & Hm).
  destruct (Hm b1 Hb1 eq_refl) as (b2 & -> & Hb2 & <- & Hs2). cbn [mbind res_bind mret res_ret].
  destruct (IH (S n) c2 b2) as (acts' & c3 & b3 & -> & ->); [done | done | lia |].
  exists (acts ++ acts'), c3, b3. cbn. by rewrite map_app.
Qed.
End server.
End HttpConnectionSpec.

(** ** The property *)

Module HttpConnectionProps.
Import TcpConnection ByteStream StreamServerSpec HttpConnection HttpConnectionSpec.
Import ConnectionSpec (outcome, allowed, output, inv).

(** The callbacks of a server whose messages all arrive at [time]. *)
Definition http_callbacks {B : Build} cb time := @StreamServer.callbacks _ (server cb) (fun _ => time).

(** C11: from a client's request to its answer, in a release build (see
    [http_bad_version]) and while the peer is there ([alive] and no [late_hang_up], as
    for every server of StreamServers.v). When the chunks that have arrived, however TCP
    cut them, make up one well-formed request, the client has been sent, or the output
    buffer still holds, the rendered response to it and nothing else; the input buffer
    is empty, and the connection stays up unless the response closes it. *)
Theorem http_request_answered {B : Build} `{KernelLaws} cb time inputs fd wc hw s m path query v hs
    (Hrelease : ndebug = true) (Hshut : forall i, k_shutdown i = true) (Halive : alive)
    (Hanswers : forall req, HttpServerSpec.answerable cb req)
    (Hinputs : allowed (http_callbacks cb time) inputs (make fd wc hw)) (Hserver : Forall server_input inputs)
    (Hrun : run (http_callbacks cb time) inputs (make fd wc hw) = Ret s)
    (Hok : HttpWire.request_ok m path query v hs)
    (Hrequest : concat (received s) = HttpWire.print_request m path query v hs)
    (Hroom : 1032 + zlen (HttpWire.print_request m path query v hs) <= vector_max_size) :
  let response := HttpServerSpec.response_to cb (HttpWire.expected m path query v time hs) in
  wire s ++ output s = HttpServerSpec.render response /\ Buffer.content (_input_buffer s) = [] /\
  (_state s = Connected -> HttpResponse.closeConnection response = false) /\
  (_state s = Disconnecting -> HttpResponse.closeConnection response = true).
Proof.
  intros response. pose proof (http_server_laws cb Hrelease Hanswers) as Hlaws.
  pose proof (@server_run _ _ _ Hshut _ _ _ Hlaws (fun _ => time) inputs fd wc hw Halive Hinputs Hserver) as Hr.
  fold (http_callbacks cb time) in Hr.
  rewrite Hrun in Hr. destruct Hr as [[Hc _] (calls & c & rest & [V1 _ _ V4 V5 V6 V7 V8 _])].
  destruct (serve_buffers cb Hrelease Hanswers time 0 HttpContext.make (Buffer.make 0) (received s))
    as (acts & c' & b' & E1 & E2);
    [apply HttpSpec.make_ready | apply BufferSpec.make_wf | by rewrite Hrequest, BufferSpec.make_storage |].
  destruct (HttpServerSpec.serve_answers cb time (received s) (Buffer.make 0) m path query v hs)
    as (b2 & E3 & _ & Hb2);
    [apply BufferSpec.make_wf | try done; by rewrite Hrequest, BufferSpec.make_storage ..|].
  rewrite E1 in E3. injection E3 as -> -> ->. change (Buffer.content (Buffer.make 0)) with (@nil byte) in E2.
  change (@start _ (server cb)) with (Some HttpContext.make) in V1.
  rewrite E2, Hb2 in V1. injection V1 as <- <- <-.
  unfold HttpServerSpec.answer in *. fold response in V6, V7, V8. split_and!.
  - rewrite (ConnectionSpec.c_stream _ Hc), V6. cbn [map call_of sent].
    destruct (HttpResponse.closeConnection response); by rewrite app_nil_r.
  - done.
  - intros Hst. destruct (HttpResponse.closeConnection response); [| done]. by destruct V7; auto.
  - intros Hst. destruct (HttpResponse.closeConnection response); [done |]. by apply V8.
Qed.

(** *** Witness: a request that arrives in two pieces; the server says hello *)

Definition hello (req : HttpRequest.t) (resp : HttpResponse.t) : HttpResponse.t :=
  HttpResponse.setBody (HttpResponse.setStatusMessage
    (HttpResponse.setStatusCode resp HttpResponse.k200Ok) (bytes "OK")) (bytes "hello").
Lemma hello_answers req : HttpServerSpec.answerable hello req.
Proof.
  unfold HttpServerSpec.answerable, HttpServerSpec.response_to, hello.
  destruct (HttpServerSpec.wants_close req); split; vm_compute; congruence.
Qed.

#[local] Instance release : Build := {| ndebug := true |}.
Definition request : list byte :=
  HttpWire.print_request HttpRequest.kGet (bytes "/index") (bytes "?a=1") HttpRequest.kHttp10 sample_headers.
Definition two_pieces : Kernel := StreamServerProps.deliver [take 30 request; drop 30 request].
Definition exchange : list input := [Establish; Ready POLLIN; Ready POLLIN; Ready POLLOUT].
Definition final : t :=
  match @run release two_pieces (http_callbacks hello 7) exchange (make 7 false false) with
  | Ret s => s | Stop _ => make 7 false false end.

Lemma http_request_answered_witness :
  wire final ++ output final = bytes "HTTP/1.1 200 OK" ++ Buffer.CRLF ++ bytes "Content-Length: 5" ++ Buffer.CRLF
    ++ bytes "Connection: Keep-Alive" ++ Buffer.CRLF ++ Buffer.CRLF ++ bytes "hello".
Proof.
  refine (proj1 (@http_request_answered release two_pieces (StreamServerProps.deliver_laws _) hello 7 exchange
    7 false false final HttpRequest.kGet (bytes "/index") (bytes "?a=1") HttpRequest.kHttp10 sample_headers
    _ _ _ _ _ _ _ _ _ _)).
  - done.
  - done.
  - apply StreamServerProps.deliver_alive.
  - exact hello_answers.
  - apply (@ConnectionProps.check_inputs_ok release two_pieces). by vm_compute.
  - apply StreamServerProps.check_server. by vm_compute.
  - by vm_compute.
  - apply sample_request_ok.
  - by vm_compute.
  - by vm_compute.
Defined.
End HttpConnectionProps.
