(* ===== verification/CodecServers.v ===== *)
(** The server of suduo/bench/zeromq/local_lat.cpp: the length-header codec
    (codec.h) on a TcpConnection, with every message sent back. *)

From S2P Require Import Prelude.
From S2P Require Import Endianness.
From S2P Require Import ByteBuffer.
From S2P Require Import Time.
From S2P Require Import Codec.
From S2P Require Import Pollers.
From S2P Require Import TcpConnections.
From S2P Require Import StreamServers.

Module LocalLat.
Import TcpConnection.
Section server.
Context {Ho : Host}.

(** [set_tcp_no_delay] changes nothing of the connection's state. *)
Definition onConnection (connected : bool) (context : unit) : unit := context.
Definition onStringMessage (message : list byte) : res call :=
  data ← LengthHeaderCodec.send message; mret (send data).

(** What the codec calls, in order, and what that calls on the connection. *)
Fixpoint answer (events : list LengthHeaderCodec.event) : res (list call) :=
  match events with
  | [] => mret []
  | LengthHeaderCodec.Message message :: events =>
      c ← onStringMessage message; more ← answer events; mret (c :: more)
  | LengthHeaderCodec.Shutdown :: events => more ← answer events; mret (shutdown :: more)
  end.
Definition onMessage (receiveTime : Timestamp.t) (context : unit) (buf : Buffer.t)
    : res (list call * unit * Buffer.t) :=
  '(events, buf) ← LengthHeaderCodec.onMessage buf;
  calls ← answer events;
  mret (calls, context, buf).

Definition server : Handler unit := {| h_new := tt; h_connection := onConnection; h_message := onMessage |}.
End server.
End LocalLat.

(** ** The server keeps the laws of a stream server *)

Module LocalLatSpec.
Import TcpConnection LocalLat.
Import CodecSpec (decode, decode_all, encode, next, max_len, More, Bad, Frame).

Definition call_of (e : LengthHeaderCodec.event) : call :=
  match e with
  | LengthHeaderCodec.Message message => send (encode message)
  | LengthHeaderCodec.Shutdown => shutdown
  end.
Definition server_spec : HandlerSpec unit := {|
  h_ready _ := True;
  h_stream _ c bs := mret (map call_of (decode_all bs).1, c, (decode_all bs).2)
|}.

Section server.
Context {Ho : Host}.

Definition short (e : LengthHeaderCodec.event) : Prop :=
  match e with LengthHeaderCodec.Message m => zlen m <= max_len | LengthHeaderCodec.Shutdown => True end.

Lemma next_short bs m rest : next bs = Frame m rest -> zlen m <= max_len /\ suffix rest bs.
Proof.
  unfold next. do 2 (zcase; [done |]). cbn [orb]. destruct (_ <? 0); [done |]. cbn [orb]. zcase; [done |].
  intros [= <- <-]. split; [unfold max_len in *; rewrite length_take, length_drop; lia |].
  rewrite drop_drop. apply suffix_drop.
Qed.

Lemma decode_short n bs : Forall short (decode n bs).1 /\ suffix (decode n bs).2 bs.
Proof.
  revert bs. induction n as [|n IH]; intros bs; cbn [decode]; [by split |].
  destruct (next bs) as [| |m rest] eqn:E; [by split | by split; [repeat constructor |] |].
  apply next_short in E as [Hm Hs]. specialize (IH rest). destruct (decode n rest) as [es r].
  destruct IH as [IH Hr]. split; [by constructor | by etrans].
Qed.

Lemma answer_spec events : Forall short events -> answer events = Ret (map call_of events).
Proof.
  induction 1 as [|[m|] events Hm _ IH]; cbn [answer map call_of]; [done | | by rewrite IH].
  unfold onStringMessage. cbn in Hm. rewrite CodecSpec.send_spec by (unfold max_len in Hm; lia). cbn. by rewrite IH.
Qed.

Lemma onMessage_codec time c b :
  Buffer.wf b -> exists b', onMessage time c b = Ret (map call_of (decode_all (Buffer.content b)).1, c, b') /\
    Buffer.wf b' /\ Buffer.content b' = (decode_all (Buffer.content b)).2 /\ Buffer.storage b' = Buffer.storage b.
Proof.
  intros Hb. destruct (CodecSpec.onMessage_spec b Hb) as (b' & E & ?). exists b'. unfold onMessage.
  rewrite E. cbn [mbind res_bind]. rewrite answer_spec by apply decode_short. done.
Qed.

Lemma local_lat_laws : @HandlerLaws _ server server_spec.
Proof.
  split; cbn [server server_spec h_new h_connection h_message h_ready h_stream]; [done | |].
  - intros time c bs _. do 3 eexists. split_and!; [done | done | apply decode_short |].
    intros b Hb <-. by apply onMessage_codec.
  - intros time c b calls c' b' Hb. destruct (onMessage_codec time c b Hb) as (b2 & -> & _). intros [= <- _ _].
    destruct (decode_short (S (length (Buffer.content b))) (Buffer.content b)) as [Hs _].
    apply Forall_map. eapply Forall_impl; [exact Hs |]. intros [m|] Hm; [| done]. cbn [call_of stream_call short] in *.
    unfold encode, max_len, int64_max in *. rewrite length_app, length_be_bytes. lia.
Qed.

(** Chunks make no difference. *)
Lemma serve_decode clock n bs chunks :
  next bs = More -> LengthHeaderCodec.Shutdown ∉ (decode_all (bs ++ concat chunks)).1 ->
  @ByteStream.serve _ server_spec clock n tt bs chunks =
    Ret (map call_of (decode_all (bs ++ concat chunks)).1, tt, (decode_all (bs ++ concat chunks)).2).
Proof.
  revert n bs. induction chunks as [|d ds IH]; intros n bs Hn Hs; cbn [concat ByteStream.serve] in *.
  { rewrite app_nil_r. unfold decode_all. cbn [decode]. by rewrite Hn. }
  cbn [h_stream server_spec mbind res_bind mret res_ret].
  rewrite app_assoc in Hs |- *. rewrite (CodecSpec.decode_all_app (bs ++ d)) in Hs |- * by done.
  destruct (decode_all (bs ++ d)) as [es r] eqn:E. cbn [fst snd] in *.
  rewrite not_elem_of_app in Hs. destruct Hs as [He Hs].
  rewrite IH; [| | done].
  - cbn [mbind res_bind mret res_ret]. by rewrite map_app.
  - apply (CodecSpec.decode_stable (S (length (bs ++ d))) (bs ++ d) es); [lia | exact E | done].
Qed.

Lemma decode_encode_part ms part n :
  Forall (fun m => zlen m <= max_len) ms -> next part = More ->
  (length (concat (map encode ms) ++ part) < n)%nat ->
  decode n (concat (map encode ms) ++ part) = (map LengthHeaderCodec.Message ms, part).
Proof.
  intros Hms Hp. revert n. induction Hms as [|m ms Hm Hms IH]; intros [|n] Hn; try lia; cbn [map concat app decode].
  - by rewrite Hp.
  - rewrite <- app_assoc, CodecSpec.next_encode by done. cbn [map concat] in Hn. rewrite IH; [done |].
    unfold encode in Hn at 1. rewrite !length_app, length_be_bytes in *. lia.
Qed.

Lemma sent_messages ms :
  ByteStream.sent (map call_of (map LengthHeaderCodec.Message ms)) = concat (map encode ms) /\
  ByteStream.closing (map call_of (map LengthHeaderCodec.Message ms)) = false.
Proof. induction ms as [|m ms [IH1 IH2]]; cbn; [done |]. by rewrite IH1. Qed.
End server.
End LocalLatSpec.

(** ** The property *)

Module LocalLatProps.
Import TcpConnection ByteStream StreamServerSpec LocalLat LocalLatSpec.
Import ConnectionSpec (outcome, allowed, output, inv).

Definition local_lat {Ho : Host} clock := @StreamServer.callbacks _ server clock.

(** C12: messages there and back, while the peer is there ([alive] and no
    [late_hang_up], as for every server of StreamServers.v). When a client has sent
    messages with the codec's [send], and a part of another, then, however TCP cut them,
    what it has been sent and what still waits in the output buffer is each of them,
    framed, once and in order; the part is in the input buffer, and the connection stays
    up. *)
Theorem codec_server_echoes {Ho : Host} {B : Build} `{KernelLaws} clock inputs fd wc hw s messages stream part
    (Hshut : forall i, k_shutdown i = true) (Halive : alive)
    (Hinputs : allowed (local_lat clock) inputs (make fd wc hw)) (Hserver : Forall server_input inputs)
    (Hrun : run (local_lat clock) inputs (make fd wc hw) = Ret s)
    (Hlen : Forall (fun m => zlen m <= CodecSpec.max_len) messages)
    (Hstream : LengthHeaderCodec.send_all messages = Ret stream)
    (Hpart : CodecSpec.next part = CodecSpec.More) (Hreceived : concat (received s) = stream ++ part) :
  wire s ++ output s = stream /\ Buffer.content (_input_buffer s) = part /\ _state s <> Disconnecting.
Proof.
  pose proof (@server_run _ _ _ Hshut _ _ _ local_lat_laws clock inputs fd wc hw Halive Hinputs Hserver) as Hr.
  fold (local_lat clock) in Hr.
  rewrite Hrun in Hr. destruct Hr as [[Hc _] (calls & c & rest & [V1 _ _ V4 V5 V6 V7 V8 _])].
  rewrite CodecSpec.send_all_spec in Hstream by done. injection Hstream as <-.
  assert (Hd : CodecSpec.decode_all ([] ++ concat (received s)) = (map LengthHeaderCodec.Message messages, part)).
  { cbn [app]. rewrite Hreceived. apply decode_encode_part; [done | done | lia]. }
  change (@start _ server) with tt in V1. rewrite serve_decode, Hd in V1; [| done |].
  2: { rewrite Hd. cbn [fst]. rewrite list_elem_of_fmap. by intros (? & ? & _). }
  injection V1 as <- _ <-. destruct (sent_messages messages) as [Hs Hcl]. cbn [fst snd] in *.
  split_and!; [by rewrite (ConnectionSpec.c_stream _ Hc), V6, Hs | done |].
  intros Hst. by rewrite (V8 Hst) in Hcl.
Qed.

(** *** Witness: two messages and half the header of a third, in two pieces *)

#[local] Instance x86 : Host := {| little_endian := true |}.
#[local] Instance debug : Build := {| ndebug := false |}.
Definition two_messages : list (list byte) := [bytes "hello"; bytes "x"].
Definition framed : list byte := [x00; x00; x00; x05] ++ bytes "hello" ++ [x00; x00; x00; x01] ++ bytes "x".
Definition header : list byte := [x00; x00].

Definition pieces : Kernel :=
  StreamServerProps.deliver [take 7 framed; drop 7 framed ++ header].
Definition exchange : list input := [Establish; Ready POLLIN; Ready POLLIN; Ready POLLOUT].
Definition final : t :=
  match @run debug pieces (local_lat StreamServerProps.some_time) exchange (make 7 false false) with
  | Ret s => s | Stop _ => make 7 false false end.

Lemma codec_server_echoes_witness :
  wire final ++ output final = framed /\ Buffer.content (_input_buffer final) = header /\ _state final <> Disconnecting.
Proof.
  apply (@codec_server_echoes x86 debug pieces (StreamServerProps.deliver_laws _) StreamServerProps.some_time
    exchange 7 false false final two_messages framed header).
  - done.
  - apply StreamServerProps.deliver_alive.
  - apply (@ConnectionProps.check_inputs_ok debug pieces). by vm_compute.
  - apply StreamServerProps.check_server. by vm_compute.
  - by vm_compute.
  - repeat constructor; vm_compute; congruence.
  - by vm_compute.
  - by vm_compute.
  - by vm_compute.
Defined.
End LocalLatProps.
