(* ===== verification/Dialogues.v ===== *)
(** Two programs on the ends of one TCP connection: the user callbacks of a client and
    of a server, with everything between them (the buffers of both TcpConnections and
    the kernels) as two streams of bytes, cut anywhere.

    What TcpConnections.v and StreamServers.v prove of one end is what this file takes
    for the connection: bytes arrive in order, nothing is sent on a connection that is
    not up, and the other end reads the end of the stream behind the last byte. *)

From S2P Require Import Prelude.
From S2P Require Import ByteBuffer.
From S2P Require Import Time.
From S2P Require Import Pollers.
From S2P Require Import TcpConnections.
From S2P Require Import StreamServers.

(** The user code of one end: the connection callback and the message callback; the
    latter may ask whether the connection is up. [C] is what they keep. *)
Class Peer (C : Type) := {
  p_connection : bool -> C -> res (list TcpConnection.call * C);
  p_message : bool -> C -> Buffer.t -> res (list TcpConnection.call * C * Buffer.t)
}.

(** A server of StreamServers.v. *)
Definition handler_peer {C} (h : Handler C) (receiveTime : Timestamp.t) : Peer C := {|
  p_connection connected c := mret ([], h_connection connected c);
  p_message _ c buf := h_message receiveTime c buf
|}.

Module Dialogue.
Import TcpConnection.

Section side.
Context {C : Type} `{Peer C}.

Record side := mk_side {
  context : C;
  input : Buffer.t;
  state : State
}.

(** The calls of a callback: the state of the connection after them, and the bytes
    they send. *)
Fixpoint perform (calls : list call) (st : State) : State * list byte :=
  match calls with
  | [] => (st, [])
  | send message :: calls =>
      let '(st', out) := perform calls st in
      (st', if bool_decide (st = Connected) then message ++ out else out)
  | shutdown :: calls => perform calls (if bool_decide (st = Connected) then Disconnecting else st)
  | _ :: calls => perform calls st
  end.

Definition come_up (c : C) : res (side * list byte) :=
  '(calls, c) ← p_connection true c;
  let '(st, out) := perform calls Connected in
  mret (mk_side c (Buffer.make 0) st, out).
Definition receive (chunk : list byte) (x : side) : res (side * list byte) :=
  buf ← Buffer.append (input x) chunk;
  '(calls, c, buf) ← p_message (bool_decide (state x = Connected)) (context x) buf;
  let '(st, out) := perform calls (state x) in
  mret (mk_side c buf st, out).
(** The end of the stream: [handle_close], whose callback finds the connection down. *)
Definition hang_up (x : side) : res side :=
  '(_, c) ← p_connection false (context x);
  mret (mk_side c (input x) Disconnected).
End side.
Arguments side : clear implicits.

Section dialogue.
Context {A B : Type} `{Peer A} `{Peer B}.

Record t := mk {
  client : side A;
  server : side B;
  to_client : list byte;
  to_server : list byte
}.

Definition start (a : A) (b : B) : res t :=
  '(server, to_client) ← come_up b;
  '(client, to_server) ← come_up a;
  mret (mk client server to_client to_server).

(** Bytes arrive at one end, [n] of them; an end reads the end of the stream; the
    client calls [disconnect()]. *)
Inductive label :=
  | ToClient (n : nat)
  | ToServer (n : nat)
  | ClientEnds
  | ServerEnds
  | Disconnect.

Definition enabled (l : label) (s : t) : Prop :=
  match l with
  | ToClient n => (0 < n <= length (to_client s))%nat /\ state (client s) <> Disconnected
  | ToServer n => (0 < n <= length (to_server s))%nat /\ state (server s) <> Disconnected
  | ClientEnds => to_client s = [] /\ state (server s) <> Connected /\ state (client s) <> Disconnected
  | ServerEnds => to_server s = [] /\ state (client s) <> Connected /\ state (server s) <> Disconnected
  | Disconnect => True
  end.

Definition move (l : label) (s : t) : res t :=
  match l with
  | ToClient n =>
      '(x, out) ← receive (take n (to_client s)) (client s);
      mret (mk x (server s) (drop n (to_client s)) (to_server s ++ out))
  | ToServer n =>
      '(x, out) ← receive (take n (to_server s)) (server s);
      mret (mk (client s) x (to_client s ++ out) (drop n (to_server s)))
  | ClientEnds => x ← hang_up (client s); mret (mk x (server s) (to_client s) (to_server s))
  | ServerEnds => x ← hang_up (server s); mret (mk (client s) x (to_client s) (to_server s))
  | Disconnect =>
      let x := client s in
      mret (mk (mk_side (context x) (input x) (perform [shutdown] (state x)).1) (server s)
              (to_client s) (to_server s))
  end.

(** The moves [permit]s allow. *)
Definition step (permit : label -> Prop) (s s' : t) : Prop :=
  exists l, permit l /\ enabled l s /\ move l s = Ret s'.

(** What never fails and always gets smaller comes to an end. *)
Lemma dialogue_ends (permit : label -> Prop) (I : t -> Prop) (mu : t -> Z) :
  (forall s, I s -> 0 <= mu s) ->
  (forall s l, I s -> permit l -> enabled l s -> exists s', move l s = Ret s' /\ I s' /\ mu s' < mu s) ->
  forall k s s', I s -> nsteps (step permit) k s s' -> I s' /\ Z.of_nat k + mu s' <= mu s.
Proof.
  intros Hpos Hstep k. induction k as [|k IH]; intros s s' Hs Hn.
  - inversion Hn; subst. split; [done | lia].
  - inversion Hn as [|? ? s1 ? (l & Hp & He & E) Hn']; subst.
    destruct (Hstep s l Hs Hp He) as (s2 & E2 & H2 & Hlt). rewrite E in E2. injection E2 as <-.
    destruct (IH _ _ H2 Hn'). split; [done | lia].
Qed.

(** Running a list of moves, for examples. *)
#[export] Instance enabled_dec l s : Decision (enabled l s).
Proof. destruct l; apply _. Defined.
Fixpoint play (ls : list label) (s : t) : option t :=
  match ls with
  | [] => Some s
  | l :: ls =>
      if decide (enabled l s) then match move l s with Ret s' => play ls s' | Stop _ => None end else None
  end.
Lemma play_steps (permit : label -> Prop) ls s s' :
  Forall permit ls -> play ls s = Some s' -> nsteps (step permit) (length ls) s s'.
Proof.
  intros Hp. revert s. induction Hp as [|l ls Hl _ IH]; intros s; cbn [play length].
  - intros [= ->]. constructor.
  - destruct (decide (enabled l s)); [| done]. destruct (move l s) as [s1|] eqn:E; [| done].
    intros Hs. econstructor; [by exists l | by apply IH].
Qed.
End dialogue.
Arguments t : clear implicits.

(** A message callback on the bytes: with the input bounded, the buffer does not grow
    out of bounds. *)
Definition bounded (M : Z) (buf : Buffer.t) : Prop :=
  Buffer.wf buf /\ Buffer.storage buf <= 2 * M + 1032.

Lemma bounded_append M buf d :
  bounded M buf -> zlen (Buffer.content buf) + zlen d <= M -> 3 * M + 1032 <= int64_max ->
  exists buf', Buffer.append buf d = Ret buf' /\ bounded M buf' /\ Buffer.content buf' = Buffer.content buf ++ d.
Proof.
  intros [Hb Hs] Hd HM.
  destruct (BufferSpec.append_spec buf d Hb) as (buf' & E & Hb' & Hc & Hs1 & Hs2); [unfold vector_max_size; lia |].
  exists buf'. split_and!; try done. split; [done |].
  destruct (Z.leb_spec (zlen (Buffer.content buf) + zlen d + Buffer.pre_append_size) (Buffer.storage buf)) as [Hle|Hgt].
  - rewrite (Hs2 Hle). lia.
  - unfold Buffer.pre_append_size in Hgt. lia.
Qed.
Lemma bounded_make M : 0 <= M -> bounded M (Buffer.make 0).
Proof. intros. split; [apply BufferSpec.make_wf | rewrite BufferSpec.make_storage; lia]. Qed.

End Dialogue.
