(* ===== verification/LatencyClients.v ===== *)
(** The latency benchmark of suduo/bench/zeromq: the client remote_lat.cpp, which
    sends a message, waits for it to come back and starts again, and its dialogue with
    the server of local_lat.cpp (CodecServers.v). *)

From S2P Require Import Prelude.
From S2P Require Import Endianness.
From S2P Require Import ByteBuffer.
From S2P Require Import Time.
From S2P Require Import Codec.
From S2P Require Import TcpConnections.
From S2P Require Import StreamServers.
From S2P Require Import CodecServers.
From S2P Require Import Dialogues.

Module RemoteLat.
Import TcpConnection.

(** The globals that change: [g_msgCount], and whether [quit()] was called on the loop
    of the connection. *)
Record t := mk {
  g_msgCount : Z;
  quit : bool
}.

Section program.
(** The command line, and whether [LOG_INFO] is on: what it inserts is computed only
    then. *)
Context {Ho : Host} (g_msgSize g_totalMsgs : Z) (info : bool).

(** [g_message.assign(g_msgSize, 'H')]. *)
Definition g_message : res (list byte) :=
  if g_msgSize <? 0 then Stop LengthError else mret (replicate (Z.to_nat g_msgSize) x48).

(** [set_tcp_no_delay] changes nothing of the connection's state; the times are only
    printed. *)
Definition onConnection (connected : bool) (s : t) : res (list call * t) :=
  if connected then
    message ← g_message;
    data ← LengthHeaderCodec.send message;
    mret ([send data], s)
  else mret ([], mk (g_msgCount s) true).

(** The statistics; one of them multiplies two [int]s. *)
Definition print_results (s : t) : res unit :=
  if info then _ ← i32_checked (g_msgSize * g_msgCount s); mret tt else mret tt.

Definition onStringMessage (message : list byte) (s : t) : res (list call * t) :=
  if negb (zlen message =? u64 g_msgSize) then Stop Aborted else
  count ← i32_checked (g_msgCount s + 1);
  let s := mk count (quit s) in
  if g_msgCount s <? g_totalMsgs then
    data ← LengthHeaderCodec.send message;
    mret ([send data], s)
  else
    _ ← print_results s;
    mret ([shutdown], s).

(** What the codec calls, in order. *)
Fixpoint on_events (events : list LengthHeaderCodec.event) (s : t) : res (list call * t) :=
  match events with
  | [] => mret ([], s)
  | LengthHeaderCodec.Message message :: events =>
      '(calls, s) ← onStringMessage message s;
      '(more, s) ← on_events events s;
      mret (calls ++ more, s)
  | LengthHeaderCodec.Shutdown :: events =>
      '(more, s) ← on_events events s;
      mret (shutdown :: more, s)
  end.
Definition onMessage (connected : bool) (s : t) (buf : Buffer.t) : res (list call * t * Buffer.t) :=
  '(events, buf) ← LengthHeaderCodec.onMessage buf;
  '(calls, s) ← on_events events s;
  mret (calls, s, buf).

Definition client : Peer t := {| p_connection := onConnection; p_message := onMessage |}.
End program.
End RemoteLat.

(** ** The dialogue with the server *)

Module LatencySpec.
Import TcpConnection Dialogue RemoteLat.
Import CodecSpec (decode, decode_all, encode, next, max_len, More, Bad, Frame).

Section dialogue.
Context {Ho : Host} (size total : Z) (info : bool) (now : Timestamp.t).
Context (Hsize : 0 <= size <= max_len) (Hfit : size * Z.max 1 total <= int32_max) (Htotal : total <= int32_max).

#[local] Instance lat_client : Peer RemoteLat.t := RemoteLat.client size total info.
#[local] Instance lat_server : Peer unit := handler_peer LocalLat.server now.

Definition message : list byte := replicate (Z.to_nat size) x48.
Definition frame : list byte := encode message.
(** The number of round trips: the client sends before it looks at [g_totalMsgs]. *)
Definition rounds : Z := Z.max 1 total.

Lemma message_length : zlen message = size.
Proof. unfold message. rewrite length_replicate. lia. Qed.
Lemma frame_length : zlen frame = 4 + size.
Proof. unfold frame, encode. rewrite length_app, length_be_bytes. pose proof message_length. lia. Qed.
Lemma frame_ne : frame <> [].
Proof. intros E. pose proof frame_length as E2. rewrite E in E2. cbn in E2. lia. Qed.
Lemma send_message : LengthHeaderCodec.send message = Ret frame.
Proof. apply CodecSpec.send_spec. rewrite message_length. unfold max_len in Hsize. lia. Qed.

(** A part of the frame is not a message yet; all of it is one. *)
Lemma next_frame : next frame = Frame message [].
Proof. rewrite <- (app_nil_r frame). apply CodecSpec.next_encode. rewrite message_length. lia. Qed.
Lemma next_part p d : p ++ d = frame -> d <> [] -> next p = More.
Proof.
  intros Hp Hd. pose proof next_frame as Hf. destruct (next p) as [| |m rest] eqn:E; [done | |].
  - apply (CodecSpec.next_bad_app _ d) in E. by rewrite Hp, Hf in E.
  - apply (CodecSpec.next_frame_app _ _ _ d) in E. rewrite Hp, Hf in E. injection E as _ E.
    symmetry in E. by apply app_eq_nil in E as [_ ->].
Qed.
Lemma decode_part p d : p ++ d = frame -> d <> [] -> decode_all p = ([], p).
Proof. intros Hp Hd. unfold decode_all. cbn [decode]. by rewrite (next_part p d). Qed.
Lemma decode_frame : decode_all frame = ([LengthHeaderCodec.Message message], []).
Proof.
  unfold decode_all. cbn [decode]. rewrite next_frame.
  pose proof frame_length. destruct (length frame) eqn:E; [lia |]. done.
Qed.

(** *** Where the message is *)

Definition bound : Z := 4 + size.
Definition buffers (s : Dialogue.t RemoteLat.t unit) : Prop :=
  bounded bound (input (Dialogue.client s)) /\ bounded bound (input (Dialogue.server s)).
Definition in_client (s : Dialogue.t RemoteLat.t unit) : list byte := Buffer.content (input (Dialogue.client s)).
Definition in_server (s : Dialogue.t RemoteLat.t unit) : list byte := Buffer.content (input (Dialogue.server s)).

(** On its way there, on its way back, all done. *)
Inductive phase (s : Dialogue.t RemoteLat.t unit) : Prop :=
  | Going :
      state (Dialogue.client s) = Connected -> state (Dialogue.server s) = Connected ->
      in_server s ++ to_server s = frame -> to_server s <> [] -> in_client s = [] -> to_client s = [] ->
      0 <= g_msgCount (context (Dialogue.client s)) < rounds -> quit (context (Dialogue.client s)) = false -> phase s
  | Coming :
      state (Dialogue.client s) = Connected -> state (Dialogue.server s) = Connected ->
      in_client s ++ to_client s = frame -> to_client s <> [] -> in_server s = [] -> to_server s = [] ->
      0 <= g_msgCount (context (Dialogue.client s)) < rounds -> quit (context (Dialogue.client s)) = false -> phase s
  | Done :
      state (Dialogue.client s) <> Connected -> to_client s = [] -> to_server s = [] ->
      g_msgCount (context (Dialogue.client s)) = rounds ->
      (state (Dialogue.client s) = Disconnecting /\ state (Dialogue.server s) = Connected /\ quit (context (Dialogue.client s)) = false \/
       state (Dialogue.client s) = Disconnecting /\ state (Dialogue.server s) = Disconnected /\ quit (context (Dialogue.client s)) = false \/
       state (Dialogue.client s) = Disconnected /\ state (Dialogue.server s) = Disconnected /\ quit (context (Dialogue.client s)) = true) ->
      phase s.
Definition inv (s : Dialogue.t RemoteLat.t unit) : Prop := buffers s /\ phase s.

(** The bytes and ends of streams still to be delivered. *)
Definition is_up (st : State) : Z := match st with Disconnected => 0 | _ => 1 end.
Definition mu (s : Dialogue.t RemoteLat.t unit) : Z :=
  Z.max 0 (rounds - g_msgCount (context (Dialogue.client s)) - 1) * (2 * bound)
  + zlen (to_client s) + zlen (to_server s) + (if decide (to_server s = []) then 0 else bound)
  + is_up (state (Dialogue.client s)) + is_up (state (Dialogue.server s)).

(** A chunk, at either end. *)
Lemma bounded_message buf d :
  bounded bound buf -> zlen (Buffer.content buf) + zlen d <= bound ->
  exists buf1 buf2, Buffer.append buf d = Ret buf1 /\
    LengthHeaderCodec.onMessage buf1 = Ret ((decode_all (Buffer.content buf ++ d)).1, buf2) /\
    Buffer.wf buf1 /\ Buffer.content buf1 = Buffer.content buf ++ d /\
    bounded bound buf2 /\ Buffer.content buf2 = (decode_all (Buffer.content buf ++ d)).2.
Proof.
  intros Hb Hd. destruct (bounded_append bound buf d Hb Hd) as (buf1 & E1 & [Hw1 Hs1] & Hc1);
    [unfold bound, max_len, int64_max in *; lia |].
  destruct (CodecSpec.onMessage_spec buf1 Hw1) as (buf2 & E2 & Hw2 & Hc2 & Hs2).
  rewrite Hc1 in E2, Hc2. exists buf1, buf2. split_and!; try done. split; [done | lia].
Qed.

Lemma server_receives x d :
  bounded bound (input x) -> zlen (Buffer.content (input x)) + zlen d <= bound ->
  let '(es, rest) := decode_all (Buffer.content (input x) ++ d) in
  exists buf, bounded bound buf /\ Buffer.content buf = rest /\
    receive (C := unit) d x = Ret (let '(st, out) := perform (map LocalLatSpec.call_of es) (state x) in
                       (mk_side (context x) buf st, out)).
Proof.
  intros Hb Hd. destruct (bounded_message _ _ Hb Hd) as (buf1 & buf2 & E1 & E2 & Hw & Hc & Hb2 & Hc2).
  destruct (decode_all _) as [es rest] eqn:E. exists buf2. split_and!; try done.
  unfold receive. rewrite E1. cbn [mbind res_bind p_message lat_server handler_peer h_message LocalLat.server].
  unfold LocalLat.onMessage. rewrite E2. cbn [mbind res_bind fst].
  assert (LocalLat.answer es = Ret (map LocalLatSpec.call_of es)) as ->.
  { apply LocalLatSpec.answer_spec.
    pose proof (LocalLatSpec.decode_short (S (length (Buffer.content (input x) ++ d))) (Buffer.content (input x) ++ d)) as [Hs _].
    unfold decode_all in E. by rewrite E in Hs. }
  cbn [mbind res_bind mret res_ret]. by destruct (perform _ _).
Qed.

Lemma client_receives x d calls c :
  bounded bound (input x) -> zlen (Buffer.content (input x)) + zlen d <= bound ->
  let '(es, rest) := decode_all (Buffer.content (input x) ++ d) in
  on_events size total info es (context x) = Ret (calls, c) ->
  exists buf, bounded bound buf /\ Buffer.content buf = rest /\
    receive (C := RemoteLat.t) d x = Ret (let '(st, out) := perform calls (state x) in (mk_side c buf st, out)).
Proof.
  intros Hb Hd. destruct (bounded_message _ _ Hb Hd) as (buf1 & buf2 & E1 & E2 & Hw & Hc & Hb2 & Hc2).
  destruct (decode_all _) as [es rest] eqn:E. intros Eo. exists buf2. split_and!; try done.
  unfold receive. rewrite E1. cbn [mbind res_bind p_message lat_client RemoteLat.client].
  unfold onMessage. rewrite E2. cbn [mbind res_bind fst]. rewrite Eo.
  cbn [mbind res_bind mret res_ret]. by destruct (perform _ _).
Qed.

(** The message is back: another round, or the end. *)
Lemma message_back c :
  0 <= g_msgCount c < rounds ->
  on_events size total info [LengthHeaderCodec.Message message] c =
    Ret ([if g_msgCount c + 1 <? rounds then send frame else shutdown],
         RemoteLat.mk (g_msgCount c + 1) (quit c)).
Proof.
  intros Hc. cbn [on_events]. unfold onStringMessage, rounds, max_len in *. rewrite message_length, u64_small by lia.
  rewrite Z.eqb_refl. cbn [negb]. rewrite i32_checked_Ret by (unfold int32_max in *; lia). cbn [mbind res_bind g_msgCount].
  assert ((g_msgCount c + 1 <? total) = (g_msgCount c + 1 <? Z.max 1 total)) as ->.
  { do 2 zcase; try done; lia. }
  destruct (Z.ltb_spec (g_msgCount c + 1) (Z.max 1 total)).
  - rewrite send_message. done.
  - unfold print_results. destruct info; [| done]. cbn [g_msgCount quit].
    rewrite i32_checked_Ret by (unfold int32_max in *; nia). done.
Qed.

#[local] Arguments frame : simpl never.
#[local] Arguments encode : simpl never.
Ltac fields := cbn [Dialogue.client Dialogue.server to_client to_server context state input g_msgCount quit] in *.
Ltac in_phase := unfold in_client, in_server in *; fields; try congruence; auto using frame_ne.

(** *** Every move is allowed for, and brings the end nearer *)

Definition permit (l : label) : Prop := l <> Disconnect.
Definition goes_on (s : Dialogue.t RemoteLat.t unit) (l : label) : Prop :=
  exists s', move l s = Ret s' /\ inv s' /\ mu s' < mu s.

Lemma take_part {X} (p d f : list X) n :
  p ++ d = f -> (0 < n <= length d)%nat -> (p ++ take n d) ++ drop n d = f /\
    (n = length d /\ drop n d = [] /\ p ++ take n d = f \/ drop n d <> []).
Proof.
  intros Hp Hn. rewrite <- app_assoc, take_drop. split; [done |].
  destruct (decide (n = length d)) as [->|Hne]; [left | right].
  - rewrite drop_ge, take_ge by lia. done.
  - intros E. apply (f_equal length) in E. rewrite length_drop in E. cbn in E. lia.
Qed.

Lemma going_moves s l :
  buffers s -> state (Dialogue.client s) = Connected -> state (Dialogue.server s) = Connected ->
  in_server s ++ to_server s = frame -> to_server s <> [] -> in_client s = [] -> to_client s = [] ->
  0 <= g_msgCount (context (Dialogue.client s)) < rounds -> quit (context (Dialogue.client s)) = false ->
  permit l -> enabled l s -> goes_on s l.
Proof.
  intros [Hbc Hbs] Hc Hs Hf Hne Hic Htc Hcnt Hq Hp He.
  destruct l as [n|n| | |]; cbn [enabled] in He; [rewrite Htc in He; cbn in He; lia | | by destruct He as (_ & ? & _) | by destruct He | done].
  destruct He as [Hn _]. unfold goes_on. cbn [move].
  destruct (take_part _ _ _ n Hf Hn) as [Hf' Hcase].
  pose proof (server_receives (Dialogue.server s) (take n (to_server s)) Hbs) as Hr. fold (in_server s) in Hr.
  pose proof frame_length as Hfl. rewrite <- Hf' in Hfl. rewrite !length_app in Hfl.
  specialize (Hr ltac:(unfold bound; lia)). pose proof Hn as Hn'. rewrite length_drop, length_take in Hfl.
  destruct Hcase as [(-> & Hd & Hfull)|Hd].
  - rewrite Hfull, decode_frame in Hr. destruct Hr as (buf & Hb & Hcb & ->). rewrite Hs.
    cbn [map LocalLatSpec.call_of perform]. fold frame. rewrite bool_decide_true by done. cbn [mbind res_bind mret res_ret].
    rewrite Htc, Hd, app_nil_r. cbn [app]. eexists. split; [reflexivity |]. split.
    + split; [by split |]. apply Coming; in_phase. by rewrite Hic.
    + unfold mu. fields. rewrite Hc, Hs, Htc. rewrite decide_True by done. rewrite decide_False by done.
      pose proof frame_length. unfold bound. cbn [length is_up]. lia.
  - rewrite (decode_part _ _ Hf' Hd) in Hr. destruct Hr as (buf & Hb & Hcb & ->). rewrite Hs.
    cbn [map perform mbind res_bind mret res_ret]. eexists. split; [reflexivity |]. split.
    + split; [by split |]. apply Going; in_phase. by rewrite Htc.
    + unfold mu. fields. rewrite Htc, Hc, Hs. rewrite !decide_False by done. rewrite length_drop. cbn [length is_up app]. lia.
Qed.

Lemma coming_moves s l :
  buffers s -> state (Dialogue.client s) = Connected -> state (Dialogue.server s) = Connected ->
  in_client s ++ to_client s = frame -> to_client s <> [] -> in_server s = [] -> to_server s = [] ->
  0 <= g_msgCount (context (Dialogue.client s)) < rounds -> quit (context (Dialogue.client s)) = false ->
  permit l -> enabled l s -> goes_on s l.
Proof.
  intros [Hbc Hbs] Hc Hs Hf Hne Hic Htc Hcnt Hq Hp He.
  destruct l as [n|n| | |]; cbn [enabled] in He; [| rewrite Htc in He; cbn in He; lia | by destruct He | by destruct He as (_ & ? & _) | done].
  destruct He as [Hn _]. unfold goes_on. cbn [move].
  destruct (take_part _ _ _ n Hf Hn) as [Hf' Hcase].
  pose proof frame_length as Hfl. rewrite <- Hf' in Hfl. rewrite !length_app in Hfl.
  pose proof Hn as Hn'. rewrite length_drop, length_take in Hfl.
  destruct Hcase as [(-> & Hd & Hfull)|Hd].
  - pose proof (client_receives (Dialogue.client s) (take (length (to_client s)) (to_client s))
      [if g_msgCount (context (Dialogue.client s)) + 1 <? rounds then send frame else shutdown]
      (RemoteLat.mk (g_msgCount (context (Dialogue.client s)) + 1) (quit (context (Dialogue.client s)))) Hbc) as Hr.
    fold (in_client s) in Hr. specialize (Hr ltac:(unfold bound; rewrite length_take; lia)).
    rewrite Hfull, decode_frame in Hr. destruct (Hr (message_back _ Hcnt)) as (buf & Hb & Hcb & ->). rewrite Hc, Hq, Hd.
    destruct (Z.ltb_spec (g_msgCount (context (Dialogue.client s)) + 1) rounds).
    all: cbn [perform]; rewrite bool_decide_true by done; cbn [mbind res_bind mret res_ret];
      eexists; split; [reflexivity |]; rewrite Htc, ?app_nil_r; cbn [app].
    + split.
      * split; [by split |]. apply Going; in_phase; [by rewrite Hic | lia].
      * unfold mu. fields. rewrite Hc, Hs, Htc. pose proof frame_length.
        rewrite decide_False by apply frame_ne. rewrite decide_True by done. cbn [length is_up].
        replace (Z.max 0 (rounds - g_msgCount (context (Dialogue.client s)) - 1))
          with (Z.max 0 (rounds - (g_msgCount (context (Dialogue.client s)) + 1) - 1) + 1) by lia.
        rewrite Z.mul_add_distr_r. unfold bound. lia.
    + split.
      * split; [by split |]. apply Done; fields; [done .. | lia | by left].
      * unfold mu. fields. rewrite Hc, Hs, Htc.
        rewrite !decide_True by done. cbn [length is_up]. lia.
  - pose proof (client_receives (Dialogue.client s) (take n (to_client s)) [] (context (Dialogue.client s)) Hbc) as Hr.
    fold (in_client s) in Hr. specialize (Hr ltac:(unfold bound; rewrite length_take; lia)).
    rewrite (decode_part _ _ Hf' Hd) in Hr. destruct (Hr eq_refl) as (buf & Hb & Hcb & ->). rewrite Hc.
    cbn [perform mbind res_bind mret res_ret]. rewrite app_nil_r. eexists. split; [reflexivity |]. split.
    + split; [by split |]. apply Coming; in_phase.
    + unfold mu. fields. rewrite Htc, Hc, Hs.
      rewrite !decide_True by done. rewrite length_drop. cbn [length is_up]. lia.
Qed.

Lemma done_moves s l :
  inv s -> state (Dialogue.client s) <> Connected -> permit l -> enabled l s -> goes_on s l.
Proof.
  intros [Hb [| |Hc Htc Hts Hcnt Hcase]]; try done. intros _ Hp He. unfold goes_on.
  destruct l as [n|n| | |]; cbn [enabled] in He; [rewrite Htc in He; cbn in He; lia | rewrite Hts in He; cbn in He; lia | | | done].
  - destruct He as (_ & Hs & Hcd). destruct Hcase as [(_ & E & _)|[(Ec & E & Eq)|(E & _)]]; try congruence.
    eexists. split; [reflexivity |]. split.
    + split; [exact Hb |]. apply Done; fields; auto.
    + unfold mu. fields. rewrite Ec. cbn. lia.
  - destruct He as (_ & _ & Hs). destruct Hcase as [(Ec & E & Eq)|[(Ec & E & Eq)|(_ & E & _)]]; try congruence.
    eexists. split; [reflexivity |]. split.
    + split; [exact Hb |]. apply Done; fields; auto.
    + unfold mu. fields. rewrite E. cbn. lia.
Qed.

Lemma latency_moves s l : inv s -> permit l -> enabled l s -> goes_on s l.
Proof.
  intros [Hb Hph] Hp He. pose proof Hph as Hph'. destruct Hph as [| |Hc]; [by apply going_moves | by apply coming_moves |].
  by apply done_moves.
Qed.

Lemma latency_start :
  exists s, start (RemoteLat.mk 0 false) tt = Ret s /\ inv s /\ mu s = 2 * (4 + size) * rounds + 2.
Proof.
  unfold start, come_up. cbn [p_connection lat_server handler_peer h_connection LocalLat.server lat_client RemoteLat.client].
  cbn [mbind res_bind mret res_ret perform]. unfold onConnection, g_message. rewrite (proj2 (Z.ltb_ge _ _)) by lia.
  cbn [mbind res_bind mret res_ret]. fold message. rewrite send_message. cbn [mbind res_bind mret res_ret perform].
  rewrite bool_decide_true, app_nil_r by done. eexists. split; [reflexivity |]. split.
  - split; [split; fields; apply bounded_make; unfold bound; lia |].
    apply Going; in_phase. unfold rounds. lia.
  - unfold mu. fields. rewrite decide_False by apply frame_ne. pose proof frame_length. cbn [length is_up].
    unfold rounds, bound. rewrite Z.max_r by lia. nia.
Qed.
End dialogue.
End LatencySpec.

(** ** The properties *)

Module LatencyProps.
Import TcpConnection Dialogue RemoteLat LatencySpec.

Definition latency_step {Ho : Host} size total info now :=
  step (H := lat_client size total info) (H0 := lat_server now) permit.
Definition latency_start_state {Ho : Host} size total info now :=
  start (H := lat_client size total info) (H0 := lat_server now) (RemoteLat.mk 0 false) tt.
Definition latency_move {Ho : Host} size total info now :=
  move (H := lat_client size total info) (H0 := lat_server now).

(** C13: the latency benchmark does its round trips and ends. However the network
    cuts the two streams, the client never aborts, no call fails, and after at most
    [2 * (4 + g_msgSize) * rounds + 2] deliveries nothing is left to deliver: by then
    the message has come back exactly [max(1, g_totalMsgs)] times, both ends are
    closed and the client's loop was told to quit. *)
Theorem latency_test_ends {Ho : Host} size total info now k s0 s
    (Hsize : 0 <= size <= 65536) (Hfit : size * Z.max 1 total <= int32_max) (Htotal : total <= int32_max)
    (Hstart : latency_start_state size total info now = Ret s0)
    (Hsteps : nsteps (latency_step size total info now) k s0 s) :
  Z.of_nat k <= 2 * (4 + size) * Z.max 1 total + 2 /\
  (forall l, permit l -> enabled l s -> exists s', latency_move size total info now l s = Ret s') /\
  g_msgCount (context (Dialogue.client s)) <= Z.max 1 total /\
  ((forall l, permit l -> ~ enabled l s) ->
    g_msgCount (context (Dialogue.client s)) = Z.max 1 total /\ quit (context (Dialogue.client s)) = true /\
    state (Dialogue.client s) = Disconnected /\ state (Dialogue.server s) = Disconnected).
Proof.
  destruct (latency_start size total info now Hsize) as (s1 & E & Hi & Hmu).
  unfold latency_start_state in Hstart. rewrite E in Hstart. injection Hstart as ->.
  destruct (dialogue_ends (H := lat_client size total info) (H0 := lat_server now) permit
    (inv size total) (mu size total)) with (k := k) (s := s0) (s' := s) as [Hs Hk].
  { intros s' _. unfold mu, bound. destruct (decide _), (state _), (state _); cbn [is_up]; nia. }
  { intros s' l H1 H2 H3. by apply latency_moves. }
  { done. }
  { done. }
  unfold rounds in Hmu. assert (0 <= mu size total s).
  { unfold mu, bound. destruct (decide _), (state _), (state _); cbn [is_up]; nia. }
  split_and!; [lia | | |].
  - intros l Hp He. destruct (latency_moves size total info now Hsize Hfit Htotal s l Hs Hp He) as (s' & E' & _). by exists s'.
  - destruct Hs as [_ [? ? ? ? ? ? []|? ? ? ? ? ? []|]]; unfold rounds in *; lia.
  - intros Hno. destruct Hs as [_ [Hc Hs Hf Hne|Hc Hs Hf Hne|Hc Htc Hts Hcnt Hcase]].
    + edestruct (Hno (ToServer (length (to_server s)))); [done |]. split; [| congruence].
      destruct (to_server s); [done | cbn; lia].
    + edestruct (Hno (ToClient (length (to_client s)))); [done |]. split; [| congruence].
      destruct (to_client s); [done | cbn; lia].
    + destruct Hcase as [(E1 & E2 & _)|[(E1 & E2 & _)|(E1 & E2 & Eq)]]; [| | done].
      * edestruct (Hno ServerEnds); [done |]. split_and!; congruence.
      * edestruct (Hno ClientEnds); [done |]. split_and!; congruence.
Qed.

(** The statistics multiply two ints: 32768 messages of 65536 bytes overflow. *)
Theorem latency_bandwidth_overflows {Ho : Host} size count
    (Hsize : 0 <= size <= 65536) (Hcount : 0 <= count < int32_max) (Hbig : int32_max < size * (count + 1)) :
  onStringMessage size (count + 1) true (replicate (Z.to_nat size) x48) (RemoteLat.mk count false)
  = Stop UndefinedBehaviour.
Proof.
  unfold onStringMessage. rewrite length_replicate, u64_small by lia.
  rewrite Z2Nat.id, Z.eqb_refl by lia. cbn [negb g_msgCount].
  rewrite i32_checked_Ret by (unfold int32_max in *; lia). cbn [mbind res_bind g_msgCount].
  rewrite Z.ltb_irrefl. unfold print_results, i32_checked. cbn [g_msgCount].
  rewrite (proj2 (Z.leb_gt (size * (count + 1)) _)) by lia. by rewrite andb_false_r.
Qed.

(** *** Witness: two round trips of two bytes, the frames cut in different places *)

#[local] Instance x86 : Host := {| little_endian := true |}.
Definition first : Dialogue.t RemoteLat.t unit :=
  match latency_start_state 2 2 true 7 with
  | Ret s => s
  | Stop _ => Dialogue.mk (mk_side (RemoteLat.mk 0 false) (Buffer.make 0) Connected) (mk_side tt (Buffer.make 0) Connected) [] []
  end.
Definition schedule : list label :=
  [ToServer 1; ToServer 5; ToClient 4; ToClient 1; ToClient 1; ToServer 6; ToClient 6; ServerEnds; ClientEnds].
Definition played : Dialogue.t RemoteLat.t unit :=
  default first (play (H := lat_client 2 2 true) (H0 := lat_server 7) schedule first).

Lemma latency_test_ends_witness :
  Z.of_nat 9 <= 2 * (4 + 2) * Z.max 1 2 + 2 /\
  (forall l, permit l -> enabled l played -> exists s', latency_move 2 2 true 7 l played = Ret s') /\
  g_msgCount (context (Dialogue.client played)) <= Z.max 1 2 /\
  ((forall l, permit l -> ~ enabled l played) ->
    g_msgCount (context (Dialogue.client played)) = Z.max 1 2 /\ quit (context (Dialogue.client played)) = true /\
    state (Dialogue.client played) = Disconnected /\ state (Dialogue.server played) = Disconnected).
Proof.
  apply (latency_test_ends 2 2 true 7 9 first played).
  - lia.
  - unfold int32_max. lia.
  - unfold int32_max. lia.
  - by vm_compute.
  - apply (play_steps (H := lat_client 2 2 true) (H0 := lat_server 7) permit schedule).
    + repeat constructor; discriminate.
    + by vm_compute.
Defined.
End LatencyProps.
