(* ===== verification/PingPongClients.v ===== *)
(** The throughput benchmark of suduo/bench/pingpong: the client client.cpp, whose
    sessions send every byte back that they get, and its dialogue with the server of
    server.cpp (StreamServers.v); and the [Client] that counts its sessions. *)

From S2P Require Import Prelude.
From S2P Require Import ByteBuffer.
From S2P Require Import Time.
From S2P Require Import TcpConnections.
From S2P Require Import StreamServers.
From S2P Require Import Dialogues.

(** ** A session *)

Module Session.
Import TcpConnection.

Record t := mk {
  bytesRead_ : Z;
  bytesWritten_ : Z;
  messagesRead_ : Z
}.
Definition make : t := mk 0 0 0.
Definition bytesRead (s : t) : Z := bytesRead_ s.
Definition messagesRead (s : t) : Z := messagesRead_ s.

(** [Client]'s constructor: [static_cast<char>(i % 128)], [blockSize] times. *)
Definition message (blockSize : Z) : list byte :=
  map (fun i => byte_of_Z (Z.of_nat i mod 128)) (seq 0 (Z.to_nat blockSize)).

(** [set_tcp_no_delay] changes nothing of the connection's state; the owner's counter
    is below. *)
Definition onConnection (blockSize : Z) (connected : bool) (s : t) : res (list call * t) :=
  mret (if connected then [send (message blockSize)] else [], s).

(** [conn->send(buf)] takes the bytes out of the buffer only while the connection is
    up. *)
Definition onMessage (connected : bool) (s : t) (buf : Buffer.t) : res (list call * t * Buffer.t) :=
  messages ← i64_checked (messagesRead_ s + 1);
  read ← i64_checked (bytesRead_ s + Buffer.readable_bytes buf);
  written ← i64_checked (bytesWritten_ s + Buffer.readable_bytes buf);
  let s := mk read written messages in
  if connected then
    data ← Buffer.to_string buf;
    mret ([send data], s, Buffer.retrieve_all buf)
  else mret ([], s, buf).

Definition session (blockSize : Z) : Peer t := {|
  p_connection := onConnection blockSize;
  p_message := onMessage
|}.
End Session.

(** ** The client and its sessions *)

Module Client.

(** A session as its owner sees it. *)
Inductive phase := Connecting | Up | Down.
#[global] Instance phase_eq_dec : EqDecision phase.
Proof. solve_decision. Defined.

(** [numConnected_], the sessions with their phases, what was reported (bytes and
    messages), how often [quit] was queued, and whether "all connected" was logged. *)
Record t := mk {
  sessionCount_ : Z;
  numConnected_ : Z;
  sessions_ : list (phase * Session.t);
  reports : list (Z * Z);
  quits : nat;
  all_connected : bool
}.

(** The constructor leaves [numConnected_] as it finds it: [n0]. *)
Definition make (n0 : Z) (sessionCount : nat) : t :=
  mk (Z.of_nat sessionCount) n0 (replicate sessionCount (Connecting, Session.make)) [] 0 false.

(** [snprintf(buf, sizeof buf, "C%05d", i)]. *)
Definition session_name (i : Z) : list byte :=
  x43 :: replicate (5 - length (decimal i)) x30 ++ decimal i.

Definition set_sessions (s : t) (l : list (phase * Session.t)) : t :=
  mk (sessionCount_ s) (numConnected_ s) l (reports s) (quits s) (all_connected s).

(** [++] and [--] on a [std::atomic_int32_t] wrap around. *)
Definition onConnect (s : t) : t :=
  let n := to_signed 32 (numConnected_ s + 1) in
  mk (sessionCount_ s) n (sessions_ s) (reports s) (quits s) (all_connected s || (n =? sessionCount_ s)).

Fixpoint totals (l : list (phase * Session.t)) (bytes messages : Z) : res (Z * Z) :=
  match l with
  | [] => mret (bytes, messages)
  | (_, session) :: l =>
      bytes ← i64_checked (bytes + Session.bytesRead session);
      messages ← i64_checked (messages + Session.messagesRead session);
      totals l bytes messages
  end.

Definition onDisconnect (s : t) : res t :=
  let n := to_signed 32 (numConnected_ s - 1) in
  let s := mk (sessionCount_ s) n (sessions_ s) (reports s) (quits s) (all_connected s) in
  if n =? 0 then
    report ← totals (sessions_ s) 0 0;
    mret (mk (sessionCount_ s) n (sessions_ s) (reports s ++ [report]) (S (quits s)) (all_connected s))
  else mret s.

(** What happens to session [i]: its connection comes up, a message changes its
    counters, its connection goes down. *)
Inductive event := Connected (i : nat) | Message (i : nat) (session : Session.t) | Disconnected (i : nat).

Definition handle (e : event) (s : t) : res t :=
  match e with
  | Connected i =>
      match sessions_ s !! i with
      | Some (_, session) => mret (onConnect (set_sessions s (<[i := (Up, session)]> (sessions_ s))))
      | None => mret s
      end
  | Message i session => mret (set_sessions s (<[i := (Up, session)]> (sessions_ s)))
  | Disconnected i =>
      match sessions_ s !! i with
      | Some (_, session) => onDisconnect (set_sessions s (<[i := (Down, session)]> (sessions_ s)))
      | None => mret s
      end
  end.
Fixpoint run (es : list event) (s : t) : res t :=
  match es with
  | [] => mret s
  | e :: es => s ← handle e s; run es s
  end.

(** A connection comes up once and goes down once. *)
Definition possible (e : event) (s : t) : Prop :=
  match e with
  | Connected i => fst <$> sessions_ s !! i = Some Connecting
  | Message i _ | Disconnected i => fst <$> sessions_ s !! i = Some Up
  end.
Fixpoint allowed (es : list event) (s : t) : Prop :=
  match es with
  | [] => True
  | e :: es => possible e s /\ forall s', handle e s = Ret s' -> allowed es s'
  end.
End Client.

(** ** The dialogue of a session with the ping-pong server *)

Module PingPongSpec.
Import TcpConnection Dialogue Session.

(** The bytes of [m] from position [i] on, round the end. *)
Definition turned {X} (i : nat) (m : list X) : list X := drop i m ++ take i m.

Lemma turned_turned {X} i n (m : list X) :
  (i < length m)%nat -> (n <= length m)%nat ->
  exists j, (j < length m)%nat /\ Z.of_nat j = (Z.of_nat i + Z.of_nat n) mod zlen m /\ turned n (turned i m) = turned j m.
Proof.
  intros Hi Hn. unfold turned. destruct (decide (i + n < length m)%nat) as [Hlt|Hge].
  - exists (i + n)%nat. split; [done |]. split; [rewrite Z.mod_small by lia; lia |].
    rewrite (drop_app_le (drop i m)), (take_app_le (drop i m)) by (rewrite length_drop; lia).
    rewrite drop_drop, <- app_assoc, <- take_take_drop. done.
  - exists (i + n - length m)%nat. split; [lia |]. split.
    { rewrite <- (Z.mod_unique_pos (Z.of_nat i + Z.of_nat n) (zlen m) 1 (Z.of_nat (i + n - length m))); lia. }
    rewrite (drop_app_ge (drop i m)), (take_app_ge (drop i m)) by (rewrite length_drop; lia). rewrite length_drop.
    replace (n - (length m - i))%nat with (i + n - length m)%nat by lia.
    rewrite app_assoc, skipn_firstn_comm, take_take. f_equal; [| f_equal; lia].
    rewrite <- (take_drop (i - (i + n - length m)) (drop (i + n - length m) m)) at 2. f_equal.
    rewrite drop_drop. f_equal. lia.
Qed.

Section dialogue.
Context (blockSize : Z) (now : Timestamp.t) (Hblock : 0 < blockSize <= 2147483647).

#[local] Instance pp_client : Peer Session.t := session blockSize.
#[local] Instance pp_server : Peer unit := handler_peer PingPong.handler now.

Definition block : list byte := message blockSize.
Lemma block_length : zlen block = blockSize.
Proof. unfold block, message. rewrite length_map, length_seq. lia. Qed.

(** The bytes that are somewhere between the two programs. *)
Definition under_way (s : Dialogue.t Session.t unit) : list byte :=
  Buffer.content (input (client s)) ++ to_client s ++ to_server s.

Record inv (s : Dialogue.t Session.t unit) : Prop := mk_inv {
  v_client : bounded blockSize (input (client s));
  v_server : bounded blockSize (input (server s));
  v_empty : Buffer.content (input (server s)) = [];
  v_count : (length (under_way s) <= length block)%nat;
  v_up : state (client s) = Connected ->
    state (server s) = Connected /\ Buffer.content (input (client s)) = [] /\
    0 <= bytesRead_ (context (client s)) /\ bytesWritten_ (context (client s)) = bytesRead_ (context (client s)) /\
    exists i, (i < length block)%nat /\ Z.of_nat i = bytesRead_ (context (client s)) mod blockSize /\
      to_client s ++ to_server s = turned i block;
  v_open : state (server s) = Connected \/ state (server s) = Disconnected
}.

Lemma server_echoes x d :
  bounded blockSize (input x) -> Buffer.content (input x) = [] -> zlen d <= blockSize -> state x = Connected ->
  exists buf, receive (C := unit) d x = Ret (mk_side (context x) buf Connected, d) /\
    bounded blockSize buf /\ Buffer.content buf = [].
Proof.
  intros Hb Hc Hd Hst. destruct (bounded_append blockSize (input x) d Hb) as (buf & E & [Hw Hs] & Hcb);
    [rewrite Hc; cbn; lia | unfold int64_max; lia |].
  exists (Buffer.retrieve_all buf). split_and!; [| split; [by apply BufferSpec.retrieve_all_wf | done] | apply BufferSpec.retrieve_all_content].
  unfold receive. rewrite E. cbn [mbind res_bind p_message pp_server handler_peer h_message PingPong.handler].
  unfold PingPong.onMessage. rewrite BufferSpec.to_string_spec, Hcb, Hc by done.
  cbn [mbind res_bind mret res_ret perform app]. rewrite Hst. rewrite bool_decide_true, app_nil_r by done. done.
Qed.

(** The counters stay in their 64 bits. *)
Definition fits (c : Session.t) (n : Z) : Prop :=
  0 <= messagesRead_ c < int64_max /\ 0 <= bytesRead_ c <= int64_max - n /\ 0 <= bytesWritten_ c <= int64_max - n.
Definition counted (c : Session.t) (n : Z) : Session.t :=
  Session.mk (bytesRead_ c + n) (bytesWritten_ c + n) (messagesRead_ c + 1).

(** What a session makes of a chunk, if its counters do not overflow: sent back while
    it is up, kept in the buffer (and counted again with the next) afterwards. *)
Lemma session_receives x d :
  bounded blockSize (input x) -> zlen (Buffer.content (input x) ++ d) <= blockSize ->
  let c := counted (context x) (zlen (Buffer.content (input x) ++ d)) in
  exists buf, bounded blockSize buf /\
    Buffer.content buf = (if bool_decide (state x = Connected) then [] else Buffer.content (input x) ++ d) /\
    let result := (mk_side c buf (state x), if bool_decide (state x = Connected) then Buffer.content (input x) ++ d else []) in
    (fits (context x) (zlen (Buffer.content (input x) ++ d)) -> receive (C := Session.t) d x = Ret result) /\
    (forall r, receive (C := Session.t) d x = Ret r -> r = result).
Proof.
  intros Hb Hd c. rewrite length_app in Hd. destruct (bounded_append blockSize (input x) d Hb) as (buf & E & [Hw Hs] & Hcb);
    [lia | unfold int64_max; lia |]. set (D := Buffer.content (input x) ++ d) in *.
  exists (if bool_decide (state x = Connected) then Buffer.retrieve_all buf else buf). split_and!.
  { case_bool_decide; [split; [by apply BufferSpec.retrieve_all_wf | done] | by split]. }
  { case_bool_decide; [apply BufferSpec.retrieve_all_content | done]. }
  unfold receive. rewrite E. cbn [mbind res_bind p_message pp_client session].
  unfold onMessage. rewrite BufferSpec.readable_bytes_content, Hcb, BufferSpec.to_string_spec, Hcb by done. cbv zeta.
  split.
  - intros (H1 & H2 & H3). rewrite !i64_checked_Ret by (unfold Timestamp.representable, int64_max in *; lia).
    cbn [mbind res_bind mret res_ret]. case_bool_decide as Hst; cbn [mbind res_bind mret res_ret perform]; [| done].
    rewrite Hst. rewrite bool_decide_true, app_nil_r by done. done.
  - intros r Hr. apply res_bind_inv in Hr as ([[calls c'] b'] & Hr & Er).
    apply res_bind_inv in Hr as (m & Em & Hr), Hr as (rd & Erd & Hr), Hr as (wr & Ewr & Hr).
    apply i64_checked_inv in Em as [-> _], Erd as [-> _], Ewr as [-> _].
    case_bool_decide as Hst; cbn [mbind res_bind mret res_ret] in Hr; injection Hr as <- <- <-;
      cbn [perform] in Er; injection Er as <-; [| done].
    rewrite Hst. rewrite bool_decide_true, app_nil_r by done. done.
Qed.

(** *** The invariant *)

Lemma server_step s n :
  inv s -> enabled (ToServer n) s -> exists s', move (ToServer n) s = Ret s' /\ inv s'.
Proof.
  intros [Vc Vs Ve Vn Vu Vo] [Hn Hst]. destruct Vo as [Hup|]; [| done].
  pose proof block_length as Hbl. unfold under_way in Vn. rewrite !length_app in Vn.
  destruct (server_echoes (server s) (take n (to_server s)) Vs Ve) as (buf & E & Hb & Hcb); [rewrite length_take; lia | done |].
  cbn [move]. rewrite E. cbn [mbind res_bind mret res_ret]. eexists. split; [reflexivity |].
  constructor; cbn [client server to_client to_server input context state]; try done; [| | by left].
  - unfold under_way. cbn. rewrite !length_app, length_take, length_drop. lia.
  - intros Hc. destruct (Vu Hc) as (_ & Hci & Hr & Hw & i & Hi & Hm & Ht). split_and!; try done.
    exists i. split_and!; try done. by rewrite <- app_assoc, take_drop.
Qed.

Lemma turned_step (a b : list byte) i n :
  a ++ b = turned i block -> (i < length block)%nat -> (n <= length a)%nat ->
  exists j, (j < length block)%nat /\ Z.of_nat j = (Z.of_nat i + Z.of_nat n) mod blockSize /\
    drop n a ++ b ++ take n a = turned j block.
Proof.
  intros Hab Hi Hn. assert (Hl : length (a ++ b) = length block).
  { rewrite Hab. unfold turned. rewrite length_app, length_drop, length_take. lia. }
  rewrite length_app in Hl. destruct (turned_turned i n block Hi) as (j & Hj & Hm & Ht); [lia |].
  exists j. rewrite block_length in Hm. split_and!; [done | done |]. rewrite <- Ht, <- Hab. unfold turned.
  rewrite drop_app_le, take_app_le by done. by rewrite <- app_assoc.
Qed.

Lemma client_step s n :
  inv s -> enabled (ToClient n) s ->
  (fits (context (client s)) blockSize -> exists s', move (ToClient n) s = Ret s') /\
  forall s', move (ToClient n) s = Ret s' -> inv s'.
Proof.
  intros [Vc Vs Ve Vn Vu Vo] [Hn Hst]. pose proof block_length as Hbl. unfold under_way in Vn.
  destruct (session_receives (client s) (take n (to_client s)) Vc) as (buf & Hb & Hcb & Hfits & Hret).
  { rewrite !length_app in *. rewrite length_take. lia. }
  rewrite !length_app, ?length_take in *. cbn [move]. split.
  - intros (H1 & H2 & H3). rewrite Hfits; [by eexists | unfold fits; lia].
  - intros s' Hs'. apply res_bind_inv in Hs' as ([x out] & E & Hs'). injection Hs' as <-.
    apply Hret in E. injection E as -> ->.
    constructor; cbn [client server to_client to_server input context state]; try done.
    + unfold under_way. cbn [client to_client to_server input]. rewrite Hcb. case_bool_decide;
        rewrite !length_app, ?length_take, ?length_drop; cbn [length]; lia.
    + intros Hc. rewrite Hcb, bool_decide_true by done. destruct (Vu Hc) as (Hs & Hci & Hr & Hw & i & Hi & Hm & Ht).
      rewrite Hci. cbn [counted bytesRead_ bytesWritten_ app length]. split_and!; try done; [lia | lia |].
      destruct (turned_step _ _ i n Ht Hi) as (j & Hj & Hjm & Hjt); [lia |].
      exists j. split_and!; [done | | done]. rewrite Hjm, Hm, Zplus_mod_idemp_l. f_equal. lia.
Qed.

Lemma dialogue_inv_step s s' : inv s -> step (fun _ => True) s s' -> inv s'.
Proof.
  intros Hs (l & _ & He & E). destruct l as [n|n| | |].
  - by eapply client_step.
  - destruct (server_step s n Hs He) as (s1 & E1 & H1). rewrite E1 in E. by injection E as <-.
  - destruct He as (Htc & Hsv & Hc). destruct Hs as [Vc Vs Ve Vn Vu Vo]. injection E as <-.
    by constructor; cbn [client server to_client to_server input context state].
  - destruct He as (Hts & Hc & Hsv). destruct Hs as [Vc Vs Ve Vn Vu Vo]. injection E as <-.
    constructor; cbn [client server to_client to_server input context state]; try done. by right.
  - destruct Hs as [Vc Vs Ve Vn Vu Vo]. injection E as <-.
    constructor; cbn [client server to_client to_server input context state]; try done.
    cbn [perform]. case_bool_decide; [done |]. intros Hc. by apply Vu.
Qed.

Definition started : Dialogue.t Session.t unit :=
  Dialogue.mk (mk_side Session.make (Buffer.make 0) Connected) (mk_side tt (Buffer.make 0) Connected) [] block.
Lemma start_eq : start Session.make tt = Ret started.
Proof.
  unfold start, come_up. cbn [p_connection pp_server handler_peer pp_client session onConnection mret res_ret mbind res_bind perform].
  rewrite bool_decide_true, app_nil_r by done. done.
Qed.
Lemma session_started_inv : inv started.
Proof.
  pose proof block_length. constructor; cbn [started client server to_client to_server input context state].
  - apply bounded_make. lia.
  - apply bounded_make. lia.
  - done.
  - done.
  - intros _. split_and!; try done. exists 0%nat. split_and!; [lia | done |].
    unfold turned. by rewrite take_0, drop_0, app_nil_r.
  - by left.
Qed.
End dialogue.
End PingPongSpec.

(** *** The owner's counters *)

Module ClientSpec.
Import Client.

Definition sum (f : Session.t -> Z) (l : list (phase * Session.t)) : Z := foldr (fun x n => f x.2 + n) 0 l.
Definition one (ph : phase) : Z := match ph with Up => 1 | _ => 0 end.
Definition up (l : list (phase * Session.t)) : Z := foldr (fun x n => one x.1 + n) 0 l.

Lemma totals_spec l b m r :
  totals l b m = Ret r -> r = (b + sum Session.bytesRead l, m + sum Session.messagesRead l).
Proof.
  revert b m. induction l as [|[ph x] l IH]; intros b m; cbn [totals sum foldr snd].
  { intros [= <-]. by rewrite !Z.add_0_r. }
  intros E. apply res_bind_inv in E as (b' & Eb & E), E as (m' & Em & E).
  apply i64_checked_inv in Eb as [-> _], Em as [-> _]. apply IH in E as ->.
  fold (sum Session.bytesRead l) (sum Session.messagesRead l). f_equal; lia.
Qed.

Lemma up_insert l i x y : l !! i = Some x ->
  up (<[i := y]> l) = up l - one x.1 + one y.1.
Proof.
  revert i. induction l as [|a l IH]; intros [|i] Hi; [done .. | |].
  - injection Hi as ->. cbn. lia.
  - specialize (IH i Hi). change (<[S i := y]> (a :: l)) with (a :: <[i := y]> l).
    unfold up in *. cbn [foldr]. lia.
Qed.
Lemma up_bounds l : 0 <= up l <= zlen l.
Proof. induction l as [|[[] x] l IH]; unfold up in *; cbn [foldr length fst one]; lia. Qed.

Definition seen (l : list (phase * Session.t)) : Prop := exists x, x ∈ l /\ x.1 = Down.
Record inv (s : t) : Prop := mk_inv {
  i_count : numConnected_ s = up (sessions_ s);
  i_small : zlen (sessions_ s) <= int32_max;
  i_quits : quits s = length (reports s);
  i_report : up (sessions_ s) = 0 -> seen (sessions_ s) ->
    last (reports s) = Some (sum Session.bytesRead (sessions_ s), sum Session.messagesRead (sessions_ s))
}.

Lemma small_signed l : zlen l <= int32_max -> to_signed 32 (up l) = up l.
Proof. intros. pose proof (up_bounds l). unfold int32_max in *. apply to_signed_small; cbn; lia. Qed.

Lemma client_handle_inv e s s' : inv s -> possible e s -> handle e s = Ret s' -> inv s'.
Proof.
  intros [Hc Hs Hq Hr] Hp E. destruct e as [i|i x|i]; cbn [possible handle] in *;
    destruct (sessions_ s !! i) as [[ph y]|] eqn:Hi; try done; injection Hp as ->.
  - injection E as <-. pose proof (up_insert _ _ _ (Up, y) Hi) as Hup. cbn in Hup.
    assert (Hs' : zlen (<[i := (Up, y)]> (sessions_ s)) <= int32_max) by (by rewrite length_insert).
    pose proof (small_signed _ Hs') as Hw. pose proof (up_bounds (sessions_ s)).
    constructor; cbn [onConnect set_sessions numConnected_ sessions_ reports quits]; try done; [| lia].
    rewrite Hc. rewrite <- Hw. f_equal. lia.
  - injection E as <-. pose proof (up_insert _ _ _ (Up, x) Hi) as Hup. cbn in Hup.
    constructor; cbn [set_sessions numConnected_ sessions_ reports quits]; rewrite ?length_insert; try done; [lia |].
    intros H0. pose proof (up_insert _ _ _ (Connecting, y) Hi) as Hz. cbn in Hz.
    pose proof (up_bounds (<[i := (Connecting, y)]> (sessions_ s))). lia.
  - set (l := <[i := (Down, y)]> (sessions_ s)) in *. pose proof (up_insert _ _ _ (Down, y) Hi) as Hup. cbn in Hup. fold l in Hup.
    assert (Hl : zlen l <= int32_max) by (unfold l; by rewrite length_insert).
    pose proof (small_signed _ Hl) as Hw. unfold onDisconnect in E. cbn [set_sessions numConnected_ sessions_ sessionCount_ reports quits] in E.
    replace (to_signed 32 (numConnected_ s - 1)) with (up l) in E by (rewrite <- Hw; f_equal; lia).
    destruct (Z.eqb_spec (up l) 0) as [Hz|Hz].
    + apply res_bind_inv in E as (r & Er & E). apply totals_spec in Er as ->. injection E as <-.
      constructor; cbn [numConnected_ sessions_ reports quits]; try done.
      * rewrite length_app, Hq. cbn. lia.
      * intros _ _. by rewrite last_snoc.
    + injection E as <-. constructor; cbn [numConnected_ sessions_ reports quits]; done.
Qed.

(** A counter that starts above 0 stays [n0] ahead of the sessions that are up, and
    nobody calls [quit]. *)
Record ahead (n0 : Z) (s : t) : Prop := mk_ahead {
  h_start : 0 < n0 /\ n0 + zlen (sessions_ s) <= int32_max;
  h_count : numConnected_ s = n0 + up (sessions_ s);
  h_quits : quits s = 0%nat
}.
Lemma ahead_handle n0 e s s' : ahead n0 s -> possible e s -> handle e s = Ret s' -> ahead n0 s'.
Proof.
  intros [[Hn Hs] Hc Hq] Hp E. destruct e as [i|i x|i]; cbn [possible handle] in *;
    destruct (sessions_ s !! i) as [[ph y]|] eqn:Hi; try done; injection Hp as ->.
  - injection E as <-. pose proof (up_insert _ _ _ (Up, y) Hi) as Hup. cbn in Hup.
    pose proof (up_bounds (<[i := (Up, y)]> (sessions_ s))) as Hb. rewrite length_insert in Hb. unfold int32_max in *.
    constructor; cbn [onConnect set_sessions numConnected_ sessions_ quits]; rewrite ?length_insert; [done | | done].
    rewrite to_signed_small by (cbn; lia). lia.
  - injection E as <-. pose proof (up_insert _ _ _ (Up, x) Hi) as Hup. cbn in Hup.
    constructor; cbn [set_sessions numConnected_ sessions_ quits]; rewrite ?length_insert; [done | lia | done].
  - pose proof (up_insert _ _ _ (Down, y) Hi) as Hup. cbn in Hup.
    pose proof (up_bounds (<[i := (Down, y)]> (sessions_ s))) as Hb. rewrite length_insert in Hb. unfold int32_max in *.
    unfold onDisconnect in E. cbn [set_sessions numConnected_ sessions_ sessionCount_ reports quits] in E.
    rewrite to_signed_small, (proj2 (Z.eqb_neq _ _)) in E by (cbn; lia). injection E as <-.
    constructor; cbn [numConnected_ sessions_ quits]; rewrite ?length_insert; [done | lia | done].
Qed.
Lemma ahead_make n0 k : 0 < n0 -> n0 + Z.of_nat k <= int32_max -> ahead n0 (make n0 k).
Proof.
  intros Hn Hk. assert (H0 : up (replicate k (Connecting, Session.make)) = 0) by (clear; induction k as [|k IH]; [done | exact IH]).
  constructor; cbn [make numConnected_ sessions_ quits]; [by rewrite length_replicate | lia | done].
Qed.

Lemma client_run_inv es s s' : inv s -> allowed es s -> run es s = Ret s' -> inv s'.
Proof.
  revert s. induction es as [|e es IH]; intros s Hs Hall E; [by injection E as <- |].
  destruct Hall as [Hp Hall]. cbn [run] in E. apply res_bind_inv in E as (s1 & E1 & E).
  eapply IH; [| by apply Hall | exact E]. by eapply client_handle_inv.
Qed.

Lemma pingpong_make_inv k : Z.of_nat k <= int32_max -> inv (make 0 k).
Proof.
  intros Hk. assert (H0 : up (replicate k (Connecting, Session.make)) = 0) by (clear; induction k as [|k IH]; [done | exact IH]).
  constructor; cbn [make numConnected_ sessions_ reports quits]; [done | by rewrite length_replicate | done |].
  intros _ (x & Hx & Hd). apply elem_of_replicate in Hx as [-> _]. done.
Qed.
End ClientSpec.

(** ** The properties *)

Module PingPongClientProps.
Import TcpConnection Dialogue PingPongSpec.

Definition pingpong_start blockSize now := start (H := pp_client blockSize) (H0 := pp_server now) Session.make tt.
Definition pingpong_step blockSize now := step (H := pp_client blockSize) (H0 := pp_server now) (fun _ => True).
Definition pingpong_move blockSize now := move (H := pp_client blockSize) (H0 := pp_server now).

(** C14: one block goes round for ever. While a session of the ping-pong client is up,
    the bytes between it and the server are the client's block, turned by as many
    bytes as it has read: nothing is lost, doubled or overtaken, however the network
    cuts the streams. Both counters are right, some delivery is always possible, and a
    delivery fails only when a counter would leave its 64 bits. *)
Theorem pingpong_rotates blockSize now s0 s
    (Hblock : 0 < blockSize <= 2147483647) (Hstart : pingpong_start blockSize now = Ret s0)
    (Hsteps : rtc (pingpong_step blockSize now) s0 s) (Hup : state (client s) = Connected) :
  let k := Z.to_nat (Session.bytesRead (context (client s)) mod blockSize) in
  to_client s ++ to_server s = drop k (Session.message blockSize) ++ take k (Session.message blockSize) /\
  Session.bytesWritten_ (context (client s)) = Session.bytesRead (context (client s)) /\
  (exists l, enabled l s /\ l <> Disconnect) /\
  forall l, enabled l s -> fits (context (client s)) blockSize -> exists s', pingpong_move blockSize now l s = Ret s'.
Proof.
  unfold pingpong_start in Hstart. rewrite (start_eq blockSize now) in Hstart. injection Hstart as <-.
  assert (Hs : inv blockSize s).
  { clear Hup. revert Hsteps. apply rtc_ind_r; [by apply session_started_inv |].
    intros s1 s2 _ H12 H1. by apply (dialogue_inv_step blockSize now Hblock s1). }
  pose proof Hs as [Vc Vs Ve Vn Vu Vo]. destruct (Vu Hup) as (Hsv & Hci & Hr & Hw & i & Hi & Hm & Ht). intros k.
  assert (Hk : k = i) by (unfold k, Session.bytesRead; lia). rewrite Hk. split_and!; [done | done | |].
  - destruct (to_client s) as [|x l] eqn:Etc.
    + exists (ToServer 1). split; [| done]. split; [| by rewrite Hsv].
      apply (f_equal length) in Ht. unfold turned in Ht. rewrite !length_app, length_drop, length_take in Ht. cbn in Ht. lia.
    + exists (ToClient 1). split; [| done]. split; [rewrite Etc; cbn; lia | by rewrite Hup].
  - intros l Hl Hf. destruct l as [n|n| | |].
    + by apply (client_step blockSize now Hblock s n Hs Hl).
    + destruct (server_step blockSize now Hblock s n Hs Hl) as (s' & E & _). by exists s'.
    + by eexists.
    + by eexists.
    + by eexists.
Qed.

(** After [stop()] the connection does not take the bytes out of the buffer any more,
    and the session counts them again with what comes next: two bytes that arrive one
    by one are counted as three. *)
Theorem pingpong_counts_twice now :
  exists s0 s, pingpong_start 2 now = Ret s0 /\ rtc (pingpong_step 2 now) s0 s /\
    to_client s = [] /\ to_server s = [] /\ Buffer.content (input (client s)) = Session.message 2 /\
    Session.bytesRead (context (client s)) = 3.
Proof.
  set (ls := [Disconnect; ToServer 2; ToClient 1; ToClient 1]).
  destruct (play (H := pp_client 2) (H0 := pp_server now) ls (started 2)) as [s|] eqn:E; [| by vm_compute in E].
  exists (started 2), s. split; [apply (start_eq 2 now) |]. split.
  - apply (play_steps (H := pp_client 2) (H0 := pp_server now) (fun _ => True)) in E; [| repeat constructor].
    apply rtc_nsteps. by exists 4%nat.
  - vm_compute in E. injection E as <-. by vm_compute.
Qed.

(** The client is told to quit when its sessions are gone. Whatever the order in
    which the sessions of the ping-pong client come up, count messages and go down,
    [numConnected_] is the number of those that are up; each report queues one
    [quit()], and as soon as one has gone and none is up the last report has the sums
    of what all sessions have read. *)
Theorem pingpong_client_reports k es s (Hk : Z.of_nat k <= int32_max)
    (Hallowed : Client.allowed es (Client.make 0 k)) (Hrun : Client.run es (Client.make 0 k) = Ret s) :
  Client.numConnected_ s = ClientSpec.up (Client.sessions_ s) /\ Client.quits s = length (Client.reports s) /\
  (ClientSpec.up (Client.sessions_ s) = 0 -> ClientSpec.seen (Client.sessions_ s) ->
    (0 < Client.quits s)%nat /\
    last (Client.reports s) = Some (ClientSpec.sum Session.bytesRead (Client.sessions_ s),
                                    ClientSpec.sum Session.messagesRead (Client.sessions_ s))).
Proof.
  destruct (ClientSpec.client_run_inv es _ s (ClientSpec.pingpong_make_inv k Hk) Hallowed Hrun) as [Hc _ Hq Hr].
  split_and!; [done | done |]. intros H0 Hseen. specialize (Hr H0 Hseen). split; [| done].
  rewrite Hq. destruct (Client.reports s); [done | cbn; lia].
Qed.

(** The constructor does not set [numConnected_]: with anything but 0 there a client
    whose only session comes and goes is never told to quit. *)
Theorem pingpong_client_never_quits n0 (Hn : 0 < n0 < int32_max) :
  exists s, Client.run [Client.Connected 0; Client.Disconnected 0] (Client.make n0 1) = Ret s /\ Client.quits s = 0%nat.
Proof.
  unfold int32_max in Hn. cbn [Client.run Client.handle Client.make Client.sessions_ replicate lookup list_lookup mbind res_bind mret res_ret].
  eexists. cbn. unfold Client.onDisconnect. cbn.
  rewrite (to_signed_small 32 (n0 + 1)) by (cbn; lia). rewrite (to_signed_small 32) by (cbn; lia).
  rewrite (proj2 (Z.eqb_neq _ _)) by lia. done.
Qed.

(** *** Witnesses *)

(** A block of three bytes; one has gone round when two of them are on the way back. *)
Definition turning : list label := [ToServer 2; ToClient 1; ToServer 1].
Definition turned_state : Dialogue.t Session.t unit :=
  default (started 3) (play (H := pp_client 3) (H0 := pp_server 7) turning (started 3)).

Lemma pingpong_rotates_witness :
  let k := Z.to_nat (Session.bytesRead (context (client turned_state)) mod 3) in
  to_client turned_state ++ to_server turned_state = drop k (Session.message 3) ++ take k (Session.message 3) /\
  Session.bytesWritten_ (context (client turned_state)) = Session.bytesRead (context (client turned_state)) /\
  (exists l, enabled l turned_state /\ l <> Disconnect) /\
  forall l, enabled l turned_state -> fits (context (client turned_state)) 3 ->
    exists s', pingpong_move 3 7 l turned_state = Ret s'.
Proof.
  apply (pingpong_rotates 3 7 (started 3) turned_state).
  - lia.
  - apply (start_eq 3 7).
  - apply rtc_nsteps. exists 3%nat. apply (play_steps (H := pp_client 3) (H0 := pp_server 7) (fun _ => True) turning).
    + repeat constructor.
    + by vm_compute.
  - by vm_compute.
Defined.

(** Two sessions: the second comes up before the first goes. *)
Definition two_sessions : list Client.event :=
  [Client.Connected 0; Client.Message 0 (Session.mk 30 30 3); Client.Connected 1; Client.Disconnected 0;
   Client.Message 1 (Session.mk 12 12 1); Client.Disconnected 1].
Definition both_gone : Client.t :=
  match Client.run two_sessions (Client.make 0 2) with Ret s => s | Stop _ => Client.make 0 2 end.

Lemma pingpong_client_reports_witness :
  Client.numConnected_ both_gone = 0 /\ Client.quits both_gone = length [(42, 4)] /\
  (ClientSpec.up (Client.sessions_ both_gone) = 0 -> ClientSpec.seen (Client.sessions_ both_gone) ->
    (0 < Client.quits both_gone)%nat /\ last [(42, 4)] = Some (42, 4)).
Proof.
  apply (pingpong_client_reports 2 two_sessions both_gone).
  - done.
  - cbn [Client.allowed two_sessions].
    repeat (split; [reflexivity | let s := fresh "s" in let E := fresh "E" in intros s E; vm_compute in E; injection E as <-]).
    done.
  - by vm_compute.
Defined.
End PingPongClientProps.
