(* ===== verification/PingPongRuns.v ===== *)
(** The ping-pong client from its constructor to its end (suduo/bench/pingpong/client.cpp):
    its sessions on the loops of its threads, the timer that stops them, and the calls of
    [quit] that end the program's loop.

    What a session does on its connection is in PingPongClients.v; here it is an event,
    and the events of all loops come in any order. *)

From S2P Require Import Prelude.
From S2P Require Import Loops.
From S2P Require Import PingPongClients.

Module ClientRun.
Import Client.

Record t := mk {
  owner : Client.t;
  loop_ : Z;
  session_names : list (list byte);
  session_loops : list Z;        (** of each session *)
  timed_out : bool;
  stopping : list nat;           (** the sessions whose connection [handleTimeout] shut down *)
  quit_calls : list Z;           (** the loops in which a [Client::quit] is queued *)
  loop_quits : nat;              (** the [EventLoop::quit]s queued in [loop_] *)
  quit_ : bool                   (** of [loop_] *)
}.

(** The constructor; [n0] is what [numConnected_] happens to be. *)
Definition construct {B : Build} (loop : Z) (start_loop : Z -> Z) (n0 : Z) (sessionCount : nat) (threadCount : Z) : res t :=
  let pool := EventLoopThreadPool.make loop in
  let pool := if 1 <? threadCount then EventLoopThreadPool.set_thread_num pool threadCount else pool in
  pool ← EventLoopThreadPool.start start_loop pool;
  '(loops, _) ← EventLoopThreadPool.next_loops sessionCount pool;
  mret (mk (Client.make n0 sessionCount) loop (map (fun i => session_name (Z.of_nat i)) (seq 0 sessionCount)) loops
          false [] [] 0 false).

(** [session->stop()]: [TcpClient::disconnect] shuts down the connection there is; a
    session that is still connecting has none. *)
Definition stop (i : nat) (s : t) : t :=
  match fst <$> sessions_ (owner s) !! i with
  | Some Up => mk (owner s) (loop_ s) (session_names s) (session_loops s) (timed_out s) (stopping s ++ [i])
                 (quit_calls s) (loop_quits s) (quit_ s)
  | _ => s
  end.
Definition handleTimeout (s : t) : t :=
  let s := mk (owner s) (loop_ s) (session_names s) (session_loops s) true (stopping s) (quit_calls s) (loop_quits s) (quit_ s) in
  fold_left (fun s i => stop i s) (seq 0 (length (sessions_ (owner s)))) s.

(** What happens to session [i] in its loop; a [Client::quit] that its disconnection
    queues is queued there. *)
Definition session_event (e : event) (s : t) : res t :=
  o ← handle e (owner s);
  let calls := match e with
               | Disconnected i => replicate (quits o - quits (owner s)) (default (loop_ s) (session_loops s !! i))
               | _ => []
               end in
  mret (mk o (loop_ s) (session_names s) (session_loops s) (timed_out s) (stopping s) (quit_calls s ++ calls)
          (loop_quits s) (quit_ s)).

(** A loop runs [Client::quit], the first one queued there. *)
Definition quit (l : Z) (s : t) : t :=
  match list_find (fun l' => l' = l) (quit_calls s) with
  | Some (k, _) => mk (owner s) (loop_ s) (session_names s) (session_loops s) (timed_out s) (stopping s)
                     (delete k (quit_calls s)) (S (loop_quits s)) (quit_ s)
  | None => s
  end.
(** [loop_] runs [EventLoop::quit]. *)
Definition loop_quit (s : t) : t :=
  match loop_quits s with
  | O => s
  | S n => mk (owner s) (loop_ s) (session_names s) (session_loops s) (timed_out s) (stopping s) (quit_calls s) n true
  end.

Inductive move := Session (e : event) | Timeout | Quit (l : Z) | LoopQuit.
Definition step (m : move) (s : t) : res t :=
  match m with
  | Session e => session_event e s
  | Timeout => mret (handleTimeout s)
  | Quit l => mret (quit l s)
  | LoopQuit => mret (loop_quit s)
  end.
Fixpoint run (ms : list move) (s : t) : res t :=
  match ms with
  | [] => mret s
  | m :: ms => s ← step m s; run ms s
  end.

(** The timer fires once; a connection comes up once and goes down once. *)
Definition possible (m : move) (s : t) : Prop :=
  match m with
  | Session e => Client.possible e (owner s)
  | Timeout => timed_out s = false
  | Quit _ | LoopQuit => True
  end.
Fixpoint allowed (ms : list move) (s : t) : Prop :=
  match ms with
  | [] => True
  | m :: ms => possible m s /\ forall s', step m s = Ret s' -> allowed ms s'
  end.
End ClientRun.

Module ClientRunSpec.
Import Client ClientSpec ClientRun.

Definition phases (s : t) : list phase := map fst (sessions_ (owner s)).
(** What is on its way to [loop_]. *)
Definition on_the_way (s : t) : nat := (length (quit_calls s) + loop_quits s)%nat.

Record inv (s : t) : Prop := mk_inv {
  r_owner : ClientSpec.inv (owner s);
  r_quits : quit_ s = false -> on_the_way s = quits (owner s)
}.

(** With a counter that started above 0 there is nothing to quit on. *)
Record endless (n0 : Z) (s : t) : Prop := mk_endless {
  e_owner : ClientSpec.ahead n0 (owner s);
  e_nothing : quit_calls s = [] /\ loop_quits s = 0%nat /\ quit_ s = false
}.

(** After a time-out that found no session connecting. *)
Record stopped (s : t) : Prop := mk_stopped {
  st_timed_out : timed_out s = true;
  st_phases : Connecting ∉ phases s;
  st_up i : phases s !! i = Some Up -> i ∈ stopping s
}.

Lemma phases_lookup s i : phases s !! i = fst <$> sessions_ (owner s) !! i.
Proof. apply list_lookup_fmap. Qed.

Lemma fold_stop l s :
  let s' := fold_left (fun s i => stop i s) l s in
  owner s' = owner s /\ timed_out s' = timed_out s /\ quit_calls s' = quit_calls s /\ loop_quits s' = loop_quits s /\
  quit_ s' = quit_ s /\ session_loops s' = session_loops s /\
  forall i, i ∈ stopping s' <-> i ∈ stopping s \/ i ∈ l /\ phases s !! i = Some Up.
Proof.
  revert s. induction l as [|j l IH]; intros s; [split_and!; try done; set_solver |]. cbn [fold_left].
  specialize (IH (stop j s)) as (E1 & E2 & E3 & E4 & E5 & E6 & Hi). cbv zeta.
  rewrite E1, E2, E3, E4, E5, E6. setoid_rewrite Hi. setoid_rewrite phases_lookup. unfold stop.
  destruct (fst <$> sessions_ (owner s) !! j) as [[]|] eqn:Hj; cbn [owner timed_out quit_calls loop_quits quit_ session_loops stopping];
    split_and!; try done; intros i; rewrite ?elem_of_app, ?list_elem_of_singleton, elem_of_cons; naive_solver congruence.
Qed.

Lemma timeout_spec s : Connecting ∉ phases s -> stopped (handleTimeout s).
Proof.
  intros Hp. unfold handleTimeout.
  match goal with |- stopped (fold_left _ ?l ?s0) => destruct (fold_stop l s0) as (E1 & E2 & _ & _ & _ & _ & Hi) end.
  constructor; [done | |]; unfold phases in *; rewrite E1; [done |].
  intros i Hup. apply Hi. right. split; [| done]. apply elem_of_seq. apply lookup_lt_Some in Hup.
  rewrite length_map in Hup. cbn [owner] in *. lia.
Qed.

Lemma handle_phases e o o' :
  Client.possible e o -> handle e o = Ret o' ->
  exists i ph, map fst (sessions_ o') = <[i := ph]> (map fst (sessions_ o)) /\ ph <> Connecting /\
    (map fst (sessions_ o) !! i = Some Connecting \/ map fst (sessions_ o) !! i = Some Up) /\
    (quits o <= quits o')%nat /\ (match e with Disconnected _ => True | _ => quits o' = quits o end).
Proof.
  assert (forall i, map fst (sessions_ o) !! i = fst <$> sessions_ o !! i) as Hlook by (intros; apply list_lookup_fmap).
  intros Hp E. destruct e as [i|i x|i]; cbn [Client.possible handle] in *.
  - exists i, Up. rewrite Hlook. destruct (sessions_ o !! i) as [[ph y]|]; [| done]. injection E as <-.
    cbn [onConnect set_sessions sessions_ quits]. rewrite list_fmap_insert. by split_and!; [| | left | |].
  - exists i, Up. rewrite Hlook. injection E as <-.
    cbn [set_sessions sessions_ quits]. rewrite list_fmap_insert. by split_and!; [| | right | |].
  - exists i, Down. rewrite Hlook. destruct (sessions_ o !! i) as [[ph y]|]; [| done].
    unfold onDisconnect in E. cbn [set_sessions sessions_ numConnected_] in E.
    assert (sessions_ o' = <[i := (Down, y)]> (sessions_ o) /\ (quits o <= quits o')%nat) as [-> Hq].
    { destruct (_ =? 0); [| by injection E as <-]. apply res_bind_inv in E as (r & _ & E). injection E as <-. cbn. split; [done | lia]. }
    rewrite list_fmap_insert. by split_and!; [| | right | |].
Qed.

Lemma client_step_inv m s s' : inv s -> possible m s -> step m s = Ret s' -> inv s'.
Proof.
  intros [Ho Hq] Hp E. destruct m as [e| |l|]; cbn [possible step] in *.
  - unfold session_event in E. apply res_bind_inv in E as (o & Eo & E). injection E as <-.
    destruct (handle_phases e _ o Hp Eo) as (i & ph & _ & _ & _ & Hle & He).
    constructor; cbn [owner quit_]; [by eapply client_handle_inv |]. intros Hnq. specialize (Hq Hnq).
    unfold on_the_way in *. cbn [quit_calls loop_quits]. rewrite length_app. destruct e; cbn [length]; rewrite ?length_replicate; lia.
  - injection E as <-. unfold handleTimeout.
    match goal with |- inv (fold_left _ ?l ?s0) => destruct (fold_stop l s0) as (E1 & _ & E3 & E4 & E5 & _) end.
    constructor; [by rewrite E1 |]. unfold on_the_way. by rewrite E1, E3, E4, E5.
  - injection E as <-. unfold quit. destruct (list_find _ _) as [[k x]|] eqn:Hf; [| by constructor].
    constructor; [done |]. intros Hnq. specialize (Hq Hnq). apply list_find_Some in Hf as (Hk & _).
    apply lookup_lt_Some in Hk. unfold on_the_way in *. cbn [quit_calls loop_quits owner]. rewrite length_delete by (by apply lookup_lt_is_Some). lia.
  - injection E as <-. unfold loop_quit. destruct (loop_quits s); [by constructor |]. by constructor.
Qed.

Lemma endless_step n0 m s s' : endless n0 s -> possible m s -> step m s = Ret s' -> endless n0 s'.
Proof.
  intros [Ho (Hq & Hl & Hf)] Hp E. destruct m as [e| |l|]; cbn [possible step] in *.
  - unfold session_event in E. apply res_bind_inv in E as (o & Eo & E). injection E as <-.
    pose proof (ahead_handle _ _ _ _ Ho Hp Eo) as Ho'. constructor; [done |]. cbn [quit_calls loop_quits quit_].
    rewrite (h_quits _ _ Ho), (h_quits _ _ Ho'), Hq. by destruct e.
  - injection E as <-. unfold handleTimeout.
    match goal with |- endless _ (fold_left _ ?l ?s0) => destruct (fold_stop l s0) as (E1 & _ & E3 & E4 & E5 & _) end.
    constructor; [by rewrite E1 | by rewrite E3, E4, E5].
  - injection E as <-. unfold quit. by rewrite Hq.
  - injection E as <-. unfold loop_quit. by rewrite Hl.
Qed.

Lemma stopped_step m s s' : stopped s -> possible m s -> step m s = Ret s' -> stopped s'.
Proof.
  intros [Ht Hc Hu] Hp E. destruct m as [e| |l|]; cbn [possible step] in *.
  - unfold session_event in E. apply res_bind_inv in E as (o & Eo & E). injection E as <-.
    destruct (handle_phases e _ o Hp Eo) as (i & ph & Ephases & Hph & Hprev & _).
    assert (phases s !! i = Some Up) as Hi.
    { destruct Hprev as [Hprev|]; [| done]. destruct Hc. by apply list_elem_of_lookup_2 in Hprev. }
    assert (i < length (phases s))%nat as Hlt by by apply lookup_lt_Some in Hi.
    constructor; cbn [timed_out stopping]; [done | |]; unfold phases; cbn [owner]; rewrite Ephases.
    + intros Hin. apply list_elem_of_lookup in Hin as (j & Hj). destruct (decide (i = j)) as [->|].
      * rewrite list_lookup_insert_eq in Hj by done. by injection Hj as ->.
      * rewrite list_lookup_insert_ne in Hj by done. destruct Hc. by apply list_elem_of_lookup_2 in Hj.
    + intros j Hj. destruct (decide (i = j)) as [->|]; [by apply Hu |].
      rewrite list_lookup_insert_ne in Hj by done. by apply Hu.
  - congruence.
  - injection E as <-. unfold quit. by destruct (list_find _ _) as [[k x]|].
  - injection E as <-. unfold loop_quit. by destruct (loop_quits s).
Qed.

Lemma run_preserves (P : t -> Prop) ms s s' :
  (forall m s s', P s -> possible m s -> step m s = Ret s' -> P s') ->
  P s -> allowed ms s -> run ms s = Ret s' -> P s'.
Proof.
  intros Hstep. revert s. induction ms as [|m ms IH]; intros s Hi Ha E; [by injection E as <- |].
  destruct Ha as [Hp Ha]. cbn [run] in E. apply res_bind_inv in E as (s1 & E1 & E).
  apply (IH s1); [by apply (Hstep m s) | by apply Ha | done].
Qed.

Lemma step_length k m s s' :
  length (phases s) = k -> possible m s -> step m s = Ret s' -> length (phases s') = k.
Proof.
  intros Hk Hp E. destruct m as [e| |l|]; cbn [possible step] in *.
  - unfold session_event in E. apply res_bind_inv in E as (o & Eo & E). injection E as <-.
    destruct (handle_phases e _ o Hp Eo) as (i & ph & Ephases & _). unfold phases in *. cbn [owner].
    by rewrite Ephases, length_insert.
  - injection E as <-. unfold handleTimeout, phases in *.
    match goal with |- context [fold_left _ ?l ?s0] => destruct (fold_stop l s0) as (E1 & _) end. by rewrite E1.
  - injection E as <-. unfold quit. by destruct (list_find _ _) as [[]|].
  - injection E as <-. unfold loop_quit. by destruct (loop_quits s).
Qed.

Lemma allowed_app ms1 ms2 s s1 : allowed (ms1 ++ ms2) s -> run ms1 s = Ret s1 -> allowed ms1 s /\ allowed ms2 s1.
Proof.
  revert s. induction ms1 as [|m ms1 IH]; intros s Ha E; [by injection E as <- |].
  destruct Ha as [Hp Ha]. cbn [run] in E. apply res_bind_inv in E as (s2 & E2 & E).
  destruct (IH s2 (Ha s2 E2) E) as [H1 H2]. split; [| done]. split; [done |].
  intros s' E'. assert (s2 = s') as <- by congruence. done.
Qed.

(** With nobody up and somebody gone, at most two moves of the loops are left. *)
Lemma quits_soon s :
  inv s -> ClientSpec.up (sessions_ (owner s)) = 0 -> seen (sessions_ (owner s)) ->
  exists ms s', (length ms <= 2)%nat /\ Forall (fun m => m = LoopQuit \/ exists l, m = Quit l) ms /\
    run ms s = Ret s' /\ quit_ s' = true.
Proof.
  intros [[_ _ Hq Hr] Hway] H0 Hseen. destruct (quit_ s) eqn:Hquit; [by exists [], s; split_and!; [cbn; lia | | |] |].
  specialize (Hr H0 Hseen). assert (0 < on_the_way s)%nat as Hpos.
  { rewrite Hway, Hq by done. destruct (reports (owner s)); [done | cbn; lia]. }
  assert (forall s1, (0 < loop_quits s1)%nat -> quit_ (loop_quit s1) = true) as Hlq
    by (intros s1 H1; unfold loop_quit; destruct (loop_quits s1); [lia | done]).
  unfold on_the_way in Hpos. destruct (quit_calls s) as [|l calls] eqn:Hcalls.
  - exists [LoopQuit], (loop_quit s). split_and!; [cbn; lia | by apply Forall_singleton; left | done | apply Hlq; cbn in Hpos; lia].
  - exists [Quit l; LoopQuit], (loop_quit (quit l s)).
    split_and!; [cbn; lia | | done | apply Hlq].
    { rewrite !Forall_cons. by split_and!; [right; exists l | left |]. }
    unfold quit. rewrite Hcalls. cbn [list_find]. rewrite decide_True by done. cbn. lia.
Qed.

Lemma all_down s : 
  phases s <> [] -> (Connecting ∉ phases s) -> (Up ∉ phases s) ->
  ClientSpec.up (sessions_ (owner s)) = 0 /\ seen (sessions_ (owner s)).
Proof.
  unfold phases. intros Hne Hc Hu. assert (forall x, x ∈ sessions_ (owner s) -> x.1 = Down) as Hall.
  { intros [[] y] Hx; [destruct Hc | destruct Hu | done]; by apply (list_elem_of_fmap_2 fst) in Hx. }
  split.
  - clear -Hall. unfold ClientSpec.up. induction (sessions_ (owner s)) as [|[ph y] l IH]; [done |]. cbn [foldr fst].
    assert (ph = Down) as -> by exact (Hall (ph, y) ltac:(left)). apply IH. intros x Hx. apply Hall. by right.
  - destruct (sessions_ (owner s)) as [|x l]; [done |]. exists x. split; [left | apply Hall; left].
Qed.

(** The names are different. *)
Lemma session_name_value i : 0 <= i -> digits_value (drop 1 (session_name i)) = i.
Proof.
  intros Hi. assert (forall n l, digits_value (replicate n x30 ++ l) = digits_value l) as Hz.
  { intros n l. induction n as [|n IH]; [done |]. exact IH. }
  change (drop 1 (session_name i)) with (replicate (5 - length (decimal i)) x30 ++ decimal i). rewrite Hz. unfold decimal. rewrite (proj2 (Z.ltb_ge _ _)) by done.
  apply digits_correct. split; [done | by apply log2_fuel].
Qed.

Lemma client_construct_ok {B : Build} loop start_loop n0 k threadCount : threadCount <= int32_max ->
  construct loop start_loop n0 k threadCount
  = Ret (mk (make n0 k) loop (map (fun i => session_name (Z.of_nat i)) (seq 0 k))
           (map (fun i => if threadCount <=? 1 then loop else start_loop (Z.of_nat i mod threadCount)) (seq 0 k))
           false [] [] 0 false).
Proof.
  intros Hthreads. unfold construct. set (n := if 1 <? threadCount then threadCount else 0).
  replace (if 1 <? threadCount then EventLoopThreadPool.set_thread_num (EventLoopThreadPool.make loop) threadCount
           else EventLoopThreadPool.make loop)
    with (EventLoopThreadPool.set_thread_num (EventLoopThreadPool.make loop) n) by (unfold n; by destruct (1 <? threadCount)).
  destruct (LoopsProps.pool_round_robin loop start_loop n k) as (p1 & p2 & E1 & E2).
  { unfold n, int32_max in *. destruct (1 <? threadCount); lia. }
  rewrite E1. cbn [mbind res_bind]. rewrite E2. cbn [mbind res_bind mret res_ret]. do 2 f_equal.
  apply map_ext. intros i. unfold n.
  destruct (Z.ltb_spec 1 threadCount), (Z.leb_spec threadCount 1); try lia; [by rewrite (proj2 (Z.leb_gt _ _)) by lia | done].
Qed.

Lemma names_different k : NoDup (map (fun i => session_name (Z.of_nat i)) (seq 0 k)).
Proof.
  apply NoDup_fmap_2; [| apply NoDup_seq]. intros i j E.
  apply (f_equal (fun l => digits_value (drop 1 l))) in E. rewrite !session_name_value in E by lia. lia.
Qed.
End ClientRunSpec.

(** ** The properties *)

Module PingPongRunProps.
Import Client ClientSpec ClientRun ClientRunSpec.

(** C15: whether the ping-pong client ends hangs on [n0], what its counter of
    connections, which nothing initialises, happens to be. The constructor spreads
    sessions of different names over the loops of its threads in turn. With [n0] = 0,
    when the time-out finds no session connecting, then whatever the loops do in whatever
    order, every session that is still up has been told to stop, and once none is up, the
    loop that [main] runs is to quit, at most two more moves of the loops away. With
    [n0] above 0, whatever happens the loop is never told to quit. *)
Theorem pingpong_run_ends {B : Build} loop start_loop n0 k threadCount
    (Hk : (0 < k)%nat /\ Z.of_nat k <= int32_max) (Hthreads : threadCount <= int32_max) :
  exists s0, construct loop start_loop n0 k threadCount = Ret s0 /\ NoDup (session_names s0) /\
    session_loops s0
    = map (fun i => if threadCount <=? 1 then loop else start_loop (Z.of_nat i mod threadCount)) (seq 0 k) /\
    (n0 = 0 -> forall ms1 s1 ms2 s, allowed (ms1 ++ Timeout :: ms2) s0 -> run ms1 s0 = Ret s1 -> (Connecting ∉ phases s1) ->
      run ms2 (handleTimeout s1) = Ret s ->
      (forall i, phases s !! i = Some Up -> i ∈ stopping s) /\
      ((Up ∉ phases s) -> exists ms3 s3, (length ms3 <= 2)%nat /\
         Forall (fun m => m = LoopQuit \/ exists l, m = Quit l) ms3 /\ run ms3 s = Ret s3 /\ quit_ s3 = true)) /\
    (0 < n0 -> n0 + Z.of_nat k <= int32_max ->
     forall ms s, allowed ms s0 -> run ms s0 = Ret s -> quit_ s = false).
Proof.
  destruct Hk as [Hk Hmax]. rewrite client_construct_ok by done. eexists. split; [reflexivity |].
  split; [apply names_different |]. split; [done |].
  set (s0 := mk _ _ _ _ _ _ _ _ _). split.
  2:{ intros Hn Hnk ms s Ha Er. apply (run_preserves (endless n0) ms s0 s (endless_step n0)) in Er; [apply Er | | done].
      constructor; [by apply ahead_make | done]. }
  intros ->. assert (ClientRunSpec.inv s0) as Hi0 by (constructor; [by apply pingpong_make_inv | done]).
  intros ms1 s1 ms2 s Hall Hrun Hcon Hrun2. destruct (allowed_app _ _ _ _ Hall Hrun) as [H1 [Hp H2]].
  pose proof (run_preserves _ _ _ _ client_step_inv Hi0 H1 Hrun) as Hi1.
  destruct (run_preserves _ _ _ _ stopped_step (timeout_spec s1 Hcon) (H2 _ eq_refl) Hrun2) as [_ Hc Hu].
  pose proof (run_preserves _ _ _ _ client_step_inv (client_step_inv Timeout _ _ Hi1 Hp eq_refl) (H2 _ eq_refl) Hrun2) as Hi.
  split; [done |]. intros Hup. destruct (all_down s) as [H0 Hseen]; [| done | done | by apply quits_soon].
  intros Hnil. assert (length (phases s) = k) as Hlen; [| rewrite Hnil in Hlen; cbn in Hlen; lia].
  apply (run_preserves _ ms2 (handleTimeout s1) s (step_length k)); [| by apply H2 | done].
  apply (step_length k Timeout s1); [| done | done]. apply (run_preserves _ ms1 s0 s1 (step_length k)); [| done | done].
  unfold phases. cbn [s0 owner make sessions_]. by rewrite length_map, length_replicate.
Qed.

(** A session that is still connecting when the time is up is told nothing: its
    connection may come up afterwards, and then the client never ends. *)
Theorem pingpong_late_session {B : Build} loop start_loop threadCount (Hthreads : threadCount <= int32_max) :
  exists s0 s, construct loop start_loop 0 1 threadCount = Ret s0 /\
    allowed [Timeout; Session (Connected 0)] s0 /\ run [Timeout; Session (Connected 0)] s0 = Ret s /\
    phases s = [Up] /\ stopping s = [] /\ on_the_way s = 0%nat /\ quit_ s = false.
Proof.
  rewrite client_construct_ok by done. eexists _, _. split; [reflexivity |].
  split; [| split; [reflexivity | done]].
  split; [done |]. intros s' [= <-]. split; [done |]. by intros.
Qed.

(** *** Witnesses: two sessions on two threads; the time-out comes while both are up. *)
#[local] Instance debug_build : Build := {| ndebug := false |}.
Definition both_up : list move := [Session (Connected 0); Session (Connected 1)].
Definition both_go : list move := [Session (Disconnected 1); Session (Message 0 (Session.mk 5 5 1)); Session (Disconnected 0)].
Definition two_sessions : t :=
  match construct 100 (fun i => 200 + i) 0 2 2 with Ret s => s | Stop _ => mk (make 0 0) 0 [] [] false [] [] 0 false end.
Definition after (ms : list move) (s : t) : t := match run ms s with Ret s' => s' | Stop _ => s end.

Lemma pingpong_run_ends_witness :
  session_loops two_sessions = [200; 201] /\ session_names two_sessions = [bytes "C00000"; bytes "C00001"] /\
  let s := after both_go (handleTimeout (after both_up two_sessions)) in
  quit_calls s = [200] /\
  exists ms3 s3, (length ms3 <= 2)%nat /\ Forall (fun m => m = LoopQuit \/ exists l, m = Quit l) ms3 /\
    run ms3 s = Ret s3 /\ quit_ s3 = true.
Proof.
  split; [by vm_compute |]. split; [by vm_compute |]. split; [by vm_compute |].
  destruct (pingpong_run_ends 100 (fun i => 200 + i) 0 2 2) as (s0 & E & _ & _ & Hend & _); [split; [lia | by vm_compute] | by vm_compute |].
  specialize (Hend eq_refl).
  assert (s0 = two_sessions) as -> by (unfold two_sessions; by rewrite E).
  destruct (Hend both_up (after both_up two_sessions) both_go (after both_go (handleTimeout (after both_up two_sessions))))
    as [_ Hquit].
  - unfold both_up, both_go. cbn [app allowed].
    repeat (split; [by vm_compute | let s := fresh "s" in let E := fresh "E" in intros s E; vm_compute in E; injection E as <-]).
    done.
  - by vm_compute.
  - vm_compute. intros Hin%(bool_decide_eq_true_2 (Connecting ∈ [Up; Up])). by vm_compute in Hin.
  - by vm_compute.
  - apply Hquit. vm_compute. intros Hin%(bool_decide_eq_true_2 (Up ∈ [Down; Down])). by vm_compute in Hin.
Defined.

Lemma pingpong_late_session_witness :
  exists s0 s, construct 100 (fun i => 200 + i) 0 1 4 = Ret s0 /\
    allowed [Timeout; Session (Connected 0)] s0 /\ run [Timeout; Session (Connected 0)] s0 = Ret s /\
    phases s = [Up] /\ stopping s = [] /\ on_the_way s = 0%nat /\ quit_ s = false.
Proof. apply (pingpong_late_session 100 (fun i => 200 + i) 4). by vm_compute. Defined.
End PingPongRunProps.
