(* ===== verification/Connectors.v ===== *)
(** Active connections (suduo/net/Connector.h/.cpp): the retrying connector of a
    TcpClient, in its loop.

    System calls are the parameters of [Class Sockets]; the open descriptors are
    part of the state, so that a descriptor closed twice (close(2) fails,
    [sockets::close] aborts) or never closed shows. *)

From S2P Require Import Prelude.
From S2P Require Import Pollers.

(** <errno.h>: the values [connect] tells apart. *)
Definition EPERM : Z := 1.
Definition EINTR : Z := 4.
Definition EBADF : Z := 9.
Definition EAGAIN : Z := 11.
Definition EACCES : Z := 13.
Definition EFAULT : Z := 14.
Definition ENOTSOCK : Z := 88.
Definition EAFNOSUPPORT : Z := 97.
Definition EADDRINUSE : Z := 98.
Definition EADDRNOTAVAIL : Z := 99.
Definition ENETUNREACH : Z := 101.
Definition EISCONN : Z := 106.
Definition ECONNREFUSED : Z := 111.
Definition EALREADY : Z := 114.
Definition EINPROGRESS : Z := 115.

(** socket(2) given the open descriptors; connect(2), 0 or [errno], getsockopt's
    SO_ERROR, and whether the socket is connected to itself, each given the
    number of calls made so far. *)
Class Sockets := {
  k_socket : list Z -> option Z;
  k_connect : nat -> Z;
  k_so_error : nat -> option Z;
  k_self_connect : nat -> bool
}.
(** There are descriptors left, and a new one is not in use. *)
Class SocketsLaws `{Sockets} : Prop := {
  k_socket_fresh fds : exists fd, k_socket fds = Some fd /\ fd ∉ fds;
  k_so_error_ok i : is_Some (k_so_error i)
}.

Module Connector.

Inductive State := Disconnected | Connecting | Connected.
#[global] Instance State_eq_dec : EqDecision State.
Proof. solve_decision. Defined.

Definition MAX_RETRY_DELAY_MS : Z := 30 * 1000.
Definition INIT_RETRY_DELAY_MS : Z := 500.

Inductive functor := StartInLoop | StopInLoop | ResetChannel.
#[global] Instance functor_eq_dec : EqDecision functor.
Proof. solve_decision. Defined.

Record t := mk {
  _connect : bool;
  _state : State;
  _channel : option Channel.t;
  retry_delay_ms : Z;
  registered : option Z;          (** the descriptor the poller watches *)
  pending : list functor;         (** the loop's [_pending_functors] *)
  timers : list Z;                (** delays of the armed [start_in_loop] timers *)
  open_fds : list Z;
  handed : list Z;                (** descriptors given to [_new_connection_callback] *)
  calls : nat                     (** system calls made *)
}.

Definition make : t := mk false Disconnected None INIT_RETRY_DELAY_MS None [] [] [] [] 0.

Definition set_connect (s : t) (b : bool) : t :=
  mk b (_state s) (_channel s) (retry_delay_ms s) (registered s) (pending s) (timers s)
    (open_fds s) (handed s) (calls s).
Definition set_state (s : t) (st : State) : t :=
  mk (_connect s) st (_channel s) (retry_delay_ms s) (registered s) (pending s) (timers s)
    (open_fds s) (handed s) (calls s).
Definition set_delay (s : t) (d : Z) : t :=
  mk (_connect s) (_state s) (_channel s) d (registered s) (pending s) (timers s)
    (open_fds s) (handed s) (calls s).
Definition set_channel (s : t) (c : option Channel.t) (r : option Z) : t :=
  mk (_connect s) (_state s) c (retry_delay_ms s) r (pending s) (timers s)
    (open_fds s) (handed s) (calls s).
Definition set_pending (s : t) (l : list functor) : t :=
  mk (_connect s) (_state s) (_channel s) (retry_delay_ms s) (registered s) l (timers s)
    (open_fds s) (handed s) (calls s).
Definition set_timers (s : t) (l : list Z) : t :=
  mk (_connect s) (_state s) (_channel s) (retry_delay_ms s) (registered s) (pending s) l
    (open_fds s) (handed s) (calls s).
(** A system call, and the descriptors that are open after it. *)
Definition syscall (s : t) (fds : list Z) : t :=
  mk (_connect s) (_state s) (_channel s) (retry_delay_ms s) (registered s) (pending s) (timers s)
    fds (handed s) (S (calls s)).
Definition new_connection (s : t) (fd : Z) : t :=
  mk (_connect s) (_state s) (_channel s) (retry_delay_ms s) (registered s) (pending s) (timers s)
    (open_fds s) (fd :: handed s) (calls s).

Definition set_handed (s : t) (l : list Z) : t :=
  mk (_connect s) (_state s) (_channel s) (retry_delay_ms s) (registered s) (pending s) (timers s)
    (open_fds s) l (calls s).

Definition queue_in_loop (f : functor) (s : t) : t := set_pending s (pending s ++ [f]).

Section operations.
Context {B : Build} `{Sockets}.

(** [sockets::close] aborts the program when close(2) fails. *)
Definition close (fd : Z) (s : t) : res t :=
  if bool_decide (fd ∈ open_fds s)
  then mret (syscall s (filter (fun x => x <> fd) (open_fds s)))
  else Stop Aborted.

Definition retry (sockfd : Z) (s : t) : res t :=
  s ← close sockfd s;
  let s := set_state s Disconnected in
  if _connect s then
    let s := set_timers s (timers s ++ [retry_delay_ms s]) in
    mret (set_delay s (Z.min (retry_delay_ms s * 2) MAX_RETRY_DELAY_MS))
  else mret s.

(** A new channel, with its write and error callbacks, and [enable_writing()].
    Assigning to the [unique_ptr] destroys the channel it held. *)
Definition connecting (sockfd : Z) (s : t) : res t :=
  let s := set_state s Connecting in
  _ ← assert_ (bool_decide (_channel s = None));
  let c := Channel.mk sockfd (-1) 0 0 true None false false true false true in
  mret (set_channel s (Some (Channel.set_events c (Channel.events_enable_writing (Channel._events c))))
          (Some sockfd)).

Definition connect (s : t) : res t :=
  match k_socket (open_fds s) with
  | None => Stop Aborted
  | Some sock_fd =>
      let s := syscall s (sock_fd :: open_fds s) in
      let saved_errno := k_connect (calls s) in
      let s := syscall s (open_fds s) in
      if bool_decide (saved_errno ∈ [0; EINPROGRESS; EINTR; EISCONN]) then connecting sock_fd s
      else if bool_decide (saved_errno ∈ [EAGAIN; EADDRINUSE; EADDRNOTAVAIL; ECONNREFUSED; ENETUNREACH])
      then retry sock_fd s
      else close sock_fd s
  end.

Definition start_in_loop (s : t) : res t :=
  _ ← assert_ (bool_decide (_state s = Disconnected));
  if _connect s then connect s else mret s.

Definition start (is_in_loop_thread : bool) (s : t) : res t :=
  let s := set_connect s true in
  if is_in_loop_thread then start_in_loop s else mret (queue_in_loop StartInLoop s).

Definition restart (s : t) : res t :=
  let s := set_state s Disconnected in
  let s := set_delay s INIT_RETRY_DELAY_MS in
  start_in_loop (set_connect s true).

(** [disable_all()], [remove()]; the channel itself is destroyed later, as this
    may be one of its callbacks. *)
Definition remove_and_reset_channel (s : t) : res (Z * t) :=
  match _channel s with
  | None => Stop UndefinedBehaviour
  | Some c =>
      let c := Channel.set_events c (Channel.events_disable_all (Channel._events c)) in
      mret (Channel.fd c, queue_in_loop ResetChannel (set_channel s (Some c) None))
  end.
Definition reset_channel (s : t) : t := set_channel s None (registered s).

Definition stop (s : t) : t := queue_in_loop StopInLoop (set_connect s false).

Definition stop_in_loop (s : t) : res t :=
  if bool_decide (_state s = Connecting) then
    '(sock_fd, s) ← remove_and_reset_channel (set_state s Disconnected);
    retry sock_fd s
  else mret s.

(** [sockets::get_socket_error] aborts when getsockopt(2) fails. *)
Definition get_socket_error (s : t) : res (Z * t) :=
  match k_so_error (calls s) with
  | Some err => mret (err, syscall s (open_fds s))
  | None => Stop Aborted
  end.

Definition handle_write (s : t) : res t :=
  if bool_decide (_state s = Connecting) then
    '(sock_fd, s) ← remove_and_reset_channel s;
    '(err, s) ← get_socket_error s;
    if negb (err =? 0) then retry sock_fd s
    else
      let self := k_self_connect (calls s) in
      let s := syscall s (open_fds s) in
      if self : bool then retry sock_fd s
      else
        let s := set_state s Connected in
        if _connect s then mret (new_connection s sock_fd) else close sock_fd s
  else
    _ ← assert_ (bool_decide (_state s = Disconnected));
    mret s.

Definition handle_error (s : t) : res t :=
  if bool_decide (_state s = Connecting) then
    '(sock_fd, s) ← remove_and_reset_channel s;
    '(_, s) ← get_socket_error s;
    retry sock_fd s
  else mret s.

Definition run_functor (f : functor) (s : t) : res t :=
  match f with
  | StartInLoop => start_in_loop s
  | StopInLoop => stop_in_loop s
  | ResetChannel => mret (reset_channel s)
  end.
Fixpoint run_functors (fs : list functor) (s : t) : res t :=
  match fs with
  | [] => mret s
  | f :: fs' => s ← run_functor f s; run_functors fs' s
  end.

(** The channel's callbacks; those of reading and closing are not set. *)
Fixpoint run_handlers (cbs : list Channel.callback) (s : t) : res t :=
  match cbs with
  | [] => mret s
  | cb :: cbs' =>
      s ← match cb with
          | Channel.OnError => handle_error s
          | Channel.OnWrite => handle_write s
          | _ => mret s
          end;
      run_handlers cbs' s
  end.

(** What an iteration of the loop finds for the connector: its channel ready, or
    a timer expired. *)
Inductive event := Ready (revents : Z) | Expired.
Definition run_event (e : event) (s : t) : res t :=
  match e with
  | Ready revents =>
      match registered s, _channel s with
      | Some _, Some c => run_handlers (Channel.handle_event (fun _ => true) (Channel.set_revents c revents)) s
      | _, _ => mret s
      end
  | Expired =>
      match timers s with
      | [] => mret s
      | _ :: rest => start_in_loop (set_timers s rest)
      end
  end.

(** One iteration: the event, then [do_pending_functors]. *)
Definition iteration (e : option event) (s : t) : res t :=
  s ← match e with Some e => run_event e s | None => mret s end;
  run_functors (pending s) (set_pending s []).

Inductive input :=
  | Start (is_in_loop_thread : bool)
  | Stop_
  | Restart
  | Iteration (e : option event).
Definition step (i : input) (s : t) : res t :=
  match i with
  | Start b => start b s
  | Stop_ => mret (stop s)
  | Restart => restart s
  | Iteration e => iteration e s
  end.
Fixpoint run (inputs : list input) (s : t) : res t :=
  match inputs with
  | [] => mret s
  | i :: inputs' => s ← step i s; run inputs' s
  end.
End operations.
End Connector.

(** ** Invariants *)

Module ConnectorSpec.
Import Connector.

(** The delay after [k] failures in a row. *)
Definition backoff (k : nat) : Z := Z.min (500 * 2 ^ Z.of_nat k) 30000.

Lemma backoff_next k : Z.min (backoff k * 2) MAX_RETRY_DELAY_MS = backoff (S k).
Proof.
  unfold backoff, MAX_RETRY_DELAY_MS. rewrite Nat2Z.inj_succ, Z.pow_succ_r by lia. lia.
Qed.

(** [agenda]: what the loop has still to run, its current batch and what is
    pending. *)
Record inv (agenda : list functor) (s : t) : Prop := mk_inv {
  v_sockets : match _state s with
    | Connecting => exists c, _channel s = Some c /\ registered s = Some (Channel.fd c) /\
        Channel._tied c = false /\ open_fds s ≡ₚ Channel.fd c :: handed s
    | _ => registered s = None /\ open_fds s ≡ₚ handed s
    end;
  v_nodup : NoDup (open_fds s);
  v_channel : _state s <> Connecting -> _channel s = None \/ ResetChannel ∈ agenda;
  v_reset : _state s = Connecting -> ResetChannel ∉ agenda;
  v_start : StartInLoop ∈ agenda -> _state s = Disconnected /\ _channel s = None /\
    (ResetChannel ∉ agenda) /\ timers s = [] /\ count (fun f => bool_decide (f = StartInLoop)) agenda = 1%nat;
  v_timers : timers s = [] \/ (exists k, timers s = [backoff k] /\ _state s = Disconnected);
  v_delay : exists k, retry_delay_ms s = backoff k;
  v_stop : StopInLoop ∈ agenda -> _connect s = false
}.

(** Nothing will destroy a channel that a timer may have made. *)
Definition late (s : t) : Prop := ResetChannel ∈ pending s -> _connect s = false.

Definition succeeds {A} (m : res A) (Q : A -> Prop) : Prop := exists a, m = Ret a /\ Q a.
Lemma succeeds_bind {A C} (P : A -> Prop) (Q : C -> Prop) m (k : A -> res C) :
  succeeds m P -> (forall a, P a -> succeeds (k a) Q) -> succeeds (m ≫= k) Q.
Proof. intros (a & -> & Ha) Hk. by apply Hk. Qed.
Lemma succeeds_mono {A} (P Q : A -> Prop) m : succeeds m P -> (forall a, P a -> Q a) -> succeeds m Q.
Proof. intros (a & -> & Ha) Hk. exists a. auto. Qed.

Section invariants.
Context {B : Build} `{SocketsLaws}.

Lemma close_ok fd s :
  NoDup (open_fds s) -> fd ∈ open_fds s ->
  close fd s = Ret (syscall s (filter (fun x => x <> fd) (open_fds s))).
Proof. intros Hn Hin. unfold close. by rewrite bool_decide_true. Qed.

Lemma filter_out fd (l h : list Z) :
  NoDup l -> l ≡ₚ fd :: h -> filter (fun x => x <> fd) l ≡ₚ h /\ NoDup (filter (fun x => x <> fd) l).
Proof.
  intros Hn Hp. split; [| by apply NoDup_filter]. rewrite Hp in *.
  apply NoDup_cons in Hn as [Hfd Hn]. rewrite filter_cons_False by (intros E; by apply E).
  rewrite filter_keep_all; [done |]. apply Forall_forall. intros x Hx ->. done.
Qed.

(** The channel is out of the way and [fd] is about to be closed. *)
Record halfway (a : list functor) (fd : Z) (s : t) : Prop := mk_halfway {
  h_sockets : registered s = None /\ open_fds s ≡ₚ fd :: handed s;
  h_nodup : NoDup (open_fds s);
  h_channel : _channel s = None \/ ResetChannel ∈ a;
  h_start : StartInLoop ∉ a;
  h_timers : timers s = [];
  h_delay : exists k, retry_delay_ms s = backoff k;
  h_stop : StopInLoop ∈ a -> _connect s = false
}.

(** What a handler leaves alone. *)
Definition keeps (s s' : t) : Prop := pending s' = pending s /\ _connect s' = _connect s.

Lemma halfway_syscall a fd s : halfway a fd s -> halfway a fd (syscall s (open_fds s)).
Proof. intros []. by constructor. Qed.
Lemma halfway_state a fd s st : halfway a fd s -> halfway a fd (set_state s st).
Proof. intros []. by constructor. Qed.

Lemma retry_ok a fd s :
  halfway a fd s ->
  succeeds (retry fd s) (fun s' => inv a s' /\ keeps s s' /\ _state s' = Disconnected).
Proof.
  intros [[Hr Ho] Hn Hc Hs Ht [k Hd] Hst]. unfold retry.
  destruct (filter_out _ _ _ Hn Ho) as [Ho' Hn'].
  rewrite close_ok; [| done | rewrite Ho; by constructor]. cbn [mbind res_bind].
  destruct (_connect (set_state (syscall s _) Disconnected)) eqn:Hconn; cbn in Hconn;
    (eexists; split; [reflexivity |]); (split; [| done]); constructor; cbn; try done.
  - right. exists k. by rewrite Ht, Hd.
  - exists (S k). by rewrite Hd, backoff_next.
  - by left.
  - by exists k.
Qed.

Lemma close_halfway_ok a fd s :
  halfway a fd s -> _state s <> Connecting -> timers s = [] ->
  succeeds (close fd s) (fun s' => inv a s' /\ keeps s s' /\ _state s' = _state s).
Proof.
  intros [[Hr Ho] Hn Hc Hs Ht Hd Hst] Hne _.
  destruct (filter_out _ _ _ Hn Ho) as [Ho' Hn'].
  rewrite close_ok; [| done | rewrite Ho; by constructor].
  eexists; split; [reflexivity |]. split; [| done]. constructor; cbn; try done.
  - by destruct (_state s).
  - by left.
Qed.

Lemma remove_ok a s st :
  inv a s -> _state s = Connecting ->
  exists fd s1, remove_and_reset_channel (set_state s st) = Ret (fd, s1) /\
    halfway (a ++ [ResetChannel]) fd s1 /\ pending s1 = pending s ++ [ResetChannel] /\
    _connect s1 = _connect s /\ _state s1 = st.
Proof.
  intros [Hs Hn _ Hr Hst Ht Hd Hsp] E. rewrite E in Hs. destruct Hs as (c & Hc & Hreg & _ & Ho).
  unfold remove_and_reset_channel. cbn [_channel set_state]. rewrite Hc.
  eexists _, _. split; [reflexivity |]. split_and!; [| done | done | done].
  constructor; cbn; try done.
  - right. apply elem_of_app. right. by constructor.
  - rewrite not_elem_of_app. split; [intros Hin; by destruct (Hst Hin) as [? _]; congruence |].
    by rewrite list_elem_of_singleton.
  - destruct Ht as [?|(k & _ & ?)]; [done | congruence].
  - rewrite elem_of_app, list_elem_of_singleton. by intros [?|?]; [apply Hsp |].
Qed.

Lemma set_state_id s : set_state s (_state s) = s.
Proof. by destruct s. Qed.

Lemma remove_here a s :
  inv a s -> _state s = Connecting ->
  exists fd s1, remove_and_reset_channel s = Ret (fd, s1) /\
    halfway (a ++ [ResetChannel]) fd s1 /\ pending s1 = pending s ++ [ResetChannel] /\
    _connect s1 = _connect s /\ _state s1 = Connecting.
Proof.
  intros Hi E. destruct (remove_ok a s (_state s) Hi E) as (fd & s1 & Hr & Hh & ?).
  rewrite set_state_id in Hr. exists fd, s1. by rewrite <- E.
Qed.

(** A handler of a connector that was connecting. *)
Definition left_connecting (a : list functor) (s s' : t) : Prop :=
  inv (a ++ [ResetChannel]) s' /\ pending s' = pending s ++ [ResetChannel] /\
  _connect s' = _connect s /\ _state s' <> Connecting.

Lemma retry_left a fd s s1 :
  halfway (a ++ [ResetChannel]) fd s1 -> pending s1 = pending s ++ [ResetChannel] ->
  _connect s1 = _connect s ->
  succeeds (retry fd s1) (fun s' => left_connecting a s s' /\ _state s' = Disconnected).
Proof.
  intros Hh Hp Hc. eapply succeeds_mono; [by apply retry_ok |].
  intros s2 (Hi & [Hp2 Hc2] & Hst). unfold left_connecting. by rewrite Hp2, Hc2, Hp, Hc, Hst.
Qed.

Lemma stop_in_loop_ok a s :
  inv a s -> succeeds (stop_in_loop s)
    (fun s' => left_connecting a s s' \/ (s' = s /\ _state s <> Connecting)).
Proof.
  intros Hi. unfold stop_in_loop. case_bool_decide as E; [| exists s; auto].
  destruct (remove_ok a s Disconnected Hi E) as (fd & s1 & -> & Hh & Hp & Hc & _).
  cbn [mbind res_bind]. eapply succeeds_mono; [by eapply retry_left |]. intros ? Hl. left. apply Hl.
Qed.

Lemma so_error_ok a fd s :
  halfway a fd s -> exists err, get_socket_error s = Ret (err, syscall s (open_fds s)) /\
    halfway a fd (syscall s (open_fds s)).
Proof.
  intros Hh. unfold get_socket_error. destruct (k_so_error_ok (calls s)) as [err ->].
  exists err. split; [done | by apply halfway_syscall].
Qed.

Lemma connector_handle_error_ok a s :
  inv a s -> succeeds (handle_error s)
    (fun s' => (left_connecting a s s' /\ _state s' = Disconnected) \/ (s' = s /\ _state s <> Connecting)).
Proof.
  intros Hi. unfold handle_error. case_bool_decide as E; [| exists s; auto].
  destruct (remove_here a s Hi E) as (fd & s1 & -> & Hh & Hp & Hc & _). cbn [mbind res_bind].
  destruct (so_error_ok _ _ _ Hh) as (err & -> & Hh1). cbn [mbind res_bind].
  eapply succeeds_mono; [by eapply retry_left |]. intros ? Hl. left. apply Hl.
Qed.

Lemma connector_handle_write_ok a s :
  inv a s -> _state s <> Connected -> succeeds (handle_write s)
    (fun s' => left_connecting a s s' \/ (s' = s /\ _state s <> Connecting)).
Proof.
  intros Hi Hnc. unfold handle_write. case_bool_decide as E.
  2: { rewrite assert_true by (apply bool_decide_true; by destruct (_state s)).
       exists s. auto. }
  destruct (remove_here a s Hi E) as (fd & s1 & -> & Hh & Hp & Hc & _). cbn [mbind res_bind].
  destruct (so_error_ok _ _ _ Hh) as (err & -> & Hh1). cbn [mbind res_bind].
  set (s2 := syscall s1 (open_fds s1)) in *.
  destruct (negb (err =? 0)).
  { eapply succeeds_mono; [by eapply retry_left |]. intros ? Hl. left. apply Hl. }
  apply halfway_syscall in Hh1. set (s3 := syscall s2 (open_fds s2)) in *.
  destruct (k_self_connect (calls s2)).
  { eapply succeeds_mono; [by eapply retry_left |]. intros ? Hl. left. apply Hl. }
  apply (halfway_state _ _ _ Connected) in Hh1.
  destruct (_connect (set_state s3 Connected)) eqn:Hconn.
  - eexists. split; [reflexivity |]. left. split_and!; [| done | done | done].
    destruct Hh1 as [[Hr Ho] Hn Hch Hs Ht Hd Hsp]. constructor; cbn; try done; by left.
  - eapply succeeds_mono; [by apply close_halfway_ok; [| | apply Hh1] |].
    intros s4 (Hi4 & [Hp4 Hc4] & Hst4). left. split_and!; [done | | | by rewrite Hst4].
    + rewrite Hp4. exact Hp.
    + rewrite Hc4. exact Hc.
Qed.

(** A connector that may start. *)
Definition idle (a : list functor) (s : t) : Prop :=
  _channel s = None /\ (ResetChannel ∉ a) /\ timers s = [] /\ StartInLoop ∉ a.

Lemma connecting_ok a fd s :
  halfway a fd s -> idle a s -> _connect s = true ->
  succeeds (connecting fd s) (fun s' => inv a s' /\ keeps s s').
Proof.
  intros [[Hr Ho] Hn _ Hs Ht Hd Hsp] (Hc & Hra & _ & _) Hconn. unfold connecting.
  rewrite assert_true by (by apply bool_decide_true). cbn [mbind res_bind mret res_ret].
  eexists. split; [reflexivity |]. split; [| done].
  constructor; cbn; try done; [by eexists | by left].
Qed.

Lemma connect_ok a s :
  inv a s -> _state s = Disconnected -> idle a s -> _connect s = true ->
  succeeds (connect s) (fun s' => inv a s' /\ keeps s s').
Proof.
  intros [Hs Hn Hc _ Hst Ht Hd Hsp] E Hidle Hconn. rewrite E in Hs. destruct Hs as [Hr Ho].
  unfold connect. destruct (k_socket_fresh (open_fds s)) as (fd & -> & Hfresh).
  set (s1 := syscall s (fd :: open_fds s)). set (s2 := syscall s1 (open_fds s1)).
  assert (Hidle2 : idle a s2) by (exact Hidle).
  assert (Hh : halfway a fd s2).
  { destruct Hidle as (Hch & Hra & Ht' & Hsa). constructor; cbn; try done.
    - split; [done | by constructor].
    - by constructor.
    - by left. }
  case_bool_decide.
  { eapply succeeds_mono; [by apply (connecting_ok a) |]. done. }
  case_bool_decide.
  - eapply succeeds_mono; [by apply (retry_ok a) |]. by intros s3 (? & ? & _).
  - eapply succeeds_mono; [apply (close_halfway_ok a); [done | by cbn; rewrite E | apply Hidle] |].
    by intros s3 (? & ? & _).
Qed.

Lemma start_in_loop_ok a s :
  inv a s -> _state s = Disconnected -> (_connect s = true -> idle a s) ->
  succeeds (start_in_loop s) (fun s' => inv a s' /\ keeps s s').
Proof.
  intros Hi E Hidle. unfold start_in_loop. rewrite assert_true by (by apply bool_decide_true).
  cbn [mbind res_bind]. destruct (_connect s) eqn:Hc; [by apply connect_ok; auto |].
  by exists s.
Qed.

Lemma count_start a :
  StartInLoop ∈ a -> (0 < count (fun f => bool_decide (f = StartInLoop)) a)%nat.
Proof. intros [i Hi]%list_elem_of_lookup_1. by eapply count_pos. Qed.

Lemma count_snoc_start a :
  StartInLoop ∉ a -> count (fun f => bool_decide (f = StartInLoop)) (a ++ [StartInLoop]) = 1%nat.
Proof.
  induction a as [|f a IH]; intros Hn; [done |]. apply not_elem_of_cons in Hn as [Hf Hn].
  cbn [app count]. rewrite IH by done. by rewrite bool_decide_false by auto.
Qed.
Lemma count_snoc_stop a :
  count (fun f => bool_decide (f = StartInLoop)) (a ++ [StopInLoop])
  = count (fun f => bool_decide (f = StartInLoop)) a.
Proof. induction a as [|f a IH]; [done |]. cbn [app count]. by rewrite IH. Qed.

(** Done with the first item of the agenda. *)
Lemma inv_pop f a s :
  inv (f :: a) s -> (f = ResetChannel -> _channel s = None) -> inv a s.
Proof.
  intros [Hs Hn Hc Hr Hst Ht Hd Hsp] Hf. constructor; try done.
  - intros E. destruct (Hc E) as [?|[<-|?]%elem_of_cons]; auto.
  - intros E Hin. apply (Hr E). by constructor.
  - intros Hin. destruct Hst as (? & ? & Hr' & ? & Hcount); [by constructor |].
    apply not_elem_of_cons in Hr' as [_ ?]. split_and!; try done. cbn in Hcount.
    pose proof (count_start a Hin). destruct (bool_decide (f = StartInLoop)); lia.
  - intros Hin. apply Hsp. by constructor.
Qed.

(** Running what was pending; [fs] is the rest of the batch. *)
Lemma connector_run_functor_ok f fs s :
  inv (f :: fs ++ pending s) s -> late s ->
  succeeds (run_functor f s) (fun s' => inv (fs ++ pending s') s' /\ late s').
Proof.
  intros Hi Hlate. destruct f; cbn [run_functor].
  - assert (Hi' : inv (fs ++ pending s) s) by (by eapply inv_pop).
    destruct (v_start _ _ Hi) as (E & Hc & Hr & Ht & Hcount); [by constructor |].
    apply not_elem_of_cons in Hr as [_ Hr]. cbn [count] in Hcount.
    rewrite bool_decide_true in Hcount by done.
    eapply succeeds_mono; [apply (start_in_loop_ok _ _ Hi' E) |].
    + intros _. unfold idle. split_and!; try done. intros Hin.
      pose proof (count_start _ Hin). lia.
    + intros s' [Hi2 [Hp Hconn]]. rewrite Hp. split; [done |]. intros Hin.
      rewrite Hconn. apply Hlate. by rewrite <- Hp.
  - assert (Hi' : inv (fs ++ pending s) s) by (by eapply inv_pop).
    assert (Hconn : _connect s = false) by (apply (v_stop _ _ Hi); by constructor).
    eapply succeeds_mono; [by apply (stop_in_loop_ok _ _ Hi') |].
    intros s' [(Hi2 & Hp & Hc & _)|[-> _]]; [| done].
    rewrite Hp, app_assoc. split; [done |]. intros _. congruence.
  - eexists. split; [reflexivity |]. split; [| done].
    destruct Hi as [Hs Hn Hc Hr Hst Ht Hd Hsp].
    assert (Hne : _state s <> Connecting) by (intros E; apply (Hr E); by constructor).
    apply inv_pop with ResetChannel; [| done]. constructor; try done.
    + cbn. by destruct (_state s).
    + by left.
    + intros Hin. destruct (Hst Hin) as (? & _ & Hra & _). exfalso. apply Hra. by constructor.
Qed.

Lemma connector_run_functors_ok fs s :
  inv (fs ++ pending s) s -> late s ->
  succeeds (run_functors fs s) (fun s' => inv (pending s') s' /\ late s').
Proof.
  revert s. induction fs as [|f fs IH]; intros s Hi Hlate; [by exists s |].
  cbn [run_functors]. eapply succeeds_bind; [by apply connector_run_functor_ok |].
  intros s1 [? ?]. by apply IH.
Qed.

Lemma run_app l k s : run (l ++ k) s = (s1 ← run l s; run k s1).
Proof.
  revert s. induction l as [|i l IH]; intros s; cbn [app run]; [done |].
  destruct (step i s) as [s1|]; [| done]. cbn [mbind res_bind]. apply IH.
Qed.

(** The handlers of one event, each at most once. *)
Lemma handlers_NoDup c : NoDup (Channel.handle_event_with_guard c).
Proof.
  unfold Channel.handle_event_with_guard.
  by repeat (destruct (_ && _); cbn [app]); apply (bool_decide_unpack _).
Qed.

Lemma run_handlers_ok cbs s :
  NoDup cbs -> inv (pending s) s -> (_state s = Connected -> Channel.OnWrite ∉ cbs) ->
  succeeds (run_handlers cbs s) (fun s' => inv (pending s') s').
Proof.
  revert s. induction cbs as [|cb cbs IH]; intros s Hnd Hi Hw; [by exists s |].
  apply NoDup_cons in Hnd as [Hcb Hnd]. cbn [run_handlers].
  assert (Hnot : _state s = Connected -> Channel.OnWrite ∉ cbs).
  { intros E Hin. apply (Hw E). by constructor. }
  destruct cb; cbn [run_handlers].
  - by apply IH.
  - eapply succeeds_bind; [by apply connector_handle_error_ok |].
    intros s1 [[(Hi1 & Hp1 & _) Hst]|[-> _]]; [| by apply IH].
    apply IH; [done | by rewrite Hp1 | congruence].
  - by apply IH.
  - eapply succeeds_bind; [apply connector_handle_write_ok; [done |] |].
    { intros E. apply (Hw E). by constructor. }
    intros s1 [(Hi1 & Hp1 & _)|[-> _]]; [| by apply IH].
    apply IH; [done | by rewrite Hp1 | done].
Qed.

Lemma run_event_ok e s :
  inv (pending s) s -> late s -> succeeds (run_event e s) (fun s' => inv (pending s') s').
Proof.
  intros Hi Hlate. destruct e as [revents|]; cbn [run_event].
  - destruct (registered s) as [fd|] eqn:Hreg; [| by exists s].
    destruct (_channel s) as [c|] eqn:Hc; [| by exists s].
    pose proof (v_sockets _ _ Hi) as Hs.
    destruct (_state s) eqn:E; [by destruct Hs; congruence | | by destruct Hs; congruence].
    destruct Hs as (c' & Hc' & _ & Ht & _). rewrite Hc in Hc'. injection Hc' as <-.
    unfold Channel.handle_event. change (Channel._tied (Channel.set_revents c revents)) with (Channel._tied c).
    rewrite Ht. apply run_handlers_ok; [apply handlers_NoDup | done | congruence].
  - destruct (timers s) as [|d rest] eqn:Ht; [by exists s |].
    destruct (v_timers _ _ Hi) as [?|(k & Hk & E)]; [congruence |].
    rewrite Ht in Hk. injection Hk as -> ->.
    assert (Hns : StartInLoop ∉ pending s).
    { intros Hin. destruct (v_start _ _ Hi Hin) as (_ & _ & _ & ? & _). congruence. }
    assert (Hi' : inv (pending s) (set_timers s [])).
    { destruct Hi as [? ? ? ? Hst ? ? ?]. constructor; try done. by left. }
    eapply succeeds_mono; [apply (start_in_loop_ok (pending s) (set_timers s []) Hi' E) |].
    + intros Hconn. assert (Hr : ResetChannel ∉ pending s).
      { intros Hin. apply Hlate in Hin. cbn in Hconn. congruence. }
      unfold idle. split_and!; try done. cbn.
      destruct (v_channel _ _ Hi) as [?|?]; [by rewrite E | done | done].
    + intros s' [Hi2 [Hp _]]. by rewrite Hp.
Qed.

Lemma iteration_ok e s :
  inv (pending s) s -> late s -> succeeds (iteration e s) (fun s' => inv (pending s') s' /\ late s').
Proof.
  intros Hi Hlate. unfold iteration.
  eapply (succeeds_bind (fun s1 => inv (pending s1) s1)).
  { destruct e; [by apply run_event_ok | by exists s]. }
  intros s1 Hi1. apply connector_run_functors_ok; [| by intros ?%elem_of_nil].
  cbn [pending set_pending]. rewrite app_nil_r. destruct Hi1. by constructor.
Qed.

(** How a connector may be used: started when it is idle, stopped whenever, restarted
    when its connection is gone, by whoever has not stopped it. Nothing in the code
    guards against a [start()] at another time, as soon after a [stop()]: see
    [connector_stop_start]. *)
Definition input_ok (i : input) (s : t) : Prop :=
  match i with
  | Start _ => _state s = Disconnected /\ idle (pending s) s /\ StopInLoop ∉ pending s
  | Restart => _state s = Connected /\ _connect s = true /\ ResetChannel ∉ pending s
  | _ => True
  end.
Fixpoint allowed (inputs : list input) (s : t) : Prop :=
  match inputs with
  | [] => True
  | i :: inputs' => input_ok i s /\ forall s', step i s = Ret s' -> allowed inputs' s'
  end.

Lemma connector_step_ok i s :
  inv (pending s) s -> late s -> input_ok i s ->
  succeeds (step i s) (fun s' => inv (pending s') s' /\ late s').
Proof.
  intros Hi Hlate Hin. destruct i as [b| | |e]; cbn [step]; [| | | by apply iteration_ok].
  - destruct Hin as (E & (Hc & Hr & Ht & Hs) & Hsp).
    assert (Hi' : inv (pending s) (set_connect s true)).
    { destruct Hi. by constructor. }
    unfold start. destruct b.
    + eapply succeeds_mono; [apply (start_in_loop_ok (pending s) _ Hi' E); by unfold idle |].
      intros s' [Hi2 [Hp _]]. rewrite Hp. split; [done |]. unfold late. by rewrite Hp.
    + eexists. split; [reflexivity |]. destruct Hi' as [? ? Hch Hre Hst ? ? ?]. split.
      * constructor; cbn in *; try done; [by left | by rewrite E | |].
        -- intros _. split_and!; try done.
           ++ by rewrite not_elem_of_app, list_elem_of_singleton.
           ++ apply count_snoc_start, Hs.
        -- by rewrite elem_of_app, list_elem_of_singleton; intros [?|?].
      * unfold late. cbn. by rewrite elem_of_app, list_elem_of_singleton; intros [?|?].
  - eexists. split; [reflexivity |]. destruct Hi as [? ? Hch Hre Hst ? ? ?]. split; [| by intros _].
    constructor; cbn; try done.
    + intros E. destruct (Hch E); [by left | right]. apply elem_of_app. by left.
    + intros E. rewrite not_elem_of_app, list_elem_of_singleton. split; [by apply Hre | done].
    + rewrite elem_of_app, list_elem_of_singleton. intros [Hin'|?]; [| done].
      destruct (Hst Hin') as (? & ? & ? & ? & ?). split_and!; try done.
      * by rewrite not_elem_of_app, list_elem_of_singleton.
      * by rewrite count_snoc_stop.
  - destruct Hin as (E & Hconn & Hr). destruct Hi as [Hs ? Hch Hre Hst Ht ? Hsp].
    assert (Htm : timers s = []) by (destruct Ht as [?|(k & _ & ?)]; [done | congruence]).
    assert (Hns : StartInLoop ∉ pending s) by (intros Hin; by destruct (Hst Hin) as [? _]; congruence).
    assert (Hc : _channel s = None) by (destruct Hch; [congruence | done | done]).
    rewrite E in Hs. unfold restart.
    eapply succeeds_mono; [apply (start_in_loop_ok (pending s)) |].
    + constructor; cbn; try done; [by left | by left | by exists 0%nat |].
      intros Hin. rewrite (Hsp Hin) in Hconn. done.
    + done.
    + intros _. by unfold idle.
    + intros s' [Hi2 [Hp _]]. rewrite Hp. split; [done |]. unfold late. by rewrite Hp.
Qed.

Lemma connector_run_ok inputs s :
  inv (pending s) s -> late s -> allowed inputs s ->
  succeeds (run inputs s) (fun s' => inv (pending s') s').
Proof.
  revert s. induction inputs as [|i inputs IH]; intros s Hi Hlate Hall; [by exists s |].
  destruct Hall as [Hin Hall]. cbn [run].
  destruct (connector_step_ok i s Hi Hlate Hin) as (s1 & E & Hi1 & Hl1). rewrite E. cbn [mbind res_bind].
  apply IH; [done | done |]. by apply Hall.
Qed.

(** *** What is handed over *)

(** Nothing is, and [_connect] stays. *)
Definition same (s s' : t) : Prop := handed s' = handed s /\ _connect s' = _connect s.
#[global] Instance same_refl : Reflexive same.
Proof. by split. Qed.
#[global] Instance same_trans : Transitive same.
Proof. intros s1 s2 s3 [] []. split; congruence. Qed.
(** One descriptor is, to a user who wants it. *)
Definition gives (fd : Z) (s s' : t) : Prop :=
  handed s' = fd :: handed s /\ _connect s' = true /\ _connect s = true /\ _state s' = Connected.

Lemma close_same fd s s' : close fd s = Ret s' -> same s s' /\ _state s' = _state s.
Proof. unfold close. intros E. by returned. Qed.
Lemma retry_same fd s s' : retry fd s = Ret s' -> same s s' /\ _state s' = Disconnected.
Proof.
  unfold retry. intros E. returned; apply close_same in Er as [[Eh Ec] _]; split; try done; split; cbn; congruence.
Qed.
Lemma connecting_same fd s s' : connecting fd s = Ret s' -> same s s'.
Proof. unfold connecting. intros E. by returned. Qed.
Lemma start_in_loop_same s s' : start_in_loop s = Ret s' -> same s s'.
Proof.
  unfold start_in_loop, connect. intros E. returned; try done.
  - by apply connecting_same in E.
  - by apply retry_same in E as [? _].
  - by apply close_same in E as [? _].
Qed.
Lemma remove_same fd s s' : remove_and_reset_channel s = Ret (fd, s') -> same s s' /\ _state s' = _state s.
Proof. unfold remove_and_reset_channel. intros E. returned. by split. Qed.
Lemma so_error_same err s s' : get_socket_error s = Ret (err, s') -> same s s'.
Proof. unfold get_socket_error. intros E. by returned. Qed.
(** The steps of a handler, one after another. *)
Ltac chain :=
  repeat match goal with
  | H : remove_and_reset_channel _ = Ret (_, _) |- _ => apply remove_same in H as [[? ?] ?]
  | H : get_socket_error _ = Ret (_, _) |- _ => apply so_error_same in H as [? ?]
  | H : retry _ _ = Ret _ |- _ => apply retry_same in H as [[? ?] ?]
  | H : close _ _ = Ret _ |- _ => apply close_same in H as [[? ?] ?]
  | H : bool_decide _ = true |- _ => apply bool_decide_eq_true in H
  end; cbn in *; split_and?; try congruence.

Lemma stop_in_loop_same s s' : stop_in_loop s = Ret s' -> same s s'.
Proof. unfold stop_in_loop. intros E. returned; [| done]. unfold same. chain. Qed.
Lemma handle_error_same s s' : handle_error s = Ret s' -> same s s' /\ (_state s = Connected -> s' = s).
Proof. unfold handle_error. intros E. returned; [| done]. unfold same. chain. Qed.
Lemma handle_write_gives s s' : handle_write s = Ret s' -> same s s' \/ exists fd, gives fd s s'.
Proof.
  unfold handle_write. intros E. returned; try by left.
  3: { right. exists z. unfold gives. chain. }
  all: left; unfold same; chain.
Qed.

Lemma run_handlers_same cbs s s' :
  Channel.OnWrite ∉ cbs -> run_handlers cbs s = Ret s' ->
  same s s' /\ (_state s = Connected -> s' = s).
Proof.
  revert s. induction cbs as [|cb cbs IH]; intros s Hw; cbn [run_handlers]; intros E; [by returned |].
  apply not_elem_of_cons in Hw as [Hcb Hw]. apply res_bind_inv in E as (s1 & E1 & E).
  destruct (IH s1 Hw E) as [Hs Hst]. destruct cb; try done.
  - by injection E1 as ->.
  - apply handle_error_same in E1 as [H1 H2]. split; [by etrans |]. intros Hc.
    specialize (H2 Hc). subst s1. auto.
  - by injection E1 as ->.
Qed.
Lemma run_handlers_gives cbs s s' :
  NoDup cbs -> run_handlers cbs s = Ret s' -> same s s' \/ exists fd, gives fd s s'.
Proof.
  revert s. induction cbs as [|cb cbs IH]; intros s Hnd; cbn [run_handlers]; intros E; [left; by returned |].
  apply NoDup_cons in Hnd as [Hcb Hnd]. apply res_bind_inv in E as (s1 & E1 & E).
  assert (Hskip : same s s1 -> same s s' \/ exists fd, gives fd s s').
  { intros [Eh Ec]. destruct (IH s1 Hnd E) as [H1|(fd & ? & ? & ? & ?)]; [left; etrans; [by split | done] |].
    right. exists fd. split_and!; congruence. }
  destruct cb; try (by injection E1 as ->; apply Hskip).
  - apply Hskip. by apply handle_error_same in E1 as [].
  - destruct (handle_write_gives s s1 E1) as [|(fd & Eh & Ec & ? & Est)]; [by apply Hskip |].
    apply run_handlers_same in E as [_ E]; [| done]. rewrite (E Est). right. by exists fd.
Qed.

(** A connector that has connected waits for the user. *)
Lemma run_event_connected a e s :
  inv a s -> _state s = Connected -> run_event e s = Ret s.
Proof.
  intros [Hs _ _ _ _ Ht _ _] E. rewrite E in Hs. destruct Hs as [Hr _]. destruct e; cbn [run_event].
  - by rewrite Hr.
  - destruct Ht as [->|(k & _ & ?)]; [done | congruence].
Qed.
Lemma run_event_gives e s s' : run_event e s = Ret s' -> same s s' \/ exists fd, gives fd s s'.
Proof.
  destruct e as [revents|]; cbn [run_event]; intros E; returned; try by left.
  - eapply run_handlers_gives; [| exact E]. unfold Channel.handle_event.
    destruct (Channel._tied _); [| apply handlers_NoDup].
    destruct (Channel._tie _); [apply handlers_NoDup | constructor].
  - left. by apply start_in_loop_same in E.
Qed.
Lemma run_functors_same fs s s' : run_functors fs s = Ret s' -> same s s'.
Proof.
  revert s. induction fs as [|f fs IH]; intros s; cbn [run_functors]; intros E; [by returned |].
  apply res_bind_inv in E as (s1 & E1 & E). etrans; [| by apply IH]. destruct f; cbn [run_functor] in E1.
  - by apply start_in_loop_same.
  - by apply stop_in_loop_same.
  - by injection E1 as <-.
Qed.
Lemma run_functors_connected fs s s' :
  StartInLoop ∉ fs -> _state s = Connected -> run_functors fs s = Ret s' -> _state s' = Connected.
Proof.
  revert s. induction fs as [|f fs IH]; intros s Hn Hst; cbn [run_functors]; intros E; [by returned |].
  apply not_elem_of_cons in Hn as [Hf Hn]. apply res_bind_inv in E as (s1 & E1 & E).
  apply (IH s1 Hn); [| done]. destruct f; cbn [run_functor] in E1; [done | | by injection E1 as <-].
  unfold stop_in_loop in E1. rewrite bool_decide_false in E1 by congruence. by injection E1 as <-.
Qed.

(** What a new attempt comes to: it is in progress, or put off, or given up. *)
Definition attempted (errno : Z) (s' : t) : Prop :=
  if bool_decide (errno ∈ [0; EINPROGRESS; EINTR; EISCONN]) then _state s' = Connecting
  else _state s' = Disconnected /\
    timers s' = if bool_decide (errno ∈ [EAGAIN; EADDRINUSE; EADDRNOTAVAIL; ECONNREFUSED; ENETUNREACH])
                then [INIT_RETRY_DELAY_MS] else [].
Lemma restart_attempts a s s' :
  inv a s -> _state s = Connected -> restart s = Ret s' -> attempted (k_connect (S (calls s))) s'.
Proof.
  intros Hi Est E. assert (Ht : timers s = []).
  { destruct (v_timers _ _ Hi) as [?|(k & _ & ?)]; [done | congruence]. }
  unfold restart, start_in_loop in E. rewrite assert_true in E by (by apply bool_decide_true).
  cbn [mbind res_bind _connect set_connect] in E. unfold connect in E. unfold attempted.
  destruct (k_socket _) as [fd|]; [| done]. cbn [calls syscall set_connect set_delay set_state] in E.
  destruct (bool_decide (k_connect (S (calls s)) ∈ [0; _; _; _])).
  { unfold connecting in E. by returned. }
  destruct (bool_decide _).
  - unfold retry, close in E. returned; [| done]. cbn. by rewrite Ht.
  - unfold close in E. returned. cbn. by rewrite Ht.
Qed.

(** A descriptor that was handed over is closed by its new owner. *)
Definition release (fd : Z) (s : t) : t :=
  set_handed s (filter (fun x => x <> fd) (handed s)).
Lemma filter_not_in (fd : Z) (l : list Z) : fd ∉ l -> filter (fun x => x <> fd) l = l.
Proof. intros Hn. apply filter_keep_all, Forall_forall. by intros x Hx ->. Qed.

Lemma release_ok a fd s :
  inv a s -> fd ∈ handed s ->
  exists s', close fd s = Ret s' /\ inv a (release fd s') /\ same s s' /\ _state s' = _state s /\
    pending s' = pending s.
Proof.
  intros [Hs Hn Hc Hr Hst Ht Hd Hsp] Hin.
  assert (Hopen : fd ∈ open_fds s).
  { destruct (_state s); [destruct Hs as [_ ->]; done | | destruct Hs as [_ ->]; done].
    destruct Hs as (c & _ & _ & _ & ->). by right. }
  eexists. split; [by apply close_ok |]. split_and!; try done. constructor; cbn; try done; [| by apply NoDup_filter].
  destruct (_state s).
  - destruct Hs as [? Hp]. split; [done |]. by rewrite Hp.
  - destruct Hs as (c & ? & ? & ? & Hp). exists c. split_and!; try done. rewrite Hp in Hn |- *.
    apply NoDup_cons in Hn as [Hfd _]. rewrite filter_cons_True; [done |]. by intros <-.
  - destruct Hs as [? Hp]. split; [done |]. by rewrite Hp.
Qed.

Lemma connector_make_inv : inv [] make.
Proof.
  constructor; cbn; try done; try apply NoDup_nil_2; try (by left); try (by exists 0%nat);
    by intros ?%elem_of_nil.
Qed.
End invariants.
End ConnectorSpec.

(** ** The properties *)

Module ConnectorProps.
Import Connector ConnectorSpec.

(** C28: the connector owns its sockets, when [start()] is called only on a connector
    that is idle: nothing connecting, no retry timer armed, no functor of its own
    waiting in the loop ([connector_stop_start] shows what becomes of the asserts and
    the channel otherwise), and [restart()] only on one that has connected and was not
    stopped since. Then, however connecting fails or succeeds, whenever it is stopped,
    and whatever the loop interleaves, no assert fails and no descriptor is closed twice
    or lost: the open ones are those handed to the user and, while connecting, the one
    the poller watches. At most one timer is armed, only between attempts, and the
    delays are 0.5 s doubled after each failure up to 30 s. *)
Theorem connector_owns_sockets {B : Build} `{SocketsLaws} inputs (Hinputs : allowed inputs make) :
  exists s, run inputs make = Ret s /\
    match _state s with
    | Connecting => exists c, _channel s = Some c /\ registered s = Some (Channel.fd c) /\
        open_fds s ≡ₚ Channel.fd c :: handed s
    | _ => registered s = None /\ open_fds s ≡ₚ handed s
    end /\
    (timers s = [] \/ exists k, timers s = [backoff k] /\ _state s = Disconnected) /\
    exists k, retry_delay_ms s = backoff k.
Proof.
  destruct (connector_run_ok inputs make connector_make_inv) as (s & E & [Hs _ _ _ _ Ht Hd _]); [by intros ?%elem_of_nil | done |].
  exists s. split_and!; try done. destruct (_state s); try done.
  destruct Hs as (c & ? & ? & _ & ?). by exists c.
Qed.

Definition debug : Build := {| ndebug := false |}.
Definition release : Build := {| ndebug := true |}.

(** The state in which the second attempt begins. *)
Lemma stop_then_start {B : Build} `{SocketsLaws} s :
  inv [] s -> _state s = Connecting -> pending s = [] ->
  exists s2 c, stop_in_loop (set_pending (set_connect s true) []) = Ret s2 /\
    _state s2 = Disconnected /\ _connect s2 = true /\ _channel s2 = Some c /\
    pending s2 = [ResetChannel].
Proof.
  intros [Hs Hn _ _ _ _ _ _] E Hp. rewrite E in Hs. destruct Hs as (c & Hc & Hr & Ht & Ho).
  unfold stop_in_loop. rewrite bool_decide_true by done.
  unfold remove_and_reset_channel. cbn [_channel set_state set_pending set_connect]. rewrite Hc.
  cbn [mbind res_bind mret res_ret]. unfold retry.
  rewrite close_ok; [| done | cbn; rewrite Ho; by constructor].
  cbn [mbind res_bind mret res_ret]. eexists _, _. split; [reflexivity |]. done.
Qed.

(** [stop()] followed by [start()] before the loop has run either, on a
    connector that is connecting: the channel of the first attempt is still there
    when the second begins, and its delayed [reset_channel] then destroys the
    second attempt's channel, which the poller still watches. A debug build
    aborts. *)
Theorem connector_stop_start `{SocketsLaws} s
    (Hi : inv [] s) (Hst : _state s = Connecting) (Hp : pending s = [])
    (Hprogress : forall i, k_connect i = EINPROGRESS) :
  @run debug _ [Stop_; Start false; Iteration None] s = Stop AssertionFailed /\
  exists s', @run release _ [Stop_; Start false; Iteration None; Iteration None] s = Ret s' /\
    _state s' = Connecting /\ is_Some (registered s') /\ _channel s' = None.
Proof.
  assert (Hb : forall B : Build, exists s2 c fd,
    @run B _ [Stop_; Start false; Iteration None] s
    = (s3 ← @connecting B fd (syscall (syscall s2 (fd :: open_fds s2)) (fd :: open_fds s2)); mret s3) /\
    _channel s2 = Some c /\ pending s2 = [ResetChannel]).
  { intros B. destruct (@stop_then_start B _ _ s Hi Hst Hp) as (s2 & c & E & E1 & E2 & E3 & E4).
    destruct (k_socket_fresh (open_fds s2)) as (fd & Hfd & _). exists s2, c, fd. split; [| done].
    cbn [run step start mbind res_bind mret res_ret]. unfold iteration. cbn [mbind res_bind mret res_ret].
    change (pending (queue_in_loop StartInLoop (set_connect (stop s) true)))
      with ((pending s ++ [StopInLoop]) ++ [StartInLoop]).
    rewrite Hp. cbn [app run_functors run_functor].
    change (set_pending (queue_in_loop StartInLoop (set_connect (stop s) true)) [])
      with (set_pending (set_connect s true) []).
    rewrite E. cbn [mbind res_bind]. unfold start_in_loop.
    rewrite assert_true by (by apply bool_decide_true). cbn [mbind res_bind]. rewrite E2.
    unfold connect. rewrite Hfd, Hprogress. cbn [open_fds syscall].
    rewrite bool_decide_true by (by right; left). destruct (connecting _ _); done. }
  split.
  - destruct (Hb debug) as (s2 & c & fd & -> & Hc & _). unfold connecting.
    cbn [_channel set_state syscall]. rewrite Hc. done.
  - destruct (Hb release) as (s2 & c & fd & E & Hc & Hpend).
    change [Stop_; Start false; Iteration None; Iteration None]
      with ([Stop_; Start false; Iteration None] ++ [Iteration None]).
    rewrite run_app, E. unfold connecting. rewrite assert_release. cbn [mbind res_bind mret res_ret].
    cbn [run step]. unfold iteration. cbn [mbind res_bind mret res_ret pending set_channel set_state syscall].
    rewrite Hpend. cbn. eexists. split; [reflexivity |]. done.
Qed.

(** *** Witnesses: descriptors from 3 on; the first attempt is refused. *)
#[local] Instance refused_once : Sockets := {|
  k_socket fds := Some (1 + foldr Z.max 2 fds);
  k_connect i := if bool_decide (i = 1%nat) then ECONNREFUSED else EINPROGRESS;
  k_so_error _ := Some 0;
  k_self_connect _ := false
|}.
Lemma foldr_max_lt fds fd : fd ∈ fds -> fd <= foldr Z.max 2 fds.
Proof. induction 1 as [|? ? ? _ IH]; cbn; lia. Qed.
#[local] Instance refused_once_laws : SocketsLaws.
Proof.
  split; cbn; [| by eexists]. intros fds. eexists. split; [reflexivity |].
  intros Hin. apply foldr_max_lt in Hin. lia.
Qed.

Definition retried : list input :=
  [Start true; Iteration None; Iteration (Some Expired); Iteration (Some (Ready POLLOUT)); Stop_; Iteration None].

#[local] Instance input_ok_dec i s : Decision (input_ok i s).
Proof. destruct i; cbn [input_ok]; unfold idle; apply _. Defined.
Fixpoint check_inputs {B : Build} {K : Sockets} (inputs : list input) (s : t) : bool :=
  match inputs with
  | [] => true
  | i :: inputs' => bool_decide (input_ok i s) &&
      match step i s with Ret s' => check_inputs inputs' s' | Stop _ => true end
  end.
Lemma connector_check_inputs_ok {B : Build} {K : Sockets} inputs s : check_inputs inputs s = true -> allowed inputs s.
Proof.
  revert s. induction inputs as [|i inputs IH]; intros s; cbn [check_inputs allowed]; [done |].
  intros [Hi Hrest]%andb_true_iff. apply bool_decide_eq_true in Hi. split; [done |].
  intros s' E. rewrite E in Hrest. by apply IH.
Qed.

Lemma connector_owns_sockets_witness :
  exists s, @run debug _ retried make = Ret s /\
    match _state s with
    | Connecting => exists c, _channel s = Some c /\ registered s = Some (Channel.fd c) /\
        open_fds s ≡ₚ Channel.fd c :: handed s
    | _ => registered s = None /\ open_fds s ≡ₚ handed s
    end /\
    (timers s = [] \/ exists k, timers s = [backoff k] /\ _state s = Disconnected) /\
    exists k, retry_delay_ms s = backoff k.
Proof.
  apply (@connector_owns_sockets debug refused_once refused_once_laws).
  apply connector_check_inputs_ok. by vm_compute.
Defined.

Definition in_progress : Sockets := {|
  k_socket fds := Some (1 + foldr Z.max 2 fds);
  k_connect _ := EINPROGRESS;
  k_so_error _ := Some 0;
  k_self_connect _ := false
|}.
Lemma in_progress_laws : @SocketsLaws in_progress.
Proof.
  split; cbn; [| by eexists]. intros fds. eexists. split; [reflexivity |].
  intros Hin. apply foldr_max_lt in Hin. lia.
Qed.
Definition first_attempt : t :=
  match @run debug in_progress [Start true] make with Ret s => s | Stop _ => make end.

Lemma connector_stop_start_witness :
  @run debug in_progress [Stop_; Start false; Iteration None] first_attempt = Stop AssertionFailed /\
  exists s', @run release in_progress [Stop_; Start false; Iteration None; Iteration None] first_attempt = Ret s' /\
    _state s' = Connecting /\ is_Some (registered s') /\ _channel s' = None.
Proof.
  apply (@connector_stop_start in_progress in_progress_laws); try done.
  pose proof (@connector_run_ok debug in_progress in_progress_laws [Start true] make connector_make_inv) as (s & E & Hi).
  - by intros ?%elem_of_nil.
  - apply connector_check_inputs_ok. by vm_compute.
  - unfold first_attempt. rewrite E. vm_compute in E. injection E as <-. exact Hi.
Defined.
End ConnectorProps.
