(* ===== verification/TcpClients.v ===== *)
(** TCP clients (suduo/net/TcpClient.h/.cpp): one connector and the connections
    it makes, one at a time, in one loop.

    The connector is that of Connectors.v and the connections those of
    TcpConnections.v, each with the part of the loop's queue that concerns it. *)

From S2P Require Import Prelude.
From S2P Require Import ByteBuffer.
From S2P Require Import Pollers.
From S2P Require Import TcpConnections.
From S2P Require Import Connectors.

Module TcpClient.

(** A [TcpConnection] the client has made. *)
Record object := mk_object {
  name : list byte;
  sock_fd : Z;
  conn : TcpConnection.t;
  to_client : bool;       (** its close callback is the client's, or the loop's ([detail]) *)
  closed : bool           (** destroyed, with its socket *)
}.
Definition set_conn (o : object) (c : TcpConnection.t) : object :=
  mk_object (name o) (sock_fd o) c (to_client o) (closed o).
Definition set_owner (o : object) (b : bool) : object :=
  mk_object (name o) (sock_fd o) (conn o) b (closed o).
Definition set_closed (o : object) : object :=
  mk_object (name o) (sock_fd o) (conn o) (to_client o) true.

Record t := mk {
  _name : list byte;
  peer_text : list byte;            (** [to_Ip_port()] of the server's address *)
  _write_complete_callback : bool;
  _connector : Connector.t;
  _retry : bool;
  _connect : bool;
  _next_conn_id : Z;
  _connection : option nat;         (** a position of [objects], or null *)
  objects : list object;            (** every connection made, in order *)
  pending : list nat;               (** [set_close_callback] functors in the loop's queue *)
  destroyed : list nat;             (** history: [connect_destroyed] queued for *)
  alive : bool                      (** the destructor has not run *)
}.

Definition make (name peer_text : list byte) (write_complete : bool) : t :=
  mk name peer_text write_complete Connector.make false true 1 None [] [] [] true.

Definition set_connector (s : t) (k : Connector.t) : t :=
  mk (_name s) (peer_text s) (_write_complete_callback s) k (_retry s) (_connect s) (_next_conn_id s)
    (_connection s) (objects s) (pending s) (destroyed s) (alive s).
Definition set_flags (s : t) (retry connect : bool) : t :=
  mk (_name s) (peer_text s) (_write_complete_callback s) (_connector s) retry connect (_next_conn_id s)
    (_connection s) (objects s) (pending s) (destroyed s) (alive s).
Definition set_next_conn_id (s : t) (n : Z) : t :=
  mk (_name s) (peer_text s) (_write_complete_callback s) (_connector s) (_retry s) (_connect s) n
    (_connection s) (objects s) (pending s) (destroyed s) (alive s).
Definition set_connection (s : t) (c : option nat) : t :=
  mk (_name s) (peer_text s) (_write_complete_callback s) (_connector s) (_retry s) (_connect s)
    (_next_conn_id s) c (objects s) (pending s) (destroyed s) (alive s).
Definition set_objects (s : t) (l : list object) : t :=
  mk (_name s) (peer_text s) (_write_complete_callback s) (_connector s) (_retry s) (_connect s)
    (_next_conn_id s) (_connection s) l (pending s) (destroyed s) (alive s).
Definition set_pending (s : t) (l : list nat) : t :=
  mk (_name s) (peer_text s) (_write_complete_callback s) (_connector s) (_retry s) (_connect s)
    (_next_conn_id s) (_connection s) (objects s) l (destroyed s) (alive s).
Definition record_destroyed (s : t) (id : nat) : t :=
  mk (_name s) (peer_text s) (_write_complete_callback s) (_connector s) (_retry s) (_connect s)
    (_next_conn_id s) (_connection s) (objects s) (pending s) (id :: destroyed s) (alive s).
(** The destructor is over: the client's fields are gone. *)
Definition set_dead (s : t) : t :=
  mk (_name s) (peer_text s) (_write_complete_callback s) (_connector s) (_retry s) (_connect s)
    (_next_conn_id s) None (objects s) (pending s) (destroyed s) false.

Definition update (id : nat) (f : object -> object) (s : t) : t :=
  set_objects s (alter f id (objects s)).

(** [char buf[32]; snprintf(buf, sizeof(buf), ":%s#%d", ...)]. *)
Definition conn_suffix (peer : list byte) (id : Z) : list byte :=
  bytes ":" ++ peer ++ bytes "#" ++ decimal id.
Definition conn_name (client_name peer : list byte) (id : Z) : list byte :=
  client_name ++ snprintf 32 (conn_suffix peer id).

Section operations.
Context {B : Build} `{Kernel} `{Sockets} (user : nat -> list TcpConnection.event -> TcpConnection.event -> list TcpConnection.call).

(** The members are gone with the client. *)
Definition member (s : t) : res unit := if alive s then mret tt else Stop UndefinedBehaviour.

(** [remove_connection], the client's or the one of [detail]. *)
Definition remove_connection (id : nat) (s : t) : res t :=
  match objects s !! id with
  | None => Stop UndefinedBehaviour
  | Some o =>
      let queue s := record_destroyed
        (update id (fun o => set_conn o (TcpConnection.queue_in_loop TcpConnection.ConnectDestroyed (conn o))) s) id in
      if to_client o then
        _ ← member s;
        _ ← assert_ (bool_decide (_connection s = Some id));
        let s := queue (set_connection s None) in
        if _retry s && _connect s
        then k ← Connector.restart (_connector s); mret (set_connector s k)
        else mret s
      else mret (queue s)
  end.

Fixpoint remove_times (n : nat) (id : nat) (s : t) : res t :=
  match n with
  | O => mret s
  | S n' => s ← remove_connection id s; remove_times n' id s
  end.

(** The callbacks of a connection are the user's, the close callback apart. *)
Definition callbacks (id : nat) (h : list TcpConnection.event) (e : TcpConnection.event) : list TcpConnection.call :=
  match e with TcpConnection.OnClose => [] | _ => user id h e end.

(** A step of a connection. Its close callback is the last thing [handle_close]
    does, and what a connection does after it does not look at the client, so it
    runs when the step is over. *)
Definition connection_step (id : nat) (i : TcpConnection.input) (s : t) : res t :=
  match objects s !! id with
  | None => Stop UndefinedBehaviour
  | Some o =>
      c ← TcpConnection.step (callbacks id) i (conn o);
      remove_times (TcpConnection.closes (TcpConnection.log c) - TcpConnection.closes (TcpConnection.log (conn o))) id
        (update id (fun o => set_conn o c) s)
  end.

(** [named]: getpeername(2) and getsockname(2) succeed. *)
Definition new_connection (named : bool) (fd : Z) (s : t) : res t :=
  _ ← member s;
  if negb named then Stop Aborted else
  let connName := conn_name (_name s) (peer_text s) (_next_conn_id s) in
  next ← i32_checked (_next_conn_id s + 1);
  let s := set_next_conn_id s next in
  let id := length (objects s) in
  let c := TcpConnection.make fd (_write_complete_callback s) false in
  let s := set_objects s (objects s ++ [mk_object connName fd c true false]) in
  connection_step id TcpConnection.Establish (set_connection s (Some id)).

Fixpoint new_connections (named : bool) (fds : list Z) (s : t) : res t :=
  match fds with
  | [] => mret s
  | fd :: fds' => s ← new_connection named fd s; new_connections named fds' s
  end.

(** An iteration of the loop, as far as the connector is concerned. The new
    connection callback is the last thing [Connector::handle_write] does. *)
Definition iteration (e : option Connector.event) (named : bool) (s : t) : res t :=
  let before := length (Connector.handed (_connector s)) in
  k ← match e with Some e => Connector.run_event e (_connector s) | None => mret (_connector s) end;
  let fresh := take (length (Connector.handed k) - before) (Connector.handed k) in
  s ← new_connections named (rev fresh) (set_connector s k);
  let k := _connector s in
  k ← Connector.run_functors (Connector.pending k) (Connector.set_pending k []);
  mret (set_connector s k).

Definition connect (is_in_loop_thread : bool) (s : t) : res t :=
  _ ← member s;
  let s := set_flags s (_retry s) true in
  k ← Connector.start is_in_loop_thread (_connector s);
  mret (set_connector s k).

Definition disconnect (is_in_loop_thread : bool) (s : t) : res t :=
  _ ← member s;
  let s := set_flags s (_retry s) false in
  match _connection s with
  | None => mret s
  | Some id =>
      match objects s !! id with
      | None => Stop UndefinedBehaviour
      | Some o =>
          c ← TcpConnection.api is_in_loop_thread TcpConnection.shutdown (conn o);
          mret (update id (fun o => set_conn o c) s)
      end
  end.

Definition stop (s : t) : res t :=
  _ ← member s;
  let s := set_flags s (_retry s) false in
  mret (set_connector s (Connector.stop (_connector s))).

Definition enable_retry (s : t) : res t :=
  _ ← member s;
  mret (set_flags s true (_connect s)).

(** ~TcpClient. [unique]: nobody else holds the connection. Without a connection,
    a timer that does nothing keeps the connector. *)
Definition destroy (is_in_loop_thread unique : bool) (s : t) : res t :=
  _ ← member s;
  match _connection s with
  | None => mret (set_dead (set_connector s (Connector.stop (_connector s))))
  | Some id =>
      let s := if is_in_loop_thread then update id (fun o => set_owner o false) s
               else set_pending s (pending s ++ [id]) in
      match objects s !! id with
      | None => Stop UndefinedBehaviour
      | Some o =>
          c ← (if unique then TcpConnection.api is_in_loop_thread TcpConnection.force_close (conn o)
               else mret (conn o));
          mret (set_dead (update id (fun o => set_conn o c) s))
      end
  end.

(** The loop runs the next [set_close_callback]. *)
Definition run_next (s : t) : res t :=
  match pending s with
  | [] => mret s
  | id :: rest => mret (update id (fun o => set_owner o false) (set_pending s rest))
  end.

(** The last reference to a connection goes: ~TcpConnection, and ~Socket closes
    its descriptor. *)
Definition release (id : nat) (s : t) : res t :=
  match objects s !! id with
  | None => Stop UndefinedBehaviour
  | Some o =>
      _ ← assert_ (TcpConnection.disconnected (conn o));
      k ← Connector.close (sock_fd o) (_connector s);
      mret (update id set_closed (set_connector s (Connector.set_handed k
        (filter (fun fd => fd <> sock_fd o) (Connector.handed k)))))
  end.

Inductive input :=
  | EnableRetry
  | Connect (is_in_loop_thread : bool)
  | Disconnect (is_in_loop_thread : bool)
  | Stop_
  | Destroy (is_in_loop_thread unique : bool)
  | Iteration (e : option Connector.event) (named : bool)
  | Next
  | Connection (id : nat) (i : TcpConnection.input)
  | Release (id : nat).
Definition step (i : input) (s : t) : res t :=
  match i with
  | EnableRetry => enable_retry s
  | Connect b => connect b s
  | Disconnect b => disconnect b s
  | Stop_ => stop s
  | Destroy b unique => destroy b unique s
  | Iteration e named => iteration e named s
  | Next => run_next s
  | Connection id i => connection_step id i s
  | Release id => release id s
  end.
Fixpoint run (inputs : list input) (s : t) : res t :=
  match inputs with
  | [] => mret s
  | i :: inputs' => s ← step i s; run inputs' s
  end.
End operations.
End TcpClient.

(** ** Invariants *)

Module TcpClientSpec.
Import TcpClient.
Import ConnectionSpec (outcome, outcome_bind, outcome_mono, log_ok, later, good).
Import TcpConnection (State, Disconnected, Connecting, Connected, _state).

(** The name of the [id]-th connection fits its buffer. *)
Definition fits (peer : list byte) (id : Z) : Prop := (length (conn_suffix peer id) <= 31)%nat.


(** What the client's books say of a connection. *)
Record entry := mk_entry {
  e_name : list byte;
  e_fd : Z;
  e_down : bool;
  e_owned : bool;
  e_closed : bool
}.
Definition entry_of (o : object) : entry :=
  mk_entry (name o) (sock_fd o) (bool_decide (_state (conn o) = Disconnected)) (to_client o) (closed o).
Definition ledger (s : t) : list entry := map entry_of (objects s).

Definition object_ok (o : object) : Prop := ConnectionSpec.inv (conn o) /\ _state (conn o) <> Connecting.

(** The descriptors of the open connections, which are different. *)
Definition owned (l : list entry) (fd : Z) : Prop :=
  exists id x, l !! id = Some x /\ e_closed x = false /\ e_fd x = fd.
Definition once (l : list entry) : Prop :=
  forall i j x y, l !! i = Some x -> l !! j = Some y ->
    e_closed x = false -> e_closed y = false -> e_fd x = e_fd y -> i = j.

Record books (s : t) : Prop := mk_books {
  b_connector : ConnectorSpec.inv (Connector.pending (_connector s)) (_connector s);
  b_objects : Forall object_ok (objects s);
  b_next : _next_conn_id s = 1 + zlen (ledger s);
  b_names id x : ledger s !! id = Some x ->
    fits (peer_text s) (1 + Z.of_nat id) /\ e_name x = conn_name (_name s) (peer_text s) (1 + Z.of_nat id);
  b_closed id x : ledger s !! id = Some x -> e_closed x = true -> e_down x = true;
  b_owned id x : ledger s !! id = Some x -> e_down x = false -> e_owned x = alive s;
  b_current id : alive s = true ->
    _connection s = Some id <-> exists x, ledger s !! id = Some x /\ e_down x = false;
  b_gone id : id ∈ destroyed s <-> exists x, ledger s !! id = Some x /\ e_down x = true;
  b_once : NoDup (destroyed s);
  b_connected : _connection s <> None ->
    Connector._state (_connector s) = Connector.Connected /\
    (_connect s = true -> Connector._connect (_connector s) = true);
  b_dead : alive s = false -> _connection s = None /\
    (Connector._connect (_connector s) = false \/ Connector._state (_connector s) = Connector.Connected);
  b_pending : pending s = [];
  b_fds fd : fd ∈ Connector.handed (_connector s) <-> owned (ledger s) fd;
  b_fds_once : once (ledger s)
}.
(** Between two steps. *)
Definition inv (s : t) : Prop := books s /\ ConnectorSpec.late (_connector s).

Lemma ledger_lookup s id x :
  ledger s !! id = Some x <-> exists o, objects s !! id = Some o /\ x = entry_of o.
Proof. unfold ledger. rewrite list_lookup_fmap, fmap_Some. done. Qed.
Lemma ledger_object s id o : objects s !! id = Some o -> ledger s !! id = Some (entry_of o).
Proof. intros. apply ledger_lookup. by exists o. Qed.
Lemma alter_insert {A} (f : A -> A) (l : list A) i x : l !! i = Some x -> alter f i l = <[i := f x]> l.
Proof. revert i. induction l as [|y l IH]; intros [|i] E; try done; cbn in *; [congruence |]. f_equal. by apply IH. Qed.
Lemma alter_alter {A} (f g : A -> A) (l : list A) i : alter f i (alter g i l) = alter (fun x => f (g x)) i l.
Proof. revert i. induction l as [|y l IH]; intros [|i]; try done; cbn. f_equal. apply IH. Qed.
Lemma objects_update s id f o : objects s !! id = Some o -> objects (update id f s) = <[id := f o]> (objects s).
Proof. apply alter_insert. Qed.
Lemma ledger_update s id f o :
  objects s !! id = Some o -> ledger (update id f s) = <[id := entry_of (f o)]> (ledger s).
Proof. intros Ho. unfold ledger. rewrite (objects_update s id f o Ho). apply list_fmap_insert. Qed.

Lemma insert_lookup {A} (l : list A) id x x' i y :
  l !! id = Some x -> <[id := x']> l !! i = Some y <-> i = id /\ y = x' \/ i <> id /\ l !! i = Some y.
Proof. intros Hx. rewrite list_lookup_insert_Some. apply lookup_lt_Some in Hx. naive_solver. Qed.

(** An entry changes, but its descriptor does not. *)
Lemma insert_fds l id x x' :
  l !! id = Some x -> e_fd x' = e_fd x -> e_closed x' = e_closed x ->
  (forall fd, owned (<[id := x']> l) fd <-> owned l fd) /\ (once l -> once (<[id := x']> l)).
Proof.
  intros Hx Ef Ec.
  assert (Hback : forall i y, <[id := x']> l !! i = Some y -> exists z, l !! i = Some z /\ e_closed z = e_closed y /\ e_fd z = e_fd y).
  { intros i y Hy. apply (insert_lookup _ _ _ _ _ _ Hx) in Hy as [[-> ->]|[_ Hy]]; [by exists x | by exists y]. }
  split.
  - intros fd. split; intros (i & y & Hy & Hcl & Hfd).
    + destruct (Hback i y Hy) as (z & Hz & ? & ?). exists i, z. split; [done |]. split; congruence.
    + destruct (decide (i = id)) as [->|Hi].
      * exists id, x'. rewrite (insert_lookup _ _ _ _ _ _ Hx). assert (y = x) as -> by congruence.
        split; [by left |]. split; congruence.
      * exists i, y. rewrite (insert_lookup _ _ _ _ _ _ Hx). split; [by right | done].
  - intros Honce i j y z Hy Hz Hcy Hcz E.
    destruct (Hback i y Hy) as (y' & Hy' & ? & ?), (Hback j z Hz) as (z' & Hz' & ? & ?).
    apply (Honce i j y' z'); congruence.
Qed.

(** A change of one connection that the books do not see. *)
Lemma books_update s id f o :
  books s -> objects s !! id = Some o -> object_ok (f o) -> entry_of (f o) = entry_of o -> books (update id f s).
Proof.
  intros [] Ho Hok E.
  assert (El : ledger (update id f s) = ledger s).
  { rewrite (ledger_update s id f o Ho), E. by apply list_insert_id, ledger_object. }
  constructor; rewrite ?El; try done. rewrite (objects_update s id f o Ho). by apply Forall_insert.
Qed.

Lemma live_current s id o :
  books s -> alive s = true -> objects s !! id = Some o -> _state (conn o) <> Disconnected -> _connection s = Some id.
Proof.
  intros Hb Ha Ho Hs. apply (b_current _ Hb id Ha). exists (entry_of o). split; [by apply ledger_object |].
  by apply bool_decide_false.
Qed.

(** The live connection goes down. *)
Lemma books_down s id o c :
  books s -> objects s !! id = Some o -> _state (conn o) <> Disconnected ->
  ConnectionSpec.inv c -> _state c = Disconnected ->
  books (record_destroyed (update id (fun o => set_conn o c) (set_connection s None)) id).
Proof.
  intros Hb Ho Hs Hc Hd. set (s1 := record_destroyed _ _).
  assert (El : ledger s1 = <[id := entry_of (set_conn o c)]> (ledger s)) by exact (ledger_update (set_connection s None) id (fun o => set_conn o c) o Ho).
  assert (Hx : ledger s !! id = Some (entry_of o)) by (by apply ledger_object).
  destruct (insert_fds _ id _ (entry_of (set_conn o c)) Hx eq_refl eq_refl) as [Hfds Honce].
  assert (Hup : e_down (entry_of o) = false) by (by apply bool_decide_false).
  assert (Hdown : e_down (entry_of (set_conn o c)) = true) by (by apply bool_decide_true).
  assert (Hlook : forall i y, ledger s1 !! i = Some y <->
    i = id /\ y = entry_of (set_conn o c) \/ i <> id /\ ledger s !! i = Some y).
  { intros i y. rewrite El. by apply (insert_lookup _ _ (entry_of o)). }
  assert (Hcur : alive s = true -> _connection s = Some id) by (intros; by eapply live_current).
  destruct Hb. constructor; cbn [_connector _next_conn_id _connect _connection destroyed alive pending peer_text _name
    s1 record_destroyed update set_objects set_connection]; try done.
  - unfold s1. cbn. rewrite (alter_insert _ _ _ o) by done. apply Forall_insert; [done |].
    split; [done |]. cbn. by rewrite Hd.
  - by rewrite El, length_insert.
  - intros i y [[-> ->]|[_ Hy]]%Hlook; [apply (b_names0 id _ Hx) | by apply b_names0].
  - intros i y [[-> ->]|[_ Hy]]%Hlook; [done | by eapply b_closed0].
  - intros i y [[-> ->]|[_ Hy]]%Hlook; [congruence | by eapply b_owned0].
  - intros i Ha. split; [done |]. intros (y & [[-> ->]|[Hi Hy]]%Hlook & Hyd); [congruence |].
    assert (_connection s = Some i) by (apply b_current0; [done | by exists y]).
    specialize (Hcur Ha). congruence.
  - intros i. rewrite elem_of_cons, b_gone0. split.
    + intros [->|(y & Hy & Hyd)]; [eexists; split; [apply Hlook; auto | done] |].
      exists y. split; [| done]. apply Hlook. right. split; [| done]. intros ->. congruence.
    + intros (y & [[-> ->]|[Hi Hy]]%Hlook & Hyd); [by left | right; by exists y].
  - apply NoDup_cons. split; [| done]. intros (y & Hy & Hyd)%b_gone0. congruence.
  - intros Ha. split; [done | by apply b_dead0].
  - intros fd. rewrite El, Hfds. apply b_fds0.
  - rewrite El. by apply Honce.
Qed.

(** A descriptor arrives. *)
Lemma books_new s k fd c :
  books s -> alive s = true -> _connection s = None ->
  ConnectorSpec.inv (Connector.pending k) k -> ConnectorSpec.gives fd (_connector s) k ->
  fits (peer_text s) (_next_conn_id s) ->
  ConnectionSpec.inv c -> _state c <> Connecting -> _state c <> Disconnected ->
  let o := mk_object (conn_name (_name s) (peer_text s) (_next_conn_id s)) fd c true false in
  books (set_connection (set_objects (set_next_conn_id (set_connector s k) (_next_conn_id s + 1)) (objects s ++ [o]))
    (Some (length (objects s)))).
Proof.
  intros Hb Ha Hn Hk (Eh & Ec & _ & Est) Hf Hc Hnc Hnd o. set (id := length (objects s)). set (s1 := set_connection _ _).
  assert (El : ledger s1 = ledger s ++ [entry_of o]) by exact (map_app entry_of (objects s) [o]).
  assert (Hlen : length (ledger s) = id) by apply length_map.
  assert (Hup : e_down (entry_of o) = false) by (by apply bool_decide_false).
  assert (Hlook : forall i y, ledger s1 !! i = Some y <-> ledger s !! i = Some y \/ i = id /\ y = entry_of o).
  { intros i y. rewrite El, lookup_app_Some, list_lookup_singleton_Some, Hlen. split.
    - intros [?|(? & ? & <-)]; [by left | right; split; [lia | done]].
    - intros [?|[-> ->]]; [by left | right; split; [lia | split; [lia | done]]]. }
  assert (Hfresh : fd ∉ Connector.handed (_connector s)).
  { destruct Hk as [Hs Hnd' _ _ _ _ _ _]. rewrite Est in Hs. destruct Hs as [_ Hp].
    rewrite Hp, Eh in Hnd'. by apply NoDup_cons in Hnd' as []. }
  assert (Hnone : forall i y, ledger s !! i = Some y -> e_down y = true).
  { intros i y Hy. destruct (e_down y) eqn:E; [done |].
    assert (_connection s = Some i) by (apply (b_current _ Hb); [done | by exists y]). congruence. }
  destruct Hb. constructor; cbn [_connector _next_conn_id _connect _connection destroyed alive pending peer_text _name
    s1 set_objects set_connection set_next_conn_id set_connector]; try done.
  - apply Forall_app. split; [done |]. by apply Forall_singleton.
  - rewrite El, length_app, b_next0. cbn. lia.
  - intros i y [Hy|[-> ->]]%Hlook; [by apply b_names0 |].
    replace (1 + Z.of_nat id) with (_next_conn_id s) by lia. done.
  - intros i y [Hy|[-> ->]]%Hlook; [by eapply b_closed0 | done].
  - intros i y [Hy|[-> ->]]%Hlook; [by eapply b_owned0 | done].
  - intros i _. split.
    + intros [= <-]. exists (entry_of o). split; [apply Hlook; auto | done].
    + intros (y & [Hy|[-> ->]]%Hlook & Hyd); [| done]. apply Hnone in Hy. congruence.
  - intros i. rewrite b_gone0. split; intros (y & Hy & Hyd).
    + exists y. split; [apply Hlook; auto | done].
    + apply Hlook in Hy as [Hy|[-> ->]]; [by exists y | congruence].
  - intros E. congruence.
  - intros x. rewrite Eh, elem_of_cons, b_fds0. split.
    + intros [->|(i & y & Hy & ?)]; [exists id, (entry_of o); split; [apply Hlook; auto | done] |].
      exists i, y. split; [apply Hlook; auto | done].
    + intros (i & y & [Hy|[-> ->]]%Hlook & Hcl & Hx); [right; by exists i, y | by left].
  - assert (Hnot : forall i x, ledger s !! i = Some x -> e_closed x = false -> e_fd x <> fd).
    { intros i x Hx Hcx E. apply Hfresh, b_fds0. by exists i, x. }
    intros i j x y [Hi|[-> ->]]%Hlook [Hj|[-> ->]]%Hlook Hcx Hcy E; try done.
    + by apply (b_fds_once0 i j x y).
    + by destruct (Hnot i x Hi Hcx).
    + by destruct (Hnot j y Hj Hcy).
Qed.

(** The connector alone moves. *)
Lemma books_connector s k :
  books s -> ConnectorSpec.inv (Connector.pending k) k -> ConnectorSpec.same (_connector s) k ->
  (Connector._state (_connector s) = Connector.Connected -> Connector._state k = Connector.Connected) ->
  books (set_connector s k).
Proof.
  intros [] Hk [Eh Ec] Hst. constructor; cbn [_connector set_connector]; try done.
  - intros Hc. destruct (b_connected0 Hc) as [? Hcc]. split; [auto |]. intros. rewrite Ec. auto.
  - intros Ha. destruct (b_dead0 Ha) as [? Hd]. split; [done |]. rewrite Ec. naive_solver.
  - by rewrite Eh.
Qed.

(** The connector starts anew: there is no connection. *)
Lemma books_started s k r c :
  books s -> alive s = true -> _connection s = None -> ConnectorSpec.inv (Connector.pending k) k ->
  Connector.handed k = Connector.handed (_connector s) -> books (set_connector (set_flags s r c) k).
Proof.
  intros [] Ha Hn Hk Eh. constructor; cbn [_connector _connection alive set_connector set_flags]; try done.
  - congruence.
  - by rewrite Eh.
Qed.

Lemma books_flags s r c : books s -> (c = true -> _connect s = true) -> books (set_flags s r c).
Proof.
  intros [] Hc. constructor; try done. cbn. intros Hn. destruct (b_connected0 Hn) as [? ?]. auto.
Qed.

(** A connection that is over is destroyed, and its descriptor closed. *)
Lemma books_release s id o k :
  books s -> objects s !! id = Some o -> _state (conn o) = Disconnected -> closed o = false ->
  ConnectorSpec.inv (Connector.pending k) (ConnectorSpec.release (sock_fd o) k) ->
  ConnectorSpec.same (_connector s) k -> Connector._state k = Connector._state (_connector s) ->
  books (update id set_closed (set_connector s (ConnectorSpec.release (sock_fd o) k))).
Proof.
  intros Hb Ho Hd Hcl Hk [Eh Ec] Est. set (s1 := update _ _ _).
  assert (El : ledger s1 = <[id := entry_of (set_closed o)]> (ledger s)) by exact (ledger_update s id set_closed o Ho).
  assert (Hx : ledger s !! id = Some (entry_of o)) by (by apply ledger_object).
  assert (Hdown : e_down (entry_of o) = true) by (by apply bool_decide_true).
  assert (Hlook : forall i y, ledger s1 !! i = Some y <->
    i = id /\ y = entry_of (set_closed o) \/ i <> id /\ ledger s !! i = Some y).
  { intros i y. rewrite El. by apply (insert_lookup _ _ (entry_of o)). }
  destruct Hb. constructor; cbn [_connector _next_conn_id _connect _connection destroyed alive pending peer_text _name
    s1 update set_objects set_connector]; try done.
  - unfold s1. cbn. rewrite (alter_insert _ _ _ o) by done. apply Forall_insert; [done |].
    by apply (Forall_lookup_1 _ _ _ _ b_objects0 Ho).
  - by rewrite El, length_insert.
  - intros i y [[-> ->]|[_ Hy]]%Hlook; [apply (b_names0 id _ Hx) | by apply b_names0].
  - intros i y [[-> ->]|[_ Hy]]%Hlook; [done | by eapply b_closed0].
  - intros i y [[-> ->]|[_ Hy]]%Hlook; [by cbn in *; congruence | by eapply b_owned0].
  - intros i Ha. rewrite b_current0 by done. split; intros (y & Hy & Hyd).
    + exists y. split; [| done]. apply Hlook. right. split; [| done]. intros ->. congruence.
    + apply Hlook in Hy as [[-> ->]|[_ Hy]]; [by cbn in *; congruence | by exists y].
  - intros i. rewrite b_gone0. split; intros (y & Hy & Hyd).
    + destruct (decide (i = id)) as [->|]; [| exists y; split; [apply Hlook; auto | done]].
      eexists. split; [apply Hlook; auto | done].
    + apply Hlook in Hy as [[-> ->]|[_ Hy]]; [by exists (entry_of o) | by exists y].
  - intros Hn. destruct (b_connected0 Hn) as [? Hcc]. cbn. rewrite Est, Ec. auto.
  - intros Ha. destruct (b_dead0 Ha) as [? ?]. cbn. by rewrite Est, Ec.
  - intros fd. cbn. rewrite list_elem_of_filter, Eh, b_fds0. split.
    + intros (Hne & i & y & Hy & Hc & Hfd). exists i, y. split; [| done]. apply Hlook. right.
      split; [| done]. intros ->. assert (y = entry_of o) as -> by congruence. by apply Hne.
    + intros (i & y & [[-> ->]|[Hi Hy]]%Hlook & Hc & Hfd); [done |]. split; [| by exists i, y].
      intros ->. apply Hi. by apply (b_fds_once0 i id y (entry_of o)).
  - intros i j x y [[-> ->]|[_ Hi]]%Hlook [[-> ->]|[_ Hj]]%Hlook Hcx Hcy E; try done.
    by apply (b_fds_once0 i j x y).
Qed.

(** The client is gone; its connection lives on, if it has one. *)
Lemma books_dead s id o c :
  books s -> alive s = true -> _connection s = Some id -> objects s !! id = Some o ->
  ConnectionSpec.inv c -> _state c <> Connecting -> _state c <> Disconnected ->
  books (set_dead (update id (fun o => set_owner (set_conn o c) false) s)).
Proof.
  intros Hb Ha Hcur Ho Hc Hnc Hnd. set (f := fun o => _). set (s1 := set_dead _).
  assert (El : ledger s1 = <[id := entry_of (f o)]> (ledger s)) by exact (ledger_update s id f o Ho).
  assert (Hx : ledger s !! id = Some (entry_of o)) by (by apply ledger_object).
  destruct (insert_fds _ id _ (entry_of (f o)) Hx eq_refl eq_refl) as [Hfds Honce].
  assert (Hup : e_down (entry_of (f o)) = false) by (by apply bool_decide_false).
  assert (Hlook : forall i y, ledger s1 !! i = Some y <->
    i = id /\ y = entry_of (f o) \/ i <> id /\ ledger s !! i = Some y).
  { intros i y. rewrite El. by apply (insert_lookup _ _ (entry_of o)). }
  assert (Hone : forall i y, i <> id -> ledger s !! i = Some y -> e_down y = true).
  { intros i y Hi Hy. destruct (e_down y) eqn:E; [done |].
    assert (_connection s = Some i) by (apply (b_current _ Hb i Ha); by exists y). congruence. }
  assert (Hupo : e_down (entry_of o) = false).
  { destruct (proj1 (b_current _ Hb id Ha) Hcur) as (y & Hy & Hyd). congruence. }
  destruct Hb. constructor; cbn [_connector _next_conn_id _connect _connection destroyed alive pending peer_text _name
    s1 update set_objects set_dead]; try done.
  - unfold s1. cbn. rewrite (alter_insert _ _ _ o) by done. by apply Forall_insert.
  - by rewrite El, length_insert.
  - intros i y [[-> ->]|[_ Hy]]%Hlook; [apply (b_names0 id _ Hx) | by apply b_names0].
  - intros i y [[-> ->]|[_ Hy]]%Hlook; [| by eapply b_closed0].
    intros Hcl. apply (b_closed0 id (entry_of o) Hx) in Hcl. congruence.
  - intros i y [[-> ->]|[Hi Hy]]%Hlook Hyd; [done |]. by rewrite (Hone i y Hi Hy) in Hyd.
  - intros i. rewrite b_gone0. split; intros (y & Hy & Hyd).
    + exists y. split; [| done]. apply Hlook. right. split; [| done]. intros ->. congruence.
    + apply Hlook in Hy as [[-> ->]|[_ Hy]]; [congruence | by exists y].
  - intros _. split; [done |]. right. apply b_connected0. congruence.
  - intros fd. rewrite El, Hfds. apply b_fds0.
  - rewrite El. by apply Honce.
Qed.

Section operations.
Context {B : Build} `{KernelLaws} `{SocketsLaws}.
Context (user : nat -> list TcpConnection.event -> TcpConnection.event -> list TcpConnection.call).
Context (Hshut : forall i, k_shutdown i = true).
Context (Huser : forall id h e st, ConnectionSpec.possible e st -> Forall (ConnectionSpec.call_ok true st) (user id h e)).

Lemma client_callbacks_polite id h e st :
  ConnectionSpec.possible e st -> Forall (ConnectionSpec.call_ok true st) (callbacks user id h e).
Proof. intros Hp. destruct e; [by apply Huser .. | constructor]. Qed.

Lemma object_of s id o : books s -> objects s !! id = Some o -> object_ok o.
Proof. intros Hb Ho. exact (Forall_lookup_1 _ _ _ _ (b_objects _ Hb) Ho). Qed.

Lemma succeeds_outcome {A} (Q : A -> Prop) m : ConnectorSpec.succeeds m Q -> outcome Q m.
Proof. by intros (a & -> & Ha). Qed.

(** A connection has gone down: the books afterwards. *)
Definition gone (s : t) (id : nat) (c : TcpConnection.t) : t :=
  record_destroyed (update id
    (fun o => set_conn o (TcpConnection.queue_in_loop TcpConnection.ConnectDestroyed c)) (set_connection s None)) id.

Lemma gone_ok s id o c :
  books s -> objects s !! id = Some o -> _state (conn o) <> Disconnected ->
  ConnectionSpec.inv c -> _state c = Disconnected -> books (gone s id c).
Proof.
  intros Hb Ho Hs [Hcore Hlog] Hd. apply (books_down s id o); try done.
  constructor; [by apply ConnectionSpec.core_queue | done].
Qed.

(** What the close callback of the live connection does. *)
Lemma remove_connection_eq s id o c :
  books s -> objects s !! id = Some o -> _state (conn o) <> Disconnected ->
  remove_connection id (update id (fun o => set_conn o c) s) =
    if alive s && (_retry s && _connect s)
    then k ← Connector.restart (_connector s); mret (set_connector (gone s id c) k)
    else mret (gone s id c).
Proof.
  intros Hb Ho Hs. unfold remove_connection.
  rewrite (objects_update _ _ _ o Ho), list_lookup_insert_eq by (by eapply lookup_lt_Some).
  cbn [to_client set_conn].
  assert (Eo : to_client o = alive s).
  { apply (b_owned _ Hb id (entry_of o)); [by apply ledger_object | by apply bool_decide_false]. }
  rewrite Eo. destruct (alive s) eqn:Ha; cbn [andb].
  - unfold member. cbn [alive update set_objects]. rewrite Ha. cbn [mbind res_bind mret res_ret].
    assert (Hcur : _connection s = Some id) by (by eapply live_current).
    rewrite assert_true by (by apply bool_decide_true). cbn [mbind res_bind _connection _retry _connect].
    match goal with |- context [record_destroyed ?x id] => assert (record_destroyed x id = gone s id c) as -> end.
    { unfold gone, update, set_connection, set_objects, record_destroyed. cbn. f_equal. apply alter_alter. }
    done.
  - destruct (b_dead _ Hb Ha) as [Hnone _]. cbn [mret res_ret]. f_equal.
    unfold gone, update, set_connection, set_objects, record_destroyed. cbn. rewrite Hnone. f_equal. apply alter_alter.
Qed.

Lemma restart_allowed s id o :
  inv s -> objects s !! id = Some o -> _state (conn o) <> Disconnected -> alive s = true -> _connect s = true ->
  ConnectorSpec.input_ok Connector.Restart (_connector s).
Proof.
  intros [Hb Hl] Ho Hs Ha Hcon. assert (Hcur : _connection s = Some id) by (by eapply live_current).
  destruct (b_connected _ Hb) as [Hst Hcc]; [congruence |].
  cbn. split_and!; [done | auto |]. intros Hr. rewrite (Hl Hr) in Hcc. by specialize (Hcc Hcon).
Qed.

Lemma closing_ok s id o c :
  inv s -> objects s !! id = Some o -> _state (conn o) <> Disconnected ->
  ConnectionSpec.inv c -> _state c = Disconnected ->
  outcome inv (remove_connection id (update id (fun o => set_conn o c) s)).
Proof.
  intros Hi Ho Hs Hc Hd. destruct Hi as [Hb Hl]. rewrite (remove_connection_eq s id o c Hb Ho Hs).
  pose proof (gone_ok s id o c Hb Ho Hs Hc Hd) as Hg.
  destruct (alive s && (_retry s && _connect s)) eqn:Hr; [| by split].
  apply andb_true_iff in Hr as [Ha [_ Hcon]%andb_true_iff].
  pose proof (restart_allowed s id o (conj Hb Hl) Ho Hs Ha Hcon) as Hin.
  destruct (ConnectorSpec.connector_step_ok Connector.Restart _ (b_connector _ Hb) Hl Hin) as (k & Ek & Hk & Hkl).
  cbn in Ek. rewrite Ek. cbn [mbind res_bind outcome]. split; [| done].
  exact (books_started (gone s id c) k (_retry s) (_connect s) Hg Ha eq_refl Hk
    (proj1 (ConnectorSpec.start_in_loop_same _ _ Ek))).
Qed.

(** A step that brings the connection down ends with that callback. *)
Lemma connection_step_down s id o i c :
  books s -> objects s !! id = Some o -> i <> TcpConnection.Establish -> ConnectionSpec.input_ok i (conn o) ->
  _state (conn o) <> Disconnected -> TcpConnection.step (callbacks user id) i (conn o) = Ret c ->
  _state c = Disconnected ->
  connection_step user id i s = remove_connection id (update id (fun o => set_conn o c) s).
Proof.
  intros Hb Ho Hne Hin Hs E Hd. destruct (object_of s id o Hb Ho) as [Hinv Hnc].
  unfold connection_step. rewrite Ho, E. cbn [mbind res_bind].
  pose proof (ConnectionSpec.step_good Hshut (callbacks user id) (client_callbacks_polite id) i (conn o) Hinv Hin) as Hg.
  rewrite E in Hg. destruct Hg as [Hinv' _].
  rewrite (ConnectionSpec.closes_log _ _ (ConnectionSpec.inv_log _ Hinv)),
    (ConnectionSpec.closes_log _ _ (ConnectionSpec.inv_log _ Hinv')).
  rewrite bool_decide_true, bool_decide_false by done. cbn [Nat.sub remove_times].
  by destruct (remove_connection _ _).
Qed.

Lemma client_connection_ok s id o i :
  inv s -> objects s !! id = Some o -> i <> TcpConnection.Establish -> ConnectionSpec.input_ok i (conn o) ->
  outcome inv (connection_step user id i s).
Proof.
  intros Hi Ho Hne Hin. destruct Hi as [Hb Hl]. destruct (object_of s id o Hb Ho) as [Hinv Hnc].
  unfold connection_step. rewrite Ho.
  pose proof (ConnectionSpec.step_good Hshut (callbacks user id) (client_callbacks_polite id) i (conn o) Hinv Hin) as Hg.
  destruct (TcpConnection.step (callbacks user id) i (conn o)) as [c|]; [| done]. cbn [mbind res_bind].
  destruct Hg as [Hinv' [Hdown Hfresh]]. specialize (Hfresh Hnc).
  rewrite (ConnectionSpec.closes_log _ _ (ConnectionSpec.inv_log _ Hinv)),
    (ConnectionSpec.closes_log _ _ (ConnectionSpec.inv_log _ Hinv')).
  destruct (decide (_state (conn o) = Disconnected)) as [Hs|Hs], (decide (_state c = Disconnected)) as [Hs'|Hs'].
  - rewrite !bool_decide_true by done. cbn. split; [| done]. apply (books_update s id _ o); try done.
    unfold entry_of. cbn. by rewrite !bool_decide_true.
  - by destruct Hs'; apply Hdown.
  - rewrite bool_decide_true, bool_decide_false by done. cbn [Nat.sub remove_times].
    pose proof (closing_ok s id o c (conj Hb Hl) Ho Hs Hinv' Hs') as Hok. by destruct (remove_connection _ _).
  - rewrite !bool_decide_false by done. cbn. split; [| done]. apply (books_update s id _ o); try done.
    unfold entry_of. cbn. by rewrite !bool_decide_false.
Qed.

Lemma client_new_connection_ok s k fd :
  books s -> alive s = true -> _connection s = None ->
  ConnectorSpec.inv (Connector.pending k) k -> ConnectorSpec.gives fd (_connector s) k ->
  fits (peer_text s) (_next_conn_id s) -> _next_conn_id s < 2147483647 ->
  outcome (fun s' => books s' /\ _connector s' = k) (new_connection user true fd (set_connector s k)).
Proof.
  intros Hb Ha Hn Hk Hg Hf Hmax. unfold new_connection, member. cbn [alive set_connector]. rewrite Ha.
  cbn [mbind res_bind mret res_ret negb _next_conn_id set_connector]. pose proof (b_next _ Hb) as Hnext.
  rewrite i32_checked_Ret by lia. cbn [mbind res_bind].
  set (c0 := TcpConnection.make fd _ false). unfold connection_step.
  cbn [objects set_connection set_objects set_next_conn_id set_connector _name peer_text].
  rewrite lookup_app_r, Nat.sub_diag by done. cbn [lookup list_lookup conn].
  pose proof (ConnectionSpec.connect_established_ok Hshut (callbacks user (length (objects s)))
    (client_callbacks_polite _) c0 (ConnectionSpec.make_inv _ _ _) eq_refl) as Hest.
  cbn [TcpConnection.step]. destruct (TcpConnection.connect_established _ c0) as [c|]; [| done].
  destruct Hest as (Hc & Hnc & Hnd). cbn [mbind res_bind].
  rewrite (ConnectionSpec.closes_log _ _ (ConnectionSpec.inv_log _ Hc)), bool_decide_false by done.
  change (TcpConnection.closes (TcpConnection.log c0)) with 0%nat. cbn [Nat.sub remove_times mret res_ret outcome].
  split; [| done]. unfold update. cbn [objects set_connection set_objects set_next_conn_id].
  rewrite alter_app_r_alt, Nat.sub_diag by done.
  exact (books_new s k fd c Hb Ha Hn Hk Hg Hf Hc Hnc Hnd).
Qed.

Lemma client_iteration_ok e s :
  inv s -> fits (peer_text s) (_next_conn_id s) -> _next_conn_id s < 2147483647 ->
  outcome inv (iteration user e true s).
Proof.
  intros [Hb Hl] Hf Hmax. unfold iteration. pose proof (b_connector _ Hb) as Hk. set (k := _connector s) in *.
  assert (Hev : exists k1, match e with Some e => Connector.run_event e k | None => mret k end = Ret k1 /\
    ConnectorSpec.inv (Connector.pending k1) k1 /\
    (ConnectorSpec.same k k1 \/ exists fd, ConnectorSpec.gives fd k k1) /\
    (Connector._state k = Connector.Connected -> k1 = k)).
  { destruct e as [e|]; [| exists k; split_and!; try done; by left].
    destruct (ConnectorSpec.run_event_ok e k Hk Hl) as (k1 & E & Hk1). exists k1.
    split_and!; [done | done | by eapply ConnectorSpec.run_event_gives |]. intros Hst.
    rewrite (ConnectorSpec.run_event_connected _ e k Hk Hst) in E. congruence. }
  destruct Hev as (k1 & -> & Hk1 & Hgive & Hstay). cbn [mbind res_bind].
  assert (Hcall : outcome (fun s' => books s' /\ _connector s' = k1)
    (new_connections user true (rev (take (length (Connector.handed k1) - length (Connector.handed k)) (Connector.handed k1)))
       (set_connector s k1))).
  { destruct Hgive as [Hs|(fd & Hg)].
    - replace (Connector.handed k1) with (Connector.handed k) by (symmetry; apply Hs).
      rewrite Nat.sub_diag. cbn. split; [| done]. apply books_connector; try done. intros E. by rewrite (Hstay E).
    - pose proof Hg as (Eh & _ & Hcon & _). rewrite Eh. cbn [length].
      replace (S _ - _)%nat with 1%nat by lia. rewrite firstn_cons, firstn_O.
      cbn [rev app new_connections].
      assert (Hne : Connector._state k <> Connector.Connected).
      { intros E. rewrite (Hstay E) in Eh. apply (f_equal length) in Eh. cbn in Eh. lia. }
      assert (Hnone : _connection s = None).
      { destruct (_connection s) eqn:Ec; [| done]. destruct (b_connected _ Hb); [congruence | done]. }
      assert (Ha : alive s = true).
      { destruct (alive s) eqn:Ea; [done |]. destruct (b_dead _ Hb Ea) as [_ [E|E]]; [| by destruct Hne].
        change (Connector._connect k = false) in E. congruence. }
      pose proof (client_new_connection_ok s k1 fd Hb Ha Hnone Hk1 Hg Hf Hmax) as Hok.
      by destruct (new_connection _ _ _ _). }
  eapply outcome_bind; [exact Hcall |]. intros s1 [Hb1 E1]. rewrite E1.
  destruct (ConnectorSpec.connector_run_functors_ok (Connector.pending k1) (Connector.set_pending k1 []))
    as (k2 & E2 & Hk2 & Hl2).
  { cbn. rewrite app_nil_r. destruct Hk1. by constructor. }
  { by intros ?%elem_of_nil. }
  rewrite E2. cbn [mbind res_bind outcome].
  split; [| done]. apply books_connector; [done | done | |]; rewrite E1.
  - apply ConnectorSpec.run_functors_same in E2. exact E2.
  - intros Hst. eapply ConnectorSpec.run_functors_connected; [| | exact E2]; [| done].
    intros Hin. destruct (ConnectorSpec.v_start _ _ Hk1 Hin). congruence.
Qed.

Lemma client_disconnect_ok b s : inv s -> alive s = true -> outcome inv (disconnect b s).
Proof.
  intros [Hb Hl] Ha. unfold disconnect, member. rewrite Ha. cbn [mbind res_bind mret res_ret _connection set_flags objects].
  assert (Hb1 : books (set_flags s (_retry s) false)) by (by apply books_flags).
  destruct (_connection s) as [id|] eqn:Hc; [| by split].
  destruct (proj1 (b_current _ Hb id Ha) Hc) as (x & (o & Ho & ->)%ledger_lookup & Hup).
  rewrite Ho. destruct (object_of s id o Hb Ho) as [Hi Hnc].
  eapply outcome_bind.
  - by apply (ConnectionSpec.api_ok Hshut b TcpConnection.shutdown); [apply Hi | |].
  - intros c [Hcore Hcalm]. split; [| done]. apply (books_update _ id _ o); try done.
    + split; [apply (ConnectionSpec.calm_good _ _ Hi); done |]. cbn. by rewrite (ConnectionSpec.m_fresh _ _ Hcalm).
    + unfold entry_of. cbn. f_equal. apply bool_decide_ext, Hcalm.
Qed.

Lemma client_stop_ok s : inv s -> alive s = true -> outcome inv (stop s).
Proof.
  intros [Hb Hl] Ha. unfold stop, member. rewrite Ha. cbn [mbind res_bind mret res_ret outcome].
  destruct (ConnectorSpec.connector_step_ok Connector.Stop_ _ (b_connector _ Hb) Hl I) as (k & E & Hk & Hkl).
  injection E as <-. split; [| done]. destruct Hb. constructor; try done; cbn.
  - intros Hc. split; [by apply b_connected0 | done].
  - intros. cbn in *. congruence.
Qed.

Lemma client_connect_ok b s :
  inv s -> alive s = true -> ConnectorSpec.input_ok (Connector.Start b) (_connector s) -> outcome inv (connect b s).
Proof.
  intros [Hb Hl] Ha Hin. unfold connect, member. rewrite Ha. cbn [mbind res_bind mret res_ret].
  destruct (ConnectorSpec.connector_step_ok (Connector.Start b) _ (b_connector _ Hb) Hl Hin) as (k & E & Hk & Hkl).
  cbn [_connector set_flags]. cbn [Connector.step] in E. rewrite E. cbn [mbind res_bind outcome]. split; [| done].
  apply books_started; try done.
  - destruct (_connection s) eqn:Hc; [| done]. destruct (b_connected _ Hb) as [Hst _]; [congruence |].
    destruct Hin as [Hst' _]. congruence.
  - unfold Connector.start in E. destruct b; [by apply ConnectorSpec.start_in_loop_same in E as [] | by injection E as <-].
Qed.

(** The destructor, in the loop's thread. *)
Lemma client_destroy_ok unique s : inv s -> alive s = true -> outcome inv (destroy true unique s).
Proof.
  intros [Hb Hl] Ha. unfold destroy, member. rewrite Ha. cbn [mbind res_bind mret res_ret].
  destruct (_connection s) as [id|] eqn:Hc.
  - destruct (proj1 (b_current _ Hb id Ha) Hc) as (x & (o & Ho & ->)%ledger_lookup & Hup).
    assert (Hs : _state (conn o) <> Disconnected) by (by apply bool_decide_eq_false in Hup).
    destruct (object_of s id o Hb Ho) as [Hi Hnc]. rewrite (objects_update _ _ _ o Ho).
    rewrite list_lookup_insert_eq by (by eapply lookup_lt_Some). cbn [conn set_owner].
    eapply (outcome_bind (fun c => ConnectionSpec.inv c /\ _state c <> Connecting /\ _state c <> Disconnected)).
    + destruct unique; [| done].
      eapply outcome_mono; [by apply (ConnectionSpec.api_ok Hshut true TcpConnection.force_close); [apply Hi | |] |].
      intros c Hcc. destruct (ConnectionSpec.calm_good _ _ Hi Hcc) as [Hic _]. destruct Hcc as [_ Hcalm].
      by rewrite (ConnectionSpec.m_fresh _ _ Hcalm), (ConnectionSpec.m_closed _ _ Hcalm).
    + intros c (Hic & Hcc & Hcd). cbn [outcome mret res_ret]. split; [| done].
      replace (set_dead _) with (set_dead (update id (fun o => set_owner (set_conn o c) false) s)).
      { by apply (books_dead s id o c). }
      unfold update, set_dead. cbn. f_equal. symmetry. apply alter_alter.
  - destruct (ConnectorSpec.connector_step_ok Connector.Stop_ _ (b_connector _ Hb) Hl I) as (k & E & Hk & Hkl).
    injection E as <-. split; [| done]. destruct Hb. constructor; try done; cbn.
    + intros id x Hx Hup. assert (_connection s = Some id) by (apply b_current0; [done | by exists x]). congruence.
    + intros _. auto.
Qed.

Lemma client_release_ok id o s :
  inv s -> objects s !! id = Some o -> _state (conn o) = Disconnected -> closed o = false ->
  outcome inv (release id s).
Proof.
  intros [Hb Hl] Ho Hd Hc. unfold release, TcpConnection.disconnected. rewrite Ho.
  rewrite assert_true by (by apply bool_decide_true). cbn [mbind res_bind].
  destruct (ConnectorSpec.release_ok _ (sock_fd o) _ (b_connector _ Hb)) as (k & -> & Hk & Hs & Hst & Hp).
  { apply (b_fds _ Hb). exists id, (entry_of o). split; [by apply ledger_object | done]. }
  cbn [mbind res_bind outcome mret res_ret]. split.
  - apply (books_release s id o k); try done. by rewrite Hp.
  - intros Hin. cbn. destruct Hs as [_ ->]. apply Hl. cbn in Hin. by rewrite Hp in Hin.
Qed.

(** *** Histories *)

(** How a client may be used: by its owner until it is destroyed, in the loop's
    thread; [connect()] when the connector is idle. A connection goes when nothing
    that is queued refers to it. *)
Definition input_ok (i : input) (s : t) : Prop :=
  match i with
  | EnableRetry | Disconnect _ | Stop_ => alive s = true
  | Connect b => alive s = true /\ ConnectorSpec.input_ok (Connector.Start b) (_connector s)
  | Destroy b _ => alive s = true /\ b = true
  | Iteration _ named => named = true /\ fits (peer_text s) (_next_conn_id s) /\ _next_conn_id s < 2147483647
  | Next => True
  | Connection id i => exists o, objects s !! id = Some o /\ closed o = false /\
      i <> TcpConnection.Establish /\ ConnectionSpec.input_ok i (conn o)
  | Release id => exists o, objects s !! id = Some o /\ closed o = false /\
      _state (conn o) = Disconnected /\ TcpConnection.pending (conn o) = []
  end.
Fixpoint allowed (inputs : list input) (s : t) : Prop :=
  match inputs with
  | [] => True
  | i :: inputs' => input_ok i s /\ forall s', step user i s = Ret s' -> allowed inputs' s'
  end.

Lemma client_step_ok i s : inv s -> input_ok i s -> outcome inv (step user i s).
Proof.
  intros Hi Hin. destruct i as [|b|b| |b u|e named| |id i|id]; cbn [step]; cbn [input_ok] in Hin.
  - unfold enable_retry, member. rewrite Hin. cbn. split; [| apply Hi]. by apply books_flags; [apply Hi |].
  - destruct Hin. by apply client_connect_ok.
  - by apply client_disconnect_ok.
  - by apply client_stop_ok.
  - destruct Hin as [? ->]. by apply client_destroy_ok.
  - destruct Hin as (-> & ? & ?). by apply client_iteration_ok.
  - unfold run_next. by rewrite (b_pending _ (proj1 Hi)).
  - destruct Hin as (o & ? & _ & ? & ?). by eapply client_connection_ok.
  - destruct Hin as (o & ? & ? & ? & _). by eapply client_release_ok.
Qed.

Lemma client_run_ok inputs s : inv s -> allowed inputs s -> outcome inv (run user inputs s).
Proof.
  revert s. induction inputs as [|i inputs IH]; intros s Hi Hall; [done |].
  destruct Hall as [Hin Hall]. cbn [run].
  pose proof (client_step_ok i s Hi Hin) as H1'. destruct (step user i s) as [s1|] eqn:E; [| done].
  cbn [mbind res_bind]. apply IH; [done |]. by apply Hall.
Qed.

Lemma client_make_inv name peer wc : inv (make name peer wc).
Proof.
  split; [| by intros ?%elem_of_nil]. constructor; cbn; try done.
  - apply ConnectorSpec.connector_make_inv.
  - intros id _. split; [done |]. by intros (x & ? & _).
  - intros id. rewrite elem_of_nil. split; [done |]. by intros (x & ? & _).
  - apply NoDup_nil_2.
  - intros fd. rewrite elem_of_nil. split; [done |]. by intros (id & x & ? & _).
Qed.

Lemma client_reached inputs name peer wc s :
  allowed inputs (make name peer wc) -> run user inputs (make name peer wc) = Ret s -> inv s.
Proof. intros Hall E. pose proof (client_run_ok inputs _ (client_make_inv name peer wc) Hall) as Hok. by rewrite E in Hok. Qed.
End operations.
End TcpClientSpec.

(** ** The properties *)

Module TcpClientProps.
Import TcpClient TcpClientSpec.
Import ConnectionSpec (outcome, outcome_bind, outcome_mono, log_ok).
Import TcpConnection (State, Disconnected, Connecting, Connected, _state).


(** Reconnecting. When the connection goes down and the client is to retry and
    has not been told otherwise, the connector makes a new attempt within the same
    step: it is connecting, or it waits half a second when connect(2) fails in a
    way that may pass, or it gives up. Otherwise it is left as it is. *)
Theorem client_reconnects {B : Build} `{KernelLaws} `{SocketsLaws} user inputs client_name peer wc s id o i c
    (Hshut : forall i, k_shutdown i = true) (Huser : forall id, ConnectionProps.polite (user id))
    (Hinputs : allowed user inputs (make client_name peer wc))
    (Hrun : run user inputs (make client_name peer wc) = Ret s) (Halive : alive s = true)
    (Ho : objects s !! id = Some o) (Hup : _state (conn o) <> Disconnected)
    (Hi : i <> TcpConnection.Establish) (Hin : ConnectionSpec.input_ok i (conn o))
    (Hstep : TcpConnection.step (callbacks user id) i (conn o) = Ret c) (Hdown : _state c = Disconnected) :
  exists s', step user (Connection id i) s = Ret s' /\ _connection s' = None /\ destroyed s' = id :: destroyed s /\
    if _retry s && _connect s
    then ConnectorSpec.attempted (k_connect (S (Connector.calls (_connector s)))) (_connector s')
    else _connector s' = _connector s.
Proof.
  pose proof (client_reached user Hshut Huser inputs client_name peer wc s Hinputs Hrun) as Hs.
  pose proof Hs as [Hb Hl]. cbn [step].
  rewrite (connection_step_down user Hshut Huser s id o i c Hb Ho Hi Hin Hup Hstep Hdown).
  rewrite (remove_connection_eq s id o c Hb Ho Hup), Halive. cbn [andb].
  destruct (_retry s && _connect s) eqn:Hr; [| by eexists].
  apply andb_true_iff in Hr as [_ Hcon].
  pose proof (restart_allowed s id o Hs Ho Hup Halive Hcon) as Hok.
  destruct (ConnectorSpec.connector_step_ok Connector.Restart _ (b_connector _ Hb) Hl Hok) as (k & Ek & _).
  cbn in Ek. rewrite Ek. eexists. split; [reflexivity |]. split_and!; [done | done |].
  by apply (ConnectorSpec.restart_attempts _ _ _ (b_connector _ Hb) (proj1 Hok)).
Qed.

(** A client cannot connect a second time. When its connection has gone down
    and it is not to retry, the connector stays in the state Connected, and the
    next [connect()] fails the assertion of [start_in_loop]. *)
Theorem client_cannot_connect_again {B : Build} `{KernelLaws} `{SocketsLaws} user inputs client_name peer wc s id o i c
    (Hshut : forall i, k_shutdown i = true) (Huser : forall id, ConnectionProps.polite (user id))
    (Hinputs : allowed user inputs (make client_name peer wc))
    (Hrun : run user inputs (make client_name peer wc) = Ret s) (Halive : alive s = true)
    (Ho : objects s !! id = Some o) (Hup : _state (conn o) <> Disconnected)
    (Hi : i <> TcpConnection.Establish) (Hin : ConnectionSpec.input_ok i (conn o))
    (Hstep : TcpConnection.step (callbacks user id) i (conn o) = Ret c) (Hdown : _state c = Disconnected)
    (Hretry : _retry s && _connect s = false) (Hdebug : ndebug = false) :
  (s' ← step user (Connection id i) s; step user (Connect true) s') = Stop AssertionFailed.
Proof.
  pose proof (client_reached user Hshut Huser inputs client_name peer wc s Hinputs Hrun) as [Hb Hl]. cbn [step].
  rewrite (connection_step_down user Hshut Huser s id o i c Hb Ho Hi Hin Hup Hstep Hdown).
  rewrite (remove_connection_eq s id o c Hb Ho Hup), Hretry, andb_false_r. cbn [mbind res_bind mret res_ret].
  destruct (b_connected _ Hb) as [Hst _]; [by rewrite (live_current s id o) |].
  unfold connect, member. change (alive (gone s id c)) with (alive s). rewrite Halive.
  cbn [mbind res_bind mret res_ret]. change (_connector (set_flags _ _ _)) with (_connector s).
  unfold Connector.start, Connector.start_in_loop. cbn [Connector._state Connector.set_connect]. rewrite Hst.
  unfold assert_. by rewrite Hdebug.
Qed.

(** A client must not be destroyed by another thread. The destructor then only
    queues the change of the close callback; when the connection goes down before
    the loop has run it, [TcpClient::remove_connection] is called on a client
    that is gone. *)
Theorem client_destroyed_elsewhere {B : Build} `{KernelLaws} `{SocketsLaws} user inputs client_name peer wc s id o i c
    (Hshut : forall i, k_shutdown i = true) (Huser : forall id, ConnectionProps.polite (user id))
    (Hinputs : allowed user inputs (make client_name peer wc))
    (Hrun : run user inputs (make client_name peer wc) = Ret s) (Halive : alive s = true)
    (Ho : objects s !! id = Some o) (Hup : _state (conn o) <> Disconnected)
    (Hi : i <> TcpConnection.Establish) (Hin : ConnectionSpec.input_ok i (conn o))
    (Hstep : TcpConnection.step (callbacks user id) i (conn o) = Ret c) (Hdown : _state c = Disconnected) :
  (s' ← step user (Destroy false false) s; step user (Connection id i) s') = Stop UndefinedBehaviour.
Proof.
  pose proof (client_reached user Hshut Huser inputs client_name peer wc s Hinputs Hrun) as [Hb Hl]. cbn [step].
  unfold destroy, member. rewrite Halive, (live_current s id o) by done. cbn [mbind res_bind mret res_ret].
  change (objects (set_pending s _)) with (objects s). rewrite Ho. cbn [mbind res_bind mret res_ret].
  unfold connection_step. set (s1 := set_dead _).
  assert (E1 : objects s1 !! id = Some (set_conn o (conn o))).
  { unfold s1. cbn. by rewrite list_lookup_alter_eq, Ho. }
  rewrite E1. cbn [conn set_conn]. rewrite Hstep. cbn [mbind res_bind].
  destruct (object_of s id o Hb Ho) as [Hinv Hnc].
  pose proof (ConnectionSpec.step_good Hshut (callbacks user id) (client_callbacks_polite user Huser id)
    i (conn o) Hinv Hin) as Hg. rewrite Hstep in Hg. destruct Hg as [Hinv' _].
  rewrite (ConnectionSpec.closes_log _ _ (ConnectionSpec.inv_log _ Hinv)),
    (ConnectionSpec.closes_log _ _ (ConnectionSpec.inv_log _ Hinv')).
  rewrite bool_decide_true, bool_decide_false by done. cbn [Nat.sub remove_times].
  unfold remove_connection. rewrite (objects_update _ _ _ _ E1), list_lookup_insert_eq by (by eapply lookup_lt_Some).
  cbn [to_client set_conn].
  replace (to_client o) with true; [done |]. rewrite <- Halive. symmetry.
  apply (b_owned _ Hb id (entry_of o)); [by apply ledger_object | by apply bool_decide_false].
Qed.

(** *** Witnesses: a server that accepts; the connection is closed, made again and
    left to itself. *)

Definition hello (id : nat) (_ : list TcpConnection.event) (e : TcpConnection.event) : list TcpConnection.call :=
  match e with
  | TcpConnection.OnConnection true => [TcpConnection.send (bytes "hello, ")]
  | TcpConnection.OnMessage b => [TcpConnection.retrieve_input (Buffer.readable_bytes b)]
  | _ => []
  end.
Lemma client_hello_polite id : ConnectionProps.polite (hello id).
Proof. intros h [[]| | | |] st Hp; cbn in *; repeat constructor; cbn; try done; apply u64_range. Qed.

Definition debug : Build := {| ndebug := false |}.
Definition new_client : t := make (bytes "ping") (bytes "127.0.0.1:80") true.
Definition connected : list input :=
  [EnableRetry; Connect true; Iteration (Some (Connector.Ready POLLOUT)) true;
   Connection 0 (TcpConnection.Call false TcpConnection.force_close)].
Definition reconnected : list input :=
  connected ++
  [Connection 0 TcpConnection.Pending; Connection 0 TcpConnection.Pending; Release 0;
   Iteration (Some (Connector.Ready POLLOUT)) true; Disconnect true; Destroy true false].

#[local] Instance is_establish_dec (i : TcpConnection.input) : Decision (i = TcpConnection.Establish).
Proof. destruct i; try (right; done). by left. Defined.
#[local] Instance functors_empty_dec (l : list TcpConnection.functor) : Decision (l = []).
Proof. destruct l; [by left | by right]. Defined.
#[local] Instance client_input_ok_dec i s : Decision (input_ok i s).
Proof.
  destruct i as [|b|b| |b u|e named| |id i|id]; cbn [input_ok]; try (unfold fits; apply _).
  - destruct (objects s !! id) as [o|]; [| right; by intros (o & ? & _)].
    destruct (decide (closed o = false /\ i <> TcpConnection.Establish /\ ConnectionSpec.input_ok i (conn o))) as [Hd|Hd].
    + left. by exists o.
    + right. by intros (p & [= <-] & ?).
  - destruct (objects s !! id) as [o|]; [| right; by intros (o & ? & _)].
    destruct (decide (closed o = false /\ _state (conn o) = Disconnected /\ TcpConnection.pending (conn o) = [])) as [Hd|Hd].
    + left. by exists o.
    + right. by intros (p & [= <-] & ?).
Defined.
Fixpoint check_client_inputs {B : Build} `{Kernel} `{Sockets} user (inputs : list input) (s : t) : bool :=
  match inputs with
  | [] => true
  | i :: inputs' => bool_decide (input_ok i s) &&
      match step user i s with Ret s' => check_client_inputs user inputs' s' | Stop _ => true end
  end.
Lemma check_client_inputs_ok {B : Build} `{Kernel} `{Sockets} user inputs s :
  check_client_inputs user inputs s = true -> allowed user inputs s.
Proof.
  revert s. induction inputs as [|i inputs IH]; intros s; cbn [check_client_inputs allowed]; [done |].
  intros [Hi Hrest]%andb_true_iff. apply bool_decide_eq_true in Hi. split; [done |].
  intros s' E. rewrite E in Hrest. by apply IH.
Qed.


(** The first connection was destroyed with its socket, the second one survives
    the client. *)
Example reconnected_ends :
  match @run debug ConnectionProps.three_bytes ConnectorProps.in_progress hello reconnected new_client with
  | Ret s => map (fun o => (name o, sock_fd o, _state (conn o), closed o)) (objects s) =
      [(bytes "ping:127.0.0.1:80#1", 3, Disconnected, true);
       (bytes "ping:127.0.0.1:80#2", 4, TcpConnection.Disconnecting, false)] /\
      alive s = false /\ Connector.handed (_connector s) = [4]
  | Stop _ => False
  end.
Proof. by vm_compute. Qed.


(** The client, its connection and the connection that has been closed, after some
    of the inputs. *)
Definition client_after (inputs : list input) : t :=
  match @run debug ConnectionProps.three_bytes ConnectorProps.in_progress hello inputs new_client with
  | Ret s => s | Stop _ => new_client end.
Definition connection_of (s : t) : object :=
  default (mk_object [] 0 (TcpConnection.make 0 false false) true false) (objects s !! 0%nat).
Definition closed_of (s : t) : TcpConnection.t :=
  match @TcpConnection.step debug ConnectionProps.three_bytes (callbacks hello 0) TcpConnection.Pending
          (conn (connection_of s)) with
  | Ret c => c | Stop _ => conn (connection_of s) end.
Definition persistent : t := client_after connected.
Definition once_only : t := client_after (tail connected).

Lemma client_reconnects_witness :
  exists s', @step debug ConnectionProps.three_bytes ConnectorProps.in_progress hello
      (Connection 0 TcpConnection.Pending) persistent = Ret s' /\
    _connection s' = None /\ destroyed s' = 0%nat :: destroyed persistent /\
    if _retry persistent && _connect persistent
    then ConnectorSpec.attempted EINPROGRESS (_connector s')
    else _connector s' = _connector persistent.
Proof.
  apply (@client_reconnects debug ConnectionProps.three_bytes ConnectionProps.three_bytes_laws
    ConnectorProps.in_progress ConnectorProps.in_progress_laws hello connected (bytes "ping") (bytes "127.0.0.1:80") true
    persistent 0 (connection_of persistent) TcpConnection.Pending (closed_of persistent));
    [done | exact client_hello_polite | apply check_client_inputs_ok; by vm_compute | by vm_compute ..].
Defined.

Lemma client_cannot_connect_again_witness :
  (s' ← @step debug ConnectionProps.three_bytes ConnectorProps.in_progress hello
     (Connection 0 TcpConnection.Pending) once_only;
   @step debug ConnectionProps.three_bytes ConnectorProps.in_progress hello (Connect true) s') = Stop AssertionFailed.
Proof.
  apply (@client_cannot_connect_again debug ConnectionProps.three_bytes ConnectionProps.three_bytes_laws
    ConnectorProps.in_progress ConnectorProps.in_progress_laws hello (tail connected) (bytes "ping")
    (bytes "127.0.0.1:80") true once_only 0 (connection_of once_only) TcpConnection.Pending (closed_of once_only));
    [done | exact client_hello_polite | apply check_client_inputs_ok; by vm_compute | by vm_compute ..].
Defined.

Lemma client_destroyed_elsewhere_witness :
  (s' ← @step debug ConnectionProps.three_bytes ConnectorProps.in_progress hello (Destroy false false) once_only;
   @step debug ConnectionProps.three_bytes ConnectorProps.in_progress hello
     (Connection 0 TcpConnection.Pending) s') = Stop UndefinedBehaviour.
Proof.
  apply (@client_destroyed_elsewhere debug ConnectionProps.three_bytes ConnectionProps.three_bytes_laws
    ConnectorProps.in_progress ConnectorProps.in_progress_laws hello (tail connected) (bytes "ping")
    (bytes "127.0.0.1:80") true once_only 0 (connection_of once_only) TcpConnection.Pending (closed_of once_only));
    [done | exact client_hello_polite | apply check_client_inputs_ok; by vm_compute | by vm_compute ..].
Defined.
End TcpClientProps.
