(* ===== verification/TcpServers.v ===== *)
(** TCP servers (suduo/net/Acceptor.h/.cpp, TcpServer.h/.cpp) over their
    connections and loops.

    The connections are those of TcpConnections.v, each with the part of its
    loop's queue that concerns it; the server's own functors of all the loops are
    in one list, each with its loop, first in first out for each. The addresses of
    the two ends are those of Addresses.v. *)

From S2P Require Import Prelude.
From S2P Require Import OrderedMap.
From S2P Require Import ByteBuffer.
From S2P Require Import Pollers.
From S2P Require Import Loops.
From S2P Require Import TcpConnections.

Module Acceptor.

Record t := mk {
  _accept_channel : Channel.t;
  _registered : bool;               (** the loop's poller holds [_accept_channel] *)
  _callback : bool;                 (** set, or empty *)
  _listening : bool
}.

(** The socket is made and bound; reading is not enabled yet. *)
Definition make (accept_fd : Z) : t :=
  mk (Channel.mk accept_fd (-1) 0 0 true None false true false false false) false false false.
Definition set_new_connection_callback (a : t) : t :=
  mk (_accept_channel a) (_registered a) true (_listening a).

Definition listen (a : t) : t :=
  mk (Channel.set_events (_accept_channel a) (Channel.events_enable_reading (Channel._events (_accept_channel a))))
    true (_callback a) true.

(** ~Acceptor: [disable_all()], [remove()]; the socket closes with it. *)
Definition destroy (a : t) : t :=
  mk (Channel.set_events (_accept_channel a) (Channel.events_disable_all (Channel._events (_accept_channel a))))
    false (_callback a) (_listening a).

(** [sockets::accept] aborts the program when accept4(2) gives no descriptor. *)
Definition accept (accept4 : option Z) : res Z :=
  match accept4 with
  | Some connfd => mret connfd
  | None => Stop Aborted
  end.

(** The descriptor the callback gets; without a callback it is closed. As [accept]
    never returns a negative number, the branch that frees a spare descriptor on
    EMFILE does not run. *)
Definition handle_read (accept4 : option Z) (a : t) : res (option Z) :=
  connfd ← accept accept4;
  mret (if _callback a then Some connfd else None).

End Acceptor.

Module TcpServer.
Import TcpConnection.

(** A [TcpConnection] object as its server knows it. *)
Record connection := mk_connection {
  name : list byte;
  ioLoop : Z;
  conn : TcpConnection.t
}.
Definition set_conn (c : connection) (s : TcpConnection.t) : connection :=
  mk_connection (name c) (ioLoop c) s.

(** The server's functors in the loops' queues. *)
Inductive functor :=
  | Listen
  | ConnectEstablished (id : nat)
  | RemoveConnectionInLoop (id : nat).
#[global] Instance functor_eq_dec : EqDecision functor.
Proof. solve_decision. Defined.

Record t := mk {
  _loop : Z;
  _ip_port : list byte;
  _name : list byte;
  _acceptor : Acceptor.t;
  _thread_pool : EventLoopThreadPool.t;
  _write_complete_callback : bool;
  _started : Z;
  _next_conn_id : Z;
  _connections : list (list byte * nat);  (** names to the positions of [objects] *)
  objects : list connection;              (** every connection made, in order *)
  pending : list (Z * functor);
  destroyed : list nat                    (** history: [connect_destroyed] queued for *)
}.

Definition make (loop : Z) (ip_port name : list byte) (accept_fd : Z) (write_complete : bool) : t :=
  mk loop ip_port name (Acceptor.set_new_connection_callback (Acceptor.make accept_fd))
    (EventLoopThreadPool.make loop) write_complete 0 1 [] [] [] [].

Definition set_acceptor (s : t) (a : Acceptor.t) : t :=
  mk (_loop s) (_ip_port s) (_name s) a (_thread_pool s) (_write_complete_callback s) (_started s)
    (_next_conn_id s) (_connections s) (objects s) (pending s) (destroyed s).
Definition set_pool (s : t) (p : EventLoopThreadPool.t) : t :=
  mk (_loop s) (_ip_port s) (_name s) (_acceptor s) p (_write_complete_callback s) (_started s)
    (_next_conn_id s) (_connections s) (objects s) (pending s) (destroyed s).
Definition set_started (s : t) (n : Z) : t :=
  mk (_loop s) (_ip_port s) (_name s) (_acceptor s) (_thread_pool s) (_write_complete_callback s) n
    (_next_conn_id s) (_connections s) (objects s) (pending s) (destroyed s).
Definition set_next_conn_id (s : t) (n : Z) : t :=
  mk (_loop s) (_ip_port s) (_name s) (_acceptor s) (_thread_pool s) (_write_complete_callback s)
    (_started s) n (_connections s) (objects s) (pending s) (destroyed s).
Definition set_connections (s : t) (m : list (list byte * nat)) : t :=
  mk (_loop s) (_ip_port s) (_name s) (_acceptor s) (_thread_pool s) (_write_complete_callback s)
    (_started s) (_next_conn_id s) m (objects s) (pending s) (destroyed s).
Definition set_objects (s : t) (l : list connection) : t :=
  mk (_loop s) (_ip_port s) (_name s) (_acceptor s) (_thread_pool s) (_write_complete_callback s)
    (_started s) (_next_conn_id s) (_connections s) l (pending s) (destroyed s).
Definition set_pending (s : t) (l : list (Z * functor)) : t :=
  mk (_loop s) (_ip_port s) (_name s) (_acceptor s) (_thread_pool s) (_write_complete_callback s)
    (_started s) (_next_conn_id s) (_connections s) (objects s) l (destroyed s).
Definition record_destroyed (s : t) (id : nat) : t :=
  mk (_loop s) (_ip_port s) (_name s) (_acceptor s) (_thread_pool s) (_write_complete_callback s)
    (_started s) (_next_conn_id s) (_connections s) (objects s) (pending s) (id :: destroyed s).

Definition queue_in_loop (loop : Z) (f : functor) (s : t) : t := set_pending s (pending s ++ [(loop, f)]).

(** [char buf[64]; snprintf(buf, sizeof(buf), "-%s#%d", ...)]. *)
Definition conn_suffix (ip_port : list byte) (id : Z) : list byte :=
  bytes "-" ++ ip_port ++ bytes "#" ++ decimal id.
Definition conn_name (server_name ip_port : list byte) (id : Z) : list byte :=
  server_name ++ snprintf 64 (conn_suffix ip_port id).

Section operations.
Context {B : Build} `{Kernel} (start_loop : Z -> Z) (user : nat -> list event -> event -> list call).

Definition set_thread_num (threads_num : Z) (s : t) : res t :=
  _ ← assert_ (0 <=? threads_num);
  mret (set_pool s (EventLoopThreadPool.set_thread_num (_thread_pool s) threads_num)).

Definition start (is_in_loop_thread : bool) (s : t) : res t :=
  if _started s =? 0 then
    let s := set_started s 1 in
    pool ← EventLoopThreadPool.start start_loop (_thread_pool s);
    let s := set_pool s pool in
    _ ← assert_ (negb (Acceptor._listening (_acceptor s)));
    mret (if is_in_loop_thread then set_acceptor s (Acceptor.listen (_acceptor s))
          else queue_in_loop (_loop s) Listen s)
  else mret s.

(** [conn->get_loop()->queue_in_loop(connect_destroyed)]. *)
Definition remove_connection_in_loop (id : nat) (s : t) : res t :=
  match objects s !! id with
  | None => Stop UndefinedBehaviour
  | Some c =>
      let n := StdMap.erase_count (name c) (_connections s) in
      let s := set_connections s (StdMap.erase (name c) (_connections s)) in
      _ ← assert_ (n =? 1);
      conn ← TcpConnection.api false queue_connect_destroyed (conn c);
      mret (record_destroyed (set_objects s (<[id := set_conn c conn]> (objects s))) id)
  end.

Definition remove_connection (id : nat) (s : t) : res t :=
  match objects s !! id with
  | None => Stop UndefinedBehaviour
  | Some c =>
      if ioLoop c =? _loop s then remove_connection_in_loop id s
      else mret (queue_in_loop (_loop s) (RemoveConnectionInLoop id) s)
  end.

Fixpoint remove_times (n : nat) (id : nat) (s : t) : res t :=
  match n with
  | O => mret s
  | S n' => s ← remove_connection id s; remove_times n' id s
  end.

(** The callbacks of a connection are the user's, the close callback apart. *)
Definition callbacks (id : nat) (h : list event) (e : event) : list call :=
  match e with OnClose => [] | _ => user id h e end.

(** A step of a connection. Its close callback is [remove_connection]: it is the
    last thing [handle_close] does, and what a connection does after it neither
    queues a functor nor looks at the server, so it runs when the step is over. *)
Definition connection_step (id : nat) (i : TcpConnection.input) (s : t) : res t :=
  match objects s !! id with
  | None => Stop UndefinedBehaviour
  | Some c =>
      conn' ← TcpConnection.step (callbacks id) i (conn c);
      remove_times (closes (log conn') - closes (log (conn c))) id
        (set_objects s (<[id := set_conn c conn']> (objects s)))
  end.

(** [named]: getsockname(2) succeeds. *)
Definition new_connection (sock_fd : Z) (named : bool) (s : t) : res t :=
  '(io_loop, pool) ← EventLoopThreadPool.get_next_loop (_thread_pool s);
  let s := set_pool s pool in
  let connName := conn_name (_name s) (_ip_port s) (_next_conn_id s) in
  next ← i32_checked (_next_conn_id s + 1);
  let s := set_next_conn_id s next in
  if negb named then Stop Aborted else
  let id := length (objects s) in
  let c := mk_connection connName io_loop (TcpConnection.make sock_fd (_write_complete_callback s) false) in
  let s := set_objects s (objects s ++ [c]) in
  let s := set_connections s (StdMap.assign connName id (_connections s)) in
  if io_loop =? _loop s then connection_step id Establish s
  else mret (queue_in_loop io_loop (ConnectEstablished id) s).

Definition run_functor (f : functor) (s : t) : res t :=
  match f with
  | Listen => mret (set_acceptor s (Acceptor.listen (_acceptor s)))
  | ConnectEstablished id => connection_step id Establish s
  | RemoveConnectionInLoop id => remove_connection_in_loop id s
  end.

(** The first functor of [loop] in the list. *)
Fixpoint take_next (loop : Z) (l : list (Z * functor)) : option (functor * list (Z * functor)) :=
  match l with
  | [] => None
  | (k, f) :: l' =>
      if k =? loop then Some (f, l')
      else '(g, rest) ← take_next loop l'; Some (g, (k, f) :: rest)
  end.
Definition run_next (loop : Z) (s : t) : res t :=
  match take_next loop (pending s) with
  | None => mret s
  | Some (f, rest) => run_functor f (set_pending s rest)
  end.

(** What happens to a server: its owner's calls; the listening socket is readable,
    with what accept4 and getsockname answer; a loop runs the next functor the
    server queued; a connection's loop or users make it take a step. *)
Inductive input :=
  | SetThreadNum (threads_num : Z)
  | Start (is_in_loop_thread : bool)
  | Acceptable (accept4 : option Z) (named : bool)
  | Next (loop : Z)
  | Connection (id : nat) (i : TcpConnection.input).

Definition step (i : input) (s : t) : res t :=
  match i with
  | SetThreadNum n => set_thread_num n s
  | Start b => start b s
  | Acceptable accept4 named =>
      fd ← Acceptor.handle_read accept4 (_acceptor s);
      match fd with
      | Some sock_fd => new_connection sock_fd named s
      | None => mret s
      end
  | Next loop => run_next loop s
  | Connection id i => connection_step id i s
  end.
Fixpoint run (inputs : list input) (s : t) : res t :=
  match inputs with
  | [] => mret s
  | i :: inputs' => s ← step i s; run inputs' s
  end.

(** ~TcpServer, in the server's loop: every connection in the map is told to
    finish, at once or through its own loop; then the acceptor goes. *)
Fixpoint destroy_items (items : list (list byte * nat)) (s : t) : res t :=
  match items with
  | [] => mret s
  | (_, id) :: items' =>
      match objects s !! id with
      | None => Stop UndefinedBehaviour
      | Some c =>
          conn' ← (if ioLoop c =? _loop s then TcpConnection.connect_destroyed (callbacks id) (conn c)
                   else TcpConnection.api false queue_connect_destroyed (conn c));
          destroy_items items' (set_objects s (<[id := set_conn c conn']> (objects s)))
      end
  end.
Definition destroy (s : t) : res t :=
  s ← destroy_items (_connections s) s;
  mret (set_acceptor s (Acceptor.destroy (_acceptor s))).
End operations.
End TcpServer.

(** ** Invariants *)

Module TcpServerSpec.
Import TcpConnection TcpServer.
Import ConnectionSpec (outcome, outcome_bind, outcome_mono, log_ok, later, good).

(** The name of the [id]-th connection fits its buffer. *)
Definition fits (ip_port : list byte) (id : Z) : Prop := (length (conn_suffix ip_port id) <= 63)%nat.

Lemma conn_name_inj server_name ip_port i j :
  fits ip_port i -> fits ip_port j ->
  conn_name server_name ip_port i = conn_name server_name ip_port j -> i = j.
Proof.
  unfold fits, conn_name, snprintf. intros Hi Hj E%app_inv_head.
  rewrite !firstn_all2 in E by first [exact Hi | exact Hj]. unfold conn_suffix in E.
  do 3 apply app_inv_head in E. by rewrite <- (decimal_roundtrip i), E, decimal_roundtrip.
Qed.

Definition pool_ok (p : EventLoopThreadPool.t) : Prop :=
  0 <= EventLoopThreadPool._next p < Z.max 1 (zlen (EventLoopThreadPool._loops p)) /\
  zlen (EventLoopThreadPool._loops p) < 2147483648 /\
  (EventLoopThreadPool._started p = false ->
   EventLoopThreadPool._loops p = [] /\ EventLoopThreadPool._thread_nums p < 2147483648).

Lemma get_next_loop_ok {B : Build} p :
  pool_ok p -> EventLoopThreadPool._started p = true ->
  exists l p', EventLoopThreadPool.get_next_loop p = Ret (l, p') /\ pool_ok p' /\
    EventLoopThreadPool._started p' = true.
Proof.
  intros (Hn & Hl & _) Hs. unfold EventLoopThreadPool.get_next_loop. rewrite Hs, assert_true by done.
  cbn [mbind res_bind]. destruct (EventLoopThreadPool._loops p) as [|l0 ls] eqn:E.
  { eexists _, _. split; [reflexivity |]. split; [| done]. unfold pool_ok. rewrite E. by rewrite Hs. }
  assert (0 < zlen (l0 :: ls)) by (rewrite length_cons; lia). set (next := EventLoopThreadPool._next p) in *.
  destruct (lookup_lt_is_Some_2 (l0 :: ls) (Z.to_nat next)) as [l Hk]; [lia |].
  rewrite Hk, (proj2 (Z.ltb_ge next 0)) by lia. cbn [mbind res_bind].
  rewrite i32_checked_Ret by lia. cbn [mbind res_bind mret res_ret].
  eexists _, _. split; [reflexivity |]. split; [| done]. unfold pool_ok.
  cbn [EventLoopThreadPool._next EventLoopThreadPool._loops EventLoopThreadPool._started].
  rewrite u64_small by lia. destruct (Z.leb_spec (zlen (l0 :: ls)) (next + 1)); split_and!; (done || lia).
Qed.

(** [agenda]: the server's functors still to run, those in the queues and the one
    that is running. *)
Record inv (agenda : list (Z * functor)) (s : t) : Prop := mk_inv {
  v_pool : pool_ok (_thread_pool s);
  v_started : if _started s =? 0
    then EventLoopThreadPool._started (_thread_pool s) = false /\ (forall l, (l, Listen) ∉ agenda) /\
         Acceptor._listening (_acceptor s) = false
    else EventLoopThreadPool._started (_thread_pool s) = true;
  v_callback : Acceptor._callback (_acceptor s) = true;
  v_next : _next_conn_id s = 1 + zlen (objects s);
  v_objects id c : objects s !! id = Some c ->
    ConnectionSpec.inv (conn c) /\ fits (_ip_port s) (1 + Z.of_nat id) /\
    name c = conn_name (_name s) (_ip_port s) (1 + Z.of_nat id);
  v_sorted : StdMap.sorted (_connections s);
  v_map k id : StdMap.find k (_connections s) = Some id <->
    exists c, objects s !! id = Some c /\ name c = k /\ (id ∉ destroyed s);
  v_establish l id : (l, ConnectEstablished id) ∈ agenda <->
    exists c, objects s !! id = Some c /\ ioLoop c = l /\ _state (conn c) = Connecting;
  v_remove l id : (l, RemoveConnectionInLoop id) ∈ agenda <->
    l = _loop s /\ (id ∉ destroyed s) /\ exists c, objects s !! id = Some c /\ _state (conn c) = Disconnected;
  v_destroyed id : id ∈ destroyed s -> exists c, objects s !! id = Some c /\ _state (conn c) = Disconnected;
  v_nodup : NoDup agenda;
  v_once : NoDup (destroyed s)
}.

#[global] Instance inv_Permutation : Proper ((≡ₚ) ==> eq ==> iff) inv.
Proof.
  enough (forall a b s, a ≡ₚ b -> inv a s -> inv b s) as E.
  { intros a b Hp s s' <-. split; by apply E. }
  intros a b s Hp []. constructor; try done.
  - destruct (_started s =? 0); [| done]. destruct v_started0 as (? & Hn & ?).
    split_and!; try done. intros l. rewrite <- Hp. apply Hn.
  - intros l id. by rewrite <- Hp.
  - intros l id. by rewrite <- Hp.
  - by rewrite <- Hp.
Qed.

Lemma inv_pending a s l : inv a (set_pending s l) <-> inv a s.
Proof. split; intros []; by constructor. Qed.

Lemma take_next_Some loop l f rest :
  take_next loop l = Some (f, rest) -> (loop, f) :: rest ≡ₚ l.
Proof.
  revert rest. induction l as [|[k g] l IH]; intros rest; cbn [take_next]; [done |].
  destruct (Z.eqb_spec k loop) as [->|Hk]; [by intros [= -> ->] |].
  intros ([g' r] & Hr & [= -> <-])%bind_Some. rewrite Permutation_swap. by rewrite (IH r).
Qed.

(** A connection in its initial state, and the functor that establishes it. *)
Lemma inv_new_object a s l fd wc :
  inv a s -> fits (_ip_port s) (_next_conn_id s) ->
  let id := length (objects s) in
  let c := mk_connection (conn_name (_name s) (_ip_port s) (_next_conn_id s)) l (TcpConnection.make fd wc false) in
  inv ((l, ConnectEstablished id) :: a)
    (set_connections (set_objects (set_next_conn_id s (_next_conn_id s + 1)) (objects s ++ [c]))
       (StdMap.assign (name c) id (_connections s))).
Proof.
  intros [] Hfits id c.
  assert (Hlook : forall i d, (objects s ++ [c]) !! i = Some d <-> objects s !! i = Some d \/ i = id /\ d = c).
  { intros i d. rewrite lookup_app_Some, list_lookup_singleton_Some. split.
    - intros [?|(Hi & E & <-)]; [by left |]. right. split; [unfold id; lia | done].
    - intros [?|[-> ->]]; [by left |]. right. split; [lia | split; [unfold id; lia | done]]. }
  assert (Hid : objects s !! id = None) by (by apply lookup_ge_None_2).
  assert (Hnot : id ∉ destroyed s) by (intros (d & Hd & _)%v_destroyed0; congruence).
  constructor; cbn; try done.
  - destruct (_started s =? 0); [| done]. destruct v_started0 as (? & ? & ?). split_and!; try done.
    intros l'. by rewrite not_elem_of_cons.
  - rewrite length_app. cbn. lia.
  - intros i d [Hd|[-> ->]]%Hlook; [by apply v_objects0 |].
    replace (1 + Z.of_nat id) with (_next_conn_id s) by (unfold id; lia).
    split_and!; try done. apply ConnectionSpec.make_inv.
  - by apply sorted_assign.
  - intros k i. destruct (decide (name c = k)) as [<-|Hk].
    + rewrite find_assign_eq. split; [intros [= <-]; exists c; split_and!; try done; apply Hlook; auto |].
      intros (d & [Hd|[-> ->]]%Hlook & En & _); [| done]. exfalso.
      destruct (v_objects0 _ _ Hd) as (_ & Hf & E). rewrite E in En.
      apply conn_name_inj in En; [| done | done]. apply lookup_lt_Some in Hd. lia.
    + rewrite find_assign_ne by done. rewrite v_map0. split; intros (d & Hd & <- & ?).
      * exists d. split_and!; try done. apply Hlook. auto.
      * apply Hlook in Hd as [Hd|[-> ->]]; [| done]. by exists d.
  - intros l' i. rewrite elem_of_cons, v_establish0. split.
    + intros [[= -> ->]|(d & Hd & <- & ?)]; [exists c | exists d]; (split; [apply Hlook; auto | done]).
    + intros (d & [Hd|[-> ->]]%Hlook & <- & ?); [right; by exists d | by left].
  - intros l' i. rewrite elem_of_cons, v_remove0. split.
    + intros [|(-> & ? & d & Hd & ?)]; [done |]. split_and!; try done. exists d. split; [apply Hlook; auto | done].
    + intros (-> & ? & d & [Hd|[-> ->]]%Hlook & ?); [| done]. right. split_and!; try done. by exists d.
  - intros i (d & Hd & ?)%v_destroyed0. exists d. split; [apply Hlook; auto | done].
  - apply NoDup_cons. split; [| done]. intros (d & Hd & _)%v_establish0. congruence.
Qed.

(** A connection has taken a step: what is then to do for it. *)
Definition todo (id : nat) (was now : State) (loop io_loop : Z) : list (Z * functor) :=
  match was, now with
  | Disconnected, _ => []
  | _, Disconnected => [(loop, RemoveConnectionInLoop id)]
  | _, _ => []
  end.

Lemma establish_elem id c x :
  x ∈ (if bool_decide (_state (conn c) = Connecting) then [(ioLoop c, ConnectEstablished id)] else []) <->
  x = (ioLoop c, ConnectEstablished id) /\ _state (conn c) = Connecting.
Proof. case_bool_decide; [rewrite list_elem_of_singleton | rewrite elem_of_nil]; naive_solver. Qed.
Lemma todo_elem id st st' loop io :
  st' <> Connecting -> forall x, x ∈ todo id st st' loop io <->
  x = (loop, RemoveConnectionInLoop id) /\ st <> Disconnected /\ st' = Disconnected.
Proof.
  intros Hst x. unfold todo. destruct st, st'; rewrite ?list_elem_of_singleton, ?elem_of_nil; naive_solver.
Qed.

Lemma inv_object b s id c conn' :
  objects s !! id = Some c -> ConnectionSpec.inv conn' -> later (conn c) conn' ->
  _state conn' <> Connecting ->
  inv ((if bool_decide (_state (conn c) = Connecting) then [(ioLoop c, ConnectEstablished id)] else []) ++ b) s ->
  inv (todo id (_state (conn c)) (_state conn') (_loop s) (ioLoop c) ++ b)
    (set_objects s (<[id := set_conn c conn']> (objects s))).
Proof.
  intros Hc Hc' [Hl1 Hl2] Hst Hinv. set (was := if bool_decide _ then _ else _) in Hinv.
  set (now := todo _ _ _ _ _). destruct Hinv.
  assert (Hlook : forall i d, (<[id := set_conn c conn']> (objects s)) !! i = Some d <->
    i = id /\ d = set_conn c conn' \/ i <> id /\ objects s !! i = Some d).
  { intros i d. rewrite list_lookup_insert_Some. apply lookup_lt_Some in Hc. naive_solver. }
  pose proof (establish_elem id c) as Hwas. pose proof (todo_elem id (_state (conn c)) (_state conn') (_loop s) (ioLoop c) Hst) as Hnow.
  fold was in Hwas. fold now in Hnow.
  constructor; cbn; try done.
  - destruct (_started s =? 0); [| done]. destruct v_started0 as (? & Hn & ?). split_and!; try done.
    intros l. specialize (Hn l). rewrite not_elem_of_app in *. split; [| apply Hn].
    by intros [[=] _]%Hnow.
  - by rewrite length_insert.
  - intros i d [[-> ->]|[_ Hd]]%Hlook; [| by apply v_objects0].
    destruct (v_objects0 id c Hc) as (_ & ? & ?). by split_and!.
  - intros k i. rewrite v_map0. split; intros (d & Hd & <- & Hn).
    + destruct (decide (i = id)) as [->|]; [| exists d; split_and!; try done; apply Hlook; auto].
      assert (d = c) as -> by congruence. exists (set_conn c conn'). split_and!; try done. apply Hlook; auto.
    + apply Hlook in Hd as [[-> ->]|[Hi Hd]]; [exists c | exists d]; by split_and!.
  - intros l i. specialize (v_establish0 l i). rewrite elem_of_app, Hwas in v_establish0.
    rewrite elem_of_app, Hnow. split.
    + intros [[[=] _]|Hin]. destruct (proj1 v_establish0) as (d & Hd & <- & Hs); [auto |].
      exists d. split_and!; try done. apply Hlook. right. split; [| done]. intros ->.
      assert (d = c) as -> by congruence. apply NoDup_app in v_nodup0 as (_ & Hdis & _).
      apply (Hdis (ioLoop c, ConnectEstablished id)); [by apply Hwas | done].
    + intros (d & [[-> ->]|[Hi Hd]]%Hlook & <- & Hs); [done |].
      destruct (proj2 v_establish0) as [[[= _ ->] _]|Hin]; [by exists d | done | by right].
  - intros l i. specialize (v_remove0 l i). rewrite elem_of_app, Hwas in v_remove0.
    rewrite elem_of_app, Hnow. split.
    + intros [([= -> ->] & Hs & Hs')|Hin].
      * split_and!; [done | | exists (set_conn c conn'); split; [apply Hlook; auto | done]].
        intros (d & Hd & ?)%v_destroyed0. congruence.
      * destruct (proj1 v_remove0) as (-> & Hn & d & Hd & Hs); [auto |]. split_and!; try done.
        destruct (decide (i = id)) as [->|]; [| exists d; split; [apply Hlook; auto | done]].
        assert (d = c) as -> by congruence. exists (set_conn c conn'). split; [apply Hlook; auto | auto].
    + intros (-> & Hn & d & [[-> ->]|[Hi Hd]]%Hlook & Hs).
      * destruct (decide (_state (conn c) = Disconnected)) as [Hd|]; [| by left].
        right. destruct (proj2 v_remove0) as [[[=] _]|Hin]; [| done]. split_and!; try done. by exists c.
      * right. destruct (proj2 v_remove0) as [[[=] _]|Hin]; [| done]. split_and!; try done. by exists d.
  - intros i (d & Hd & Hs)%v_destroyed0. destruct (decide (i = id)) as [->|].
    + assert (d = c) as -> by congruence. exists (set_conn c conn'). split; [apply Hlook; auto | auto].
    + exists d. split; [apply Hlook; auto | done].
  - apply NoDup_app in v_nodup0 as (_ & _ & Hb). apply NoDup_app. split_and!; [| | done].
    + unfold now, todo. destruct (_state (conn c)), (_state conn'); try apply NoDup_nil_2; apply NoDup_singleton.
    + intros x (-> & Hs & Hs')%Hnow Hin.
      destruct (proj1 (v_remove0 (_loop s) id)) as (_ & _ & d & Hd & ?); [rewrite elem_of_app; auto |].
      congruence.
Qed.

Section operations.
Context {B : Build} `{KernelLaws} (start_loop : Z -> Z) (user : nat -> list event -> event -> list call).
Context (Hshut : forall i, k_shutdown i = true).
Context (Huser : forall id h e st, ConnectionSpec.possible e st -> Forall (ConnectionSpec.call_ok true st) (user id h e)).

(** Between two steps. *)
Definition settled (s : t) : Prop := inv (pending s) s.

Lemma callbacks_polite id h e st :
  ConnectionSpec.possible e st -> Forall (ConnectionSpec.call_ok true st) (callbacks user id h e).
Proof. intros Hp. destruct e; [by apply Huser .. | constructor]. Qed.

Lemma settled_queue l f s : inv ((l, f) :: pending s) s -> settled (queue_in_loop l f s).
Proof.
  intros Hi. unfold settled, queue_in_loop. apply inv_pending. cbn [pending set_pending].
  by rewrite <- Permutation_cons_append.
Qed.

Lemma removed_ok s id c conn' :
  objects s !! id = Some c -> ConnectionSpec.inv conn' -> _state conn' = _state (conn c) ->
  inv ((_loop s, RemoveConnectionInLoop id) :: pending s) s ->
  settled (record_destroyed (set_objects (set_connections s (StdMap.erase (name c) (_connections s)))
    (<[id := set_conn c conn']> (objects s))) id).
Proof.
  intros Hc Hc' Est [].
  destruct (proj1 (v_remove0 (_loop s) id)) as (_ & Hn & d & Hd & Hst); [by left |].
  assert (d = c) as -> by congruence. apply NoDup_cons in v_nodup0 as [Hnot Hnodup].
  assert (Hlook : forall i d, (<[id := set_conn c conn']> (objects s)) !! i = Some d <->
    i = id /\ d = set_conn c conn' \/ i <> id /\ objects s !! i = Some d).
  { intros i e. rewrite list_lookup_insert_Some. apply lookup_lt_Some in Hd. naive_solver. }
  constructor; cbn; try done.
  - destruct (_started s =? 0); [| done]. destruct v_started0 as (? & Hl & ?). split_and!; try done.
    intros l Hin. apply (Hl l). by right.
  - by rewrite length_insert.
  - intros i e [[-> ->]|[_ He]]%Hlook; [| by apply v_objects0].
    destruct (v_objects0 id c Hc) as (_ & ? & ?). by split_and!.
  - by apply sorted_erase.
  - intros k i. destruct (decide (name c = k)) as [<-|Hk].
    + rewrite find_erase_eq by done. split; [done |]. intros (e & He & En & Hi%not_elem_of_cons).
      apply Hlook in He as [[-> ->]|[_ He]]; [naive_solver |]. exfalso. apply Hi.
      destruct (v_objects0 _ _ He) as (_ & Hf1 & E1), (v_objects0 _ _ Hc) as (_ & Hf2 & E2).
      rewrite E1, E2 in En. apply conn_name_inj in En; [lia | done | done].
    + rewrite find_erase_ne, v_map0 by done. split; intros (e & He & <- & Hi).
      * assert (i <> id) by (intros ->; congruence).
        exists e. split_and!; [apply Hlook; auto | done | by apply not_elem_of_cons].
      * apply not_elem_of_cons in Hi as []. apply Hlook in He as [[-> ->]|[_ He]]; [done |]. by exists e.
  - intros l i. specialize (v_establish0 l i). rewrite elem_of_cons in v_establish0. split.
    + intros Hin. destruct (proj1 v_establish0) as (e & He & <- & Hs); [auto |].
      assert (i <> id) by (intros ->; congruence). exists e. split_and!; try done. apply Hlook. auto.
    + intros (e & [[-> ->]|[Hi He]]%Hlook & <- & Hs); [cbn in Hs; congruence |].
      destruct (proj2 v_establish0) as [|]; [by exists e | done | done].
  - intros l i. specialize (v_remove0 l i). rewrite elem_of_cons in v_remove0. rewrite not_elem_of_cons. split.
    + intros Hin. destruct (proj1 v_remove0) as (-> & Hi & e & He & Hs); [auto |].
      assert (i <> id) by (by intros ->). split_and!; try done. exists e. split; [apply Hlook; auto | done].
    + intros (-> & [Hne Hi] & e & [[-> _]|[_ He]]%Hlook & Hs); [done |].
      destruct (proj2 v_remove0) as [[= ->]|]; [split_and!; try done; by exists e | done | done].
  - intros i [->|(e & He & Hs)%v_destroyed0]%elem_of_cons.
    + exists (set_conn c conn'). split; [apply Hlook; auto | cbn; congruence].
    + destruct (decide (i = id)) as [->|]; [| exists e; split; [apply Hlook; auto | done]].
      exists (set_conn c conn'). split; [apply Hlook; auto | cbn; congruence].
  - by apply NoDup_cons.
Qed.

Lemma remove_connection_in_loop_ok s id :
  inv ((_loop s, RemoveConnectionInLoop id) :: pending s) s ->
  outcome settled (remove_connection_in_loop id s).
Proof.
  intros Hi. pose proof Hi as [_ _ _ _ Ho _ Hm _ Hr _ _ _].
  destruct (proj1 (Hr (_loop s) id)) as (_ & Hn & c & Hc & Hst); [by left |].
  unfold remove_connection_in_loop. rewrite Hc. unfold StdMap.erase_count.
  rewrite (proj2 (Hm (name c) id)) by (by exists c). rewrite assert_true by done.
  cbn [mbind res_bind TcpConnection.api mret res_ret outcome].
  refine (removed_ok s id c (TcpConnection.queue_in_loop ConnectDestroyed (conn c)) Hc _ eq_refl Hi).
  destruct (Ho id c Hc) as ([Hcore Hlog] & _). constructor; [| done].
  by apply ConnectionSpec.core_queue.
Qed.

Lemma remove_connection_ok s id :
  inv ((_loop s, RemoveConnectionInLoop id) :: pending s) s -> outcome settled (remove_connection id s).
Proof.
  intros Hi. unfold remove_connection.
  destruct (proj1 (v_remove _ _ Hi (_loop s) id)) as (_ & _ & c & -> & _); [by left |].
  destruct (ioLoop c =? _loop s); [by apply remove_connection_in_loop_ok | by apply settled_queue].
Qed.

Lemma connection_step_ok s id c i :
  objects s !! id = Some c -> ConnectionSpec.input_ok i (conn c) ->
  (i <> Establish -> _state (conn c) <> Connecting) ->
  inv ((if bool_decide (_state (conn c) = Connecting) then [(ioLoop c, ConnectEstablished id)] else []) ++ pending s) s ->
  outcome settled (connection_step user id i s).
Proof.
  intros Hc Hin Hfresh Hi. unfold connection_step. rewrite Hc.
  destruct (v_objects _ _ Hi id c Hc) as (Hinv & _).
  pose proof (ConnectionSpec.step_good Hshut (callbacks user id) (callbacks_polite id) i (conn c) Hinv Hin) as Hg.
  destruct (TcpConnection.step (callbacks user id) i (conn c)) as [conn'|] eqn:E; [| done].
  destruct Hg as [Hinv' Hlater]. cbn [mbind res_bind].
  assert (Hst : _state conn' <> Connecting).
  { assert (i = Establish \/ i <> Establish) as [->|Hne] by (destruct i; auto);
      [| by apply Hlater, Hfresh].
    pose proof (ConnectionSpec.connect_established_ok Hshut (callbacks user id) (callbacks_polite id) _ Hinv Hin) as Hg.
    cbn [TcpConnection.step] in E. rewrite E in Hg. apply Hg. }
  pose proof (inv_object _ s id c conn' Hc Hinv' Hlater Hst Hi) as Hs.
  rewrite (ConnectionSpec.closes_log _ _ (ConnectionSpec.inv_log _ Hinv)), (ConnectionSpec.closes_log _ _ (ConnectionSpec.inv_log _ Hinv')).
  set (s1 := set_objects s _) in *. change (pending s) with (pending s1) in Hs.
  assert (Hone : inv ((_loop s1, RemoveConnectionInLoop id) :: pending s1) s1 ->
                 outcome settled (remove_times 1 id s1)).
  { intros Hr. cbn [remove_times]. pose proof (remove_connection_ok s1 id Hr) as Hok.
    by destruct (remove_connection id s1). }
  destruct Hlater as [Hdown _]. unfold todo in Hs.
  destruct (_state (conn c)) eqn:E1, (_state conn') eqn:E2; try done;
    cbn -[remove_times]; try (by apply Hone); try exact Hs.
  all: by specialize (Hdown eq_refl).
Qed.

(** *** Histories *)

Definition input_ok (i : input) (s : t) : Prop :=
  match i with
  | SetThreadNum n => 0 <= n < 2147483648
  | Start _ => True
  | Acceptable accept4 named =>
      Acceptor._listening (_acceptor s) = true /\ is_Some accept4 /\ named = true /\
      fits (_ip_port s) (_next_conn_id s) /\ _next_conn_id s < 2147483647
  | Next _ => True
  | Connection id i => exists c, objects s !! id = Some c /\ _state (conn c) <> Connecting /\
      i <> Establish /\ ConnectionSpec.input_ok i (conn c)
  end.
Fixpoint allowed (inputs : list input) (s : t) : Prop :=
  match inputs with
  | [] => True
  | i :: inputs' => input_ok i s /\ forall s', step start_loop user i s = Ret s' -> allowed inputs' s'
  end.

Lemma new_connection_ok s sock_fd :
  settled s -> Acceptor._listening (_acceptor s) = true -> fits (_ip_port s) (_next_conn_id s) ->
  _next_conn_id s < 2147483647 -> outcome settled (new_connection user sock_fd true s).
Proof.
  intros Hi Hl Hfits Hmax. pose proof Hi as [Hp Hst _ Hn _ _ _ _ _ _ _ _].
  destruct (_started s =? 0) eqn:Es; [by destruct Hst as (_ & _ & ?); congruence |].
  destruct (get_next_loop_ok _ Hp Hst) as (l & p & E & Hp' & Hst').
  unfold new_connection. rewrite E. cbn [mbind res_bind].
  set (s0 := set_pool s p). assert (Hi0 : inv (pending s) s0).
  { destruct Hi. constructor; try done. cbn. by rewrite Es. }
  rewrite i32_checked_Ret by (cbn; lia). cbn [mbind res_bind negb].
  pose proof (inv_new_object _ _ l sock_fd (_write_complete_callback s0) Hi0 Hfits) as Hnew.
  cbn zeta in Hnew. set (s1 := set_connections _ _) in Hnew.
  change (pending s) with (pending s1) in Hnew.
  change (set_connections _ _) with s1.
  change (length (objects (set_next_conn_id s0 (_next_conn_id s0 + 1)))) with (length (objects s0)).
  destruct (l =? _loop _); [| by apply settled_queue].
  eapply connection_step_ok; cbn.
  - by rewrite lookup_app_r, Nat.sub_diag by done.
  - done.
  - done.
  - rewrite bool_decide_true by done. exact Hnew.
Qed.

Lemma listen_ok s : settled s -> _started s <> 0 -> settled (set_acceptor s (Acceptor.listen (_acceptor s))).
Proof.
  intros [] Hs%Z.eqb_neq. rewrite Hs in *. constructor; try done. cbn. by rewrite Hs.
Qed.

Lemma start_ok b s : settled s -> outcome settled (start start_loop b s).
Proof.
  intros Hi. unfold start. destruct (Z.eqb_spec (_started s) 0) as [Es|]; [| done].
  pose proof Hi as [Hp Hst]. rewrite Es in Hst. cbn in Hst. destruct Hst as (Hst & Hnl & Hl).
  unfold EventLoopThreadPool.start. cbn [_thread_pool set_started]. rewrite Hst, assert_true by done.
  cbn [mbind res_bind mret res_ret _acceptor set_pool]. change (_acceptor (set_started s 1)) with (_acceptor s).
  rewrite Hl, assert_true by done. cbn [mbind res_bind outcome].
  set (s1 := set_pool (set_started s 1) _).
  assert (Hi1 : forall a, a = pending s \/ a = (_loop s, Listen) :: pending s -> inv a s1).
  { intros a Ha. destruct Hi, Hp as (Hp1 & Hp2 & Hp3). destruct (Hp3 Hst) as [El Hn].
    constructor; cbn; try done.
    - unfold pool_ok. cbn. rewrite El in *. cbn in *. rewrite !length_map, length_seq. split_and!; [lia.. | done].
    - intros l id. rewrite <- v_establish0. destruct Ha as [-> | ->]; [done |].
      rewrite elem_of_cons. naive_solver.
    - intros l id. rewrite <- v_remove0. destruct Ha as [-> | ->]; [done |].
      rewrite elem_of_cons. naive_solver.
    - destruct Ha as [-> | ->]; [done |]. apply NoDup_cons. split; [apply Hnl | done]. }
  destruct b.
  - refine (listen_ok s1 _ _); [apply Hi1; by left | done].
  - refine (settled_queue (_loop s) Listen s1 _). apply Hi1. by right.
Qed.

Lemma run_next_ok l s : settled s -> outcome settled (run_next user l s).
Proof.
  intros Hi. unfold run_next. destruct (take_next l (pending s)) as [[f rest]|] eqn:E; [| done].
  apply take_next_Some in E. unfold settled in Hi. rewrite <- E in Hi.
  set (s1 := set_pending s rest). assert (Hi1 : inv ((l, f) :: pending s1) s1) by (by apply inv_pending).
  destruct f as [|id|id]; cbn [run_functor].
  - apply listen_ok.
    + destruct Hi1. constructor; try done.
      * destruct (_started s1 =? 0); [| done]. destruct v_started0 as (? & Hn & ?).
        exfalso. apply (Hn l). by left.
      * intros k i. rewrite <- v_establish0, elem_of_cons. naive_solver.
      * intros k i. rewrite <- v_remove0, elem_of_cons. naive_solver.
      * by apply NoDup_cons in v_nodup0 as [_ ?].
    + intros Es. pose proof (v_started _ _ Hi1) as Hst. rewrite Es in Hst. destruct Hst as (_ & Hn & _).
      apply (Hn l). by left.
  - destruct (proj1 (v_establish _ _ Hi1 l id)) as (c & Hc & El & Hs); [by left |].
    eapply connection_step_ok; [exact Hc | done | done |]. by rewrite bool_decide_true, El by done.
  - destruct (proj1 (v_remove _ _ Hi1 l id)) as (-> & _); [by left |].
    by apply remove_connection_in_loop_ok.
Qed.

Lemma server_step_ok i s : settled s -> input_ok i s -> outcome settled (step start_loop user i s).
Proof.
  intros Hi Hin. destruct i as [n|b|accept4 named|l|id i]; cbn [step]; cbn in Hin.
  - unfold set_thread_num. rewrite assert_true by (apply Z.leb_le; lia). cbn. destruct Hi.
    constructor; try done. destruct v_pool0 as (? & ? & Hp). unfold pool_ok. cbn.
    split_and!; try done; try apply Hp; try lia. intros Hs. split; [by apply Hp | lia].
  - by apply start_ok.
  - destruct Hin as (Hl & [fd ->] & -> & Hf & Hm). cbn. rewrite (v_callback _ _ Hi). by apply new_connection_ok.
  - by apply run_next_ok.
  - destruct Hin as (c & Hc & Hs & Hne & Hok). eapply connection_step_ok; [exact Hc | done | done |].
    by rewrite bool_decide_false by done.
Qed.

Lemma server_run_ok inputs s : settled s -> allowed inputs s -> outcome settled (run start_loop user inputs s).
Proof.
  revert s. induction inputs as [|i inputs IH]; intros s Hi Hall; [done |].
  destruct Hall as [Hin Hall]. cbn [run].
  pose proof (server_step_ok i s Hi Hin) as H1. destruct (step start_loop user i s) as [s1|] eqn:E; [| done].
  cbn [mbind res_bind]. apply IH; [done |]. by apply Hall.
Qed.

Lemma make_settled loop ip_port name fd wc : settled (make loop ip_port name fd wc).
Proof.
  constructor; cbn; try done; try (by constructor).
  all: try (split_and!; try done; lia).
  - split_and!; try done. intros l. apply not_elem_of_nil.
  - intros k id. split; [done |]. by intros (c & ? & _).
  - intros l id. rewrite elem_of_nil. split; [done |]. by intros (c & ? & _).
  - intros l id. rewrite elem_of_nil. split; [done |]. by intros (_ & _ & c & ? & _).
  - by intros id ?%elem_of_nil.
Qed.

(** *** The destructor *)

(** What [connect_destroyed] makes of a connection. *)
Definition destroyed_to (s s' : TcpConnection.t) : Prop :=
  _registered s' = false /\
  if bool_decide (_state s = Connected)
  then _state s' = Disconnected /\ log s' = log s ++ [OnConnection false]
  else _state s' = _state s /\ log s' = log s.

Lemma connect_destroyed_ok id s :
  ConnectionSpec.inv s -> outcome (destroyed_to s) (TcpConnection.connect_destroyed (callbacks user id) s).
Proof.
  intros [Hc _]. unfold TcpConnection.connect_destroyed, destroyed_to.
  case_bool_decide as Hs; [| by repeat split].
  eapply outcome_bind.
  - apply (ConnectionSpec.callback_ok Hshut (callbacks user id) (callbacks_polite id) (OnConnection false));
      [by apply ConnectionSpec.core_closed | done | done].
  - intros s1 [_ [El Hd _ _]]. cbn in *. split_and!; [done | by apply Hd | done].
Qed.

(** A connection when the server is gone. *)
Definition finished (loop : Z) (c c' : connection) : Prop :=
  if ioLoop c =? loop then destroyed_to (conn c) (conn c')
  else conn c' = TcpConnection.queue_in_loop ConnectDestroyed (conn c).

Lemma destroy_items_ok items s :
  (forall k id, (k, id) ∈ items -> exists c, objects s !! id = Some c /\ ConnectionSpec.inv (conn c)) ->
  NoDup items.*2 ->
  outcome (fun s' => forall id c, objects s !! id = Some c ->
      if decide (id ∈ items.*2) then exists c', objects s' !! id = Some c' /\ finished (_loop s) c c'
      else objects s' !! id = Some c) (destroy_items user items s).
Proof.
  revert s. induction items as [|[k id] items IH]; intros s Hall Hn; cbn [destroy_items].
  { intros i c Hi. by rewrite decide_False by (by intros ?%elem_of_nil). }
  apply NoDup_cons in Hn as [Hnot Hn].
  destruct (Hall k id) as (c & Hc & Hinv); [by left |]. rewrite Hc.
  eapply outcome_bind with (P := fun s' => finished (_loop s) c (set_conn c s')).
  { unfold finished. cbn [ioLoop set_conn conn]. destruct (ioLoop c =? _loop s); [| done].
    by apply connect_destroyed_ok. }
  intros conn' Hf. set (s1 := set_objects s _).
  assert (Hlook : forall i, i <> id -> objects s1 !! i = objects s !! i).
  { intros i Hi. cbn. by rewrite list_lookup_insert_ne by done. }
  assert (Hid : forall i k', (k', i) ∈ items -> i <> id).
  { intros i k' Hin ->. apply Hnot, list_elem_of_fmap. by exists (k', id). }
  eapply outcome_mono; [apply IH; [| done] |].
  - intros k' i Hin. rewrite Hlook by (by eapply Hid). apply (Hall k'). by right.
  - intros s2 Hs2 i d Hd. change (_loop s1) with (_loop s) in Hs2. cbn [fmap list_fmap].
    destruct (decide (i = id)) as [->|Hi].
    + rewrite decide_True by (by left). assert (d = c) as -> by congruence.
      specialize (Hs2 id (set_conn c conn')). rewrite decide_False in Hs2 by done.
      exists (set_conn c conn'). split; [| done]. apply Hs2. cbn.
      apply list_lookup_insert_eq. by eapply lookup_lt_Some.
    + specialize (Hs2 i d). rewrite Hlook in Hs2 by done. specialize (Hs2 Hd).
      destruct (decide (i ∈ items.*2)); [rewrite decide_True by (by right) | rewrite decide_False]; try done.
      by intros [|]%elem_of_cons.
Qed.

Lemma in_map_iff s id c :
  settled s -> objects s !! id = Some c -> id ∈ (_connections s).*2 <-> id ∉ destroyed s.
Proof.
  intros [] Hc. split.
  - intros ([k i] & -> & Hin)%list_elem_of_fmap. apply sorted_find in Hin; [| done].
    by apply v_map0 in Hin as (_ & _ & _ & ?).
  - intros Hn. apply list_elem_of_fmap. exists (name c, id). split; [done |].
    apply find_elem, v_map0. by exists c.
Qed.

Lemma map_values_NoDup s : settled s -> NoDup (_connections s).*2.
Proof.
  intros []. apply NoDup_alt. intros i j id.
  rewrite !list_lookup_fmap, !fmap_Some.
  intros ([k1 x1] & H1 & E1) ([k2 x2] & H2 & E2). cbn in E1, E2. subst x1 x2.
  assert (Hk : k1 = k2).
  { apply list_elem_of_lookup_2 in H1, H2. apply sorted_find in H1, H2; try done.
    apply v_map0 in H1 as (c1 & Hc1 & <- & _), H2 as (c2 & Hc2 & <- & _). congruence. }
  subst k2. assert (Hs : NoDup (_connections s).*1).
  { clear -v_sorted0. induction (_connections s) as [|[k v] m IH]; [constructor |].
    apply sorted_cons in v_sorted0 as [Hm Hk]. apply NoDup_cons. split; [| by apply IH].
    intros Hin%Hk. by apply key_lt_irrefl in Hin. }
  eapply NoDup_lookup; [exact Hs | |]; rewrite list_lookup_fmap; [by rewrite H1 | by rewrite H2].
Qed.
End operations.
End TcpServerSpec.

(** ** The properties *)

Module TcpServerProps.
Import TcpConnection TcpServer TcpServerSpec.
Import ConnectionSpec (outcome, outcome_bind, outcome_mono, log_ok).


(** The server's destructor reaches every connection that is still in the map,
    once: a connection of the server's own loop that was up goes down with its
    callback and leaves the poller, and so does, later, one of another loop. But a
    connection that is being closed stays in its state, without its callbacks. *)
Theorem server_destructor {B : Build} `{KernelLaws} start_loop user inputs loop ip_port name fd wc
    (Hshut : forall i, k_shutdown i = true) (Huser : forall id, ConnectionProps.polite (user id))
    (Hinputs : allowed start_loop user inputs (make loop ip_port name fd wc)) :
  outcome (fun s =>
      outcome (fun s' => forall id c, objects s !! id = Some c ->
          exists c', objects s' !! id = Some c' /\
            if decide (id ∈ destroyed s) then c' = c else
            if ioLoop c =? _loop s then
              _registered (conn c') = false /\
              if bool_decide (_state (conn c) = Connected)
              then _state (conn c') = Disconnected /\ log (conn c') = log (conn c) ++ [OnConnection false]
              else _state (conn c') = _state (conn c) /\ log (conn c') = log (conn c)
            else conn c' = TcpConnection.queue_in_loop ConnectDestroyed (conn c))
        (destroy user s))
    (run start_loop user inputs (make loop ip_port name fd wc)).
Proof.
  eapply outcome_mono; [apply server_run_ok; [done | exact Huser | apply make_settled | done] |].
  intros s Hs. eapply outcome_bind; [apply (destroy_items_ok user Hshut Huser); [| by apply map_values_NoDup] |].
  - intros k id Hin%(sorted_find k); [| apply Hs]. apply (v_map _ _ Hs) in Hin as (c & Hc & _).
    exists c. split; [done | by apply (v_objects _ _ Hs id)].
  - intros s' Hs' id c Hc. specialize (Hs' id c Hc). pose proof (in_map_iff s id c Hs Hc) as Hiff.
    destruct (decide (id ∈ destroyed s)) as [Hd|Hd].
    + rewrite decide_False in Hs' by naive_solver. by exists c.
    + rewrite decide_True in Hs' by (by apply Hiff). exact Hs'.
Qed.

(** *** Witnesses: a server with one io loop, and two clients. *)

Definition hello (id : nat) (_ : list event) (e : event) : list call :=
  match e with
  | OnConnection true => [send (bytes "hello, ")]
  | OnMessage b => [retrieve_input (Buffer.readable_bytes b)]
  | _ => []
  end.
Lemma hello_polite id : ConnectionProps.polite (hello id).
Proof.
  intros h [[]| | | |] st Hp; cbn in *; repeat constructor; cbn; try done; apply u64_range.
Qed.
Definition one_loop (i : Z) : Z := 200 + i.

Definition session : list input :=
  [SetThreadNum 1; Start true; Acceptable (Some 8) true; Next 200; Acceptable (Some 9) true;
   Connection 0 (Ready POLLOUT); Connection 0 (Call false force_close); Connection 0 Pending; Next 100;
   Connection 0 Pending; Next 200].

#[local] Instance is_establish_dec (i : TcpConnection.input) : Decision (i = Establish).
Proof. destruct i; try (right; done). by left. Defined.
#[local] Instance server_input_ok_dec i s : Decision (input_ok i s).
Proof.
  destruct i as [n|b|accept4 named|l|id i]; cbn [input_ok]; try (unfold fits; apply _).
  destruct (objects s !! id) as [c|]; [| right; by intros (c & ? & _)].
  destruct (decide (_state (conn c) <> Connecting /\ i <> Establish /\ ConnectionSpec.input_ok i (conn c))) as [Hd|Hd].
  - left. by exists c.
  - right. by intros (d & [= <-] & ?).
Defined.
Fixpoint check_server_inputs {B : Build} `{Kernel} start_loop user (inputs : list input) (s : t) : bool :=
  match inputs with
  | [] => true
  | i :: inputs' => bool_decide (input_ok i s) &&
      match step start_loop user i s with
      | Ret s' => check_server_inputs start_loop user inputs' s' | Stop _ => true end
  end.
Lemma check_server_inputs_ok {B : Build} `{Kernel} start_loop user inputs s :
  check_server_inputs start_loop user inputs s = true -> allowed start_loop user inputs s.
Proof.
  revert s. induction inputs as [|i inputs IH]; intros s; cbn [check_server_inputs allowed]; [done |].
  intros [Hi Hrest]%andb_true_iff. apply bool_decide_eq_true in Hi. split; [done |].
  intros s' E. rewrite E in Hrest. by apply IH.
Qed.

Definition debug : Build := {| ndebug := false |}.
Definition new_server : t := make 100 (bytes "0.0.0.0:80") (bytes "echo") 3 true.
Lemma session_allowed :
  @allowed debug ConnectionProps.three_bytes one_loop hello session new_server.
Proof. apply check_server_inputs_ok. by vm_compute. Qed.


(** Of the two clients of the session one is gone, the other one up. *)
Example session_ends :
  match @run debug ConnectionProps.three_bytes one_loop hello session new_server with
  | Ret s => destroyed s = [0%nat] /\ (_connections s).*1 = [bytes "echo-0.0.0.0:80#2"] /\
      map (fun c => _state (conn c)) (objects s) = [Disconnected; Connected]
  | Stop _ => False
  end.
Proof. by vm_compute. Qed.

Lemma server_destructor_witness :
  outcome (fun s =>
      outcome (fun s' => forall id c, objects s !! id = Some c ->
          exists c', objects s' !! id = Some c' /\
            if decide (id ∈ destroyed s) then c' = c else
            if ioLoop c =? _loop s then
              _registered (conn c') = false /\
              if bool_decide (_state (conn c) = Connected)
              then _state (conn c') = Disconnected /\ log (conn c') = log (conn c) ++ [OnConnection false]
              else _state (conn c') = _state (conn c) /\ log (conn c') = log (conn c)
            else conn c' = TcpConnection.queue_in_loop ConnectDestroyed (conn c))
        (@destroy debug ConnectionProps.three_bytes hello s))
    (@run debug ConnectionProps.three_bytes one_loop hello session new_server).
Proof.
  apply (@server_destructor debug ConnectionProps.three_bytes ConnectionProps.three_bytes_laws);
    [done | exact hello_polite | exact session_allowed].
Defined.
End TcpServerProps.
