(* ===== verification/ThreadPools.v ===== *)
(** Thread pools (suduo/base/ThreadPool.h/.cpp) and latches
    (suduo/base/CountDownLatch.h), with the threads that share them.

    As in RingQueue.v, a [pass] is one critical section, from the acquisition of
    the mutex to [wait] or to the end; a step relation interleaves the passes of
    all the threads. *)

From stdpp Require Import relations.
From S2P Require Import Prelude.
From S2P Require Import RingQueue.

Module ThreadPool.

(** A [std::function<void()>]: a name, or empty. *)
Definition Task : Type := option Z.

Record t := mk {
  _thread_pool : nat;          (** how many threads the vector holds *)
  _task_queue : list Task;
  _max_queue_size : Z;
  _running : bool
}.

Definition make : t := mk 0 [] 0 false.
(** An [int] stored as [size_t]. *)
Definition set_max_queue_size (size : Z) (p : t) : t :=
  mk (_thread_pool p) (_task_queue p) (u64 size) (_running p).
(** [start]: the pool runs before its threads do. *)
Definition start (threads_num : nat) (p : t) : t :=
  mk (_thread_pool p + threads_num) (_task_queue p) (_max_queue_size p) true.
Definition queue_size (p : t) : Z := zlen (_task_queue p).

Section pools.
Context {B : Build}.

(** [held]: whether [_mutex] knows that the caller has it. It may not:
    [MutexLock::unlock()] clears the holder after the mutex is free, when the caller
    may already have it (Threads.v, [mutex_exclusion]). *)
Definition is_full (held : bool) (p : t) : res bool :=
  _ ← assert_ held;
  mret ((0 <? _max_queue_size p) && (_max_queue_size p <=? zlen (_task_queue p))).

(** What [run] has done when it returns. *)
Inductive outcome := Executed | Queued | Refused.

(** [run]: without threads the caller runs the task. *)
Definition run (held : bool) (task : Task) (p : t) : res (pass t outcome) :=
  match _thread_pool p with
  | O => mret (Leave p Executed)
  | S _ =>
      full ← is_full held p;
      mret (if (full : bool) && _running p then Wait
            else if negb (_running p) then Leave p Refused
            else Leave (mk (_thread_pool p) (_task_queue p ++ [task]) (_max_queue_size p) (_running p)) Queued)
  end.

(** [get_next_task]: the task, empty when there is none, and whether [_not_full] is
    notified. *)
Definition get_next_task (p : t) : pass t (Task * bool) :=
  match _task_queue p with
  | [] => if _running p then Wait else Leave p (None, false)
  | task :: rest => Leave (mk (_thread_pool p) rest (_max_queue_size p) (_running p)) (task, 0 <? _max_queue_size p)
  end.

(** The critical section of [stop]; both conditions are notified for all. *)
Definition stop (p : t) : t := mk (_thread_pool p) (_task_queue p) (_max_queue_size p) false.

(** ** The threads

    A worker runs [thread_func]: the init task, then the loop; inside a task it may
    call [run] like any other thread ([Run true]). A pass of [run] may find the
    holder erased or not; one that fails its assert is no step. *)
Inductive status :=
  | Idle                                   (** not a worker, outside [run] *)
  | Run (worker : bool) (task : Task)      (** about to make a pass of [run] *)
  | WaitNotFull (worker : bool) (task : Task)
  | Init                                   (** [_thread_init_task] *)
  | Test                                   (** [while (_running)] *)
  | Get                                    (** about to make a pass of [get_next_task] *)
  | WaitNotEmpty
  | Exec                                   (** in a task *)
  | Exited.

Definition is_worker (s : status) : bool :=
  match s with Idle | Run false _ | WaitNotFull false _ => false | _ => true end.
Definition waits_full (s : status) : bool := match s with WaitNotFull _ _ => true | _ => false end.
Definition waits_empty (s : status) : bool := match s with WaitNotEmpty => true | _ => false end.
Definition runs (s : status) : bool := match s with Run _ _ => true | _ => false end.
Definition gets (s : status) : bool := match s with Get => true | _ => false end.

(** A waiting thread when it wakes. *)
Definition wake (s : status) : status :=
  match s with
  | WaitNotFull w task => Run w task
  | WaitNotEmpty => Get
  | s => s
  end.
Definition back (worker : bool) : status := if worker then Exec else Idle.

Record sys := mk_sys {
  pool : t;
  threads : list status;
  queued : list Task;      (** history: what [run] has queued *)
  taken : list Task        (** history: what [get_next_task] has taken *)
}.

Definition workers (ths : list status) : nat := count is_worker ths.

(** A pool of [n] threads just started, with any number of other threads. *)
Definition started (max_size : Z) (n others : nat) : sys :=
  mk_sys (start n (set_max_queue_size max_size make)) (replicate n Init ++ replicate others Idle) [] [].

Inductive signal (waits : status -> bool) (ths : list status) : list status -> Prop :=
  | signal_none : count waits ths = 0%nat -> signal waits ths ths
  | signal_one i s : ths !! i = Some s -> waits s = true -> signal waits ths (<[i := wake s]> ths).

Inductive step : sys -> sys -> Prop :=
  | step_call p ths q k i task :
      ths !! i = Some Idle -> step (mk_sys p ths q k) (mk_sys p (<[i := Run false task]> ths) q k)
  | step_call_nested p ths q k i task :
      ths !! i = Some Exec -> step (mk_sys p ths q k) (mk_sys p (<[i := Run true task]> ths) q k)
  | step_run_wait p ths q k i w task held :
      ths !! i = Some (Run w task) -> run held task p = Ret Wait ->
      step (mk_sys p ths q k) (mk_sys p (<[i := WaitNotFull w task]> ths) q k)
  | step_run_queued p ths q k i w task held p' ths' :
      ths !! i = Some (Run w task) -> run held task p = Ret (Leave p' Queued) ->
      signal waits_empty (<[i := back w]> ths) ths' ->
      step (mk_sys p ths q k) (mk_sys p' ths' (q ++ [task]) k)
  | step_run_other p ths q k i w task held p' r :
      ths !! i = Some (Run w task) -> run held task p = Ret (Leave p' r) -> r <> Queued ->
      step (mk_sys p ths q k) (mk_sys p' (<[i := back w]> ths) q k)
  | step_init p ths q k i :
      ths !! i = Some Init -> step (mk_sys p ths q k) (mk_sys p (<[i := Test]> ths) q k)
  | step_test p ths q k i :
      ths !! i = Some Test ->
      step (mk_sys p ths q k) (mk_sys p (<[i := if _running p then Get else Exited]> ths) q k)
  | step_get_wait p ths q k i :
      ths !! i = Some Get -> get_next_task p = Wait ->
      step (mk_sys p ths q k) (mk_sys p (<[i := WaitNotEmpty]> ths) q k)
  | step_get_none p ths q k i p' :
      ths !! i = Some Get -> _task_queue p = [] -> get_next_task p = Leave p' (None, false) ->
      step (mk_sys p ths q k) (mk_sys p' (<[i := Test]> ths) q k)
  | step_get p ths q k i p' task notify ths' :
      ths !! i = Some Get -> _task_queue p <> [] -> get_next_task p = Leave p' (task, notify) ->
      (if notify : bool
       then signal waits_full (<[i := if task is Some _ then Exec else Test]> ths) ths'
       else ths' = <[i := if task is Some _ then Exec else Test]> ths) ->
      step (mk_sys p ths q k) (mk_sys p' ths' q (k ++ [task]))
  | step_task_ends p ths q k i :
      ths !! i = Some Exec -> step (mk_sys p ths q k) (mk_sys p (<[i := Test]> ths) q k)
  | step_spurious p ths q k i s :
      ths !! i = Some s -> step (mk_sys p ths q k) (mk_sys p (<[i := wake s]> ths) q k)
  | step_stop p ths q k :
      step (mk_sys p ths q k) (mk_sys (stop p) (map wake ths) q k).

Definition reached (max_size : Z) (n others : nat) : sys -> Prop :=
  reachable (fun s => s = started max_size n others) step.
End pools.
End ThreadPool.

(** ** Invariants *)

Module ThreadPoolSpec.
Import ThreadPool.

Definition full_size (p : t) : Prop := 0 < _max_queue_size p -> zlen (_task_queue p) <= _max_queue_size p.

(** No task is lost on its way, the bound is kept, and no wakeup is lost: while a
    worker waits, as many are awake as there are tasks; while a caller waits, as
    many are awake as there is room; nobody waits once the pool is stopped. *)
Record inv (s : sys) : Prop := mk_inv {
  i_fifo : queued s = taken s ++ _task_queue (pool s);
  i_bound : full_size (pool s);
  i_empty : (0 < count waits_empty (threads s))%nat ->
    _running (pool s) = true /\ (length (_task_queue (pool s)) <= count gets (threads s))%nat;
  i_full : (0 < count waits_full (threads s))%nat ->
    _running (pool s) = true /\ (0 < _thread_pool (pool s))%nat /\ 0 < _max_queue_size (pool s) /\
    _max_queue_size (pool s) - zlen (_task_queue (pool s)) <= Z.of_nat (count runs (threads s))
}.

Ltac counts ths i y H :=
  pose proof (count_insert waits_empty ths i _ y H);
  pose proof (count_insert waits_full ths i _ y H);
  pose proof (count_insert gets ths i _ y H);
  pose proof (count_insert runs ths i _ y H);
  cbn [waits_empty waits_full gets runs wake] in *.

Lemma signal_empty ths ths' :
  signal waits_empty ths ths' ->
  count waits_full ths' = count waits_full ths /\ count runs ths' = count runs ths /\
  (count waits_empty ths = 0%nat /\ count waits_empty ths' = 0%nat \/
   S (count waits_empty ths') = count waits_empty ths /\ count gets ths' = S (count gets ths)).
Proof.
  destruct 1 as [|i s Hi Hs]; [lia |]. destruct s; try done. counts ths i Get Hi. lia.
Qed.
Lemma signal_full ths ths' :
  signal waits_full ths ths' ->
  count waits_empty ths' = count waits_empty ths /\ count gets ths' = count gets ths /\
  (count waits_full ths = 0%nat /\ count waits_full ths' = 0%nat \/
   S (count waits_full ths') = count waits_full ths /\ count runs ths' = S (count runs ths)).
Proof.
  destruct 1 as [|i s Hi Hs]; [lia |]. destruct s as [| |w task| | | | | |]; try done.
  counts ths i (Run w task) Hi. lia.
Qed.

Lemma wake_all (ths : list status) :
  count waits_empty (map wake ths) = 0%nat /\ count waits_full (map wake ths) = 0%nat.
Proof. induction ths as [|[] ths IH]; cbn; try exact IH; done. Qed.

Lemma count_app {A} (p : A -> bool) l k : count p (l ++ k) = (count p l + count p k)%nat.
Proof. induction l; cbn; lia. Qed.

Lemma pool_start_inv max_size n others : inv (started max_size n others).
Proof.
  constructor; cbn; rewrite ?count_app, ?count_replicate by done; try done; try lia.
  intros ?. done || (cbn in *; lia).
Qed.

Section invariants.
Context {B : Build}.

Lemma run_cases held task p o : run held task p = Ret o ->
  match o with
  | Wait => _running p = true /\ (0 < _thread_pool p)%nat /\ 0 < _max_queue_size p <= zlen (_task_queue p)
  | Leave p' Queued => _running p = true /\
      p' = mk (_thread_pool p) (_task_queue p ++ [task]) (_max_queue_size p) true /\
      (0 < _max_queue_size p -> zlen (_task_queue p) < _max_queue_size p)
  | Leave p' Executed => p' = p /\ _thread_pool p = 0%nat
  | Leave p' Refused => p' = p /\ _running p = false
  end.
Proof.
  unfold run, is_full, assert_. destruct (_thread_pool p); [by intros [= <-] |].
  destruct (ndebug || held); [| done]. intros [= <-].
  destruct (_running p); cbn; [| by rewrite andb_false_r].
  rewrite andb_true_r.
  destruct (Z.ltb_spec 0 (_max_queue_size p)), (Z.leb_spec (_max_queue_size p) (zlen (_task_queue p)));
    cbn; split_and!; try done; try lia.
Qed.

Lemma run_returns held task p : ndebug || held = true -> returns (run held task p).
Proof.
  intros E. unfold run, is_full, assert_. rewrite E. destruct (_thread_pool p); by eexists.
Qed.
Lemma run_fails held task p :
  ndebug || held = false -> (0 < _thread_pool p)%nat -> run held task p = Stop AssertionFailed.
Proof. intros E Hn. unfold run, is_full, assert_. rewrite E. destruct (_thread_pool p); [lia | done]. Qed.

(** Threads move, the pool does not. *)
Lemma inv_threads p ths ths' q k :
  inv (mk_sys p ths q k) ->
  ((0 < count waits_empty ths')%nat -> (0 < count waits_empty ths)%nat /\ (count gets ths <= count gets ths')%nat) ->
  ((0 < count waits_full ths')%nat -> (0 < count waits_full ths)%nat /\ (count runs ths <= count runs ths')%nat) ->
  inv (mk_sys p ths' q k).
Proof.
  intros [Hf Hb He Hu] He' Hu'. constructor; cbn in *; try done.
  - intros Hpos. apply He' in Hpos as [Hpos ?]. apply He in Hpos as []. split; [done | lia].
  - intros Hpos. apply Hu' in Hpos as [Hpos ?]. apply Hu in Hpos as (? & ? & ? & ?). split_and!; try done; lia.
Qed.

Lemma nobody_waits s : inv s -> _running (pool s) = false \/ _thread_pool (pool s) = 0%nat ->
  count waits_full (threads s) = 0%nat /\ (_running (pool s) = false -> count waits_empty (threads s) = 0%nat).
Proof.
  intros [_ _ He Hu] Hr. split.
  - destruct (count waits_full (threads s)); [done |]. destruct Hu as (? & ? & _); [lia |].
    destruct Hr; [congruence | lia].
  - intros Hr'. destruct (count waits_empty (threads s)); [done |]. destruct He as [? _]; [lia | congruence].
Qed.

Lemma step_queued_inv p ths q k i w task held p' ths' :
  inv (mk_sys p ths q k) -> ths !! i = Some (Run w task) -> run held task p = Ret (Leave p' Queued) ->
  signal waits_empty (<[i := back w]> ths) ths' -> inv (mk_sys p' ths' (q ++ [task]) k).
Proof.
  intros [Hf Hb He Hu] Hi Hr Hs. apply run_cases in Hr as Hc.
  destruct Hc as (Hrun & -> & Hlt). cbn [pool threads queued taken] in *.
  assert (waits_empty (back w) = false /\ waits_full (back w) = false /\ gets (back w) = false /\
    runs (back w) = false) as (W1 & W2 & W3 & W4) by (by destruct w).
  counts ths i (back w) Hi. rewrite W1, W2, W3, W4 in *. apply signal_empty in Hs.
  constructor; unfold full_size in *;
    cbn [pool threads queued taken _thread_pool _task_queue _max_queue_size _running] in *;
    rewrite ?length_app; cbn [length].
  - by rewrite Hf, app_assoc.
  - intros Hm. specialize (Hlt Hm). lia.
  - intros Hpos. split; [done |]. destruct He as [_ He]; lia.
  - intros Hpos. destruct Hu as (_ & ? & ? & ?); [lia |]. split_and!; try done; lia.
Qed.

Lemma step_get_inv p ths q k i p' task (notify : bool) ths' :
  inv (mk_sys p ths q k) -> ths !! i = Some Get -> _task_queue p <> [] ->
  get_next_task p = Leave p' (task, notify) ->
  (if notify then signal waits_full (<[i := if task is Some _ then Exec else Test]> ths) ths'
   else ths' = <[i := if task is Some _ then Exec else Test]> ths) ->
  inv (mk_sys p' ths' q (k ++ [task])).
Proof.
  intros [Hf Hb He Hu] Hi Hq Hg Hs. unfold get_next_task in Hg.
  destruct (_task_queue p) as [|x rest] eqn:Eq; [done |]. injection Hg as <- -> <-.
  cbn [pool threads queued taken] in *. set (next := if task is Some _ then Exec else Test) in *.
  assert (waits_empty next = false /\ waits_full next = false /\ gets next = false /\
    runs next = false) as (W1 & W2 & W3 & W4) by (by destruct task).
  counts ths i next Hi. rewrite W1, W2, W3, W4 in *. rewrite Eq in *. cbn [length] in *.
  assert (Hc : count waits_empty ths' = count waits_empty ths /\ S (count gets ths') = count gets ths /\
    ((0 < count waits_full ths')%nat -> (0 < count waits_full ths)%nat /\
       Z.of_nat (count runs ths') >= Z.of_nat (count runs ths) + 1)).
  { destruct (Z.ltb_spec 0 (_max_queue_size p)); [apply signal_full in Hs; lia |]. subst ths'.
    split_and!; lia. }
  constructor; unfold full_size in *;
    cbn [pool threads queued taken _thread_pool _task_queue _max_queue_size _running] in *.
  - by rewrite Hf, <- app_assoc.
  - rewrite Eq in Hb. cbn [length] in Hb. lia.
  - intros Hpos. destruct He as [? ?]; [lia |]. split; [done | lia].
  - intros Hpos. destruct Hc as (_ & _ & Hc). destruct (Hc Hpos) as [Hpos' ?].
    destruct Hu as (? & ? & ? & Hle); [lia |]. split_and!; try done. lia.
Qed.

Lemma pool_step_inv s s' : inv s -> step s s' -> inv s'.
Proof.
  intros Hinv Hstep. pose proof (nobody_waits s Hinv) as Hnw.
  destruct Hstep as [p ths q k i task Hi|p ths q k i task Hi|p ths q k i w task held Hi Hr
    |p ths q k i w task held p' ths' Hi Hr Hs|p ths q k i w task held p' r Hi Hr Hn|p ths q k i Hi|p ths q k i Hi
    |p ths q k i Hi Hg|p ths q k i p' Hi Hq Hg|p ths q k i p' task notify ths' Hi Hq Hg Hs|p ths q k i Hi
    |p ths q k i s Hi|p ths q k]; cbn [pool threads queued taken] in *.
  - counts ths i (Run false task) Hi. eapply inv_threads; [done | lia | lia].
  - counts ths i (Run true task) Hi. eapply inv_threads; [done | lia | lia].
  - apply run_cases in Hr as Hc. destruct Hc as (? & ? & ?).
    counts ths i (WaitNotFull w task) Hi. destruct Hinv as [Hf Hb He Hu].
    constructor; cbn in *; try done.
    + intros Hpos. destruct He as []; [lia |]. split; [done | lia].
    + intros _. split_and!; try done; lia.
  - by eapply step_queued_inv.
  - apply run_cases in Hr as Hc.
    assert (p' = p /\ count waits_full ths = 0%nat) as [-> Hnone].
    { destruct r; [| done |]; destruct Hc as [-> ?]; (split; [done |]); apply Hnw; auto. }
    counts ths i (back w) Hi.
    assert (waits_empty (back w) = false /\ waits_full (back w) = false /\ gets (back w) = false)
      as (W1 & W2 & W3) by (by destruct w). rewrite W1, W2, W3 in *.
    eapply inv_threads; [done | lia | lia].
  - counts ths i Test Hi. eapply inv_threads; [done | lia | lia].
  - destruct (_running p); [counts ths i Get Hi | counts ths i Exited Hi]; (eapply inv_threads; [done | lia | lia]).
  - unfold get_next_task in Hg. destruct (_task_queue p) eqn:Eq, (_running p) eqn:Er; try done.
    counts ths i WaitNotEmpty Hi. destruct Hinv as [Hf Hb He Hu].
    constructor; cbn in *; try done.
    + intros _. rewrite Eq. cbn. split; [done | lia].
    + intros Hpos. destruct Hu as (? & ? & ? & ?); [lia |]. split_and!; try done; lia.
  - unfold get_next_task in Hg. rewrite Hq in Hg. destruct (_running p) eqn:Er; [done |].
    injection Hg as <-. destruct Hnw as [H1 H2]; [by left |]. specialize (H2 eq_refl).
    counts ths i Test Hi. eapply inv_threads; [done | lia | lia].
  - by eapply step_get_inv.
  - counts ths i Test Hi. eapply inv_threads; [done | lia | lia].
  - counts ths i (wake s) Hi. destruct s; cbn in *; (eapply inv_threads; [done | lia | lia]).
  - destruct (wake_all ths) as [E1 E2]. destruct Hinv as [Hf Hb _ _].
    constructor; cbn [pool threads queued taken] in *; rewrite ?E1, ?E2; done || lia.
Qed.

Lemma pool_reached_inv max_size n others s : reached max_size n others s -> inv s.
Proof. apply reachable_invariant; [intros ? -> ; apply pool_start_inv | apply pool_step_inv]. Qed.

Lemma signal_exists waits ths : exists ths', signal waits ths ths'.
Proof.
  destruct (count waits ths) eqn:E; [exists ths; by apply signal_none |].
  destruct (count_inv waits ths) as (i & s & Hi & Hs); [lia |].
  eexists. by apply (signal_one waits ths i s).
Qed.
Lemma signal_other waits ths ths' i s :
  signal waits ths ths' -> ths !! i = Some s -> waits s = false -> ths' !! i = Some s.
Proof.
  destruct 1 as [|j s' Hj Hs']; intros Hi Hs; [done |].
  rewrite list_lookup_insert_ne; [done | congruence].
Qed.

(** A pass of [run] that the assert lets through is a step of the pool. *)
Lemma run_steps s i w task held :
  threads s !! i = Some (Run w task) -> ndebug || held = true ->
  exists s', step s s' /\ threads s' !! i <> Some (Run w task).
Proof.
  intros Hi E. destruct s as [p ths q k]. cbn [threads] in *.
  assert (Hl : forall x, (<[i := x]> ths) !! i = Some x)
    by (intros; apply list_lookup_insert_eq; by eapply lookup_lt_Some).
  destruct (run_returns held task p E) as ([|p' r] & Er).
  - eexists. split; [by eapply step_run_wait |]. cbn [threads]. by rewrite Hl.
  - assert (r = Queued \/ r <> Queued) as [-> | Hr] by (destruct r; auto).
    + destruct (signal_exists waits_empty (<[i := back w]> ths)) as (ths' & Hs).
      eexists. split; [by eapply step_run_queued |]. cbn [threads].
      rewrite (signal_other _ _ _ i (back w) Hs); [by destruct w | done | by destruct w].
    + eexists. split; [by eapply step_run_other |]. cbn [threads]. rewrite Hl. by destruct w.
Qed.

(** *** After [stop()] *)

Definition stopped (s : sys) : Prop := inv s /\ _running (pool s) = false.

Lemma signal_length waits ths ths' : signal waits ths ths' -> length ths' = length ths.
Proof. destruct 1; [done | by rewrite length_insert]. Qed.
Lemma gets_wake ths : count waits_empty ths = 0%nat -> count gets (map wake ths) = count gets ths.
Proof. induction ths as [|[] ths IH]; cbn; lia || auto. Qed.

Lemma step_stopped s s' : stopped s -> step s s' ->
  stopped s' /\ queued s' = queued s /\ length (threads s') = length (threads s) /\
  (length (taken s') + count gets (threads s') <= length (taken s) + count gets (threads s))%nat.
Proof.
  intros [Hinv Hr0] Hstep. pose proof (nobody_waits s Hinv) as Hnw.
  destruct Hnw as [N1 N2]; [by left |]. specialize (N2 Hr0). split; [split; [by eapply pool_step_inv |] |].
  all: destruct Hstep as [p ths q k i task Hi|p ths q k i task Hi|p ths q k i w task held Hi Hr
    |p ths q k i w task held p' ths' Hi Hr Hs|p ths q k i w task held p' r Hi Hr Hn|p ths q k i Hi|p ths q k i Hi
    |p ths q k i Hi Hg|p ths q k i p' Hi Hq Hg|p ths q k i p' task notify ths' Hi Hq Hg Hs|p ths q k i Hi
    |p ths q k i s Hi|p ths q k]; cbn [pool threads queued taken] in *; try done.
  all: try (apply run_cases in Hr as Hc; destruct Hc as [? Hc]; congruence).
  all: try (apply run_cases in Hr as Hc; destruct r; destruct Hc as [? Hc];
            subst; try done).
  all: try (unfold get_next_task in Hg; rewrite ?Hq, ?Hr0 in Hg;
            destruct (_task_queue p); try done; injection Hg as <-; try done).
  all: rewrite ?length_insert, ?length_map; (split; [done |]); try (split; [done |]).
  - counts ths i (Run false task) Hi. lia.
  - counts ths i (Run true task) Hi. lia.
  - counts ths i (back w) Hi. destruct w; cbn in *; lia.
  - counts ths i (back w) Hi. destruct w; cbn in *; lia.
  - counts ths i Test Hi. lia.
  - rewrite Hr0. counts ths i Exited Hi. lia.
  - counts ths i Test Hi. lia.
  - set (next := if task is Some _ then Exec else Test) in *.
    assert (waits_full next = false /\ gets next = false) as [W1 W2] by (by destruct task).
    counts ths i next Hi. rewrite W1, W2 in *. rewrite length_app. cbn [length].
    assert (length ths' = length ths /\ count gets ths' = count gets (<[i:=next]> ths)) as [-> ->]; [| lia].
    destruct notify; [| subst ths'; by rewrite length_insert].
    pose proof (signal_full _ _ Hs) as (_ & E & _). by rewrite (signal_length _ _ _ Hs), length_insert.
  - counts ths i Test Hi. lia.
  - counts ths i (wake s) Hi. destruct s; cbn in *; lia.
  - rewrite gets_wake by done. lia.
Qed.

Lemma steps_stopped s s' : rtc step s s' -> stopped s ->
  stopped s' /\ queued s' = queued s /\
  (length (taken s') + count gets (threads s') <= length (taken s) + count gets (threads s))%nat.
Proof.
  induction 1 as [s|s s1 s' H1 _ IH]; intros Hs; [done |].
  destruct (step_stopped s s1 Hs H1) as (Hs1 & Eq & _ & Hle).
  destruct (IH Hs1) as (? & ? & ?). split_and!; [done | congruence | lia].
Qed.

(** A worker of a stopped pool can go on to the end of [thread_func]. *)
Lemma worker_exits s i st :
  stopped s -> threads s !! i = Some st -> is_worker st = true ->
  exists s', rtc step s s' /\ threads s' = <[i := Exited]> (threads s).
Proof.
  intros Hs Hi Hw.
  assert (Htest : forall s1 st1, stopped s1 -> threads s1 = <[i := st1]> (threads s) -> st1 = Test \/ st1 = Exec ->
    exists s', rtc step s1 s' /\ threads s' = <[i := Exited]> (threads s)).
  { intros [p ths q k] st1 [_ Hr] E Hst. cbn in E, Hr. subst ths.
    assert (Hl : (<[i := st1]> (threads s)) !! i = Some st1)
      by (apply list_lookup_insert_eq; by eapply lookup_lt_Some).
    pose proof (step_test p (<[i := Test]> (threads s)) q k i) as Ht. rewrite Hr, list_insert_insert_eq in Ht.
    exists (mk_sys p (<[i := Exited]> (threads s)) q k). split; [| done]. destruct Hst as [-> | ->].
    - apply rtc_once, Ht. exact Hl.
    - eapply rtc_l; [by apply step_task_ends |]. rewrite list_insert_insert_eq. apply rtc_once, Ht.
      apply list_lookup_insert_eq. by eapply lookup_lt_Some. }
  assert (Hone : forall s1 st1, step s s1 -> threads s1 = <[i := st1]> (threads s) -> st1 = Test \/ st1 = Exec ->
    exists s', rtc step s s' /\ threads s' = <[i := Exited]> (threads s)).
  { intros s1 st1 H1 E Hst. destruct (step_stopped s s1 Hs H1) as [Hs1 _].
    destruct (Htest s1 st1 Hs1 E Hst) as (s' & Hsteps & E'). exists s'. split; [by eapply rtc_l | done]. }
  destruct s as [p ths q k]. destruct Hs as [Hinv Hr]. pose proof (nobody_waits _ Hinv (or_introl Hr)) as [N1 N2].
  cbn in *. specialize (N2 Hr).
  destruct st as [|[] task|[] task| | | | | |]; try done.
  - destruct (run_returns true task p) as (o & Er); [apply orb_true_r |]. pose proof (run_cases _ _ _ _ Er) as Hc.
    destruct o as [|p' r]; [destruct Hc; congruence |].
    assert (p' = p) as -> by (destruct r; destruct Hc as [? Hc]; [done | congruence | done]).
    eapply (Hone (mk_sys p _ q k) Exec); [| done | by right]. eapply (step_run_other p ths q k i true task true p r); [done.. |].
    intros ->. destruct Hc. congruence.
  - pose proof (count_pos waits_full ths i _ Hi eq_refl). lia.
  - eapply (Hone (mk_sys p _ q k) Test); [by apply step_init | done | by left].
  - eapply (Htest _ Test); [by split | by rewrite list_insert_id | by left].
  - destruct (_task_queue p) as [|task rest] eqn:Eq.
    + eapply (Hone (mk_sys p _ q k) Test); [| done | by left]. eapply step_get_none; try done.
      unfold get_next_task. by rewrite Eq, Hr.
    + eapply (Hone (mk_sys _ _ q (k ++ [task])) (if task is Some _ then Exec else Test));
        [| done | destruct task; auto].
      eapply (step_get p ths q k i _ task _ _ Hi); [by rewrite Eq | unfold get_next_task; by rewrite Eq |].
      destruct (0 <? _max_queue_size p); [| done]. apply signal_none.
      pose proof (count_insert waits_full ths i _ (if task is Some _ then Exec else Test) Hi) as Hc.
      cbn in Hc. destruct task; cbn in Hc; lia.
  - pose proof (count_pos waits_empty ths i _ Hi eq_refl). lia.
  - eapply (Htest _ Exec); [by split | by rewrite list_insert_id | by right].
  - eexists. split; [apply rtc_refl |]. cbn. by rewrite list_insert_id.
Qed.

Lemma all_exit s : stopped s ->
  exists s', rtc step s s' /\ forall i st, threads s' !! i = Some st -> is_worker st = true -> st = Exited.
Proof.
  intros Hs.
  enough (forall n, exists s', rtc step s s' /\
    forall i st, (i < n)%nat -> threads s' !! i = Some st -> is_worker st = true -> st = Exited) as E.
  { destruct (E (length (threads s))) as (s' & Hst & Hall). exists s'. split; [done |].
    intros i st Hi. apply (Hall i); [| done]. apply lookup_lt_Some in Hi.
    assert (length (threads s') = length (threads s)) as <-; [| done].
    clear -Hst Hs. induction Hst as [|s s1 s' H1 _ IH]; [done |].
    destruct (step_stopped s s1 Hs H1) as (Hs1 & _ & <- & _). auto. }
  induction n as [|n IH]; [exists s; split; [apply rtc_refl | lia] |].
  destruct IH as (s1 & H1 & Hall). destruct (threads s1 !! n) as [st|] eqn:En.
  2: { exists s1. split; [done |]. intros i st Hi El. destruct (decide (i = n)) as [->|]; [congruence |].
       apply (Hall i); [lia | done]. }
  destruct (is_worker st) eqn:Ew.
  - destruct (worker_exits s1 n st) as (s2 & H2 & E2); [by apply (steps_stopped s) | done | done |].
    exists s2. split; [by etrans |]. intros i st' Hi El Hw. rewrite E2 in El.
    apply list_lookup_insert_Some in El as [(_ & <- & _)|[Hne El]]; [done |].
    apply (Hall i); [lia | done | done].
  - exists s1. split; [done |]. intros i st' Hi El Hw. destruct (decide (i = n)) as [->|]; [congruence |].
    apply (Hall i); [lia | done | done].
Qed.
End invariants.
End ThreadPoolSpec.

(** ** Latches *)

Module CountDownLatch.

(** The count, an [int]; each method is one critical section. *)
Definition count_down (_count : Z) : res (Z * bool) :=
  c ← i32_checked (_count - 1);
  mret (c, c <=? 0).                    (** and whether all are notified *)
Definition wait (_count : Z) : pass Z unit := if 0 <? _count then Wait else Leave _count tt.
Definition get_count (_count : Z) : Z := _count.

Inductive status := Idle | Calling | Waiting | Returned.
Definition is_waiting (s : status) : bool := match s with Waiting => true | _ => false end.

(** Any number of threads wait for a count that others bring down. *)
Inductive step : Z * list status -> Z * list status -> Prop :=
  | step_count_down c ths c' (all : bool) :
      count_down c = Ret (c', all) ->
      step (c, ths) (c', if all then map (fun s => if is_waiting s then Calling else s) ths else ths)
  | step_call c ths i : ths !! i = Some Idle -> step (c, ths) (c, <[i := Calling]> ths)
  | step_wait c ths i :
      ths !! i = Some Calling -> wait c = Wait -> step (c, ths) (c, <[i := Waiting]> ths)
  | step_return c ths i c' :
      ths !! i = Some Calling -> wait c = Leave c' tt -> step (c, ths) (c', <[i := Returned]> ths)
  | step_spurious c ths i :
      ths !! i = Some Waiting -> step (c, ths) (c, <[i := Calling]> ths).

(** Nobody has returned before the count is down, nobody waits after. *)
Definition inv (s : Z * list status) : Prop :=
  (0 < s.1 -> Returned ∉ s.2) /\ (s.1 <= 0 -> Waiting ∉ s.2).

Lemma latch_step_inv s s' : inv s -> step s s' -> inv s'.
Proof.
  intros [H1 H2] Hstep. destruct Hstep as [c ths c' all Hc|c ths i Hi|c ths i Hi Hw|c ths i c' Hi Hw|c ths i Hi];
    cbn in *.
  2-5: unfold wait in *; destruct (Z.ltb_spec 0 c); try done; simplify_eq; (split; cbn; [intros Hp | intros Hp]);
      try lia; intros Hin%list_elem_of_lookup_1; destruct Hin as (j & Hj);
      apply list_lookup_insert_Some in Hj as [(_ & ? & _)|[_ Hj]]; try done;
      apply list_elem_of_lookup_2 in Hj; first [exact (H1 Hp Hj) | exact (H2 Hp Hj)].
  unfold count_down in Hc. destruct (i32_checked (c - 1)) as [d|] eqn:E; [| done].
  unfold i32_checked in E. destruct (_ && _); [| done]. injection E as <-.
  cbn in Hc. injection Hc as <- <-. destruct (Z.leb_spec (c - 1) 0); (split; cbn; intros Hp); try lia.
  - intros (s & E & Hs)%list_elem_of_fmap. by destruct s.
  - apply H1. lia.
Qed.
End CountDownLatch.

(** ** The properties *)

Module ThreadPoolProps.
Import ThreadPool ThreadPoolSpec.

(** C32: a pool and any number of threads that use it, its own tasks included, in any
    interleaving and with spurious wakeups, up to the first assert that fails: tasks
    are taken in the order in which they were queued, none twice and none lost; the
    queue keeps its bound; while the pool runs, a worker waits only if as many others
    are awake as there are tasks, and a caller only if as many are awake as there is
    room; once it is stopped nobody waits. The assert that can fail is
    [_mutex.assert_locked()] in [run()]: it does in a debug build exactly when the
    caller's own mark on the mutex was erased by the thread before it (as
    [mutex_exclusion] shows possible), and in a release build never. *)
Theorem thread_pool_threads {B : Build} max_size n others s (Hs : reached max_size n others s) :
  queued s = taken s ++ _task_queue (pool s) /\
  (0 < _max_queue_size (pool s) -> zlen (_task_queue (pool s)) <= _max_queue_size (pool s)) /\
  ((0 < count waits_empty (threads s))%nat ->
     (length (_task_queue (pool s)) <= count gets (threads s))%nat) /\
  ((0 < count waits_full (threads s))%nat ->
     _max_queue_size (pool s) - zlen (_task_queue (pool s)) <= Z.of_nat (count runs (threads s))) /\
  (_running (pool s) = false ->
     count waits_empty (threads s) = 0%nat /\ count waits_full (threads s) = 0%nat) /\
  (forall i w task held, threads s !! i = Some (Run w task) ->
     if ndebug || held
     then exists s', step s s' /\ threads s' !! i <> Some (Run w task)
     else (0 < _thread_pool (pool s))%nat -> run held task (pool s) = Stop AssertionFailed).
Proof.
  apply pool_reached_inv in Hs as Hi. pose proof (nobody_waits s Hi) as Hn.
  destruct Hi as [Hf Hb He Hu]. split_and!; [exact Hf | exact Hb | intros Hpos; by apply He | intros Hpos; by apply Hu
    | intros Hr; split; [apply Hn; [by left | done] | apply Hn; by left] |].
  intros i w task held Ei. destruct (ndebug || held) eqn:E; [by eapply run_steps | by apply run_fails].
Qed.

(** C33: [stop()] ends. From whatever state it is called in, nothing more is queued,
    each worker that was about to take a task takes at most that one, whatever the
    threads then do, and if the tasks that run return, all the workers can leave
    [thread_func], so that [join] returns. (Tasks left in the queue are dropped.) *)
Theorem thread_pool_stops {B : Build} max_size n others s s'
    (Hs : reached max_size n others s) (Hstop : _running (pool s) = false) (Hsteps : rtc step s s') :
  queued s' = queued s /\
  (length (taken s') <= length (taken s) + count gets (threads s))%nat /\
  exists s'', rtc step s' s'' /\
    forall i st, threads s'' !! i = Some st -> is_worker st = true -> st = Exited.
Proof.
  destruct (steps_stopped s s') as (Hst & Eq & Hle); [done | by split; [eapply pool_reached_inv |] |].
  split_and!; [done | lia | by apply all_exit].
Qed.

(** *** Witnesses: one worker, one other thread, room for one task; the task is
    queued, the worker gets ready for it, the pool is stopped. *)

Lemma reached_rtc {B : Build} max_size n others s : rtc step (started max_size n others) s -> reached max_size n others s.
Proof.
  assert (forall s1, rtc step s1 s -> reached max_size n others s1 -> reached max_size n others s) as E.
  { induction 1 as [|s1 s2 s3 H1 _ IH]; [done |]. intros Hr. apply IH. by eapply reach_step. }
  intros Hs. eapply E; [exact Hs | by apply reach_init].
Qed.

Definition queued_one : sys :=
  mk_sys (mk 1 [Some 5] 1 true) [Get; Idle] [Some 5] [].
Definition stopped_one : sys := mk_sys (mk 1 [Some 5] 1 false) [Get; Idle] [Some 5] [].
Definition finished_one : sys := mk_sys (mk 1 [] 1 false) [Exec; Idle] [Some 5] [Some 5].

Lemma queued_one_reached {B : Build} : reached 1 1 1 queued_one.
Proof.
  apply reached_rtc.
  eapply rtc_l; [by apply (step_call (mk 1 [] 1 true) [Init; Idle] [] [] 1 (Some 5)) |].
  eapply rtc_l; [eapply (step_run_queued _ [Init; Run false (Some 5)] _ _ 1 _ _ true);
    [reflexivity | by destruct B as [[]] | by apply signal_none] |].
  eapply rtc_l; [by apply (step_init _ [Init; Idle] _ _ 0) |].
  apply rtc_once. by apply (step_test (mk 1 [Some 5] 1 true) [Test; Idle] _ _ 0).
Qed.
Lemma stopped_one_reached {B : Build} : reached 1 1 1 stopped_one.
Proof. eapply reach_step; [exact queued_one_reached |]. apply (step_stop (mk 1 [Some 5] 1 true)). Qed.
Lemma stopped_one_steps {B : Build} : rtc step stopped_one finished_one.
Proof.
  apply rtc_once.
  eapply (step_get _ [Get; Idle] _ [] 0 _ (Some 5) true); [reflexivity | done | reflexivity | by apply signal_none].
Qed.

(** The worker leaves while a task that [run] accepted is in the queue: the pool was
    stopped before its first test of [_running]. *)
Definition dropped_one : sys := mk_sys (mk 1 [Some 5] 1 false) [Exited; Idle] [Some 5] [].
Theorem queued_task_never_runs {B : Build} :
  reached 1 1 1 dropped_one /\ forall s, rtc step dropped_one s -> taken s = [].
Proof.
  assert (Hr : reached 1 1 1 dropped_one).
  { apply reached_rtc.
    eapply rtc_l; [by apply (step_call (mk 1 [] 1 true) [Init; Idle] [] [] 1 (Some 5)) |].
    eapply rtc_l; [eapply (step_run_queued _ [Init; Run false (Some 5)] _ _ 1 _ _ true);
    [reflexivity | by destruct B as [[]] | by apply signal_none] |].
    eapply rtc_l; [apply (step_stop (mk 1 [Some 5] 1 true)) |].
    eapply rtc_l; [by apply (step_init _ [Init; Idle] _ _ 0) |].
    apply rtc_once. by apply (step_test (mk 1 [Some 5] 1 false) [Test; Idle] _ _ 0). }
  split; [done |]. intros s Hs.
  destruct (steps_stopped dropped_one s) as (_ & _ & Hle); [done | split; [by eapply pool_reached_inv | done] |].
  cbn in Hle. destruct (taken s); [done | cbn in Hle; lia].
Qed.

#[local] Instance debug : Build := {| ndebug := false |}.

Lemma thread_pool_threads_witness :
  queued queued_one = taken queued_one ++ _task_queue (pool queued_one) /\
  (0 < _max_queue_size (pool queued_one) ->
     zlen (_task_queue (pool queued_one)) <= _max_queue_size (pool queued_one)) /\
  ((0 < count waits_empty (threads queued_one))%nat ->
     (length (_task_queue (pool queued_one)) <= count gets (threads queued_one))%nat) /\
  ((0 < count waits_full (threads queued_one))%nat ->
     _max_queue_size (pool queued_one) - zlen (_task_queue (pool queued_one))
       <= Z.of_nat (count runs (threads queued_one))) /\
  (_running (pool queued_one) = false ->
     count waits_empty (threads queued_one) = 0%nat /\ count waits_full (threads queued_one) = 0%nat) /\
  (forall i w task held, threads queued_one !! i = Some (Run w task) ->
     if ndebug || held
     then exists s', step queued_one s' /\ threads s' !! i <> Some (Run w task)
     else (0 < _thread_pool (pool queued_one))%nat -> run held task (pool queued_one) = Stop AssertionFailed).
Proof. exact (thread_pool_threads 1 1 1 queued_one queued_one_reached). Defined.

Lemma thread_pool_stops_witness :
  queued finished_one = queued stopped_one /\
  (length (taken finished_one) <= length (taken stopped_one) + count gets (threads stopped_one))%nat /\
  exists s'', rtc step finished_one s'' /\
    forall i st, threads s'' !! i = Some st -> is_worker st = true -> st = Exited.
Proof.
  exact (thread_pool_stops 1 1 1 stopped_one finished_one stopped_one_reached eq_refl stopped_one_steps).
Defined.
End ThreadPoolProps.
