(* ===== verification/Threads.v ===== *)
(** Threads (suduo/base/Mutex.h, Condition.h, Thread.h/.cpp): a mutex that knows
    its holder, waiting on a condition, and starting a thread.

    Each step is one pthread call or one access to a field, so that threads
    interleave between the halves of [lock()] and [unlock()]. *)

From stdpp Require Import relations functions.
From S2P Require Import Prelude.
From S2P Require Import RingQueue.
From S2P Require Import ThreadPools.

Module MutexLock.

(** Where a thread is: outside, or in the middle of [lock()], with the mutex, in the
    middle of [unlock()], or in [Condition::wait()]: the holder is unset, asleep,
    woken with the mutex. *)
Inductive point := Idle | Acquired | Holding | Released | Unset | Asleep | Woken.
#[global] Instance point_eq_dec : EqDecision point.
Proof. solve_decision. Defined.

Record t := mk {
  _mutex : option Z;               (** the thread that pthread lets in *)
  _holder : Z;
  threads : Z -> point
}.
Definition make : t := mk None 0 (fun _ => Idle).

Definition set_holder (self : Z) (s : t) : t := mk (_mutex s) self (threads s).
Definition unset_holder (s : t) : t := mk (_mutex s) 0 (threads s).
Definition goto (self : Z) (p : point) (s : t) : t := mk (_mutex s) (_holder s) (<[self := p]> (threads s)).
(** pthread_mutex_lock, which blocks, and pthread_mutex_unlock. *)
Definition acquire (self : Z) (s : t) : option t :=
  match _mutex s with
  | None => Some (mk (Some self) (_holder s) (threads s))
  | Some _ => None
  end.
Definition release (s : t) : t := mk None (_holder s) (threads s).

Definition is_locked_by_this_thread (self : Z) (s : t) : bool := _holder s =? self.
Definition assert_locked {B : Build} (self : Z) (s : t) : res unit := assert_ (is_locked_by_this_thread self s).

Inductive action := Lock | TryLock | Unlock | Wait | Continue.

(** What [self] does next; [None] when it cannot. *)
Definition next (self : Z) (a : action) (s : t) : option t :=
  match threads s self, a with
  | Idle, Lock => s ← acquire self s; Some (goto self Acquired s)
  | Idle, TryLock =>
      match acquire self s with
      | Some s => Some (goto self Acquired s)
      | None => Some s
      end
  | Acquired, Continue => Some (goto self Holding (set_holder self s))
  | Holding, Unlock => Some (goto self Released (release s))
  | Released, Continue => Some (goto self Idle (unset_holder s))
  | Holding, Wait => Some (goto self Unset (unset_holder s))
  | Unset, Continue => Some (goto self Asleep (release s))
  | Asleep, Continue => s ← acquire self s; Some (goto self Woken s)
  | Woken, Continue => Some (goto self Holding (set_holder self s))
  | _, _ => None
  end.

Fixpoint run (l : list (Z * action)) (s : t) : option t :=
  match l with
  | [] => Some s
  | (self, a) :: l' => s ← next self a s; run l' s
  end.

Inductive step : t -> t -> Prop :=
  | step_next self a s s' : 0 < self -> next self a s = Some s' -> step s s'.
Definition reached : t -> Prop := reachable (fun s => s = make) step.
End MutexLock.

Module MutexLockSpec.
Import MutexLock.

(** The points at which a thread has the mutex. *)
Definition inside (p : point) : bool :=
  match p with Acquired | Holding | Unset | Woken => true | _ => false end.

Record inv (s : t) : Prop := mk_inv {
  v_owner self : inside (threads s self) = true <-> _mutex s = Some self;
  v_holder : _holder s <> 0 -> threads s (_holder s) = Holding \/ threads s (_holder s) = Released
}.

Lemma insert_point (f : Z -> point) self p u :
  (<[self := p]> f) u = if decide (u = self) then p else f u.
Proof. destruct (decide (u = self)) as [->|]; [apply fn_lookup_insert | by apply fn_lookup_insert_ne]. Qed.

(** One thread has moved, the mutex and the holder with it. *)
Lemma inv_moved s self p m h :
  inv s ->
  (forall u, u <> self -> m = Some u <-> _mutex s = Some u) -> (inside p = true <-> m = Some self) ->
  (h = 0 \/ h = self /\ p = Holding \/ h = _holder s /\ (h = self -> p = Holding \/ p = Released)) ->
  inv (mk m h (<[self := p]> (threads s))).
Proof.
  intros [Ho Hh] Hm Hp Hn. constructor; cbn.
  - intros u. rewrite insert_point. destruct (decide (u = self)) as [->|Hu]; [done |]. by rewrite Ho, Hm.
  - intros Hz. rewrite insert_point. destruct (decide (h = self)) as [->|Hu]; [naive_solver |].
    destruct Hn as [|[[]|[-> _]]]; [done | done | by apply Hh].
Qed.

Lemma mutex_step_inv s s' : inv s -> step s s' -> inv s'.
Proof.
  intros Hi Hstep. destruct Hstep as [self a s s' Hself E]. pose proof (v_owner _ Hi self) as Ho.
  assert (Hs : _holder s = self -> threads s self = Holding \/ threads s self = Released).
  { intros <-. apply (v_holder _ Hi). lia. }
  unfold next, acquire in E. destruct (threads s self) eqn:Hp, a; try discriminate E; cbn in Ho;
    try (destruct (_mutex s) eqn:Hm; try discriminate E); cbn in E; simplify_eq; try done;
    try (specialize (proj1 Ho eq_refl) as Hown; simplify_eq);
    (apply (inv_moved s self); [done | | |]; cbn; rewrite ?Hm;
     [intros u Hu; split; congruence | intuition congruence |
      first [by left | by right; left | right; right; split; [done | intros Eh; destruct (Hs Eh); auto; congruence]]]).
Qed.

Lemma mutex_reached_inv s : reached s -> inv s.
Proof.
  apply reachable_invariant; [| apply mutex_step_inv]. intros ? ->. by constructor.
Qed.

Lemma run_reached l s s' : Forall (fun x => 0 < x.1) l -> reached s -> run l s = Some s' -> reached s'.
Proof.
  intros Hl. revert s. induction Hl as [|[self a] l Hself _ IH]; intros s Hs; cbn [run]; [by intros [= ->] |].
  intros (s1 & E & Hrun)%bind_Some. apply (IH s1); [| done]. eapply reach_step; [exact Hs | by eapply step_next].
Qed.

(** [u] gets the mutex between the halves of [v]'s [unlock()]. *)
Definition overtake (u v : Z) : list (Z * action) :=
  [(v, Lock); (v, Continue); (v, Unlock); (u, TryLock); (u, Continue); (v, Continue)].
Lemma overtaken u v : u <> v -> exists s, run (overtake u v) make = Some s /\ threads s u = Holding /\ _holder s = 0.
Proof.
  intros Hne. unfold overtake, run, next, acquire.
  repeat (cbn; rewrite insert_point; first [rewrite decide_True by done | rewrite decide_False by done]).
  cbn. eexists. split; [reflexivity |]. split; [| done]. cbn.
  by repeat (rewrite insert_point; first [rewrite decide_True by done | rewrite decide_False by done]).
Qed.
End MutexLockSpec.

Module Thread.

(** Where the owner is: before [start()], in [_latch.wait()] of it, behind it, in
    [pthread_join], behind it. *)
Inductive owner_point := Before | Starting | Started | Joining | Joined.
#[global] Instance owner_point_eq_dec : EqDecision owner_point.
Proof. solve_decision. Defined.
(** Where the new thread is in [run_thread_func]. *)
Inductive child_point := NotCreated | Created | TidStored | CountedDown | Named | Running | Finished.
#[global] Instance child_point_eq_dec : EqDecision child_point.
Proof. solve_decision. Defined.

Record t := mk {
  _started : bool;
  _joined : bool;
  _tid : Z;
  _latch : Z;
  exists_ : bool;                  (** the Thread object, not yet destroyed *)
  owner : owner_point;
  child : child_point;
  runs : nat                       (** history: calls of [_func] *)
}.
Definition make : t := mk false false 0 1 true Before NotCreated 0.

Section operations.
Context {B : Build}.

(** [start()] up to the wait; [created]: what pthread_create makes of it. *)
Definition start (created : bool) (s : t) : res t :=
  _ ← assert_ (negb (_started s));
  mret (if created then mk true (_joined s) (_tid s) (_latch s) (exists_ s) Starting Created (runs s)
        else mk false (_joined s) (_tid s) (_latch s) (exists_ s) (owner s) (child s) (runs s)).
(** The rest of it, when the latch lets it go. *)
Definition started (s : t) : res t :=
  _ ← assert_ (0 <? _tid s);
  mret (mk (_started s) (_joined s) (_tid s) (_latch s) (exists_ s) Started (child s) (runs s)).
Definition join (s : t) : res t :=
  _ ← assert_ (_started s);
  _ ← assert_ (negb (_joined s));
  mret (mk (_started s) true (_tid s) (_latch s) (exists_ s) Joining (child s) (runs s)).
Definition joined (s : t) : t :=
  mk (_started s) (_joined s) (_tid s) (_latch s) (exists_ s) Joined (child s) (runs s).
(** ~Thread: a thread that was not joined is detached, and goes on. *)
Definition destroy (s : t) : t :=
  mk (_started s) (_joined s) (_tid s) (_latch s) false (owner s) (child s) (runs s).

(** [run_thread_func], one access to the object after another: [_tid], [_latch],
    [_thread_id] (for pthread_setname_np), then the function, which is a copy. *)
Definition run_thread_func (tid : Z) (s : t) : res t :=
  let alive (m : res t) := if exists_ s then m else Stop UndefinedBehaviour in
  match child s with
  | Created => alive (mret (mk (_started s) (_joined s) tid (_latch s) (exists_ s) (owner s) TidStored (runs s)))
  | TidStored =>
      alive ('(latch, _) ← CountDownLatch.count_down (_latch s);
             mret (mk (_started s) (_joined s) (_tid s) latch (exists_ s) (owner s) CountedDown (runs s)))
  | CountedDown => alive (mret (mk (_started s) (_joined s) (_tid s) (_latch s) (exists_ s) (owner s) Named (runs s)))
  | Named => mret (mk (_started s) (_joined s) (_tid s) (_latch s) (exists_ s) (owner s) Running (S (runs s)))
  | Running => mret (mk (_started s) (_joined s) (_tid s) (_latch s) (exists_ s) (owner s) Finished (runs s))
  | NotCreated | Finished => mret s
  end.

(** The owner starts the thread, joins it at most once, and destroys the object
    when no call is under way; [tid]: the kernel's id of the new thread. *)
Inductive step (tid : Z) : t -> res t -> Prop :=
  | step_start s created : owner s = Before -> exists_ s = true -> step tid s (start created s)
  | step_started s :
      owner s = Starting -> CountDownLatch.wait (_latch s) = Leave (_latch s) tt -> step tid s (started s)
  | step_join s : owner s = Started -> exists_ s = true -> step tid s (join s)
  | step_joined s : owner s = Joining -> child s = Finished -> step tid s (Ret (joined s))
  | step_destroy s : owner s <> Starting -> owner s <> Joining -> exists_ s = true -> step tid s (Ret (destroy s))
  | step_child s : child s <> NotCreated -> child s <> Finished -> step tid s (run_thread_func tid s).
Definition reached (tid : Z) : t -> Prop :=
  reachable (fun s => s = make) (fun s s' => step tid s (Ret s')).
End operations.
End Thread.

Module ThreadSpec.
Import Thread.

(** [_tid] is there, and the latch down. *)
Definition ready (p : child_point) : bool :=
  match p with NotCreated | Created | TidStored => false | _ => true end.
Definition called (p : child_point) : nat := match p with Running | Finished => 1 | _ => 0 end.

(** The owner has not started the thread, or waits for it, or knows it is ready. *)
Definition legal (o : owner_point) (c : child_point) : bool :=
  match o, c with
  | Before, NotCreated => true
  | Before, _ | _, NotCreated => false
  | Starting, _ => true
  | _, _ => ready c
  end.

Record inv (tid : Z) (s : t) : Prop := mk_inv {
  v_places : legal (owner s) (child s) = true;
  v_started : _started s = negb (bool_decide (owner s = Before));
  v_joined : owner s <> Joining -> owner s <> Joined -> _joined s = false;
  v_alive : exists_ s = false -> owner s <> Starting /\ owner s <> Joining;
  v_tid : child s <> NotCreated -> child s <> Created -> _tid s = tid;
  v_latch : _latch s = if ready (child s) then 0 else 1;
  v_runs : runs s = called (child s)
}.

Section invariants.
Context {B : Build} (tid : Z) (Htid : 0 < tid).

(** Every combination of the two threads' places. *)
Ltac places s :=
  destruct s as [st jo ti la ex ow ch ru]; cbn in *; destruct ow, ch; cbn in *; try done.
Ltac stays := constructor; cbn; try done; try congruence; intuition congruence.

Lemma start_inv created s :
  inv tid s -> owner s = Before -> exists_ s = true -> exists s', start created s = Ret s' /\ inv tid s'.
Proof.
  intros [] Ho He. unfold start. rewrite v_started0, bool_decide_true, assert_true by done. cbn [mbind res_bind mret res_ret].
  eexists. split; [reflexivity |]. places s. destruct created; stays.
Qed.
Lemma started_inv s : inv tid s -> owner s = Starting -> _latch s <= 0 -> exists s', started s = Ret s' /\ inv tid s'.
Proof.
  intros [] Ho Hl. unfold started.
  assert (Hr : ready (child s) = true) by (destruct (ready (child s)); [done | lia]).
  rewrite assert_true.
  2: { rewrite v_tid0 by (intros E; by rewrite E in Hr). by apply Z.ltb_lt. }
  eexists. split; [reflexivity |]. places s; stays.
Qed.
Lemma join_inv s : inv tid s -> owner s = Started -> exists_ s = true -> exists s', join s = Ret s' /\ inv tid s'.
Proof.
  intros [] Ho He. unfold join. rewrite v_started0, v_joined0, bool_decide_false, !assert_true by (done || by rewrite Ho).
  eexists. split; [reflexivity |]. places s; stays.
Qed.
Lemma child_inv s :
  inv tid s -> child s <> NotCreated -> child s <> Finished ->
  (exists s', run_thread_func tid s = Ret s' /\ inv tid s') \/
  (run_thread_func tid s = Stop UndefinedBehaviour /\ exists_ s = false /\ child s = CountedDown).
Proof.
  intros [] H1 H2. unfold run_thread_func, CountDownLatch.count_down.
  destruct (exists_ s) eqn:He; places s; rewrite ?v_latch0;
    first [by right | left; eexists; split; [reflexivity |]; stays | exfalso; intuition congruence].
Qed.

(** A step returns and keeps the invariant, unless the object is gone. *)
Lemma thread_step_ok s m :
  inv tid s -> step tid s m ->
  (exists s', m = Ret s' /\ inv tid s') \/
  (m = Stop UndefinedBehaviour /\ exists_ s = false /\ child s = CountedDown).
Proof.
  intros Hi Hstep. destruct Hstep as [s created Ho He|s Ho Hw|s Ho He|s Ho Hc|s Ho1 Ho2 He|s Hc1 Hc2].
  - left. by apply start_inv.
  - left. apply started_inv; [done | done |]. unfold CountDownLatch.wait in Hw. by destruct (Z.ltb_spec 0 (_latch s)).
  - left. by apply join_inv.
  - left. eexists. split; [reflexivity |]. destruct Hi. places s; stays.
  - left. eexists. split; [reflexivity |]. destruct Hi. places s; stays.
  - by apply child_inv.
Qed.

Lemma thread_make_inv : inv tid make.
Proof. stays. Qed.
Lemma thread_reached_inv s : reached tid s -> inv tid s.
Proof.
  apply reachable_invariant; [intros ? ->; apply thread_make_inv |]. intros s1 s2 Hi Hstep.
  destruct (thread_step_ok s1 _ Hi Hstep) as [(s3 & [= ->] & ?)|(? & _)]; done.
Qed.

(** The waiting owner goes on when the new thread is ready; until then the new
    thread can take a step. *)
Definition to_ready (c : child_point) : nat := match c with Created => 2 | TidStored => 1 | _ => 0 end.
Lemma start_completes s : inv tid s -> owner s = Starting ->
  exists s', rtc (fun s s' => step tid s (Ret s')) s s' /\ owner s' = Started.
Proof.
  remember (to_ready (child s)) as n eqn:En. revert s En. induction n as [|n IH]; intros s En Hi Ho.
  - assert (Hl : _latch s = 0).
    { rewrite (v_latch _ _ Hi). pose proof (v_places _ _ Hi) as Hp. rewrite Ho in Hp. by destruct (child s). }
    destruct (started_inv s Hi Ho) as (s' & E & _); [lia |]. exists s'. split.
    + apply rtc_once. rewrite <- E. apply step_started; [done |]. unfold CountDownLatch.wait. by rewrite Hl.
    + unfold started in E. by returned.
  - assert (Hc : child s <> NotCreated /\ child s <> Finished) by (by destruct (child s)).
    destruct (child_inv s Hi) as [(s1 & E & Hi1)|(_ & He & _)]; [apply Hc | apply Hc | |].
    2: { by destruct (v_alive _ _ Hi He). }
    assert (Hnext : to_ready (child s1) = n /\ owner s1 = Starting).
    { unfold run_thread_func, CountDownLatch.count_down in E. destruct (child s) eqn:Ec; try done; cbn in En;
        returned; split; first [done | cbn; lia]. }
    destruct (IH s1) as (s' & Hrtc & Hs'); [by destruct Hnext | done | by destruct Hnext |].
    exists s'. split; [| done]. eapply rtc_l; [| exact Hrtc]. cbn. rewrite <- E. apply step_child; apply Hc.
Qed.
End invariants.
End ThreadSpec.

(** ** The properties *)

Module ThreadsProps.

(** C34: the mutex excludes, and knows no false holder. However threads lock, try,
    unlock, wait and wake up, at most one is inside, and a thread that finds itself
    the holder has the mutex, or is in the middle of releasing it. But the converse
    fails: any thread can have the mutex while its holder was erased by another one
    that has just left, and then [assert_locked()] fails in a debug build. *)
Theorem mutex_exclusion :
  (forall s, MutexLock.reached s ->
     (forall u v, MutexLockSpec.inside (MutexLock.threads s u) = true ->
        MutexLockSpec.inside (MutexLock.threads s v) = true -> u = v) /\
     (forall u, 0 < u -> MutexLock.is_locked_by_this_thread u s = true ->
        MutexLock.threads s u = MutexLock.Holding \/ MutexLock.threads s u = MutexLock.Released)) /\
  (forall u v, 0 < u -> 0 < v -> u <> v -> exists s, MutexLock.reached s /\
     MutexLock.threads s u = MutexLock.Holding /\
     @MutexLock.assert_locked {| ndebug := false |} u s = Stop AssertionFailed).
Proof.
  split.
  - intros s [Ho Hh]%MutexLockSpec.mutex_reached_inv. split.
    + intros u v Hu%Ho Hv%Ho. congruence.
    + intros u Hu E%Z.eqb_eq. rewrite <- E in *. apply Hh. lia.
  - intros u v Hu Hv Hne.
    destruct (MutexLockSpec.overtaken u v Hne) as (s & E & Hs & Hz). exists s. split; [| split; [done |]].
    + apply (MutexLockSpec.run_reached (MutexLockSpec.overtake u v) MutexLock.make); [| by apply reach_init | done].
      by repeat constructor.
    + unfold MutexLock.assert_locked, MutexLock.is_locked_by_this_thread. rewrite Hz.
      by rewrite (proj2 (Z.eqb_neq 0 u)) by lia.
Qed.

(** [start()] returns once the thread is there, with its id: in any
    interleaving no assert fails, the id is stored when [start()] is over, the
    function is called at most once, and an owner that waits in [start()] can always
    go on. The one thing that can go wrong is that the object is destroyed right
    after [start()]: the new thread still reads [_thread_id] from it. *)
Theorem thread_start {B : Build} tid s (Htid : 0 < tid) (Hs : Thread.reached tid s) :
  (forall m, Thread.step tid s m ->
     returns m \/ m = Stop UndefinedBehaviour /\ Thread.exists_ s = false /\ Thread.child s = Thread.CountedDown) /\
  (Thread.owner s <> Thread.Before -> Thread.owner s <> Thread.Starting -> Thread._tid s = tid) /\
  (Thread.runs s <= 1)%nat /\
  (Thread.owner s = Thread.Starting ->
     exists s', rtc (fun s s' => Thread.step tid s (Ret s')) s s' /\ Thread.owner s' = Thread.Started).
Proof.
  pose proof (ThreadSpec.thread_reached_inv tid Htid s Hs) as Hi. split_and!.
  - intros m Hstep. destruct (ThreadSpec.thread_step_ok tid Htid s m Hi Hstep) as [(s' & -> & _)|?]; [left; by exists s' | auto].
  - intros H1 H2. apply (ThreadSpec.v_tid _ _ Hi); intros E; pose proof (ThreadSpec.v_places _ _ Hi) as Hp; rewrite E in Hp;
      by destruct (Thread.owner s).
  - rewrite (ThreadSpec.v_runs _ _ Hi). destruct (Thread.child s); cbn; lia.
  - intros Ho. by apply ThreadSpec.start_completes.
Qed.

(** Destroyed right after [start()], the object is read by its thread. *)
Theorem thread_outlives_object {B : Build} tid (Htid : 0 < tid) :
  exists s, Thread.reached tid s /\ Thread.step tid s (Stop UndefinedBehaviour).
Proof.
  exists (Thread.mk true false tid 0 false Thread.Started Thread.CountedDown 0). split; [| by apply Thread.step_child].
  apply reach_step with (Thread.mk true false tid 0 true Thread.Started Thread.CountedDown 0).
  2: { by apply (Thread.step_destroy tid (Thread.mk true false tid 0 true Thread.Started Thread.CountedDown 0)). }
  apply reach_step with (Thread.mk true false tid 0 true Thread.Starting Thread.CountedDown 0).
  2: { pose proof (Thread.step_started tid (Thread.mk true false tid 0 true Thread.Starting Thread.CountedDown 0)
         eq_refl eq_refl) as H. unfold Thread.started in H. cbn [Thread._tid] in H.
       by rewrite assert_true in H by (by apply Z.ltb_lt). }
  apply reach_step with (Thread.mk true false tid 1 true Thread.Starting Thread.TidStored 0).
  2: { by apply (Thread.step_child tid (Thread.mk true false tid 1 true Thread.Starting Thread.TidStored 0)). }
  apply reach_step with (Thread.mk true false 0 1 true Thread.Starting Thread.Created 0).
  2: { by apply (Thread.step_child tid (Thread.mk true false 0 1 true Thread.Starting Thread.Created 0)). }
  apply reach_step with Thread.make; [by apply reach_init |].
  pose proof (Thread.step_start tid Thread.make true eq_refl eq_refl) as H. unfold Thread.start in H.
  by rewrite assert_true in H by done.
Qed.

(** *** Witness: a thread that is being started *)

Definition debug : Build := {| ndebug := false |}.
Definition starting : Thread.t := Thread.mk true false 0 1 true Thread.Starting Thread.Created 0.
Lemma starting_reached : @Thread.reached debug 7 starting.
Proof. eapply reach_step; [by apply reach_init |]. by apply (@Thread.step_start debug 7 Thread.make true). Qed.

Lemma thread_start_witness :
  (Thread.runs starting <= 1)%nat /\
  exists s', rtc (fun s s' => @Thread.step debug 7 s (Ret s')) starting s' /\ Thread.owner s' = Thread.Started.
Proof. split; apply (@thread_start debug 7 starting); first [exact starting_reached | done]. Defined.
End ThreadsProps.
