(* ===== verification/CriticalSections.v ===== *)
(** Critical sections access by access (suduo/base/Mutex.h, Condition.h): threads that
    touch shared memory only inside a MutexLock behave as if each section were one
    step. The other files take sections for steps; here that is proved, for the
    MutexLock of Threads.v, and for BoundedBlockingQueue.h down to the loads and stores
    of the ring's fields. *)

From stdpp Require Import relations functions.
From S2P Require Import Prelude.
From S2P Require Import RingQueue.
From S2P Require Import Threads.

(** A section of code that runs under the mutex: accesses to the memory, each a load
    (that stores what is there) or a store, until it returns. What it does next may
    depend on what it has loaded. *)
Inductive section (M A : Type) :=
  | Done (a : A)
  | Access (store : M -> M) (next : M -> section M A).
Arguments Done {M A} a.
Arguments Access {M A} store next.

(** All of it at once. *)
Fixpoint whole {M A} (p : section M A) (m : M) : A * M :=
  match p with
  | Done a => (a, m)
  | Access store next => whole (next m) (store m)
  end.

Module CriticalSection.
Section machine.
(** The operations of an object, what each runs under the mutex, and whether its result
    makes it wait on a condition and then run again, or leave. *)
Context {M Op A : Type} (body : Op -> section M A) (waits : A -> bool).

Record t := mk {
  lock : MutexLock.t;
  mem : M;
  rest : Z -> section M A;        (** what a thread inside has still to do *)
  op : Z -> Op;
  history : list (Z * Op * A)     (** the sections that are over, in the order of their ends *)
}.
Definition make (m : M) (o : Op) (a : A) : t := mk MutexLock.make m (fun _ => Done a) (fun _ => o) [].

(** [MutexLockGuard lock(_mutex); ... while (...) _cond.wait(); ...]: a thread enters
    with an operation, or again with the same after a wait; runs; and leaves through the
    guard's destructor or through [wait()]. *)
Inductive step : t -> t -> Prop :=
  | step_enter self o l s :
      0 < self ->
      MutexLock.threads (lock s) self = MutexLock.Acquired \/
        MutexLock.threads (lock s) self = MutexLock.Woken /\ o = op s self ->
      MutexLock.next self MutexLock.Continue (lock s) = Some l ->
      step s (mk l (mem s) (<[self := body o]> (rest s)) (<[self := o]> (op s)) (history s))
  | step_access self store next s :
      MutexLock.threads (lock s) self = MutexLock.Holding -> rest s self = Access store next ->
      step s (mk (lock s) (store (mem s)) (<[self := next (mem s)]> (rest s)) (op s) (history s))
  | step_leave self a l s :
      0 < self -> MutexLock.threads (lock s) self = MutexLock.Holding -> rest s self = Done a ->
      MutexLock.next self (if waits a then MutexLock.Wait else MutexLock.Unlock) (lock s) = Some l ->
      step s (mk l (mem s) (rest s) (op s) (history s ++ [(self, op s self, a)]))
  | step_outside self action l s :
      0 < self ->
      MutexLock.threads (lock s) self <> MutexLock.Acquired -> MutexLock.threads (lock s) self <> MutexLock.Woken ->
      MutexLock.threads (lock s) self <> MutexLock.Holding ->
      MutexLock.next self action (lock s) = Some l ->
      step s (mk l (mem s) (rest s) (op s) (history s)).
Definition reached (m : M) (o : Op) (a : A) : t -> Prop := reachable (fun s => s = make m o a) step.

(** The reference: the same operations one after the other. *)
Fixpoint replays (l : list (Z * Op * A)) (m m' : M) : Prop :=
  match l with
  | [] => m' = m
  | (_, o, a) :: l => (whole (body o) m).1 = a /\ replays l (whole (body o) m).2 m'
  end.
End machine.
Arguments t : clear implicits.
End CriticalSection.

Module CriticalSectionSpec.
Import CriticalSection.
Section machine.
Context {M Op A : Type} (body : Op -> section M A) (waits : A -> bool) (m0 : M).

Record inv (s : t M Op A) : Prop := mk_inv {
  v_lock : MutexLockSpec.inv (lock s);
  v_base : exists base, replays body (history s) m0 base /\
    (forall self, MutexLock.threads (lock s) self = MutexLock.Holding ->
       whole (rest s self) (mem s) = whole (body (op s self)) base) /\
    ((forall self, MutexLock.threads (lock s) self <> MutexLock.Holding) -> mem s = base)
}.

Lemma replays_app l k m m' m'' :
  replays body l m m' -> replays body k m' m'' -> replays body (l ++ k) m m''.
Proof.
  revert m. induction l as [|[[self o] a] l IH]; intros m; cbn [replays app]; [by intros -> |].
  intros [Ha Hl] Hk. split; [done | by apply IH].
Qed.

(** Only one thread is inside. *)
Lemma alone l u v :
  MutexLockSpec.inv l -> MutexLockSpec.inside (MutexLock.threads l u) = true ->
  MutexLockSpec.inside (MutexLock.threads l v) = true -> u = v.
Proof. intros Hi Hu%(MutexLockSpec.v_owner _ Hi) Hv%(MutexLockSpec.v_owner _ Hi). congruence. Qed.
Lemma alone_holding l u v :
  MutexLockSpec.inv l -> MutexLockSpec.inside (MutexLock.threads l u) = true ->
  MutexLock.threads l v = MutexLock.Holding -> v = u.
Proof. intros Hi Hu Hv. apply (alone l v u); [done | by rewrite Hv | done]. Qed.

(** The mutex moves one thread, and where to. *)
Lemma next_moves self action l l' :
  MutexLock.next self action l = Some l' ->
  MutexLock.threads l' self =
    match MutexLock.threads l self, action with
    | MutexLock.Idle, MutexLock.TryLock => MutexLock.threads l' self
    | MutexLock.Idle, _ => MutexLock.Acquired
    | MutexLock.Acquired, _ | MutexLock.Woken, _ => MutexLock.Holding
    | MutexLock.Holding, MutexLock.Wait => MutexLock.Unset
    | MutexLock.Holding, _ => MutexLock.Released
    | MutexLock.Released, _ => MutexLock.Idle
    | MutexLock.Unset, _ => MutexLock.Asleep
    | MutexLock.Asleep, _ => MutexLock.Woken
    end /\
  (MutexLock.threads l self = MutexLock.Idle -> MutexLock.threads l' self <> MutexLock.Holding) /\
  forall u, u <> self -> MutexLock.threads l' u = MutexLock.threads l u.
Proof.
  unfold MutexLock.next, MutexLock.acquire. intros E.
  destruct (MutexLock.threads l self) eqn:Hp, action; try discriminate E;
    try (destruct (MutexLock._mutex l); try discriminate E); cbn in E; simplify_eq; cbn;
    rewrite ?MutexLockSpec.insert_point, ?decide_True by done; rewrite ?Hp;
    (split_and!; [done | done |]); intros u Hu; cbn; rewrite ?MutexLockSpec.insert_point, ?decide_False by done; done.
Qed.

Lemma outside_never_holds self action l l' :
  MutexLock.threads l self <> MutexLock.Acquired -> MutexLock.threads l self <> MutexLock.Woken ->
  MutexLock.threads l self <> MutexLock.Holding -> MutexLock.next self action l = Some l' ->
  forall u, MutexLock.threads l' u = MutexLock.Holding <-> MutexLock.threads l u = MutexLock.Holding.
Proof.
  intros Ha Hw Hh E u. destruct (next_moves self action l l' E) as (Hs & Hidle & Hu).
  destruct (decide (u = self)) as [->|Hne]; [| by rewrite Hu].
  destruct (MutexLock.threads l self) eqn:Hp; try done; try (rewrite Hs; by destruct action).
  split; [intros ?; by destruct (Hidle eq_refl) | done].
Qed.

Lemma section_step_inv s s' : inv s -> step body waits s s' -> inv s'.
Proof.
  intros [Hl (base & Hr & Hin & Hout)] Hstep.
  destruct Hstep as [self o l s Hself Hp E | self store next s Hp Hrest | self a l s Hself Hp Hrest E
                    | self action l s Hself Ha Hw Hh E].
  - destruct (next_moves _ _ _ _ E) as (Hs & _ & Hu). constructor; [by eapply MutexLockSpec.mutex_step_inv; [| econstructor] |].
    assert (Hinside : MutexLockSpec.inside (MutexLock.threads (lock s) self) = true) by (by destruct Hp as [-> | [-> _]]).
    assert (Hnone : forall u, MutexLock.threads (lock s) u <> MutexLock.Holding).
    { intros u Hh. pose proof (alone_holding _ _ _ Hl Hinside Hh) as ->. by destruct Hp as [Hp | [Hp _]]; rewrite Hp in Hh. }
    exists base. cbn. split_and!; [done | |].
    + intros u Hh. destruct (decide (u = self)) as [->|Hne]; [| rewrite (Hu u Hne) in Hh; by destruct (Hnone u)].
      rewrite !fn_lookup_insert. by rewrite (Hout Hnone).
    + intros Hn. by apply Hout.
  - constructor; [done |]. exists base. cbn. split_and!; [done | |].
    + intros u Hh. assert (u = self) as -> by (eapply alone_holding; [done | by rewrite Hp | done]).
      rewrite fn_lookup_insert. rewrite <- (Hin self Hp), Hrest. done.
    + intros Hn. by destruct (Hn self).
  - destruct (next_moves _ _ _ _ E) as (Hs & _ & Hu). constructor; [by eapply MutexLockSpec.mutex_step_inv; [| econstructor] |].
    pose proof (Hin self Hp) as Hw. rewrite Hrest in Hw. cbn [whole] in Hw.
    exists (mem s). cbn. split_and!; [| | done].
    + eapply replays_app; [exact Hr |]. cbn. by rewrite <- Hw.
    + intros u Hh. destruct (decide (u = self)) as [->|Hne].
      * rewrite Hs, Hp in Hh. by destruct (waits a).
      * rewrite Hu in Hh by done. destruct Hne. eapply alone_holding; [done | by rewrite Hp | done].
  - pose proof (outside_never_holds _ _ _ _ Ha Hw Hh E) as Hsame.
    constructor; [by eapply MutexLockSpec.mutex_step_inv; [| econstructor] |].
    exists base. cbn. split_and!; [done | |].
    + intros u Hu%Hsame. by apply Hin.
    + intros Hn. apply Hout. intros u Hu%Hsame. by destruct (Hn u).
Qed.

Lemma section_reached_inv o a s : reached body waits m0 o a s -> inv s.
Proof.
  apply reachable_invariant; [| intros ? ? ? ?; by eapply section_step_inv]. intros ? ->. constructor.
  - by apply MutexLockSpec.mutex_reached_inv, reach_init.
  - exists m0. by split_and!.
Qed.
End machine.
End CriticalSectionSpec.

(** ** The bounded queue, field by field *)

Module QueueSections.
Import CircularBuffer.
Section elements.
Context {T : Type}.

Definition set_buffer (l : list T) (q : CircularBuffer.t T) : CircularBuffer.t T := CircularBuffer.mk l (_begin q) (_end q) (_size q).
Definition set_begin (n : Z) (q : CircularBuffer.t T) : CircularBuffer.t T := CircularBuffer.mk (_buffer q) n (_end q) (_size q).
Definition set_end (n : Z) (q : CircularBuffer.t T) : CircularBuffer.t T := CircularBuffer.mk (_buffer q) (_begin q) n (_size q).
Definition set_size (n : Z) (q : CircularBuffer.t T) : CircularBuffer.t T := CircularBuffer.mk (_buffer q) (_begin q) (_end q) n.

(** What a section returns: nothing when it waits, the element when it pops one. *)
Definition result : Type := res (option (option T)).
Definition code : Type := section (CircularBuffer.t T) result.
Definition waits (a : result) : bool := match a with Ret None => true | _ => false end.

Definition load {X} (read : CircularBuffer.t T -> X) (next : X -> code) : code := Access (fun q => q) (fun q => next (read q)).
Definition store (write : CircularBuffer.t T -> CircularBuffer.t T) (next : code) : code := Access write (fun _ => next).
Definition checked {X} (m : res X) (next : X -> code) : code :=
  match m with Ret x => next x | Stop f => Done (Stop f) end.

(** [while (_queue.full()) _not_full.wait(); _queue.push(val);], with the ring's
    [_buffer[_end++] = val; if (_end >= _buffer.size()) _end = 0; _size++;]. *)
Definition push (val : T) : code :=
  load _size (fun size =>
  load _buffer (fun buffer =>
  if u64 size =? zlen buffer then Done (Ret None) else
  load _end (fun e =>
  checked (i32_checked (e + 1)) (fun e1 =>
  store (set_end e1) (
  load _buffer (fun buffer =>
  checked (vec_set buffer e val) (fun buffer =>
  store (set_buffer buffer) (
  load _end (fun e =>
  load _buffer (fun buffer =>
  let rest :=
    load _size (fun size =>
    checked (i32_checked (size + 1)) (fun size =>
    store (set_size size) (Done (Ret (Some None))))) in
  if zlen buffer <=? u64 e then store (set_end 0) rest else rest)))))))))).

(** [while (_queue.empty()) _not_empty.wait(); T val = _queue.pop();], with the ring's
    [T val = _buffer[_begin++]; if (_begin >= _buffer.size()) _begin = 0; _size--;]. *)
Definition pop : code :=
  load _size (fun size =>
  if size =? 0 then Done (Ret None) else
  load _begin (fun b =>
  checked (i32_checked (b + 1)) (fun b1 =>
  store (set_begin b1) (
  load _buffer (fun buffer =>
  checked (vec_get buffer b) (fun val =>
  load _begin (fun b =>
  load _buffer (fun buffer =>
  let rest :=
    load _size (fun size =>
    checked (i32_checked (size - 1)) (fun size =>
    store (set_size size) (Done (Ret (Some (Some val)))))) in
  if zlen buffer <=? u64 b then store (set_begin 0) rest else rest)))))))).

Inductive op := Push (val : T) | Pop.
Definition body (o : op) : code := match o with Push val => push val | Pop => pop end.

(** The same operations as single steps: those of RingQueue.v. *)
Definition atomically (o : op) (q : CircularBuffer.t T) : res (pass (CircularBuffer.t T) (option T)) :=
  match o with
  | Push val =>
      p ← BoundedBlockingQueue.push q val;
      mret (match p with Wait => Wait | Leave q _ => Leave q None end)
  | Pop =>
      p ← BoundedBlockingQueue.pop q;
      mret (match p with Wait => Wait | Leave q val => Leave q (Some val) end)
  end.
Definition outcome (p : pass (CircularBuffer.t T) (option T)) (q : CircularBuffer.t T) : result * CircularBuffer.t T :=
  match p with Wait => (Ret None, q) | Leave q r => (Ret (Some r), q) end.
Fixpoint performs (l : list (Z * op * result)) (q q' : CircularBuffer.t T) : Prop :=
  match l with
  | [] => q' = q
  | (_, o, a) :: l =>
      exists p, atomically o q = Ret p /\ (outcome p q).1 = a /\ performs l (outcome p q).2 q'
  end.

(** The elements that went in and came out. *)
Definition pushed (l : list (Z * op * result)) : list T :=
  omap (fun x => match x with (_, Push val, Ret (Some _)) => Some val | _ => None end) l.
Definition popped (l : list (Z * op * result)) : list T :=
  omap (fun x => match x with (_, _, Ret (Some (Some val))) => Some val | _ => None end) l.
End elements.
Arguments op : clear implicits.
Arguments result : clear implicits.
End QueueSections.

Module QueueSectionsSpec.
Import CriticalSection CriticalSectionSpec QueueSections.
Section elements.
Context {T : Type}.

(** A section as a whole is the single step. *)
Lemma whole_atomic (o : op T) q p : atomically o q = Ret p -> whole (body o) q = outcome p q.
Proof.
  destruct q as [l b e n]. destruct o as [val|]; cbn [atomically body].
  - unfold BoundedBlockingQueue.push, CircularBuffer.push, CircularBuffer.full, push, load, store. cbn.
    destruct (u64 n =? zlen l) eqn:Hf; [by intros [= <-] |].
    destruct (vec_set l e val) as [l'|] eqn:Hv; [| done]. cbn.
    destruct (i32_checked (e + 1)) as [e1|] eqn:He; [| done]. cbn. rewrite Hv. cbn.
    destruct (i32_checked (n + 1)) as [n1|] eqn:Hn; [| done]. cbn. intros [= <-].
    destruct (zlen l' <=? u64 e1); cbn; by rewrite Hn.
  - unfold BoundedBlockingQueue.pop, CircularBuffer.pop, CircularBuffer.empty, pop, load, store. cbn.
    destruct (n =? 0) eqn:Hf; [by intros [= <-] |].
    destruct (vec_get l b) as [val|] eqn:Hv; [| done]. cbn.
    destruct (i32_checked (b + 1)) as [b1|] eqn:Hb; [| done]. cbn. rewrite Hv. cbn.
    destruct (i32_checked (n - 1)) as [n1|] eqn:Hn; [| done]. cbn. intros [= <-].
    destruct (zlen l <=? u64 b1); cbn; by rewrite Hn.
Qed.

(** A single step returns and keeps the ring a ring. *)
Lemma atomically_ok (o : op T) q : CircularBuffer.wf q ->
  exists p, atomically o q = Ret p /\ CircularBuffer.wf (outcome p q).2 /\
    CircularBuffer.contents q ++ pushed [(0, o, (outcome p q).1)]
    = popped [(0, o, (outcome p q).1)] ++ CircularBuffer.contents (outcome p q).2.
Proof.
  intros Hq. destruct o as [val|]; cbn [atomically].
  - destruct (decide (@bf_room T _ bounded_fifo q = Some 0%nat)) as [Hr|Hr].
    + pose proof (bf_push_wait (F := bounded_fifo) q val Hq Hr) as E. cbn in E. rewrite E. exists Wait. cbn. by rewrite app_nil_r.
    + destruct (bf_push_leave (F := bounded_fifo) q val Hq Hr) as (q' & E & Hq' & Hc & _). cbn in E, Hq', Hc. rewrite E.
      exists (Leave q' None). by cbn.
  - destruct (CircularBuffer.contents q) as [|x l] eqn:Hc.
    + pose proof (bf_pop_wait (F := bounded_fifo) q Hq Hc) as E. cbn in E. rewrite E. exists Wait. cbn. by rewrite Hc.
    + destruct (bf_pop_leave (F := bounded_fifo) q x l Hq Hc) as (q' & E & Hq' & Hc' & _). cbn in E, Hq', Hc'. rewrite E.
      exists (Leave q' (Some x)). cbn. by rewrite app_nil_r, Hc'.
Qed.

(** A history of sections is one of single steps. *)
Lemma replays_performs l (q q' : CircularBuffer.t T) :
  CircularBuffer.wf q -> replays body l q q' ->
  performs l q q' /\ CircularBuffer.wf q' /\ CircularBuffer.contents q ++ pushed l = popped l ++ CircularBuffer.contents q'.
Proof.
  revert q. induction l as [|[[self o] a] l IH]; intros q Hq; cbn [replays performs].
  { intros ->. by rewrite app_nil_r. }
  intros [Ha Hl]. destruct (atomically_ok o q Hq) as (p & E & Hq1 & Hc).
  rewrite (whole_atomic o q p E) in Ha, Hl. destruct (IH _ Hq1 Hl) as (Hp & Hq' & Hc').
  split_and!; [by exists p | done |]. rewrite Ha in Hc.
  change (pushed ((self, o, a) :: l)) with (pushed ([(0, o, a)] ++ l)).
  change (popped ((self, o, a) :: l)) with (popped ([(0, o, a)] ++ l)).
  unfold pushed, popped in *. rewrite !omap_app, app_assoc, Hc, <- app_assoc, Hc', app_assoc. done.
Qed.
End elements.
End QueueSectionsSpec.

(** ** The property *)

Module CriticalSectionProps.
Import CriticalSection CriticalSectionSpec QueueSections QueueSectionsSpec.

(** C35: a critical section is one step. Threads push to and pop from one
    BoundedBlockingQueue, each load and store of the ring's fields and each half of
    [lock()], [unlock()] and [wait()] a step of its own, in any interleaving. The
    sections that are over are the single steps of RingQueue.v, with the same results,
    in the order of their ends; none fails; what was pushed is what was popped followed
    by the contents; and the fields in memory are those of that queue whenever nobody
    is inside, and when the one inside is done they are those after its step. *)
Theorem sections_are_atomic {T} (d : T) n q0 o s
    (Hn : 0 <= n <= int32_max) (Hq : CircularBuffer.make d n = Ret q0)
    (Hs : reached body waits q0 o (Ret None) s) :
  exists q, performs (history s) q0 q /\ CircularBuffer.wf q /\
    pushed (history s) = popped (history s) ++ CircularBuffer.contents q /\
    ((forall self, MutexLock.threads (lock s) self <> MutexLock.Holding) -> mem s = q) /\
    (forall self a, MutexLock.threads (lock s) self = MutexLock.Holding -> rest s self = Done a ->
       exists p, atomically (CriticalSection.op s self) q = Ret p /\ outcome p q = (a, mem s)).
Proof.
  destruct (section_reached_inv body waits q0 o (Ret None) s Hs) as [_ (q & Hr & Hin & Hout)].
  destruct (RingSpec.make_spec d n Hn) as (q1 & E & Hwf & Hc & _). rewrite Hq in E. injection E as <-.
  destruct (replays_performs _ _ _ Hwf Hr) as (Hp & Hwf' & Hcont). rewrite Hc in Hcont.
  exists q. split_and!; try done. intros self a Hh Hd.
  destruct (atomically_ok (CriticalSection.op s self) q Hwf') as (p & Ep & _). exists p. split; [done |].
  specialize (Hin self Hh). rewrite Hd, (whole_atomic _ _ _ Ep) in Hin. by rewrite <- Hin.
Qed.

(** *** Witness: a thread pops between the halves of another's calls *)

Inductive label (O : Type) := Enter (self : Z) (o : O) | Touch (self : Z) | Leave_ (self : Z) | Outside (self : Z) (a : MutexLock.action).
Arguments Enter {O}. Arguments Touch {O}. Arguments Leave_ {O}. Arguments Outside {O}.
Section schedules.
Context {M O A : Type} (body : O -> section M A) (waits : A -> bool).
Definition move (l : label O) (s : CriticalSection.t M O A) : option (CriticalSection.t M O A) :=
  match l with
  | Enter self o =>
      if decide (0 < self /\ MutexLock.threads (lock s) self = MutexLock.Acquired) then
        l ← MutexLock.next self MutexLock.Continue (lock s);
        Some (CriticalSection.mk l (mem s) (<[self := body o]> (rest s)) (<[self := o]> (CriticalSection.op s)) (history s))
      else None
  | Touch self =>
      if decide (MutexLock.threads (lock s) self = MutexLock.Holding) then
        match rest s self with
        | Access store next =>
            Some (CriticalSection.mk (lock s) (store (mem s)) (<[self := next (mem s)]> (rest s)) (CriticalSection.op s) (history s))
        | Done _ => None
        end
      else None
  | Leave_ self =>
      if decide (0 < self /\ MutexLock.threads (lock s) self = MutexLock.Holding) then
        match rest s self with
        | Done a =>
            l ← MutexLock.next self (if waits a then MutexLock.Wait else MutexLock.Unlock) (lock s);
            Some (CriticalSection.mk l (mem s) (rest s) (CriticalSection.op s) (history s ++ [(self, CriticalSection.op s self, a)]))
        | Access _ _ => None
        end
      else None
  | Outside self a =>
      if decide (0 < self /\ MutexLock.threads (lock s) self <> MutexLock.Acquired /\
                 MutexLock.threads (lock s) self <> MutexLock.Woken /\ MutexLock.threads (lock s) self <> MutexLock.Holding) then
        l ← MutexLock.next self a (lock s);
        Some (CriticalSection.mk l (mem s) (rest s) (CriticalSection.op s) (history s))
      else None
  end.
Lemma move_step l s s' : move l s = Some s' -> CriticalSection.step body waits s s'.
Proof.
  destruct l as [self o|self|self|self a]; cbn [move]; case_decide as Hd; try done.
  - intros (l & E & [= <-])%bind_Some. destruct Hd. by eapply step_enter; [| left |].
  - destruct (rest s self) as [|store next] eqn:E; [done |]. intros [= <-]. by eapply step_access.
  - destruct (rest s self) as [a|] eqn:E; [| done]. intros (l & El & [= <-])%bind_Some. destruct Hd. by eapply step_leave.
  - intros (l & E & [= <-])%bind_Some. destruct Hd as (? & ? & ? & ?). by eapply step_outside.
Qed.
Fixpoint moves (ls : list (label O)) (s : CriticalSection.t M O A) : option (CriticalSection.t M O A) :=
  match ls with
  | [] => Some s
  | l :: ls => s ← move l s; moves ls s
  end.
Lemma moves_reached m o a ls s s' : reached body waits m o a s -> moves ls s = Some s' -> reached body waits m o a s'.
Proof.
  revert s. induction ls as [|l ls IH]; intros s Hs; cbn [moves]; [by intros [= <-] |].
  intros (s1 & E & Hrest)%bind_Some. eapply IH; [| exact Hrest]. eapply reach_step; [exact Hs | by eapply move_step].
Qed.
End schedules.

Definition ring : CircularBuffer.t Z := CircularBuffer.mk [0; 0] 0 0 0.
Definition schedule : list (label (QueueSections.op Z)) :=
  [Outside 1 MutexLock.Lock; Enter 1 (Push 5); Touch 1; Touch 1; Outside 2 MutexLock.TryLock] ++ replicate 8 (Touch 1) ++
  [Leave_ 1; Outside 2 MutexLock.Lock; Outside 1 MutexLock.Continue; Enter 2 Pop; Touch 2; Touch 2; Touch 2].
Definition scheduled : CriticalSection.t (CircularBuffer.t Z) (QueueSections.op Z) (result Z) :=
  default (CriticalSection.make ring Pop (Ret None)) (moves body waits schedule (CriticalSection.make ring Pop (Ret None))).
Lemma scheduled_reached : reached body waits ring Pop (Ret None) scheduled.
Proof.
  unfold scheduled. destruct (moves body waits schedule _) as [s|] eqn:E; cbn; [| by apply reach_init].
  eapply moves_reached; [| exact E]. by apply reach_init.
Qed.
Example scheduled_state :
  history scheduled = [(1, Push 5, Ret (Some None))] /\ MutexLock.threads (lock scheduled) 2 = MutexLock.Holding /\
  mem scheduled = CircularBuffer.mk [5; 0] 1 1 1.
Proof. by vm_compute. Qed.

Lemma sections_are_atomic_witness :
  exists q, performs (history scheduled) ring q /\ CircularBuffer.wf q /\
    pushed (history scheduled) = popped (history scheduled) ++ CircularBuffer.contents q /\
    ((forall self, MutexLock.threads (lock scheduled) self <> MutexLock.Holding) -> mem scheduled = q) /\
    (forall self a, MutexLock.threads (lock scheduled) self = MutexLock.Holding -> rest scheduled self = Done a ->
       exists p, atomically (CriticalSection.op scheduled self) q = Ret p /\ outcome p q = (a, mem scheduled)).
Proof.
  apply (sections_are_atomic 0 2 ring Pop scheduled); [by split | by vm_compute | exact scheduled_reached].
Defined.
End CriticalSectionProps.
