(* ===== verification/LogStreams.v ===== *)
(** Log lines (suduo/base/LogStream.h, Logger.h/.cpp): the stream a line is put
    together in, and the logger that writes it out. *)

From S2P Require Import Prelude.
From S2P Require Import Time.

Module StreamBuffer.

(** [written]: the bytes between [_buffer] and [_current]; those behind are not
    initialised. *)
Record t := mk {
  SIZE : Z;
  written : list byte
}.

Definition make (SIZE : Z) : t := mk SIZE [].
Definition size (b : t) : Z := zlen (written b).
Definition availability (b : t) : Z := u64 (SIZE b - zlen (written b)).
Definition append (buf : list byte) (b : t) : t :=
  if zlen buf <? availability b then mk (SIZE b) (written b ++ buf) else b.
(** [move(step)], after [bytes] have been stored from [current_ptr()] on. *)
Definition move (bytes : list byte) (b : t) : t := mk (SIZE b) (written b ++ bytes).
Definition reset (b : t) : t := mk (SIZE b) [].
Definition to_string (b : t) : list byte := written b.

Definition wf (b : t) : Prop := zlen (written b) <= SIZE b < 4294967296.
End StreamBuffer.

Module LogStream.

Definition MIN_BUFFER_SIZE : Z := 4000.
Definition MAX_BUFFER_SIZE : Z := 4000 * 1000.

Record t := mk {
  _buffer : StreamBuffer.t;
  errors : nat               (** lines [printf] has put on standard output *)
}.
Definition make : t := mk (StreamBuffer.make MIN_BUFFER_SIZE) 0.
Definition set_buffer (s : t) (b : StreamBuffer.t) : t := mk b (errors s).
Definition reset_buffer (s : t) : t := set_buffer s (StreamBuffer.reset (_buffer s)).

(** [std::to_chars] in base 16. *)
Definition hex_digit (z : Z) : byte := byte_of_Z (if z <? 10 then 48 + z else 87 + z).
Fixpoint hex_digits (fuel : nat) (z : Z) : list byte :=
  match fuel with
  | O => []
  | S fuel' => if z <? 16 then [hex_digit z] else hex_digits fuel' (z / 16) ++ [hex_digit (z mod 16)]
  end.
(** A 64-bit value has at most 16 hexadecimal digits. *)
Definition hexadecimal (z : Z) : list byte := hex_digits 16 z.

Section operations.
(** What [std::to_chars] leaves in a range that is too short, and how it writes a
    [double] with 12 significant digits. *)
Context (unspecified : Z -> list byte) (general : Double.t -> list byte).

(** [std::to_chars(first, last, ...)]: the bytes from [first] to the pointer it
    returns, and whether it succeeded. *)
Definition to_chars (text : list byte) (room : Z) : list byte * bool :=
  if zlen text <=? room then (text, true) else (unspecified room, false).

(** The common part of the overloads on numbers. *)
Definition insert_text (text : list byte) (s : t) : t :=
  let '(stored, ok) := to_chars text (StreamBuffer.availability (_buffer s)) in
  mk (StreamBuffer.move stored (_buffer s)) (if ok then errors s else S (errors s)).

Definition insert_bool (val : bool) (s : t) : t :=
  set_buffer s (StreamBuffer.append (if val then bytes "true" else bytes "false") (_buffer s)).
(** The six overloads on integers. *)
Definition insert_integer (val : Z) (s : t) : t := insert_text (decimal val) s.
(** [float] and [double]. *)
Definition insert_floating (val : Double.t) (s : t) : t := insert_text (general val) s.
(** The prefix is stored without a look at the room there is. *)
Definition insert_pointer (val : Z) (s : t) : res t :=
  let room := StreamBuffer.availability (_buffer s) in
  if room <? 2 then Stop UndefinedBehaviour else
  let '(stored, ok) := to_chars (hexadecimal val) (room - 2) in
  mret (mk (StreamBuffer.move (bytes "0x" ++ stored) (_buffer s)) (if ok then errors s else S (errors s))).
Definition insert_char (val : byte) (s : t) : t :=
  set_buffer s (StreamBuffer.append [val] (_buffer s)).
Definition insert_c_string (val : option (list byte)) (s : t) : t :=
  match val with
  | Some val => set_buffer s (StreamBuffer.append (c_string val) (_buffer s))
  | None => s
  end.
Definition insert_string (val : list byte) (s : t) : t :=
  set_buffer s (StreamBuffer.append val (_buffer s)).
Definition append (val : list byte) (s : t) : t :=
  set_buffer s (StreamBuffer.append val (_buffer s)).

(** A chain of insertions. *)
Inductive item :=
  | Bool (val : bool)
  | Integer (val : Z)
  | Floating (val : Double.t)
  | Pointer (val : Z)
  | Char (val : byte)
  | CString (val : option (list byte))
  | String (val : list byte).

Definition insert (i : item) (s : t) : res t :=
  match i with
  | Bool val => mret (insert_bool val s)
  | Integer val => mret (insert_integer val s)
  | Floating val => mret (insert_floating val s)
  | Pointer val => insert_pointer val s
  | Char val => mret (insert_char val s)
  | CString val => mret (insert_c_string val s)
  | String val => mret (insert_string val s)
  end.
Fixpoint insert_all (items : list item) (s : t) : res t :=
  match items with
  | [] => mret s
  | i :: items' => s ← insert i s; insert_all items' s
  end.

(** The text of an insertion. *)
Definition text (i : item) : list byte :=
  match i with
  | Bool val => if val then bytes "true" else bytes "false"
  | Integer val => decimal val
  | Floating val => general val
  | Pointer val => bytes "0x" ++ hexadecimal val
  | Char val => [val]
  | CString val => from_option c_string [] val
  | String val => val
  end.
Definition texts (items : list item) : list byte := concat (map text items).
End operations.
End LogStream.

(** ** What a chain of insertions writes *)

Module LogStreamSpec.
Import LogStream.

Definition content (s : t) : list byte := StreamBuffer.written (_buffer s).
Definition wf (s : t) : Prop := StreamBuffer.wf (_buffer s).
Definition room (s : t) : Z := StreamBuffer.SIZE (_buffer s) - zlen (content s).

Lemma availability_room s : wf s -> StreamBuffer.availability (_buffer s) = room s.
Proof. intros []. unfold StreamBuffer.availability, room, content. u64_tac. done. Qed.

Section insertions.
Context (unspecified : Z -> list byte) (general : Double.t -> list byte).
Context (Hunspecified : forall n, 0 <= n -> zlen (unspecified n) = n).

(** [s'] is [s] with some bytes more. *)
Definition extends (s s' : t) (d : list byte) : Prop :=
  wf s' /\ content s' = content s ++ d /\
  StreamBuffer.SIZE (_buffer s') = StreamBuffer.SIZE (_buffer s) /\ (errors s <= errors s')%nat.

Lemma extends_nil s : wf s -> extends s s [].
Proof. intros. unfold extends. by rewrite app_nil_r. Qed.

Lemma extends_trans s1 s2 s3 d1 d2 : extends s1 s2 d1 -> extends s2 s3 d2 -> extends s1 s3 (d1 ++ d2).
Proof.
  intros (_ & E1 & S1 & L1) (H2 & E2 & S2 & L2). split_and!; [done | | congruence | lia].
  by rewrite E2, E1, app_assoc.
Qed.

Lemma append_extends d s :
  wf s -> exists d', extends s (set_buffer s (StreamBuffer.append d (_buffer s))) d' /\
    (zlen d < room s -> d' = d).
Proof.
  intros Hw. unfold StreamBuffer.append. rewrite availability_room by done.
  destruct (Z.ltb_spec (zlen d) (room s)) as [Hd|Hd].
  - exists d. split; [| done]. split_and!; try done. destruct Hw. unfold wf, StreamBuffer.wf, room, content in *.
    cbn. rewrite length_app. lia.
  - exists []. split; [| lia]. replace (set_buffer s (_buffer s)) with s by (by destruct s).
    by apply extends_nil.
Qed.

Lemma insert_text_extends d s :
  wf s -> exists d', extends s (insert_text unspecified d s) d' /\
    (zlen d <= room s -> d' = d /\ errors (insert_text unspecified d s) = errors s).
Proof.
  intros Hw. unfold insert_text, to_chars. rewrite availability_room by done.
  destruct Hw as [Hw1 Hw2]. destruct (Z.leb_spec (zlen d) (room s)) as [Hd|Hd]; cbn.
  - exists d. split; [| done]. split_and!; try done.
    unfold wf, StreamBuffer.wf, room, content in *. cbn. rewrite length_app. lia.
  - assert (0 <= room s) by (unfold room, content; lia).
    exists (unspecified (room s)). split; [| lia]. split_and!; try done.
    + unfold wf, StreamBuffer.wf. cbn. rewrite length_app, Nat2Z.inj_add, Hunspecified by done.
      unfold room, content. lia.
    + cbn. lia.
Qed.

Lemma insert_pointer_extends val s :
  wf s -> 2 <= room s -> exists s' d', insert_pointer unspecified val s = Ret s' /\ extends s s' d' /\
    (zlen (bytes "0x" ++ hexadecimal val) <= room s -> d' = bytes "0x" ++ hexadecimal val /\ errors s' = errors s).
Proof.
  intros Hw Hr. unfold insert_pointer, to_chars. rewrite availability_room by done.
  rewrite (proj2 (Z.ltb_ge _ _)) by done. destruct Hw as [Hw1 Hw2]. rewrite length_app.
  change (length (bytes "0x")) with 2%nat.
  destruct (Z.leb_spec (zlen (hexadecimal val)) (room s - 2)) as [Hd|Hd].
  - eexists _, _. split; [reflexivity |]. split; [| done]. split_and!; try done.
    unfold wf, StreamBuffer.wf, room, content in *. cbn -[hexadecimal]. rewrite length_app. cbn [length]. lia.
  - eexists _, _. split; [reflexivity |]. split; [| lia]. split_and!; try done; [| cbn; lia].
    unfold wf, StreamBuffer.wf, room, content in *. cbn [_buffer StreamBuffer.move StreamBuffer.written StreamBuffer.SIZE].
    rewrite !length_app. change (length (bytes "0x")) with 2%nat.
    rewrite !Nat2Z.inj_add, Hunspecified by lia. lia.
Qed.

Lemma insert_extends i s :
  wf s -> (if i is Pointer _ then 2 <= room s else True) ->
  exists s' d', insert unspecified general i s = Ret s' /\ extends s s' d' /\
    (zlen (text general i) < room s -> d' = text general i /\ errors s' = errors s).
Proof.
  intros Hw Hp. destruct i as [val|val|val|val|val|val|val]; cbn [insert text].
  - destruct (append_extends (if val then bytes "true" else bytes "false") s Hw) as (d & He & Hd).
    eexists _, d. split; [reflexivity |]. split; [exact He |]. auto.
  - destruct (insert_text_extends (decimal val) s Hw) as (d & He & Hd).
    eexists _, d. split; [reflexivity |]. split; [exact He |]. intros. apply Hd. lia.
  - destruct (insert_text_extends (general val) s Hw) as (d & He & Hd).
    eexists _, d. split; [reflexivity |]. split; [exact He |]. intros. apply Hd. lia.
  - destruct (insert_pointer_extends val s Hw Hp) as (s' & d & E & He & Hd).
    exists s', d. split_and!; [done | done |]. intros. apply Hd. lia.
  - destruct (append_extends [val] s Hw) as (d & He & Hd).
    eexists _, d. split; [reflexivity |]. split; [exact He |]. auto.
  - destruct val as [val|]; cbn [from_option insert_c_string].
    + destruct (append_extends (c_string val) s Hw) as (d & He & Hd).
      eexists _, d. split; [reflexivity |]. split; [exact He |]. auto.
    + eexists s, []. split; [reflexivity |]. split; [by apply extends_nil | done].
  - destruct (append_extends val s Hw) as (d & He & Hd).
    eexists _, d. split; [reflexivity |]. split; [exact He |]. auto.
Qed.

(** A chain whose text fits is written as it is. *)
Lemma insert_all_fits items s :
  wf s -> zlen (texts general items) < room s ->
  exists s', insert_all unspecified general items s = Ret s' /\
    extends s s' (texts general items) /\ errors s' = errors s.
Proof.
  revert s. induction items as [|i items IH]; intros s Hw Hfit.
  { exists s. split_and!; try done. by apply extends_nil. }
  unfold texts in Hfit. cbn [map concat] in Hfit. rewrite length_app in Hfit.
  destruct (insert_extends i s Hw) as (s1 & d & E & He & Hd).
  { destruct i; try done. cbn [text] in Hfit. rewrite length_app in Hfit.
    change (length (bytes "0x")) with 2%nat in Hfit. lia. }
  destruct Hd as [-> Hn]; [lia |]. pose proof He as (Hw1 & Ec & Es & _).
  destruct (IH s1) as (s2 & E2 & He2 & Hn2); [done | |].
  { unfold room in *. rewrite Es, Ec, length_app. unfold texts. lia. }
  exists s2. cbn [insert_all]. rewrite E. cbn [mbind res_bind]. split_and!; [done | | congruence].
  by apply (extends_trans s s1 s2).
Qed.

(** An insertion stays in the buffer, or is that of a pointer with no room for its
    prefix. *)
Lemma insert_cases i s :
  wf s ->
  (exists s' d, insert unspecified general i s = Ret s' /\ extends s s' d) \/
  (exists val, i = Pointer val /\ room s < 2 /\ insert unspecified general i s = Stop UndefinedBehaviour).
Proof.
  intros Hw. assert ((exists val, i = Pointer val /\ room s < 2) \/ (if i is Pointer _ then 2 <= room s else True))
    as [(val & -> & Hr) | Hi].
  { destruct i as [| | |val| | |]; auto. destruct (Z.lt_ge_cases (room s) 2); eauto. }
  - right. exists val. split_and!; [done | done |]. cbn [insert]. unfold insert_pointer.
    rewrite availability_room by done. by rewrite (proj2 (Z.ltb_lt _ _)) by done.
  - left. destruct (insert_extends i s Hw Hi) as (s' & d & E & He & _). eauto.
Qed.

(** So does a chain. *)
Lemma insert_all_cases items s :
  wf s ->
  (exists s' d, insert_all unspecified general items s = Ret s' /\ extends s s' d) \/
  (insert_all unspecified general items s = Stop UndefinedBehaviour /\
   exists before val after s1 d, items = before ++ Pointer val :: after /\
     insert_all unspecified general before s = Ret s1 /\ extends s s1 d /\ room s1 < 2).
Proof.
  revert s. induction items as [|i items IH]; intros s Hw.
  { left. exists s, []. split; [done | by apply extends_nil]. }
  cbn [insert_all]. destruct (insert_cases i s Hw) as [(s1 & d & E & He) | (val & -> & Hr & E)]; rewrite E.
  - cbn [mbind res_bind]. destruct (IH s1) as [(s2 & d2 & E2 & He2) | (E2 & before & val & after & s2 & d2 & -> & Eb & He2 & Hr)];
      [apply He | |].
    + left. exists s2, (d ++ d2). split; [done | by apply (extends_trans s s1 s2)].
    + right. split; [done |]. exists (i :: before), val, after, s2, (d ++ d2).
      split_and!; [done | by (cbn [insert_all]; rewrite E) | by apply (extends_trans s s1 s2) | done].
  - right. split; [done |]. exists [], val, items, s, []. split_and!; [done | done | by apply extends_nil | done].
Qed.

(** A full buffer takes nothing more, but counts numbers as errors. *)
Lemma insert_full i s :
  wf s -> room s = 0 -> (if i is Pointer _ then False else True) -> text general i <> [] ->
  exists s', insert unspecified general i s = Ret s' /\ content s' = content s.
Proof.
  intros Hw Hr Hp Ht. destruct (insert_extends i s Hw) as (s' & d & E & (Hw' & Ec & Es & _) & _); [by destruct i |].
  exists s'. split; [done |]. destruct Hw' as [Hl _]. fold (content s') in Hl.
  rewrite Ec, length_app, Es in Hl. unfold room in Hr.
  rewrite Ec. destruct d; [by rewrite app_nil_r | cbn in Hl; lia].
Qed.
End insertions.
End LogStreamSpec.

Module Logger.
Import LogStream.

Inductive LogLevel := TRACE | DEBUG | INFO | WARN | ERROR | FATAL.
#[global] Instance LogLevel_eq_dec : EqDecision LogLevel.
Proof. solve_decision. Defined.
Definition level_number (l : LogLevel) : Z :=
  match l with TRACE => 0 | DEBUG => 1 | INFO => 2 | WARN => 3 | ERROR => 4 | FATAL => 5 end.
Definition LogLevel_name (l : LogLevel) : list byte :=
  match l with
  | TRACE => bytes "TRACE " | DEBUG => bytes "DEBUG " | INFO => bytes "INFO  "
  | WARN => bytes "WARN  " | ERROR => bytes "ERROR " | FATAL => bytes "FATAL "
  end.
Definition initLogLevel (trace_set debug_set : bool) : LogLevel :=
  if trace_set then TRACE else if debug_set then DEBUG else INFO.

(** [strrchr(path, '/') + 1], if there is a slash. *)
Fixpoint after_slash (path : list byte) : option (list byte) :=
  match path with
  | [] => None
  | c :: rest =>
      match after_slash rest with
      | Some name => Some name
      | None => if decide (c = x2f) then Some rest else None
      end
  end.
(** Both constructors of [SourceFile]; the size is that of the bytes. *)
Definition source_file (path : list byte) : list byte := default path (after_slash path).

(** <time.h>; years since 1900, months since January. *)
Record tm := mk_tm {
  tm_year : Z; tm_mon : Z; tm_mday : Z; tm_hour : Z; tm_min : Z; tm_sec : Z
}.
(** [%<width>d] with the given padding, for a number that is not negative. *)
Definition padded (width : nat) (pad : byte) (z : Z) : list byte :=
  replicate (width - length (decimal z)) pad ++ decimal z.
Definition format_tm (t : tm) : list byte :=
  padded 4 x20 (tm_year t + 1900) ++ padded 2 x30 (tm_mon t + 1) ++ padded 2 x30 (tm_mday t) ++
  bytes " " ++ padded 2 x30 (tm_hour t) ++ bytes ":" ++ padded 2 x30 (tm_min t) ++
  bytes ":" ++ padded 2 x30 (tm_sec t).
(** The cached thread id of CurrentThreadInfo.h. *)
Definition tid_string (tid : Z) : list byte := snprintf 32 (padded 5 x20 tid).

(** The thread's variables. *)
Record thread := mk_thread {
  thread_time : list byte;
  thread_lastSecond : Z
}.
Definition new_thread : thread := mk_thread [] 0.

Record t := mk {
  _stream : LogStream.t;
  _time : Timestamp.t;
  _source : list byte;
  _level : LogLevel;
  _line : Z
}.

(** The calls of the output and flush functions. *)
Inductive event := Output (line : list byte) | Flush.

Section operations.
Context {B : Build} (unspecified : Z -> list byte) (general : Double.t -> list byte).
Context (gmtime_r : Z -> tm).

(** The array has 32 bytes, whatever [snprintf] is told. *)
Definition time_to_string (now : Timestamp.t) (th : thread) : res thread :=
  let seconds := Timestamp.get_seconds_in_int64 now in
  if seconds =? thread_lastSecond th then mret th else
  let s := format_tm (gmtime_r seconds) in
  if 32 <=? zlen (snprintf 64 s) then Stop UndefinedBehaviour else
  _ ← assert_ (zlen s =? 17);
  mret (mk_thread (snprintf 64 s) seconds).

Definition default_pre_output (now : Timestamp.t) (level : LogLevel) (func : option (list byte)) (tid : Z)
    (th : thread) (stream : LogStream.t) : res (thread * LogStream.t) :=
  th ← time_to_string now th;
  stream ← insert_all unspecified general
    [CString (Some (thread_time th)); CString (Some (bytes " "));
     CString (Some (tid_string tid)); CString (Some (bytes " "));
     CString (Some (LogLevel_name level))] stream;
  stream ← match func with
           | Some func => insert_all unspecified general [CString (Some func); Char x20] stream
           | None => mret stream
           end;
  mret (th, stream).

Definition default_post_output (source : list byte) (line : Z) (stream : LogStream.t) : res LogStream.t :=
  insert_all unspecified general
    [CString (Some (bytes " -")); String source; CString (Some (bytes ":")); Integer line; Char x0a] stream.

(** The four constructors. *)
Definition make (path : list byte) (line : Z) (level : LogLevel) (func : option (list byte))
    (now : Timestamp.t) (tid : Z) (th : thread) : res (thread * t) :=
  '(th, stream) ← default_pre_output now level func tid th LogStream.make;
  mret (th, mk stream now (source_file path) level line).

(** The destructor: the calls it makes, and whether it then aborts. *)
Definition destroy (l : t) : res (list event * bool) :=
  stream ← default_post_output (_source l) (_line l) (_stream l);
  let out := Output (StreamBuffer.to_string (_buffer stream)) in
  if decide (_level l = FATAL) then mret ([out; Flush], true) else mret ([out], false).

(** The macros: [LOG_TRACE], [LOG_DEBUG] and [LOG_INFO] look at the log level, and
    the first two name the function. *)
Definition enabled (log_level level : LogLevel) : bool :=
  match level with
  | TRACE | DEBUG | INFO => level_number log_level <=? level_number level
  | WARN | ERROR | FATAL => true
  end.
Definition func_of (level : LogLevel) (func : list byte) : option (list byte) :=
  match level with TRACE | DEBUG => Some func | _ => None end.

(** [LOG_X << items;] *)
Definition log (log_level level : LogLevel) (path : list byte) (line : Z) (func : list byte)
    (items : list item) (now : Timestamp.t) (tid : Z) (th : thread)
    : res (list event * bool * thread) :=
  if negb (enabled log_level level) then mret ([], false, th) else
  '(th, l) ← make path line level (func_of level func) now tid th;
  stream ← insert_all unspecified general items (_stream l);
  '(events, aborts) ← destroy (mk stream (_time l) (_source l) (_level l) (_line l));
  mret (events, aborts, th).
End operations.
End Logger.

Module LoggerSpec.
Import LogStream LogStreamSpec Logger.

Lemma padded_not_nul width pad z : pad <> x00 -> 0 <= z -> x00 ∉ padded width pad z.
Proof.
  intros Hp Hz. unfold padded, decimal. rewrite (proj2 (Z.ltb_ge _ _)) by done.
  apply not_elem_of_app. split; [| by apply digits_not_in; [| left]].
  intros E%elem_of_replicate. destruct E as [E _]. by symmetry in E.
Qed.
Lemma padded_length w pad z :
  0 <= z < 10 ^ Z.of_nat (S w) -> length (padded (S w) pad z) = S w.
Proof.
  intros Hz. unfold padded. rewrite length_app, length_replicate.
  pose proof (decimal_length z w Hz). lia.
Qed.

(** The fields of a time of day that [gmtime_r] fills in. *)
Definition fields_ok (t : tm) : Prop :=
  70 <= tm_year t <= 8099 /\ 0 <= tm_mon t <= 11 /\ 1 <= tm_mday t <= 31 /\
  0 <= tm_hour t <= 23 /\ 0 <= tm_min t <= 59 /\ 0 <= tm_sec t <= 60.

Lemma format_tm_length t : fields_ok t -> length (format_tm t) = 17%nat.
Proof.
  intros (? & ? & ? & ? & ? & ?). unfold format_tm. rewrite !length_app.
  rewrite !padded_length by (cbn; lia). done.
Qed.
Lemma format_tm_not_nul t : fields_ok t -> x00 ∉ format_tm t.
Proof.
  intros (? & ? & ? & ? & ? & ?). unfold format_tm. rewrite !not_elem_of_app.
  split_and!; try (apply padded_not_nul; [done | lia]).
  all: by intros ?%list_elem_of_singleton.
Qed.

Section lines.
Context {B : Build} (unspecified : Z -> list byte) (general : Double.t -> list byte) (gmtime_r : Z -> tm).
Context (Hunspecified : forall n, 0 <= n -> zlen (unspecified n) = n).
Context (Hgmtime : forall s, 0 <= s <= 9223372036 -> fields_ok (gmtime_r s)).

(** The cached time is that of the cached second. *)
Definition thread_ok (th : thread) : Prop :=
  th = new_thread \/
  0 <= thread_lastSecond th <= 9223372036 /\ thread_time th = format_tm (gmtime_r (thread_lastSecond th)).

Lemma time_to_string_ok now th :
  thread_ok th -> 0 < Timestamp.get_seconds_in_int64 now <= 9223372036 ->
  exists th', time_to_string gmtime_r now th = Ret th' /\ thread_ok th' /\
    thread_time th' = format_tm (gmtime_r (Timestamp.get_seconds_in_int64 now)).
Proof.
  intros Hth Hnow. unfold time_to_string. set (s := Timestamp.get_seconds_in_int64 now) in *.
  destruct (Z.eqb_spec s (thread_lastSecond th)) as [E|E].
  - exists th. split_and!; [done | done |]. destruct Hth as [-> | [_ ->]]; [cbn in E; lia | by rewrite E].
  - pose proof (format_tm_length _ (Hgmtime s ltac:(lia))) as Hl.
    assert (snprintf 64 (format_tm (gmtime_r s)) = format_tm (gmtime_r s)) as ->.
    { unfold snprintf. apply firstn_all2. rewrite Hl. cbn. lia. }
    rewrite (proj2 (Z.leb_gt _ _)) by lia. rewrite assert_true by (apply Z.eqb_eq; lia).
    cbn [mbind res_bind]. eexists. split; [reflexivity |]. split; [right; cbn; split; [lia | done] | done].
Qed.

Definition func_text (func : option (list byte)) : list byte :=
  from_option (fun f => f ++ [x20]) [] func.
(** A whole line. *)
Definition line_text (level : LogLevel) (path : list byte) (line : Z) (func : option (list byte))
    (items : list item) (now : Timestamp.t) (tid : Z) : list byte :=
  format_tm (gmtime_r (Timestamp.get_seconds_in_int64 now)) ++ bytes " " ++ tid_string tid ++ bytes " " ++
  LogLevel_name level ++ func_text func ++ texts general items ++
  bytes " -" ++ source_file path ++ bytes ":" ++ decimal line ++ [x0a].

Lemma tid_string_not_nul tid : 0 <= tid -> x00 ∉ tid_string tid.
Proof.
  intros Ht Hin. unfold tid_string, snprintf in Hin.
  apply (padded_not_nul 5 x20 tid); [done | done |].
  rewrite <- (firstn_skipn (32 - 1) (padded 5 x20 tid)). apply elem_of_app. by left.
Qed.

Lemma level_name_string level : c_string (LogLevel_name level) = LogLevel_name level.
Proof. by destruct level. Qed.

Lemma logger_made_ok path line level func now tid th :
  thread_ok th -> 0 < Timestamp.get_seconds_in_int64 now <= 9223372036 -> 0 <= tid ->
  (forall f, func = Some f -> x00 ∉ f) ->
  let start := format_tm (gmtime_r (Timestamp.get_seconds_in_int64 now)) ++ bytes " " ++ tid_string tid ++
    bytes " " ++ LogLevel_name level ++ func_text func in
  zlen start < 4000 ->
  exists th' l, make unspecified general gmtime_r path line level func now tid th = Ret (th', l) /\
    thread_ok th' /\ extends LogStream.make (_stream l) start /\
    _source l = source_file path /\ _level l = level /\ _line l = line.
Proof.
  intros Hth Hnow Htid Hf start Hlen. unfold make, default_pre_output.
  destruct (time_to_string_ok now th Hth Hnow) as (th' & -> & Hth' & Et). cbn [mbind res_bind].
  set (items1 := [CString (Some (thread_time th')); _; _; _; _]).
  set (items2 := match func with Some f => [CString (Some f); Char x20] | None => [] end).
  assert (E1 : texts general items1 = format_tm (gmtime_r (Timestamp.get_seconds_in_int64 now)) ++ bytes " " ++
    tid_string tid ++ bytes " " ++ LogLevel_name level).
  { unfold texts, items1. cbn [map concat text from_option]. rewrite Et, !level_name_string.
    change (c_string (bytes " ")) with (bytes " ").
    rewrite (c_string_id (tid_string tid)) by (by apply tid_string_not_nul).
    rewrite (c_string_id (format_tm _)) by (apply format_tm_not_nul, Hgmtime; lia). by rewrite app_nil_r. }
  assert (E2 : texts general items2 = func_text func).
  { unfold texts, items2. destruct func as [f|]; [| done]. cbn. by rewrite c_string_id by (by apply Hf). }
  assert (Hs : start = texts general items1 ++ texts general items2).
  { rewrite E1, E2. unfold start. by rewrite <- !app_assoc. }
  rewrite Hs, length_app in Hlen.
  destruct (insert_all_fits unspecified general Hunspecified items1 LogStream.make) as (s1 & -> & He1 & _);
    [done | change (room LogStream.make) with 4000; lia |].
  cbn [mbind res_bind]. pose proof He1 as (Hw1 & Ec1 & Es1 & _).
  destruct (insert_all_fits unspecified general Hunspecified items2 s1) as (s2 & Er2 & He2 & _); [done | |].
  { unfold room. rewrite Es1, Ec1. change (content LogStream.make) with (@nil byte).
    change (StreamBuffer.SIZE (_buffer LogStream.make)) with 4000. cbn [app]. lia. }
  assert (match func with
          | Some f => insert_all unspecified general [CString (Some f); Char x20] s1
          | None => mret s1 end = Ret s2) as ->.
  { unfold items2 in Er2. by destruct func. }
  cbn [mbind res_bind]. eexists _, _. split; [reflexivity |]. split_and!; try done.
  rewrite Hs. cbn. by apply (extends_trans _ s1).
Qed.

Lemma log_line_ok log_level level path line func items now tid th :
  enabled log_level level = true -> thread_ok th ->
  0 < Timestamp.get_seconds_in_int64 now <= 9223372036 -> 0 <= tid -> x00 ∉ func ->
  let whole := line_text level path line (func_of level func) items now tid in
  zlen whole < 4000 ->
  exists th', thread_ok th' /\
    log unspecified general gmtime_r log_level level path line func items now tid th
    = Ret (if decide (level = FATAL) then [Output whole; Flush] else [Output whole], bool_decide (level = FATAL), th').
Proof.
  intros He Hth Hnow Htid Hf whole Hlen. unfold log. rewrite He. cbn [negb].
  set (post := [CString (Some (bytes " -")); String (source_file path); CString (Some (bytes ":")); Integer line; Char x0a]).
  set (start := format_tm (gmtime_r (Timestamp.get_seconds_in_int64 now)) ++ bytes " " ++ tid_string tid ++
    bytes " " ++ LogLevel_name level ++ func_text (func_of level func)).
  assert (Ew : whole = start ++ texts general items ++ texts general post).
  { unfold whole, line_text, start, texts at 2, post. cbn [map concat text from_option].
    change (c_string (bytes " -")) with (bytes " -"). change (c_string (bytes ":")) with (bytes ":").
    by rewrite <- !app_assoc. }
  rewrite Ew, !length_app in Hlen.
  destruct (logger_made_ok path line level (func_of level func) now tid th Hth Hnow Htid) as (th' & l & -> & Hth' & He1 & Esrc & Elvl & Eline).
  { intros f E. destruct level; try done; by injection E as <-. }
  { change (zlen start < 4000). lia. }
  fold start in He1. cbn [mbind res_bind]. pose proof He1 as (Hw1 & Ec1 & Es1 & _).
  destruct (insert_all_fits unspecified general Hunspecified items (_stream l)) as (s2 & -> & He2 & _); [done | |].
  { unfold room. rewrite Es1, Ec1. change (content LogStream.make) with (@nil byte).
    change (StreamBuffer.SIZE (_buffer LogStream.make)) with 4000. cbn [app]. lia. }
  cbn [mbind res_bind]. rewrite Esrc, Elvl, Eline. pose proof He2 as (Hw2 & Ec2 & Es2 & _).
  unfold destroy, default_post_output. cbn [_source _line _stream _level]. fold post.
  destruct (insert_all_fits unspecified general Hunspecified post s2) as (s3 & -> & (_ & Ec3 & _) & _); [done | |].
  { unfold room. rewrite Es2, Es1, Ec2, Ec1. change (content LogStream.make) with (@nil byte).
    change (StreamBuffer.SIZE (_buffer LogStream.make)) with 4000. cbn [app]. rewrite length_app. lia. }
  cbn [mbind res_bind]. unfold StreamBuffer.to_string. fold (content s3).
  assert (content s3 = whole) as ->.
  { rewrite Ec3, Ec2, Ec1, Ew. cbn [content LogStream.make _buffer StreamBuffer.make StreamBuffer.written app].
    by rewrite <- app_assoc. }
  exists th'. split; [done |]. by destruct (decide (level = FATAL)) as [->|]; [| rewrite bool_decide_false].
Qed.
End lines.
End LoggerSpec.

(** ** The properties *)

Module LogStreamProps.
Import LogStream LogStreamSpec Logger LoggerSpec.

(** C38: a chain of insertions writes its text. When the text is shorter than the
    room left, the buffer gets exactly it, in order. Whatever is inserted, what was
    there before stays, and no byte is written outside the buffer, with one
    exception: a pointer inserted when less than two bytes are left, whose prefix is
    stored past the end. A number that does not fit fills the buffer with what
    [std::to_chars] left there, and nothing can be added after it. *)
Theorem log_stream_insertions unspecified general items s
    (Hunspecified : forall n, 0 <= n -> zlen (unspecified n) = n) (Hs : wf s) :
  (zlen (texts general items) < room s ->
     exists s', insert_all unspecified general items s = Ret s' /\
       content s' = content s ++ texts general items /\ errors s' = errors s) /\
  ((exists s' d, insert_all unspecified general items s = Ret s' /\ wf s' /\ content s' = content s ++ d) \/
   (insert_all unspecified general items s = Stop UndefinedBehaviour /\
    exists before val after s', items = before ++ Pointer val :: after /\
      insert_all unspecified general before s = Ret s' /\ wf s' /\ room s' < 2)) /\
  (forall val, room s < zlen (decimal val) ->
     let s' := insert_integer unspecified val s in
     content s' = content s ++ unspecified (room s) /\ room s' = 0 /\ errors s' = S (errors s) /\
     forall l, insert unspecified general (String l) s' = Ret s').
Proof.
  split_and!.
  - intros Hfit. destruct (insert_all_fits unspecified general Hunspecified items s Hs Hfit)
      as (s' & E & (_ & Ec & _) & En). by exists s'.
  - destruct (insert_all_cases unspecified general Hunspecified items s Hs)
      as [(s' & d & E & Hw & Ec & _) | (E & before & val & after & s' & d & Ei & Eb & (Hw & _) & Hr)].
    + left. by exists s', d.
    + right. split; [done |]. by exists before, val, after, s'.
  - intros val Hval s'. assert (0 <= room s) by (destruct Hs; unfold room, content; lia).
    assert (Es : s' = LogStream.mk (StreamBuffer.move (unspecified (room s)) (_buffer s)) (S (errors s))).
    { unfold s', insert_integer, insert_text, to_chars. rewrite availability_room by done.
      by rewrite (proj2 (Z.leb_gt _ _)) by done. }
    assert (Hr : room s' = 0).
    { rewrite Es. unfold room, content. cbn. rewrite length_app, Nat2Z.inj_add, Hunspecified by done.
      unfold room, content. lia. }
    split_and!; [by rewrite Es | done | by rewrite Es |].
    intros l. cbn. unfold insert_string, StreamBuffer.append.
    assert (StreamBuffer.availability (_buffer s') = 0) as ->.
    { unfold StreamBuffer.availability. fold (content s'). fold (room s'). by rewrite Hr. }
    rewrite (proj2 (Z.ltb_ge _ _)) by lia. by destruct s'.
Qed.

(** A log line. A statement of an enabled level whose line fits the stream puts
    out exactly one line: the time of the record's second, taken from the thread's
    cache or renewed, the thread, the level, the function, the message, the file
    without its directories and the line; a FATAL one then flushes and aborts. A
    statement that is not enabled does nothing. *)
Theorem logger_line {B : Build} unspecified general gmtime_r log_level level path line func items now tid th
    (Hunspecified : forall n, 0 <= n -> zlen (unspecified n) = n)
    (Hgmtime : forall s, 0 <= s <= 9223372036 -> fields_ok (gmtime_r s))
    (Hth : thread_ok gmtime_r th) (Hnow : 0 < Timestamp.get_seconds_in_int64 now <= 9223372036)
    (Htid : 0 <= tid) (Hfunc : x00 ∉ func)
    (Hfit : zlen (line_text general gmtime_r level path line (func_of level func) items now tid) < 4000) :
  let whole := line_text general gmtime_r level path line (func_of level func) items now tid in
  exists th', thread_ok gmtime_r th' /\
    log unspecified general gmtime_r log_level level path line func items now tid th =
      if enabled log_level level
      then Ret (Output whole :: (if decide (level = FATAL) then [Flush] else []), bool_decide (level = FATAL), th')
      else Ret ([], false, th).
Proof.
  intros whole. destruct (enabled log_level level) eqn:He.
  - destruct (log_line_ok unspecified general gmtime_r Hunspecified Hgmtime log_level level path line func items now tid th)
      as (th' & Hth' & E); try done.
    exists th'. split; [done |]. rewrite E. by destruct (decide (level = FATAL)).
  - exists th. split; [done |]. unfold log. by rewrite He.
Qed.

(** *** Witnesses *)

Definition zeros (n : Z) : list byte := replicate (Z.to_nat n) x00.
Lemma zeros_length n : 0 <= n -> zlen (zeros n) = n.
Proof. intros. unfold zeros. rewrite length_replicate. lia. Qed.
Definition plain_double (_ : Double.t) : list byte := bytes "0.5".
Definition new_year (_ : Z) : tm := mk_tm 124 0 1 0 0 0.
Lemma new_year_ok s : 0 <= s <= 9223372036 -> fields_ok (new_year s).
Proof. intros _. unfold fields_ok. cbn. lia. Qed.

Definition greeting : list item := [String (bytes "fd = "); Integer 7; Char x20; Pointer 48879; Bool true].

Example greeting_text : texts plain_double greeting = bytes "fd = 7 0xbeeftrue".
Proof. by vm_compute. Qed.

Lemma new_stream_wf : wf LogStream.make.
Proof. by split. Qed.

Lemma log_stream_insertions_witness :
  (zlen (texts plain_double greeting) < room LogStream.make ->
     exists s', insert_all zeros plain_double greeting LogStream.make = Ret s' /\
       content s' = content LogStream.make ++ texts plain_double greeting /\ errors s' = errors LogStream.make) /\
  ((exists s' d, insert_all zeros plain_double greeting LogStream.make = Ret s' /\ wf s' /\
      content s' = content LogStream.make ++ d) \/
   (insert_all zeros plain_double greeting LogStream.make = Stop UndefinedBehaviour /\
    exists before val after s', greeting = before ++ Pointer val :: after /\
      insert_all zeros plain_double before LogStream.make = Ret s' /\ wf s' /\ room s' < 2)) /\
  (forall val, room LogStream.make < zlen (decimal val) ->
     let s' := insert_integer zeros val LogStream.make in
     content s' = content LogStream.make ++ zeros (room LogStream.make) /\ room s' = 0 /\
     errors s' = S (errors LogStream.make) /\ forall l, insert zeros plain_double (String l) s' = Ret s').
Proof. exact (log_stream_insertions zeros plain_double greeting LogStream.make zeros_length new_stream_wf). Defined.

Lemma logger_line_witness :
  exists th', thread_ok new_year th' /\
    @log {| ndebug := false |} zeros plain_double new_year DEBUG FATAL (bytes "suduo/net/SocketOpt.h") 56 (bytes "close")
      [CString (Some (bytes "sockets::close"))] 1704067200000000000 4321 new_thread
    = Ret ([Output (bytes "20240101 00:00:00  4321 FATAL sockets::close -SocketOpt.h:56" ++ [x0a]); Flush], true, th').
Proof.
  apply (@logger_line {| ndebug := false |} zeros plain_double new_year DEBUG FATAL (bytes "suduo/net/SocketOpt.h") 56
           (bytes "close") [CString (Some (bytes "sockets::close"))] 1704067200000000000 4321 new_thread zeros_length new_year_ok).
  - by left.
  - split; by vm_compute.
  - done.
  - intros Hin%(bool_decide_eq_true_2 (x00 ∈ bytes "close")). by vm_compute in Hin.
  - by vm_compute.
Defined.
End LogStreamProps.
