(* ===== verification/LoggerGlobals.v ===== *)
(** The Logger's global functions and level (suduo/base/Logger.h/.cpp): statements of
    any threads, interleaved with the five setters. One statement is one step: what a
    thread sees of a setter that runs at the same time is a data race in C++.

    A [std::function] is a function; [W] is the world that the output and flush
    functions change. *)

From S2P Require Import Prelude.
From S2P Require Import Time.
From S2P Require Import LogStreams.

Module LoggerGlobals.
Import LogStream Logger.

Section globals.
Context {B : Build} (unspecified : Z -> list byte) (general : Double.t -> list byte) (gmtime_r : Z -> tm).
Context {W : Type} (fwrite_stdout : list byte -> W -> W) (fflush_stdout : W -> W).

Definition OutputFunc : Type := list byte -> W -> W.
Definition FlushFunc : Type := W -> W.
(** The stream, the source file, the line, the time, the level and the function; and
    the thread id and the cache that the default uses. *)
Definition PreOutputFunc : Type :=
  list byte -> Z -> Timestamp.t -> LogLevel -> option (list byte) -> Z -> thread -> LogStream.t -> res (thread * LogStream.t).
Definition PostOutputFUnc : Type := list byte -> Z -> Timestamp.t -> LogLevel -> LogStream.t -> res LogStream.t.

Definition default_output : OutputFunc := fwrite_stdout.
Definition default_flush : FlushFunc := fflush_stdout.
Definition pre_output : PreOutputFunc :=
  fun source line now level func tid th stream => default_pre_output unspecified general gmtime_r now level func tid th stream.
Definition post_output : PostOutputFUnc :=
  fun source line now level stream => default_post_output unspecified general source line stream.

Record t := mk {
  global_output : OutputFunc;
  global_flush : FlushFunc;
  global_log_level : LogLevel;
  global_pre_output : PreOutputFunc;
  global_post_output : PostOutputFUnc
}.
Definition initial (trace_set debug_set : bool) : t :=
  mk default_output default_flush (initLogLevel trace_set debug_set) pre_output post_output.
Definition log_level (g : t) : LogLevel := global_log_level g.
Definition set_log_level (level : LogLevel) (g : t) : t :=
  mk (global_output g) (global_flush g) level (global_pre_output g) (global_post_output g).
Definition set_output_function (output_function : OutputFunc) (g : t) : t :=
  mk output_function (global_flush g) (global_log_level g) (global_pre_output g) (global_post_output g).
Definition set_flush_function (flush_function : FlushFunc) (g : t) : t :=
  mk (global_output g) flush_function (global_log_level g) (global_pre_output g) (global_post_output g).
Definition set_pre_output_function (pre_output_function : PreOutputFunc) (g : t) : t :=
  mk (global_output g) (global_flush g) (global_log_level g) pre_output_function (global_post_output g).
Definition set_post_output_function (post_output_function : PostOutputFUnc) (g : t) : t :=
  mk (global_output g) (global_flush g) (global_log_level g) (global_pre_output g) post_output_function.

(** The constructors and the destructor, which may end the program. *)
Definition construct (g : t) (path : list byte) (line : Z) (level : LogLevel) (func : option (list byte))
    (now : Timestamp.t) (tid : Z) (th : thread) : res (thread * Logger.t) :=
  '(th, stream) ← global_pre_output g (source_file path) line now level func tid th LogStream.make;
  mret (th, Logger.mk stream now (source_file path) level line).
Definition destruct_ (g : t) (l : Logger.t) (w : W) : res (W * bool) :=
  stream ← global_post_output g (_source l) (_line l) (_time l) (_level l) (_stream l);
  let w := global_output g (StreamBuffer.to_string (_buffer stream)) w in
  if decide (_level l = FATAL) then mret (global_flush g w, true) else mret (w, false).

(** A statement: what its macro says, and what it is given. *)
Record statement := mk_statement {
  s_level : LogLevel; s_path : list byte; s_line : Z; s_func : list byte; s_items : list item;
  s_now : Timestamp.t; s_tid : Z
}.
Definition execute (g : t) (x : statement) (th : thread) (w : W) : res (W * bool * thread) :=
  if negb (enabled (log_level g) (s_level x)) then mret (w, false, th) else
  '(th, l) ← construct g (s_path x) (s_line x) (s_level x) (func_of (s_level x) (s_func x)) (s_now x) (s_tid x) th;
  stream ← insert_all unspecified general (s_items x) (_stream l);
  '(w, aborts) ← destruct_ g (Logger.mk stream (_time l) (_source l) (_level l) (_line l)) w;
  mret (w, aborts, th).

Inductive op :=
  | SetLevel (level : LogLevel)
  | SetOutput (f : OutputFunc)
  | SetFlush (f : FlushFunc)
  | SetPreOutput (f : PreOutputFunc)
  | SetPostOutput (f : PostOutputFUnc)
  | Statement (x : statement).

(** The globals, the caches of the threads, and the world. *)
Record state := mk_state { globals : t; caches : gmap Z thread; world : W }.
Definition step (o : op) (s : state) : res (state * bool) :=
  match o with
  | SetLevel level => mret (mk_state (set_log_level level (globals s)) (caches s) (world s), false)
  | SetOutput f => mret (mk_state (set_output_function f (globals s)) (caches s) (world s), false)
  | SetFlush f => mret (mk_state (set_flush_function f (globals s)) (caches s) (world s), false)
  | SetPreOutput f => mret (mk_state (set_pre_output_function f (globals s)) (caches s) (world s), false)
  | SetPostOutput f => mret (mk_state (set_post_output_function f (globals s)) (caches s) (world s), false)
  | Statement x =>
      let th := default new_thread (caches s !! s_tid x) in
      '(w, aborts, th) ← execute (globals s) x th (world s);
      mret (mk_state (globals s) (<[s_tid x := th]> (caches s)) w, aborts)
  end.
(** Until the program ends. *)
Fixpoint run (ops : list op) (s : state) : res (state * bool) :=
  match ops with
  | [] => mret (s, false)
  | o :: ops => '(s, aborts) ← step o s; if (aborts : bool) then mret (s, true) else run ops s
  end.
End globals.
Arguments t : clear implicits.
Arguments op : clear implicits.
Arguments state : clear implicits.
End LoggerGlobals.

Module LoggerGlobalsSpec.
Import LogStream LogStreamSpec Logger LoggerSpec LoggerGlobals.

Section globals.
Context {B : Build} (unspecified : Z -> list byte) (general : Double.t -> list byte) (gmtime_r : Z -> tm).
Context {W : Type} (fwrite_stdout : list byte -> W -> W) (fflush_stdout : W -> W).
Context (Hunspecified : forall n, 0 <= n -> zlen (unspecified n) = n).
Context (Hgmtime : forall s, 0 <= s <= 9223372036 -> fields_ok (gmtime_r s)).
#[local] Abbreviation execute := (execute unspecified general).
#[local] Abbreviation step := (step unspecified general).
#[local] Abbreviation run := (run unspecified general).

(** The reference: each enabled statement gives one line to the output function that is
    set at the time; a FATAL one flushes, and is the last. *)
Definition line_of (x : statement) : list byte :=
  line_text general gmtime_r (s_level x) (s_path x) (s_line x) (func_of (s_level x) (s_func x)) (s_items x)
    (s_now x) (s_tid x).
Fixpoint replay (ops : list (op W)) (output : list byte -> W -> W) (flush : W -> W) (level : LogLevel) (w : W) : W * bool :=
  match ops with
  | [] => (w, false)
  | SetLevel level :: ops => replay ops output flush level w
  | SetOutput output :: ops => replay ops output flush level w
  | SetFlush flush :: ops => replay ops output flush level w
  | Statement x :: ops =>
      if enabled level (s_level x) then
        if decide (s_level x = FATAL) then (flush (output (line_of x) w), true)
        else replay ops output flush level (output (line_of x) w)
      else replay ops output flush level w
  | _ :: ops => replay ops output flush level w
  end.

(** The text functions stay, and every line fits. *)
Definition op_ok (o : op W) : Prop :=
  match o with
  | Statement x =>
      0 < Timestamp.get_seconds_in_int64 (s_now x) <= 9223372036 /\ 0 <= s_tid x /\ (x00 ∉ s_func x) /\
      zlen (line_of x) < 4000
  | SetPreOutput _ | SetPostOutput _ => False
  | _ => True
  end.

(** With the default text functions a statement is that of LogStreams.v. *)
Definition effect (g : t W) (events : list event) (w : W) : W :=
  fold_left (fun w e => match e with Output line => global_output g line w | Flush => global_flush g w end) events w.
Lemma execute_log (g : t W) x th w :
  global_pre_output g = pre_output unspecified general gmtime_r ->
  global_post_output g = post_output unspecified general ->
  execute g x th w
  = ('(events, aborts, th') ← Logger.log unspecified general gmtime_r (log_level g) (s_level x) (s_path x) (s_line x)
                                (s_func x) (s_items x) (s_now x) (s_tid x) th;
     mret (effect g events w, aborts, th')).
Proof.
  intros Hpre Hpost. unfold LoggerGlobals.execute, Logger.log, construct, Logger.make, destruct_, Logger.destroy.
  rewrite Hpre, Hpost. unfold pre_output, post_output. destruct (enabled _ _); cbn [negb]; [| done].
  destruct (default_pre_output _ _ _ _ _ _ _ _ _) as [[th' stream]|]; [| done]. cbn [mbind res_bind mret res_ret _stream _source _line _time _level].
  destruct (insert_all _ _ _ _) as [stream'|]; [| done]. cbn [mbind res_bind _stream _source _line _time _level].
  destruct (default_post_output _ _ _ _ _) as [stream''|]; [| done]. cbn [mbind res_bind].
  by destruct (decide (s_level x = FATAL)).
Qed.
Lemma execute_ok (g : t W) x th w :
  global_pre_output g = pre_output unspecified general gmtime_r ->
  global_post_output g = post_output unspecified general ->
  (enabled (log_level g) (s_level x) = true -> op_ok (Statement x)) -> thread_ok gmtime_r th ->
  exists th', thread_ok gmtime_r th' /\
    execute g x th w
    = Ret (if enabled (log_level g) (s_level x) then
             if decide (s_level x = FATAL) then (global_flush g (global_output g (line_of x) w), true, th')
             else (global_output g (line_of x) w, false, th')
           else (w, false, th')).
Proof.
  intros Hpre Hpost Hop Hth. rewrite execute_log by done.
  destruct (enabled (log_level g) (s_level x)) eqn:He.
  - destruct (Hop eq_refl) as (Hnow & Htid & Hf & Hfit). destruct (log_line_ok unspecified general gmtime_r Hunspecified Hgmtime (log_level g) (s_level x) (s_path x) (s_line x)
      (s_func x) (s_items x) (s_now x) (s_tid x) th He Hth Hnow Htid Hf Hfit) as (th' & Hth' & ->).
    exists th'. split; [done |]. cbn [mbind res_bind]. fold (line_of x).
    destruct (decide (s_level x = FATAL)) as [->|]; [done | by rewrite bool_decide_false].
  - exists th. split; [done |]. unfold Logger.log. by rewrite He.
Qed.

Definition usual (s : state W) : Prop :=
  global_pre_output (globals s) = pre_output unspecified general gmtime_r /\
  global_post_output (globals s) = post_output unspecified general /\
  map_Forall (fun _ => thread_ok gmtime_r) (caches s).

(** One statement: only an enabled one must be in order. *)
Lemma statement_ok (x : statement) (s : state W) :
  usual s -> (enabled (log_level (globals s)) (s_level x) = true -> op_ok (Statement x)) ->
  exists s' aborts, step (Statement x) s = Ret (s', aborts) /\ usual s' /\ globals s' = globals s /\
    (world s', aborts)
    = if enabled (log_level (globals s)) (s_level x) then
        if decide (s_level x = FATAL)
        then (global_flush (globals s) (global_output (globals s) (line_of x) (world s)), true)
        else (global_output (globals s) (line_of x) (world s), false)
      else (world s, false).
Proof.
  intros (Hpre & Hpost & Hc) Ho. cbn [LoggerGlobals.step].
  assert (thread_ok gmtime_r (default new_thread (caches s !! s_tid x))) as Hth.
  { destruct (caches s !! s_tid x) as [th|] eqn:E; [by apply (Hc _ _ E) | by left]. }
  destruct (execute_ok (globals s) x _ (world s) Hpre Hpost Ho Hth) as (th' & Hth' & ->).
  assert (map_Forall (fun _ => thread_ok gmtime_r) (<[s_tid x := th']> (caches s))) as Hc' by by apply map_Forall_insert_2.
  destruct (enabled _ _); [destruct (decide (s_level x = FATAL)) |];
    (eexists _, _; split; [reflexivity |]; by split_and!).
Qed.

Lemma run_replays (ops : list (op W)) (s : state W) :
  usual s -> Forall op_ok ops ->
  exists s' aborts, run ops s = Ret (s', aborts) /\ usual s' /\
    (world s', aborts)
    = replay ops (global_output (globals s)) (global_flush (globals s)) (global_log_level (globals s)) (world s).
Proof.
  intros Hs Hops. revert s Hs. induction Hops as [|o ops Ho _ IH]; intros s Hs.
  { by exists s, false. }
  destruct o as [level|f|f|f|f|x]; try done; cbn [LoggerGlobals.run LoggerGlobals.step replay mbind res_bind mret res_ret].
  - by apply (IH (mk_state (set_log_level level (globals s)) (caches s) (world s))).
  - by apply (IH (mk_state (set_output_function f (globals s)) (caches s) (world s))).
  - by apply (IH (mk_state (set_flush_function f (globals s)) (caches s) (world s))).
  - destruct (statement_ok x s Hs (fun _ => Ho)) as (s1 & aborts & Estep & Hs1 & Eg & Ew).
    cbn [LoggerGlobals.step] in Estep. rewrite Estep. cbn [mbind res_bind]. clear Estep. unfold log_level in Ew.
    destruct (enabled (global_log_level (globals s)) (s_level x)); [destruct (decide (s_level x = FATAL)) |];
      injection Ew as Ew ->; [by exists s1, true; rewrite Ew | |];
      destruct (IH s1 Hs1) as (s2 & aborts & E & Hs2 & Er); rewrite Eg, Ew in Er; by exists s2, aborts.
Qed.
End globals.
End LoggerGlobalsSpec.

(** ** The property *)

Module LoggerGlobalsProps.
Import LogStream LogStreamSpec Logger LoggerSpec LoggerGlobals LoggerGlobalsSpec.

(** C40: statements and setters. Whatever threads log what, and whenever the level and
    the output and flush functions are replaced, as long as every line fits the stream
    and the two text functions stay: nothing fails, and the world is what the reference
    makes of it, each enabled statement one line for the output function set at that
    time, up to the first FATAL one, which flushes and ends the program. *)
Theorem logger_outputs {B : Build} unspecified general gmtime_r {W} (fwrite_stdout : list byte -> W -> W) fflush_stdout
    trace_set debug_set ops w
    (Hunspecified : forall n, 0 <= n -> zlen (unspecified n) = n)
    (Hgmtime : forall s, 0 <= s <= 9223372036 -> fields_ok (gmtime_r s))
    (Hops : Forall (op_ok general gmtime_r) ops) :
  exists s' aborts,
    run unspecified general ops
      (mk_state (initial unspecified general gmtime_r fwrite_stdout fflush_stdout trace_set debug_set) ∅ w)
    = Ret (s', aborts) /\
    (world s', aborts)
    = replay general gmtime_r ops fwrite_stdout fflush_stdout (initLogLevel trace_set debug_set) w.
Proof.
  destruct (run_replays unspecified general gmtime_r Hunspecified Hgmtime ops
    (mk_state (initial unspecified general gmtime_r fwrite_stdout fflush_stdout trace_set debug_set) ∅ w))
    as (s' & aborts & E & _ & Er); [by split_and!; [| | apply map_Forall_empty] | done |].
  by exists s', aborts.
Qed.

(** *** Witness: two threads, a level and an output that change, and a fatal end. *)
Definition to_list (tag : Z) (line : list byte) (w : list (Z * list byte)) : list (Z * list byte) := w ++ [(tag, line)].
Definition say (level : LogLevel) (tid : Z) (text : String.string) : op (list (Z * list byte)) :=
  Statement (mk_statement level (bytes "suduo/net/TcpServer.cpp") 7 (bytes "start") [String (bytes text)]
    1704067200000000000 tid).
Definition session : list (op (list (Z * list byte))) :=
  [say INFO 4321 "one"; say DEBUG 4321 "two"; SetLevel WARN; SetOutput (to_list 2); say INFO 4322 "three";
   say ERROR 4322 "four"; say FATAL 4321 "five"; say WARN 4322 "six"].
Lemma session_ok : Forall (op_ok LogStreamProps.plain_double LogStreamProps.new_year) session.
Proof.
  assert (x00 ∉ bytes "start") as Hf
    by (intros Hin%(bool_decide_eq_true_2 (x00 ∈ bytes "start")); by vm_compute in Hin).
  unfold session, say. rewrite !Forall_cons. split_and!; try done; split_and!; try exact Hf; by vm_compute.
Qed.
Lemma logger_outputs_witness :
  exists s' aborts,
    run LogStreamProps.zeros LogStreamProps.plain_double session
      (mk_state (@initial {| ndebug := false |} LogStreamProps.zeros LogStreamProps.plain_double LogStreamProps.new_year
                   _ (to_list 1) (to_list 3 []) false false) ∅ [])
    = Ret (s', aborts) /\
    (world s', aborts)
    = ([(1, bytes "20240101 00:00:00  4321 INFO  one -TcpServer.cpp:7" ++ [x0a]);
        (2, bytes "20240101 00:00:00  4322 ERROR four -TcpServer.cpp:7" ++ [x0a]);
        (2, bytes "20240101 00:00:00  4321 FATAL five -TcpServer.cpp:7" ++ [x0a]); (3, [])], true).
Proof.
  exact (@logger_outputs {| ndebug := false |} LogStreamProps.zeros LogStreamProps.plain_double LogStreamProps.new_year _
    (to_list 1) (to_list 3 []) false false session [] LogStreamProps.zeros_length LogStreamProps.new_year_ok session_ok).
Defined.
End LoggerGlobalsProps.
