(* ===== verification/ThreadInfos.v ===== *)
(** What a thread knows about itself (suduo/base/CurrentThreadInfo.h/.cpp): the cached
    thread id and its text, across fork(2), and stack traces; process ids
    (ProcessInfo.h) and exceptions (Exception.h). *)

From S2P Require Import Prelude.
From S2P Require Import Time.
From S2P Require Import LogStreams.

Module Current_thread_info.

(** The [__thread] variables. [thread_tid_string] is read up to its NUL. *)
Record t := mk {
  thread_cache_id : Z;
  thread_tid_string : list byte;
  thread_tid_string_size : Z;
  thread_name : list byte
}.
Definition initial : t := mk 0 [] 6 (bytes "unknow").
Definition set_name (name : list byte) (th : t) : t :=
  mk (thread_cache_id th) (thread_tid_string th) (thread_tid_string_size th) name.

(** [gettid]: the kernel's id of the calling thread. *)
Definition cache_thread_id (gettid : Z) (th : t) : t :=
  let text := Logger.padded 5 x20 gettid in
  mk gettid (snprintf 32 text) (zlen text) (thread_name th).
Definition cached (gettid : Z) (th : t) : t :=
  if thread_cache_id th =? 0 then cache_thread_id gettid th else th.
Definition tid (gettid : Z) (th : t) : Z * t :=
  let th := cached gettid th in (thread_cache_id th, th).
Definition tid_string (gettid : Z) (th : t) : list byte * t :=
  let th := cached gettid th in (thread_tid_string th, th).
Definition tid_string_length (th : t) : Z := thread_tid_string_size th.
Definition threads_name (th : t) : list byte := thread_name th.
Definition name (th : t) : list byte := thread_name th.
Definition is_main_thread (gettid getpid : Z) (th : t) : bool * t :=
  let '(id, th) := tid gettid th in (id =? getpid, th).

Definition after_fork (gettid : Z) (th : t) : t :=
  let th := mk 0 (thread_tid_string th) (thread_tid_string_size th) (bytes "thread") in
  (tid gettid th).2.
(** [ThreadIDNameInitializer], in the main thread before [main]; it also registers
    [after_fork] for the children. *)
Definition initializer (gettid : Z) (th : t) : t := (tid gettid (set_name (bytes "thread") th)).2.

(** *** Threads and processes

    The threads by their kernel ids, each with the id of its process. An id is used
    again when its thread has ended. *)
Abbreviation system := (gmap Z (Z * t)).
Definition id_ok (id : Z) : Prop := 0 < id <= int32_max.
Inductive step : system -> system -> Prop :=
  | step_call gettid pid th s :
      s !! gettid = Some (pid, th) -> step s (<[gettid := (pid, cached gettid th)]> s)
  | step_name gettid pid th name s :
      s !! gettid = Some (pid, th) -> step s (<[gettid := (pid, set_name name th)]> s)
  | step_create creator pid th new s :
      s !! creator = Some (pid, th) -> s !! new = None -> id_ok new ->
      step s (<[new := (pid, initial)]> s)
  | step_fork gettid pid th child s :
      s !! gettid = Some (pid, th) -> s !! child = None -> id_ok child ->
      step s (<[child := (child, after_fork child th)]> s)
  | step_exit gettid s : step s (delete gettid s).
Inductive start : system -> Prop :=
  | start_main pid : id_ok pid -> start {[ pid := (pid, initializer pid initial) ]}.
End Current_thread_info.

(** ** Stack traces *)

Module StackTrace.

(** The last [c] of a C string. *)
Fixpoint last_index (c : byte) (l : list byte) : option nat :=
  match l with
  | [] => None
  | x :: l =>
      match last_index c l with
      | Some n => Some (S n)
      | None => if decide (x = c) then Some 0%nat else None
      end
  end.

Section trace.
(** abi::__cxa_demangle of a C string, if it is a mangled name. *)
Context (cxa_demangle : list byte -> option (list byte)).

(** One line of [backtrace_symbols]. While it is demangled the plus sign is a NUL, so
    the name ends there, or goes to the end of the line if the sign is before it. *)
Definition demangled_line (s : list byte) : list byte :=
  match last_index x28 s, last_index x2b s with
  | Some left_par, Some plus =>
      let mangled := if (left_par <? plus)%nat then take (plus - S left_par) (drop (S left_par) s) else drop (S left_par) s in
      match cxa_demangle mangled with
      | Some d => take (S left_par) s ++ d ++ drop plus s
      | None => s
      end
  | _, _ => s
  end.

Definition max_frames : nat := 200.
(** The frames of the thread, and [backtrace_symbols], which may fail. *)
Definition stack_trace (demangle : bool) (backtrace_symbols : list (list byte) -> option (list (list byte)))
    (frames : list (list byte)) : list byte :=
  match backtrace_symbols (take max_frames frames) with
  | None => []
  | Some strings =>
      concat (map (fun s => (if demangle then demangled_line s else s) ++ [x0a]) (drop 1 strings))
  end.
End trace.
End StackTrace.

Module Exception.
Record t := mk { _message : list byte; _stack_trace : list byte }.
Definition make (what trace : list byte) : t := mk what trace.
(** Both are read as C strings. *)
Definition what (e : t) : list byte := c_string (_message e).
Definition stackTrace (e : t) : list byte := c_string (_stack_trace e).
Definition unknown (trace : list byte) : t := make (bytes "Unknow error") trace.

(** What leaves a function, and what a [catch] clause takes: the class derives from
    [std::exception] privately, so that clause does not take it. *)
Inductive thrown := SuduoException (e : t) | StdException (what : list byte) | Other.
Inductive clause := CatchException | CatchStd | CatchAll.
Definition catches (c : clause) (x : thrown) : bool :=
  match c, x with
  | CatchException, SuduoException _ | CatchStd, StdException _ | CatchAll, _ => true
  | _, _ => false
  end.
(** [_detail::run_thread_func]: the clause that takes what the thread's function
    throws, with the level of its line; the first two end the program with LOG_FATAL,
    the last throws again out of the thread, which ends it too. *)
Definition thread_clauses : list clause := [CatchException; CatchStd; CatchAll].
Definition run_func (result : option thrown) : option (clause * Logger.LogLevel) * res unit :=
  match result with
  | None => (None, Ret tt)
  | Some x =>
      match List.find (fun c => catches c x) thread_clauses with
      | Some c => (Some (c, match c with CatchAll => Logger.ERROR | _ => Logger.FATAL end), Stop Aborted)
      | None => (None, Stop Aborted)
      end
  end.
End Exception.

Module ProcessInfo.
Definition pid (getpid : Z) : Z := getpid.
(** [std::to_chars] into 32 bytes, where every [int] fits. *)
Definition pid_string (getpid : Z) : list byte := decimal getpid.
End ProcessInfo.

(** ** Lemmas *)

Module ThreadInfoSpec.
Import Current_thread_info StackTrace.

Definition text_of (id : Z) : list byte := Logger.padded 5 x20 id.
Lemma text_fits id : id_ok id -> snprintf 32 (text_of id) = text_of id.
Proof.
  intros Hid. apply snprintf_fits. unfold text_of, Logger.padded. rewrite length_app, length_replicate.
  pose proof (decimal_length id 9) as Hl. unfold id_ok, int32_max in Hid. cbn in Hl. lia.
Qed.

(** Nothing is cached yet, or what is cached is the thread's own. *)
Definition knows (id : Z) (th : t) : Prop :=
  thread_cache_id th = 0 \/
  thread_cache_id th = id /\ thread_tid_string th = text_of id /\ thread_tid_string_size th = zlen (text_of id).
Definition inv (s : system) : Prop := forall id pid th, s !! id = Some (pid, th) -> id_ok id /\ knows id th.

Lemma cached_knows id th : id_ok id -> knows id th ->
  let th' := cached id th in
  thread_cache_id th' = id /\ thread_tid_string th' = text_of id /\ thread_tid_string_size th' = zlen (text_of id).
Proof.
  intros Hid Hk. unfold cached. destruct (Z.eqb_spec (thread_cache_id th) 0) as [E|E].
  - split_and!; [done | by apply (text_fits id) | done].
  - by destruct Hk.
Qed.
Lemma after_fork_knows id th : id_ok id -> knows id (after_fork id th).
Proof. intros Hid. right. apply cached_knows; [done | by left]. Qed.

Lemma inv_insert s id pid th : inv s -> id_ok id -> knows id th -> inv (<[id := (pid, th)]> s).
Proof.
  intros Hi Hid Hk id' pid' th'. rewrite lookup_insert_Some. intros [[<- [= <- <-]] | [_ H]]; [done | by eapply Hi].
Qed.
Lemma thread_start_inv s : start s -> inv s.
Proof.
  intros [pid Hp]. apply inv_insert; [by intros ? ? ? ? | done |]. right. apply cached_knows; [done | by left].
Qed.
Lemma thread_step_inv s s' : inv s -> step s s' -> inv s'.
Proof.
  intros Hi Hs. destruct Hs as [id pid th s E | id pid th n s E | creator pid th new s E En Hn | id pid th child s E En Hn | id s].
  - destruct (Hi _ _ _ E) as [Hid Hk]. apply inv_insert; [done | done |]. right. by apply cached_knows.
  - destruct (Hi _ _ _ E) as [Hid Hk]. by apply inv_insert.
  - apply inv_insert; [done | done | by left].
  - apply inv_insert; [done | done | by apply after_fork_knows].
  - intros id' pid th. rewrite lookup_delete_Some. intros [_ ?]. by eapply Hi.
Qed.

Lemma last_index_app c l k : c ∉ k -> last_index c (l ++ c :: k) = Some (length l).
Proof.
  intros Hk. assert (last_index c k = None) as E.
  { induction k as [|x k IH]; [done |]. apply not_elem_of_cons in Hk as [Hx Hk]. cbn. rewrite IH by done.
    by rewrite decide_False. }
  induction l as [|x l IH]; cbn; [by rewrite E, decide_True | by rewrite IH].
Qed.

(** A line stays a line. *)
Lemma demangled_line_one demangle s :
  x0a ∉ s -> (forall m d, demangle m = Some d -> x0a ∉ d) -> x0a ∉ demangled_line demangle s.
Proof.
  intros Hs Hd. unfold demangled_line. destruct (last_index x28 s) as [l|]; [| done].
  destruct (last_index x2b s) as [p|]; [| done].
  destruct (demangle _) as [d|] eqn:E; [| done]. rewrite !elem_of_app. intros [Hin | [Hin | Hin]].
  - apply Hs. rewrite <- (take_drop (S l) s). apply elem_of_app. by left.
  - by eapply Hd.
  - apply Hs. rewrite <- (take_drop p s). apply elem_of_app. by right.
Qed.
Definition newlines (l : list byte) : nat := count (fun c => bool_decide (c = x0a)) l.
Lemma newlines_app l k : newlines (l ++ k) = (newlines l + newlines k)%nat.
Proof. unfold newlines. induction l as [|c l IH]; cbn; [done |]. rewrite IH. lia. Qed.
Lemma newlines_none l : x0a ∉ l -> newlines l = 0%nat.
Proof.
  unfold newlines. induction l as [|c l IH]; cbn; [done |]. intros [Hc Hl]%not_elem_of_cons.
  by rewrite IH, bool_decide_false.
Qed.
Lemma newlines_lines (f : list byte -> list byte) (strings : list (list byte)) :
  Forall (fun s => x0a ∉ s) strings -> (forall s, x0a ∉ s -> x0a ∉ f s) ->
  newlines (concat (map (fun s => f s ++ [x0a]) strings)) = length strings.
Proof.
  intros Hall Hf. induction Hall as [|s strings Hs _ IH]; [done |]. cbn [map concat length].
  rewrite !newlines_app, IH, newlines_none by auto. done.
Qed.
End ThreadInfoSpec.

(** ** The properties *)

Module ThreadInfoProps.
Import Current_thread_info StackTrace ThreadInfoSpec.

(** C36: a thread knows who it is. Whatever threads of whatever processes are created,
    named, forked and ended, and whenever they ask: [tid()] is the kernel's id of the
    calling thread, a child's after a fork, [tid_string()] is its decimal text on five
    columns, and [is_main_thread()] holds in the main thread of each process only. *)
Theorem thread_ids s id pid th (Hs : reachable start step s) (Hth : s !! id = Some (pid, th)) :
  (tid id th).1 = id /\ (tid_string id th).1 = text_of id /\
  tid_string_length (tid_string id th).2 = zlen (text_of id) /\
  (is_main_thread id pid th).1 = bool_decide (id = pid).
Proof.
  destruct (reachable_invariant start step inv thread_start_inv thread_step_inv s Hs _ _ _ Hth) as [Hid Hk].
  destruct (cached_knows id th Hid Hk) as (E1 & E2 & E3). cbn [tid tid_string is_main_thread tid_string_length fst snd].
  split_and!; [done | done | done |]. rewrite E1. case_bool_decide; [by apply Z.eqb_eq | by apply Z.eqb_neq].
Qed.

(** A line "module(mangled+offset) [address]" gets its demangled name, if it has one,
    and otherwise stays; the trace has one line per frame but the first. *)
Theorem stack_trace_lines cxa_demangle frames
    (module mangled offset : list byte)
    (Hm : (x28 ∉ mangled) /\ (x2b ∉ mangled)) (Ho : (x28 ∉ offset) /\ (x2b ∉ offset)) :
  demangled_line cxa_demangle (module ++ bytes "(" ++ mangled ++ bytes "+" ++ offset)
  = module ++ bytes "(" ++ default mangled (cxa_demangle mangled) ++ bytes "+" ++ offset /\
  (forall demangle symbols strings,
     symbols (take 200 frames) = Some strings ->
     Forall (fun s => x0a ∉ s) strings -> (forall s d, cxa_demangle s = Some d -> x0a ∉ d) ->
     newlines (stack_trace cxa_demangle demangle symbols frames) = (length strings - 1)%nat).
Proof.
  destruct Hm as [Hm1 Hm2], Ho as [Ho1 Ho2]. split.
  - change (bytes "(") with [x28]. change (bytes "+") with [x2b]. cbn [app].
    unfold demangled_line. rewrite (last_index_app x28 module).
    2: { rewrite elem_of_app, elem_of_cons. naive_solver. }
    replace (module ++ x28 :: mangled ++ x2b :: offset) with ((module ++ x28 :: mangled) ++ x2b :: offset)
      by (by rewrite <- app_assoc).
    rewrite last_index_app by done. rewrite length_app. cbn [length].
    rewrite (proj2 (Nat.ltb_lt _ _)) by lia.
    replace (length module + S (length mangled) - S (length module))%nat with (length mangled) by lia.
    assert (forall k, drop (S (length module)) ((module ++ x28 :: mangled) ++ k) = mangled ++ k) as Hdrop.
    { intros k. change (x28 :: mangled) with ([x28] ++ mangled). rewrite !app_assoc, <- (app_assoc _ mangled k).
      apply drop_app_length'. rewrite length_app. cbn. lia. }
    rewrite Hdrop, take_app_length. destruct (cxa_demangle mangled) as [d|]; cbn [default from_option]; [| by rewrite <- app_assoc].
    rewrite (drop_app_length' (module ++ x28 :: mangled)) by (rewrite length_app; cbn; lia).
    rewrite <- app_assoc. change (x28 :: mangled) with ([x28] ++ mangled). rewrite <- !app_assoc, (app_assoc module [x28]).
    rewrite take_app_length' by (rewrite length_app; cbn; lia). by rewrite <- app_assoc.
  - intros demangle symbols strings Hs Hall Hd. unfold stack_trace, max_frames. rewrite Hs.
    rewrite <- length_drop. apply newlines_lines; [by apply Forall_drop |].
    intros s Hn. destruct demangle; [by apply demangled_line_one | done].
Qed.

(** *** Witness: a second thread that knows its id forks. *)
Definition two : system := <[101 := (100, initial)]> {[ 100 := (100, initializer 100 initial) ]}.
Definition asked : system := <[101 := (100, cached 101 initial)]> two.
Definition forked : system := <[102 := (102, after_fork 102 (cached 101 initial))]> asked.
Lemma forked_reachable : reachable start step forked.
Proof.
  assert (reachable start step two) as H2.
  { eapply reach_step; [apply reach_init, (start_main 100); done |].
    by eapply (step_create 100 100); [apply lookup_singleton_eq | |]. }
  assert (reachable start step asked) as H3 by (eapply reach_step; [exact H2 | by apply step_call]).
  eapply reach_step; [exact H3 |]. by eapply (step_fork 101 100).
Qed.
Lemma thread_ids_witness :
  let th := after_fork 102 (cached 101 initial) in
  (tid 102 th).1 = 102 /\ (tid_string 102 th).1 = text_of 102 /\
  tid_string_length (tid_string 102 th).2 = zlen (text_of 102) /\
  (is_main_thread 102 102 th).1 = bool_decide (102 = 102).
Proof. intros th. apply (thread_ids forked); [exact forked_reachable | by vm_compute]. Defined.

Example trace_example :
  stack_trace (fun m => if decide (m = bytes "_ZN3Bar4testEv") then Some (bytes "Bar::test()") else None) true Some
    [bytes "stack_trace"; bytes "bin/test(_ZN3Bar4testEv+0x79) [0x401909]"; bytes "bin/test(main+0x9) [0x401a00]"]
  = bytes "bin/test(Bar::test()+0x79) [0x401909]" ++ [x0a] ++ bytes "bin/test(main+0x9) [0x401a00]" ++ [x0a].
Proof. by vm_compute. Qed.
End ThreadInfoProps.
