(* ===== verification/LogFiles.v ===== *)
(** Log files (suduo/base/FileUtil.h/.cpp, LogFile.h/.cpp): appending to a file
    that is changed when it has grown or when its day is over. *)

From S2P Require Import Prelude.
From S2P Require Import Time.

(** [fwrite_unlocked] on the file of a name, given how often it was called there:
    the number of bytes it took, and [ferror] after it. *)
Class Stdio := {
  k_fwrite : list byte -> nat -> list byte -> Z * Z
}.
(** ISO C: a short count means that an error has occurred. *)
Class StdioLaws `{Stdio} : Prop := {
  k_fwrite_bounded name i d : 0 <= (k_fwrite name i d).1 <= zlen d;
  k_fwrite_short name i d : (k_fwrite name i d).1 < zlen d -> (k_fwrite name i d).2 <> 0
}.

Module FileAppender.

Record t := mk {
  filename : list byte;
  contents : list byte;         (** what the stream has taken *)
  flushed : Z;                  (** how much of it [fflush] has passed on *)
  _written_bytes : Z;
  calls : nat;                  (** of [fwrite_unlocked] *)
  failures : nat                (** lines on standard error *)
}.
Definition make (filename : list byte) : t := mk filename [] 0 0 0 0.
Definition written_bytes (f : t) : Z := _written_bytes f.

Section operations.
Context `{Stdio}.

(** [write]: the stream takes a part of [d]. *)
Definition write (d : list byte) (f : t) : Z * Z * t :=
  let '(n, err) := k_fwrite (filename f) (calls f) d in
  (n, err, mk (filename f) (contents f ++ take (Z.to_nat n) d) (flushed f) (_written_bytes f)
             (S (calls f)) (failures f)).

Fixpoint append_loop (fuel : nat) (log : list byte) (written : Z) (f : t) : res (Z * t) :=
  match fuel with
  | O => Stop FuelExhausted
  | S fuel' =>
      if written =? zlen log then mret (written, f) else
      let remain := u64 (zlen log - written) in
      let '(n, err, f) := write (drop (Z.to_nat written) log) f in
      if negb (n =? remain) && negb (err =? 0)
      then mret (written, mk (filename f) (contents f) (flushed f) (_written_bytes f) (calls f) (S (failures f)))
      else append_loop fuel' log (u64 (written + n)) f
  end.

(** Two rounds are enough: a short count is an error, which ends the loop. *)
Definition append (log : list byte) (f : t) : res t :=
  '(written, f) ← append_loop 2 log 0 f;
  total ← i64_checked (_written_bytes f + written);
  mret (mk (filename f) (contents f) (flushed f) total (calls f) (failures f)).

Definition flush (f : t) : t :=
  mk (filename f) (contents f) (zlen (contents f)) (_written_bytes f) (calls f) (failures f).
End operations.
End FileAppender.

Module LogFile.

Definition roll_per_seconds_ : Z := 60 * 60 * 24.

Record t := mk {
  _basename : list byte;
  _roll_size : Z;
  _flush_interval : Z;               (** nanoseconds *)
  _check_every_N_times : Z;
  _count : Z;
  _start_of_period : Timestamp.t;
  _last_roll : Timestamp.t;
  _last_flush : Timestamp.t;
  _file : option FileAppender.t;
  closed : list FileAppender.t;      (** history: the earlier files *)
  ticks : nat                        (** calls of [Timestamp::now()] *)
}.

Definition set_count (s : t) (n : Z) : t :=
  mk (_basename s) (_roll_size s) (_flush_interval s) (_check_every_N_times s) n (_start_of_period s)
    (_last_roll s) (_last_flush s) (_file s) (closed s) (ticks s).
Definition set_file (s : t) (f : FileAppender.t) : t :=
  mk (_basename s) (_roll_size s) (_flush_interval s) (_check_every_N_times s) (_count s) (_start_of_period s)
    (_last_roll s) (_last_flush s) (Some f) (closed s) (ticks s).
Definition set_last_flush (s : t) (now : Timestamp.t) : t :=
  mk (_basename s) (_roll_size s) (_flush_interval s) (_check_every_N_times s) (_count s) (_start_of_period s)
    (_last_roll s) now (_file s) (closed s) (ticks s).
Definition tick (s : t) : t :=
  mk (_basename s) (_roll_size s) (_flush_interval s) (_check_every_N_times s) (_count s) (_start_of_period s)
    (_last_roll s) (_last_flush s) (_file s) (closed s) (S (ticks s)).

Section operations.
(** The clock at each call of [now()], [to_log_string()] (the C library's calendar)
    and the process. *)
Context `{Stdio} (clock : nat -> Timestamp.t) (to_log_string : Timestamp.t -> list byte) (pid : Z).

Definition get_log_filename (basename : list byte) (now : Timestamp.t) : list byte :=
  basename ++ bytes "." ++ to_log_string now ++ bytes "." ++ decimal pid ++ bytes ".log".

(** The midnight before [now]. *)
Definition period (now : Timestamp.t) : res Timestamp.t :=
  Timestamp.of_duration Timestamp.Seconds
    (Z.quot (Timestamp.get_seconds_in_int64 now) roll_per_seconds_ * roll_per_seconds_).

Definition roll_file (s : t) : res (bool * t) :=
  let now := clock (ticks s) in
  let s := tick s in
  start ← period now;
  if Timestamp.gt now (_last_roll s) then
    let filename := get_log_filename (_basename s) now in
    mret (true, mk (_basename s) (_roll_size s) (_flush_interval s) (_check_every_N_times s) (_count s)
                  start now now (Some (FileAppender.make filename))
                  (closed s ++ from_option (fun f => [FileAppender.flush f]) [] (_file s)) (ticks s))
  else mret (false, s).

Definition flush (s : t) : res t :=
  match _file s with
  | Some f => mret (set_file s (FileAppender.flush f))
  | None => Stop UndefinedBehaviour
  end.

Definition append_unlocked (log : list byte) (s : t) : res t :=
  match _file s with
  | None => Stop UndefinedBehaviour
  | Some f =>
      f ← FileAppender.append log f;
      let s := set_file s f in
      if _roll_size s <? FileAppender.written_bytes f then '(_, s) ← roll_file s; mret s
      else
        count ← i32_checked (_count s + 1);
        let s := set_count s count in
        if _check_every_N_times s <=? count then
          let s := set_count s 0 in
          let now := clock (ticks s) in
          let s := tick s in
          thisPeriod ← period now;
          if Timestamp.ne thisPeriod (_start_of_period s) then '(_, s) ← roll_file s; mret s
          else
            since ← Timestamp.diff now (_last_flush s);
            if Timestamp.gt since (_flush_interval s) then flush (set_last_flush s now) else mret s
        else mret s
  end.

Definition make (base_name : list byte) (roll_size flush_interval check_every_N : Z) : res t :=
  interval ← Timestamp.of_duration Timestamp.Seconds flush_interval;
  '(_, s) ← roll_file (mk base_name roll_size interval check_every_N 0 0 0 0 None [] 0);
  mret s.

(** [append], with the mutex or without. *)
Definition append (log : list byte) (s : t) : res t := append_unlocked log s.

Fixpoint append_all (logs : list (list byte)) (s : t) : res t :=
  match logs with
  | [] => mret s
  | log :: logs' => s ← append log s; append_all logs' s
  end.
End operations.
End LogFile.

(** ** What a log file promises to who writes to it *)

Class LogSink (S : Type) := {
  sink_append : list byte -> S -> res S;
  sink_flush : S -> res S
}.
(** Appending and flushing return, nothing is lost, the order is kept. *)
Class LogSinkLaws (S : Type) {K : LogSink S} := {
  sink_ok : S -> Prop;
  sink_content : S -> list byte;
  sink_append_ok d s : sink_ok s -> zlen (sink_content s) + zlen d <= 4611686018427387904 ->
    exists s', sink_append d s = Ret s' /\ sink_ok s' /\ sink_content s' = sink_content s ++ d;
  sink_flush_ok s : sink_ok s ->
    exists s', sink_flush s = Ret s' /\ sink_ok s' /\ sink_content s' = sink_content s
}.

(** [d] has gone whole to the end of the last file; a new one may have been begun. *)
Definition appended (d : list byte) (files files' : list (list byte)) : Prop :=
  exists earlier current, files = earlier ++ [current] /\
    (files' = earlier ++ [current ++ d] \/ files' = earlier ++ [current ++ d; []]).

(** A sink of several files tears nothing that it is given apart. *)
Class RollingSink (S : Type) {K : LogSink S} {L : LogSinkLaws S} := {
  sink_files : S -> list (list byte);
  sink_append_files d s s' : sink_ok s -> zlen (sink_content s) + zlen d <= 4611686018427387904 ->
    sink_append d s = Ret s' -> appended d (sink_files s) (sink_files s');
  sink_flush_files s s' : sink_ok s -> sink_flush s = Ret s' -> sink_files s' = sink_files s
}.

(** Files that hold [lines] hold them with what is appended. *)
Definition hold (lines : list (list byte)) (files : list (list byte)) : Prop :=
  exists groups, files = map (@concat byte) groups /\ concat groups = lines.

Lemma appended_holds lines new files files' :
  hold lines files -> appended (concat new) files files' -> hold (lines ++ new) files'.
Proof.
  intros (groups & -> & <-) (earlier & current & E & E').
  assert (exists g1 g2, groups = g1 ++ [g2] /\ earlier = map (@concat byte) g1 /\ current = concat g2)
    as (g1 & g2 & -> & -> & ->).
  { destruct (exists_last (l := groups)) as (g1 & g2 & ->); [intros ->; by destruct earlier |].
    exists g1, g2. rewrite map_app in E. cbn in E. by apply app_inj_tail in E as [-> ->]. }
  destruct E' as [-> | ->]; [exists (g1 ++ [g2 ++ new]) | exists (g1 ++ [g2 ++ new; []])];
    rewrite map_app, !concat_app; cbn; by rewrite ?concat_app, ?app_nil_r, <- ?app_assoc.
Qed.

Module LogFileSpec.
Import LogFile.

Section files.
Context `{StdioLaws} (clock : nat -> Timestamp.t) (to_log_string : Timestamp.t -> list byte) (pid : Z).

(** One call, complete or failed. *)
Lemma append_cases log f :
  0 <= FileAppender._written_bytes f -> FileAppender._written_bytes f + zlen log <= 4611686018427387904 ->
  exists f', FileAppender.append log f = Ret f' /\
    FileAppender.filename f' = FileAppender.filename f /\
    ((k_fwrite (FileAppender.filename f) (FileAppender.calls f) log).1 = zlen log ->
       FileAppender.contents f' = FileAppender.contents f ++ log /\
       FileAppender._written_bytes f' = FileAppender._written_bytes f + zlen log) /\
    ((k_fwrite (FileAppender.filename f) (FileAppender.calls f) log).1 < zlen log ->
       FileAppender._written_bytes f' = FileAppender._written_bytes f /\
       FileAppender.failures f' = S (FileAppender.failures f) /\
       exists d, FileAppender.contents f' = FileAppender.contents f ++ d /\ d `prefix_of` log).
Proof.
  intros Hw Hlog. unfold FileAppender.append. cbn [FileAppender.append_loop].
  destruct (Z.eqb_spec 0 (zlen log)) as [E|E].
  { destruct log; [| cbn in E; lia]. cbn [mbind res_bind mret res_ret].
    rewrite i64_checked_Ret by (unfold Timestamp.representable, int64_max; lia). cbn [mbind res_bind mret res_ret]. rewrite Z.add_0_r.
    eexists. split; [reflexivity |]. split_and!; [done | |]; cbn.
    - intros _. by rewrite app_nil_r, Z.add_0_r.
    - intros Hlt. pose proof (k_fwrite_bounded (FileAppender.filename f) (FileAppender.calls f) []). cbn in *. lia. }
  change (drop (Z.to_nat 0) log) with log. unfold FileAppender.write.
  pose proof (k_fwrite_bounded (FileAppender.filename f) (FileAppender.calls f) log) as Hb.
  pose proof (k_fwrite_short (FileAppender.filename f) (FileAppender.calls f) log) as Hs.
  destruct (k_fwrite (FileAppender.filename f) (FileAppender.calls f) log) as [n err]. cbn [fst snd] in *.
  rewrite (u64_small (zlen log - 0)) by lia. destruct (Z.eqb_spec n (zlen log - 0)) as [En|En].
  - cbn [negb andb]. rewrite u64_small by lia. replace (0 + n) with (zlen log) by lia.
    rewrite Z.eqb_refl. cbn [mbind res_bind mret res_ret FileAppender._written_bytes].
    rewrite i64_checked_Ret by (unfold Timestamp.representable, int64_max; lia). cbn [mbind res_bind mret res_ret].
    eexists. split; [reflexivity |]. cbn. split_and!; [done | | lia].
    intros _. split; [| done]. f_equal. apply firstn_all2. lia.
  - rewrite (proj2 (Z.eqb_neq err 0)) by (apply Hs; lia). cbn [negb andb mbind res_bind mret res_ret FileAppender._written_bytes].
    rewrite Z.add_0_r. rewrite i64_checked_Ret by (unfold Timestamp.representable, int64_max; lia). cbn [mbind res_bind mret res_ret]. eexists. split; [reflexivity |]. cbn. split_and!; [done | lia |].
    intros _. split_and!; [done | done |]. eexists. split; [reflexivity |]. apply prefix_take.
Qed.

Lemma seconds_bound now : 0 <= now <= int64_max -> 0 <= Timestamp.get_seconds_in_int64 now <= 9223372036.
Proof.
  unfold int64_max, Timestamp.get_seconds_in_int64, Timestamp.get_val_in_int64, Timestamp.Seconds.
  intros. rewrite Z.quot_div_nonneg by lia. split; [apply Z.div_pos; lia |].
  apply Z.lt_succ_r, Z.div_lt_upper_bound; lia.
Qed.

Lemma period_ok now : 0 <= now <= int64_max -> exists start, period now = Ret start /\ 0 <= start <= now.
Proof.
  intros Hnow. unfold period, Timestamp.of_duration.
  pose proof (seconds_bound now Hnow) as Hs.
  assert (Timestamp.get_seconds_in_int64 now * 1000000000 <= now).
  { unfold Timestamp.get_seconds_in_int64, Timestamp.get_val_in_int64, Timestamp.Seconds.
    rewrite Z.quot_div_nonneg by lia. pose proof (Z.mul_div_le now 1000000000). lia. }
  set (s := Timestamp.get_seconds_in_int64 now) in *. unfold roll_per_seconds_, Timestamp.Seconds.
  rewrite Z.quot_div_nonneg by lia. change (60 * 60 * 24) with 86400.
  pose proof (Z.mul_div_le s 86400). pose proof (Z.div_pos s 86400).
  eexists. split; [| split; [| shelve]].
  - apply i64_checked_Ret. unfold Timestamp.representable, int64_max in *. lia.
  - lia.
  Unshelve. lia.
Qed.

(** All the files, the current one last. *)
Definition files (s : t) : list FileAppender.t := closed s ++ from_option (fun f => [f]) [] (_file s).
Definition content (s : t) : list byte := concat (map FileAppender.contents (files s)).

(** The clock does not go back; [strict n]: it has moved between any two of the
    first [n] readings. *)
Context (Hclock : forall i, 0 < clock i <= clock (S i) /\ clock i <= int64_max).
Context (Hwrite : forall name i d, (k_fwrite name i d).1 = zlen d).
Definition strict (n : nat) : Prop := forall i, (S i < n)%nat -> clock i < clock (S i).

Lemma clock_le i j : (i <= j)%nat -> clock i <= clock j.
Proof. induction 1 as [|j _ IH]; [done | etrans; [exact IH | apply Hclock]]. Qed.
Lemma clock_lt n i j : strict n -> (i < j)%nat -> (j < n)%nat -> clock i < clock j.
Proof.
  intros Hs Hij Hj. destruct j as [|j]; [lia |].
  apply Z.le_lt_trans with (clock j); [apply clock_le; lia | by apply Hs].
Qed.

(** A file that was closed kept to the size, its last message apart. *)
Definition kept (roll_size : Z) (f : FileAppender.t) : Prop :=
  exists d m, FileAppender.contents f = d ++ m /\ zlen d <= roll_size.

Record inv (s : t) : Prop := mk_inv {
  v_file : exists f, _file s = Some f /\ FileAppender._written_bytes f = zlen (FileAppender.contents f) /\
    (strict (ticks s) -> zlen (FileAppender.contents f) <= _roll_size s);
  v_closed : strict (ticks s) -> Forall (kept (_roll_size s)) (closed s);
  v_time : exists j k, (j < ticks s)%nat /\ (k < ticks s)%nat /\ _last_roll s = clock j /\ _last_flush s = clock k;
  v_size : 0 <= _roll_size s;
  v_count : 0 <= _count s < Z.max 1 (_check_every_N_times s) /\ _check_every_N_times s <= int32_max
}.

Lemma strict_le m n : (m <= n)%nat -> strict n -> strict m.
Proof. intros Hmn Hs i Hi. apply Hs. lia. Qed.

Lemma files_current s f : _file s = Some f ->
  map FileAppender.contents (files s) = map FileAppender.contents (closed s) ++ [FileAppender.contents f].
Proof. intros E. unfold files. rewrite E. cbn [from_option]. by rewrite map_app. Qed.

(** [s2] is [s] after [log] was put into its file [f], which became [f1], and the
    clock may have been read. *)
Record touched (log : list byte) (f f1 : FileAppender.t) (s s2 : t) : Prop := mk_touched {
  t_file : _file s = Some f;
  t_contents : FileAppender.contents f1 = FileAppender.contents f ++ log;
  t_written : FileAppender._written_bytes f1 = zlen (FileAppender.contents f1);
  t_kept : strict (ticks s2) -> kept (_roll_size s) f1 /\ Forall (kept (_roll_size s)) (closed s);
  t_size : _roll_size s2 = _roll_size s /\ 0 <= _roll_size s;
  t_closed : closed s2 = closed s;
  t_time : exists j k, (j < ticks s2)%nat /\ (k < ticks s2)%nat /\ _last_roll s2 = clock j /\ _last_flush s2 = clock k;
  t_count : 0 <= _count s2 < Z.max 1 (_check_every_N_times s2) /\ _check_every_N_times s2 <= int32_max
}.

(** The message is at the end of the current file, whole; the files may change
    after it. *)
Definition grown (log : list byte) (s s' : t) : Prop :=
  inv s' /\ appended log (map FileAppender.contents (files s)) (map FileAppender.contents (files s')).

Lemma keep_after log f f1 s s2 :
  touched log f f1 s s2 -> _file s2 = Some f1 \/ _file s2 = Some (FileAppender.flush f1) ->
  (strict (ticks s2) -> zlen (FileAppender.contents f1) <= _roll_size s) -> grown log s s2.
Proof.
  intros [Hf Ec Ew Hk [Es Hs] Ecl Ht Hc] E1 Hle. split.
  - constructor; rewrite ?Es, ?Ecl; try done; [| intros ?; by apply Hk].
    destruct E1 as [-> | ->]; eexists; (split; [reflexivity | done]).
  - exists (map FileAppender.contents (closed s)), (FileAppender.contents f).
    split; [by apply files_current |]. left. rewrite <- Ec, <- Ecl.
    destruct E1 as [E1 | E1]; by rewrite (files_current s2 _ E1).
Qed.

Lemma roll_after log f f1 s s2 :
  touched log f f1 s s2 -> _file s2 = Some f1 ->
  exists s', ('(_, s3) ← roll_file clock to_log_string pid s2; mret s3) = Ret s' /\ grown log s s'.
Proof.
  intros Htouch E1. pose proof Htouch as [Hf Ec Ew Hk [Es Hs] Ecl (j & k & Hj & Hk' & Ej & Ek) Hc].
  unfold roll_file. pose proof (Hclock (ticks s2)) as Hnow.
  destruct (period_ok (clock (ticks s2))) as (start & -> & _); [lia |]. cbn [mbind res_bind mret res_ret].
  change (_last_roll (tick s2)) with (_last_roll s2). unfold Timestamp.gt.
  destruct (Z.ltb_spec (_last_roll s2) (clock (ticks s2))) as [Hlt|Hge]; cbn [mbind res_bind mret res_ret];
    (eexists; split; [reflexivity |]).
  - split.
    + constructor; cbn [_file _roll_size closed ticks _last_roll _last_flush _count _check_every_N_times
        _flush_interval _basename tick FileAppender.make]; rewrite ?Es; try done.
      * eexists. split; [reflexivity |]. done.
      * intros Hst. rewrite Ecl, E1. destruct Hk as [Hk1 Hk2]; [eapply strict_le; [| done]; lia |].
        apply Forall_app. split; [done |]. by apply Forall_singleton.
      * exists (ticks s2), (ticks s2). split_and!; done || lia.
    + exists (map FileAppender.contents (closed s)), (FileAppender.contents f).
      split; [by apply files_current |]. right. unfold files. cbn [closed _file tick from_option].
      rewrite E1, Ecl, !map_app. cbn. by rewrite Ec, <- app_assoc.
  - apply (keep_after log f f1); [| by left |].
    + constructor; try done; [| exists j, k; cbn; split_and!; done || lia].
      intros Hst. apply Hk. eapply strict_le; [| exact Hst]. cbn. lia.
    + intros Hst. exfalso. rewrite Ej in Hge.
      pose proof (clock_lt (S (ticks s2)) j (ticks s2) Hst Hj ltac:(lia)). lia.
Qed.

Lemma append_ok log s :
  inv s -> zlen (content s) + zlen log <= 4611686018427387904 ->
  exists s', append clock to_log_string pid log s = Ret s' /\ grown log s s'.
Proof.
  intros [(f & Hf & Hw & Hle) Hcl Ht Hsize [Hc HN]] Hlog. unfold append, append_unlocked. rewrite Hf.
  assert (Hlen : zlen (FileAppender.contents f) <= zlen (content s)).
  { unfold content. rewrite (files_current s f Hf), concat_app, length_app. cbn. rewrite app_nil_r. lia. }
  destruct (append_cases log f) as (f1 & -> & _ & Hall & _); [lia | lia |].
  destruct Hall as [Ec Ew]; [apply Hwrite |]. cbn [mbind res_bind mret res_ret].
  set (s1 := set_file s f1).
  assert (Htouch : forall s2, _roll_size s2 = _roll_size s -> closed s2 = closed s -> (ticks s <= ticks s2)%nat ->
    (exists j k, (j < ticks s2)%nat /\ (k < ticks s2)%nat /\ _last_roll s2 = clock j /\ _last_flush s2 = clock k) ->
    (0 <= _count s2 < Z.max 1 (_check_every_N_times s2) /\ _check_every_N_times s2 <= int32_max) ->
    touched log f f1 s s2).
  { intros s2 E1 E2 E3 Ht2 Hc2. constructor; try done.
    - by rewrite Ew, Ec, Hw, length_app, Nat2Z.inj_add.
    - intros Hst. apply (strict_le _ _ E3) in Hst. split; [| by apply Hcl].
      exists (FileAppender.contents f), log. auto. }
  unfold FileAppender.written_bytes. change (_roll_size s1) with (_roll_size s).
  destruct (Z.ltb_spec (_roll_size s) (FileAppender._written_bytes f1)) as [Hbig|Hsmall];
    [by apply (roll_after log f f1); [apply Htouch |] |].
  assert (Hfits : zlen (FileAppender.contents f1) <= _roll_size s).
  { rewrite Ec, length_app. lia. }
  rewrite i32_checked_Ret by (cbn; unfold int32_max in HN; lia). cbn [mbind res_bind mret res_ret]. cbn zeta.
  cbn [_check_every_N_times set_count s1 set_file _count].
  destruct (Z.leb_spec (_check_every_N_times s) (_count s + 1)) as [Hn|Hn].
  2: { eexists. split; [reflexivity |]. apply (keep_after log f f1); [| by left | done].
       apply Htouch; try done. cbn. lia. }
  pose proof (Hclock (ticks s)) as Hnow.
  destruct (period_ok (clock (ticks s))) as (start & Estart & _); [lia |].
  change (ticks (set_count (set_count s1 (_count s + 1)) 0)) with (ticks s). rewrite Estart.
  cbn [mbind res_bind mret res_ret]. set (s4 := tick _). destruct Ht as (j & k & Hj & Hk & Ej & Ek).
  assert (Ht4 : touched log f f1 s s4).
  { apply Htouch; try done; [cbn; lia | | cbn; lia]. exists j, k. cbn. split_and!; done || lia. }
  destruct (Timestamp.ne start (_start_of_period s4)); [by apply (roll_after log f f1) |].
  change (_last_flush s4) with (_last_flush s). rewrite Ek.
  pose proof (Hclock k). pose proof (clock_le k (ticks s)). unfold Timestamp.diff.
  rewrite i64_checked_Ret by (unfold Timestamp.representable, int64_max in *; lia).
  cbn [mbind res_bind mret res_ret]. destruct (Timestamp.gt _ _).
  - unfold flush. cbn [_file set_last_flush s4 tick set_count s1 set_file].
    eexists. split; [reflexivity |]. apply (keep_after log f f1); [| by right | done].
    apply Htouch; try done; [cbn; lia | | cbn; lia]. exists j, (ticks s). cbn. split_and!; done || lia.
  - eexists. split; [reflexivity |]. by apply (keep_after log f f1); [| left |].
Qed.

Lemma grown_content log s s' : grown log s s' -> content s' = content s ++ log.
Proof.
  intros (_ & earlier & current & E & E'). unfold content. rewrite E.
  destruct E' as [-> | ->]; rewrite !concat_app; cbn; by rewrite ?app_nil_r, ?app_assoc.
Qed.

Lemma flush_ok s : inv s -> exists s', flush s = Ret s' /\ inv s' /\ content s' = content s /\
  map FileAppender.contents (files s') = map FileAppender.contents (files s).
Proof.
  intros [(f & Hf & Hw & Hle) ? ? ? ?]. unfold flush. rewrite Hf. eexists. split; [reflexivity |]. split.
  - constructor; try done. eexists. split; [reflexivity | done].
  - unfold content. by rewrite (files_current s f Hf), (files_current (set_file s _) _ eq_refl).
Qed.

Lemma make_ok base roll_size interval N :
  0 <= roll_size -> 0 <= interval <= 2147483647 -> N <= int32_max ->
  exists s, make clock to_log_string pid base roll_size interval N = Ret s /\ inv s /\
    map FileAppender.contents (files s) = [[]] /\ _roll_size s = roll_size.
Proof.
  intros Hr Hi HN. unfold make, Timestamp.of_duration.
  rewrite i64_checked_Ret by (unfold Timestamp.representable, Timestamp.Seconds, int64_max; lia).
  cbn [mbind res_bind mret res_ret]. unfold roll_file. pose proof (Hclock 0) as Hnow. cbn [ticks tick].
  destruct (period_ok (clock 0)) as (start & -> & _); [lia |]. cbn [mbind res_bind mret res_ret].
  unfold Timestamp.gt. cbn [_last_roll tick]. rewrite (proj2 (Z.ltb_lt 0 (clock 0))) by lia.
  cbn [mbind res_bind mret res_ret].
  eexists. split; [reflexivity |]. split_and!; try done.
  constructor; cbn [_file _roll_size closed ticks _last_roll _last_flush _count _check_every_N_times
    _flush_interval _basename FileAppender.make app from_option]; try done.
  - eexists. split; [reflexivity | done].
  - exists 0%nat, 0%nat. split_and!; done || lia.
  - cbn. lia.
Qed.

Lemma append_all_ok logs s :
  inv s -> zlen (content s) + zlen (concat logs) <= 4611686018427387904 ->
  exists s', append_all clock to_log_string pid logs s = Ret s' /\ inv s' /\
    forall lines, hold lines (map FileAppender.contents (files s)) ->
      hold (lines ++ logs) (map FileAppender.contents (files s')).
Proof.
  revert s. induction logs as [|log logs IH]; intros s Hi Hall.
  { exists s. split_and!; try done. intros lines E. by rewrite app_nil_r. }
  cbn [concat] in Hall. rewrite length_app in Hall.
  destruct (append_ok log s Hi) as (s1 & E1 & Hg1); [lia |].
  pose proof (grown_content _ _ _ Hg1) as Econt. destruct Hg1 as [Hi1 Ha].
  destruct (IH s1 Hi1) as (s2 & E2 & Hi2 & Hg); [rewrite Econt, length_app; lia |].
  exists s2. cbn [append_all]. rewrite E1. cbn [mbind res_bind].
  split_and!; [done | done |]. intros lines Hl. change (log :: logs) with ([log] ++ logs). rewrite app_assoc.
  apply Hg. apply (appended_holds _ [log] _ _ Hl). cbn. by rewrite app_nil_r.
Qed.

(** A log file is a sink. *)
#[local] Instance log_file_sink : LogSink t := {|
  sink_append := append clock to_log_string pid;
  sink_flush := flush
|}.
Definition log_file_laws : LogSinkLaws t.
Proof.
  refine {| sink_ok := inv; sink_content := content |}.
  - intros d s Hs Hd. destruct (append_ok d s Hs Hd) as (s' & E & Hg). exists s'.
    split_and!; [done | apply Hg | by apply grown_content].
  - intros s Hs. destruct (flush_ok s Hs) as (s' & E & Hi & Ec & _). by exists s'.
Defined.
#[local] Existing Instance log_file_laws.
Definition log_file_rolls : RollingSink t.
Proof.
  refine {| sink_files s := map FileAppender.contents (files s) |}.
  - intros d s s' Hs Hd E. destruct (append_ok d s Hs Hd) as (s1 & E1 & Hg).
    assert (s1 = s') as -> by (cbn in E; congruence). apply Hg.
  - intros s s' Hs E. destruct (flush_ok s Hs) as (s1 & E1 & _ & _ & Ef). cbn in E. congruence.
Defined.
End files.
End LogFileSpec.

(** ** The properties *)

Module LogFileProps.
Import LogFile LogFileSpec.

(** C37: a log file loses nothing. As long as the disk takes what it is given, each
    message is written whole into one file, the files in turn hold the messages in
    order, and, when the clock moves between two readings, no file is larger than
    the roll size, the last message of a file that was closed apart. *)
Theorem log_file_in_order `{StdioLaws} clock to_log_string pid base roll_size interval N logs
    (Hclock : forall i, 0 < clock i <= clock (S i) /\ clock i <= int64_max)
    (Hwrite : forall name i d, (k_fwrite name i d).1 = zlen d)
    (Hroll : 0 <= roll_size) (Hinterval : 0 <= interval <= 2147483647) (HN : N <= int32_max)
    (Hlogs : zlen (concat logs) <= 4611686018427387904) :
  exists s groups,
    (s ← make clock to_log_string pid base roll_size interval N;
     append_all clock to_log_string pid logs s) = Ret s /\
    map FileAppender.contents (files s) = map (@concat byte) groups /\ concat groups = logs /\
    (strict clock (ticks s) -> Forall (kept (_roll_size s)) (closed s) /\
       exists f, _file s = Some f /\ zlen (FileAppender.contents f) <= _roll_size s).
Proof.
  destruct (make_ok clock to_log_string pid Hclock base roll_size interval N) as (s0 & -> & Hi0 & Ef0 & _);
    [done.. |]. cbn [mbind res_bind].
  destruct (append_all_ok clock to_log_string pid Hclock Hwrite logs s0 Hi0) as (s & -> & Hi & Hg).
  { unfold content. rewrite Ef0. exact Hlogs. }
  destruct (Hg []) as (groups & Eg & Ec); [rewrite Ef0; by exists [[]] |]. exists s, groups.
  split_and!; try done. intros Hst. destruct Hi as [(f & Hf & _ & Hle) Hcl _ _ _].
  split; [by apply Hcl |]. exists f. auto.
Qed.

(** A write that fails. When the stream takes a part of a message and reports
    an error, [append] gives up: the part is in the file, the rest is lost, and
    [written_bytes] counts neither. *)
Theorem file_append_fails `{StdioLaws} log f
    (Hw : 0 <= FileAppender._written_bytes f)
    (Hlog : FileAppender._written_bytes f + zlen log <= 4611686018427387904)
    (Hshort : (k_fwrite (FileAppender.filename f) (FileAppender.calls f) log).1 < zlen log) :
  exists f' d, FileAppender.append log f = Ret f' /\
    FileAppender.contents f' = FileAppender.contents f ++ d /\ d `prefix_of` log /\
    FileAppender._written_bytes f' = FileAppender._written_bytes f /\
    FileAppender.failures f' = S (FileAppender.failures f).
Proof.
  destruct (append_cases log f Hw Hlog) as (f' & E & _ & _ & Hs).
  destruct (Hs Hshort) as (Ew & Ef & d & Ed & Hp). by exists f', d.
Qed.

(** *** Witnesses *)

Definition good_disk : Stdio := {| k_fwrite _ _ d := (zlen d, 0) |}.
Lemma good_disk_laws : @StdioLaws good_disk.
Proof. split; cbn; intros; lia. Qed.
Definition full_disk : Stdio := {| k_fwrite _ _ d := (Z.min 2 (zlen d), 28) |}.
Lemma full_disk_laws : @StdioLaws full_disk.
Proof. split; cbn; intros; lia. Qed.

(** A reading a second, until the end of time. *)
Definition seconds_clock (i : nat) : Timestamp.t := Z.min ((1 + Z.of_nat i) * 1000000000) int64_max.
Lemma seconds_clock_ok i :
  0 < seconds_clock i <= seconds_clock (S i) /\ seconds_clock i <= int64_max.
Proof. unfold seconds_clock, int64_max. lia. Qed.
Definition stamp (now : Timestamp.t) : list byte := decimal (Timestamp.get_seconds_in_int64 now).
Definition three_logs : list (list byte) := [bytes "one"; bytes "two"; bytes "three"].

Lemma log_file_in_order_witness :
  exists s groups,
    (s ← @make seconds_clock stamp 42 (bytes "log") 5 3 1024;
     @append_all good_disk seconds_clock stamp 42 three_logs s) = Ret s /\
    map FileAppender.contents (files s) = map (@concat byte) groups /\ concat groups = three_logs /\
    (strict seconds_clock (ticks s) -> Forall (kept (_roll_size s)) (closed s) /\
       exists f, _file s = Some f /\ zlen (FileAppender.contents f) <= _roll_size s).
Proof.
  apply (@log_file_in_order good_disk good_disk_laws seconds_clock stamp 42 (bytes "log") 5 3 1024 three_logs);
    [exact seconds_clock_ok | done | by vm_compute | by vm_compute | by vm_compute | by vm_compute].
Defined.

Lemma file_append_fails_witness :
  exists f' d, @FileAppender.append full_disk (bytes "one") (FileAppender.make (bytes "log")) = Ret f' /\
    FileAppender.contents f' = [] ++ d /\ d `prefix_of` bytes "one" /\
    FileAppender._written_bytes f' = 0 /\ FileAppender.failures f' = 1%nat.
Proof.
  apply (@file_append_fails full_disk full_disk_laws (bytes "one") (FileAppender.make (bytes "log"))); by vm_compute.
Defined.
End LogFileProps.
