(* ===== verification/AsyncLoggers.v ===== *)
(** Asynchronous logging (suduo/base/AsyncLogger.h/.cpp): threads fill buffers
    under a mutex, one thread writes them to a log file.

    A critical section is one step; the log file is any sink of LogFiles.v. *)

From stdpp Require Import relations.
From S2P Require Import Prelude.
From S2P Require Import LogStreams.
From S2P Require Import LogFiles.

Module AsyncLogger.
Section logger.
Context {Sink : Type} `{LogSink Sink}.

Definition new_buffer : StreamBuffer.t := StreamBuffer.make LogStream.MAX_BUFFER_SIZE.

(** Where [thread_func] is: not started, at [while (_running)], before the mutex, in
    [time_wait], behind the critical section, or at its end. *)
Inductive point := NotStarted | Testing | Locking | Waiting | Writing | Returned.
#[global] Instance point_eq_dec : EqDecision point.
Proof. solve_decision. Defined.

Record t := mk {
  _running : bool;
  (** [std::unique_ptr]s, [None] for null *)
  _current_buffer : option StreamBuffer.t;
  _next_buffer : option StreamBuffer.t;
  _buffer_poll : list StreamBuffer.t;
  (** the locals of [thread_func] *)
  at_ : point;
  new_buffer_1 : option StreamBuffer.t;
  new_buffer_2 : option StreamBuffer.t;
  buffer_to_write : list StreamBuffer.t;
  log_file : Sink;
  (** history: the bytes [append] stored, those given to the log file, and the
      batches of which a part was dropped *)
  accepted : list byte;
  spent : Z;
  dropped : nat
}.

(** The constructor. The locals of [thread_func] are as they are when it comes to its
    loop, which nothing can tell from their being made then. *)
Definition make (file : Sink) : t :=
  mk false (Some new_buffer) (Some new_buffer) [] NotStarted (Some new_buffer) (Some new_buffer) [] file [] 0 0.

Definition set_front (s : t) (current next : option StreamBuffer.t) (poll : list StreamBuffer.t)
    (stored : list byte) : t :=
  mk (_running s) current next poll (at_ s) (new_buffer_1 s) (new_buffer_2 s) (buffer_to_write s)
    (log_file s) (accepted s ++ stored) (spent s) (dropped s).
Definition goto (s : t) (p : point) : t :=
  mk (_running s) (_current_buffer s) (_next_buffer s) (_buffer_poll s) p (new_buffer_1 s) (new_buffer_2 s)
    (buffer_to_write s) (log_file s) (accepted s) (spent s) (dropped s).
(** [start()]: the thread runs, perhaps not yet in its loop. *)
Definition start (s : t) : t :=
  mk true (_current_buffer s) (_next_buffer s) (_buffer_poll s) Testing (new_buffer_1 s) (new_buffer_2 s)
    (buffer_to_write s) (log_file s) (accepted s) (spent s) (dropped s).
(** [stop()] up to [_thread.join()], which then waits for [Returned]. *)
Definition stop (s : t) : t :=
  mk false (_current_buffer s) (_next_buffer s) (_buffer_poll s) (at_ s) (new_buffer_1 s) (new_buffer_2 s)
    (buffer_to_write s) (log_file s) (accepted s) (spent s) (dropped s).

(** [~AsyncLogger()]. *)
Definition destroy (s : t) : t := if _running s then stop s else s.

(** What [StreamBuffer::append] stores of [log]. *)
Definition stored (log : list byte) (b : StreamBuffer.t) : list byte :=
  if zlen log <? StreamBuffer.availability b then log else [].

Definition append (log : list byte) (s : t) : res t :=
  match _current_buffer s with
  | None => Stop UndefinedBehaviour
  | Some b =>
      if zlen log <? StreamBuffer.availability b
      then mret (set_front s (Some (StreamBuffer.append log b)) (_next_buffer s) (_buffer_poll s) (stored log b))
      else
        let fresh := default new_buffer (_next_buffer s) in
        mret (set_front s (Some (StreamBuffer.append log fresh)) None (_buffer_poll s ++ [b]) (stored log fresh))
  end.

(** The critical section of [thread_func], from the end of the wait on. *)
Definition collect (s : t) : res t :=
  match _current_buffer s with
  | None => Stop UndefinedBehaviour
  | Some b =>
      let '(next, new2) := match _next_buffer s with
                           | Some n => (Some n, new_buffer_2 s)
                           | None => (new_buffer_2 s, None)
                           end in
      mret (mk (_running s) (new_buffer_1 s) next (buffer_to_write s) Writing None new2
              (_buffer_poll s ++ [b]) (log_file s) (accepted s) (spent s) (dropped s))
  end.
(** Before it: the wait, when there is nothing to write. *)
Definition lock (s : t) : res t :=
  match _buffer_poll s with
  | [] => mret (goto s Waiting)
  | _ => collect s
  end.

(** The message about a dropped batch; [at_time] is [Timestamp::now().to_string()]. *)
Definition drop_message (at_time : list byte) (buffers : Z) : list byte :=
  snprintf 256 (bytes "Dropped log messages at " ++ at_time ++ bytes ", " ++ decimal (buffers - 2) ++
                bytes " larger buffers" ++ [x0a]).

Fixpoint write_all (logs : list (list byte)) (file : Sink) : res Sink :=
  match logs with
  | [] => mret file
  | log :: logs' => file ← sink_append log file; write_all logs' file
  end.

(** [back()], [pop_back()] and [reset()]. *)
Definition take_back (l : list StreamBuffer.t) : res (StreamBuffer.t * list StreamBuffer.t) :=
  match last l with
  | Some b => mret (StreamBuffer.reset b, removelast l)
  | None => Stop UndefinedBehaviour
  end.
Definition refill (b : option StreamBuffer.t) (l : list StreamBuffer.t)
    : res (option StreamBuffer.t * list StreamBuffer.t) :=
  match b with
  | Some b => mret (Some b, l)
  | None => '(b, l) ← take_back l; mret (Some b, l)
  end.

(** What a round gives to the log file. *)
Definition batch (at_time : list byte) (s : t) : list (list byte) :=
  let l := buffer_to_write s in
  if 25 <? zlen l
  then drop_message at_time (zlen l) :: map StreamBuffer.to_string (take 2 l)
  else map StreamBuffer.to_string l.

(** The rest of a round, behind the critical section. *)
Definition write (at_time : list byte) (s : t) : res t :=
  let logs := batch at_time s in
  file ← write_all logs (log_file s);
  let l := take 2 (buffer_to_write s) in
  '(new1, l) ← refill (new_buffer_1 s) l;
  '(new2, l) ← refill (new_buffer_2 s) l;
  file ← sink_flush file;
  mret (mk (_running s) (_current_buffer s) (_next_buffer s) (_buffer_poll s) Testing new1 new2 []
          file (accepted s) (spent s + zlen (concat logs))
          (if 25 <? zlen (buffer_to_write s) then S (dropped s) else dropped s)).

(** A step of [thread_func]. *)
Inductive thread_step : t -> t -> Prop :=
  | step_test s : at_ s = Testing -> _running s = true -> thread_step s (goto s Locking)
  | step_leave s file :
      at_ s = Testing -> _running s = false -> sink_flush (log_file s) = Ret file ->
      thread_step s
        (mk (_running s) (_current_buffer s) (_next_buffer s) (_buffer_poll s) Returned (new_buffer_1 s)
           (new_buffer_2 s) (buffer_to_write s) file (accepted s) (spent s) (dropped s))
  | step_lock s s' : at_ s = Locking -> lock s = Ret s' -> thread_step s s'
  | step_wake s s' : at_ s = Waiting -> collect s = Ret s' -> thread_step s s'
  | step_write s s' at_time : at_ s = Writing -> write at_time s = Ret s' -> thread_step s s'.

(** What the other threads do: [start()] once, before any [stop()]. *)
Inductive step : t -> t -> Prop :=
  | step_append s s' log : append log s = Ret s' -> step s s'
  | step_start s : at_ s = NotStarted -> step s (start s)
  | step_stop s : at_ s <> NotStarted -> step s (stop s)
  | step_thread s s' : thread_step s s' -> step s s'.

Definition reached (file : Sink) : t -> Prop := reachable (fun s => s = make file) step.
End logger.
Arguments t Sink : clear implicits.
End AsyncLogger.

(** ** Invariants *)

Module AsyncLoggerSpec.
Import AsyncLogger.
Section logger.
Context {Sink : Type} `{LogSinkLaws Sink}.
Implicit Types s : t Sink.

Definition buffer_ok (b : StreamBuffer.t) : Prop :=
  StreamBuffer.wf b /\ StreamBuffer.SIZE b = LogStream.MAX_BUFFER_SIZE.
Definition fresh (b : StreamBuffer.t) : Prop := buffer_ok b /\ StreamBuffer.written b = [].
Definition text_of (l : list StreamBuffer.t) : list byte := concat (map StreamBuffer.written l).

(** The most a log file can take. *)
Definition capacity : Z := 4611686018427387904.

Record inv (s : t Sink) : Prop := mk_inv {
  i_current : exists b, _current_buffer s = Some b /\ buffer_ok b;
  i_next : match _next_buffer s with Some b => fresh b | None => _buffer_poll s <> [] end;
  i_poll : Forall buffer_ok (_buffer_poll s ++ buffer_to_write s);
  i_local :
    if decide (at_ s = Writing)
    then new_buffer_1 s = None /\ buffer_to_write s <> [] /\
         match new_buffer_2 s with Some b => fresh b | None => (2 <= length (buffer_to_write s))%nat end
    else buffer_to_write s = [] /\ (exists b, new_buffer_1 s = Some b /\ fresh b) /\
         (exists b, new_buffer_2 s = Some b /\ fresh b);
  i_sink : sink_ok (log_file s) /\ zlen (sink_content (log_file s)) = spent s;
  i_log : dropped s = 0%nat ->
    accepted s = sink_content (log_file s) ++ text_of (buffer_to_write s) ++ text_of (_buffer_poll s) ++
                 from_option StreamBuffer.written [] (_current_buffer s)
}.

Lemma new_buffer_fresh : fresh new_buffer.
Proof. unfold fresh, buffer_ok, StreamBuffer.wf. cbn. split_and!; done || lia. Qed.

Lemma text_of_app l k : text_of (l ++ k) = text_of l ++ text_of k.
Proof. unfold text_of. by rewrite map_app, concat_app. Qed.
Lemma text_of_one b : text_of [b] = StreamBuffer.written b.
Proof. unfold text_of. cbn. by rewrite app_nil_r. Qed.

Lemma append_buffer_ok log b :
  buffer_ok b -> buffer_ok (StreamBuffer.append log b) /\
  StreamBuffer.written (StreamBuffer.append log b) = StreamBuffer.written b ++ stored log b.
Proof.
  intros [Hw Hs]. unfold StreamBuffer.append, stored.
  destruct (Z.ltb_spec (zlen log) (StreamBuffer.availability b)) as [Hlt|Hge]; [| by rewrite app_nil_r].
  split; [| done]. split; [| done]. destruct Hw. unfold StreamBuffer.wf, StreamBuffer.availability in *. cbn.
  rewrite u64_small in Hlt by lia. rewrite length_app. lia.
Qed.

Lemma reset_fresh b : buffer_ok b -> fresh (StreamBuffer.reset b).
Proof. intros [[] Hs]. unfold fresh, buffer_ok, StreamBuffer.wf. cbn. split_and!; try done; lia. Qed.

Lemma logger_make_inv file : sink_ok file -> sink_content file = [] -> inv (make file).
Proof.
  intros Hf Hc. constructor; cbn -[text_of]; try done.
  - exists new_buffer. split; [done | apply new_buffer_fresh].
  - rewrite decide_False by done. split_and!; [done | |]; exists new_buffer; (split; [done | apply new_buffer_fresh]).
  - by rewrite Hc.
  - by rewrite Hc.
Qed.

Lemma logger_append_ok log s : inv s -> exists s', append log s = Ret s' /\ inv s' /\
  at_ s' = at_ s /\ spent s' = spent s.
Proof.
  intros [(b & Eb & Hb) Hn Hp Hl Hs Hlog]. unfold append. rewrite Eb.
  destruct (zlen log <? StreamBuffer.availability b).
  - destruct (append_buffer_ok log b Hb) as [Hb' Ew]. eexists. split; [reflexivity |]. split_and!; try done.
    constructor; cbn -[text_of]; try done; [by eexists |]. intros Hd. specialize (Hlog Hd). rewrite Eb in Hlog. cbn in Hlog.
    by rewrite Ew, Hlog, <- !app_assoc.
  - set (new := default new_buffer (_next_buffer s)).
    assert (Hnew : fresh new).
    { unfold new. destruct (_next_buffer s); [done | apply new_buffer_fresh]. }
    destruct Hnew as [Hnew Enew]. destruct (append_buffer_ok log new Hnew) as [Hb' Ew].
    eexists. split; [reflexivity |]. split_and!; try done. constructor; cbn -[text_of]; try done.
    + by eexists.
    + by destruct (_buffer_poll s).
    + rewrite !Forall_app in *. split_and!; try apply Hp. by apply Forall_singleton.
    + intros Hd. specialize (Hlog Hd). rewrite Eb in Hlog. cbn in Hlog.
      by rewrite text_of_app, text_of_one, Ew, Enew, Hlog, <- !app_assoc.
Qed.

Lemma append_keeps log s s' : append log s = Ret s' ->
  at_ s' = at_ s /\ log_file s' = log_file s /\ dropped s' = dropped s /\ _running s' = _running s.
Proof.
  unfold append. destruct (_current_buffer s); [| done]. by destruct (_ <? _); intros E; injection E as <-.
Qed.

Lemma collect_ok s : inv s -> at_ s <> Writing -> exists s', collect s = Ret s' /\ inv s' /\
  at_ s' = Writing /\ spent s' = spent s /\ accepted s' = accepted s /\ dropped s' = dropped s /\
  length (buffer_to_write s') = S (length (_buffer_poll s)) /\ _buffer_poll s' = [] /\
  from_option StreamBuffer.written [] (_current_buffer s') = [] /\ _running s' = _running s.
Proof.
  intros [(b & Eb & Hb) Hn Hp Hl Hs Hlog] Hat. unfold collect. rewrite Eb.
  rewrite decide_False in Hl by done. destruct Hl as (Ew & (b1 & E1 & [H1 W1]) & (b2 & E2 & Hb2)).
  rewrite Ew, app_nil_r in *.
  assert (Hall : Forall buffer_ok (_buffer_poll s ++ [b])).
  { rewrite Forall_app in *. split; [done | by apply Forall_singleton]. }
  destruct (_next_buffer s) as [n|] eqn:En; rewrite ?E1, ?E2; (eexists; split; [reflexivity |]).
  all: cbn [_current_buffer at_ spent accepted dropped buffer_to_write _buffer_poll _running from_option];
    rewrite W1, length_app, Nat.add_comm; split_and!; try done.
  all: constructor; cbn -[text_of]; try done; [by exists b1 | |].
  1, 3: split_and!; [done | by destruct (_buffer_poll s) |]; try done.
  - destruct (_buffer_poll s); [done |]. rewrite length_app. cbn. lia.
  - intros Hd. specialize (Hlog Hd). rewrite Eb in Hlog. cbn in Hlog.
    by rewrite W1, Hlog, text_of_app, text_of_one, app_nil_r.
  - intros Hd. specialize (Hlog Hd). rewrite Eb in Hlog. cbn in Hlog.
    by rewrite W1, Hlog, text_of_app, text_of_one, app_nil_r.
Qed.

Lemma write_all_ok logs file :
  sink_ok file -> zlen (sink_content file) + zlen (concat logs) <= capacity ->
  exists file', write_all logs file = Ret file' /\ sink_ok file' /\
    sink_content file' = sink_content file ++ concat logs.
Proof.
  revert file. induction logs as [|log logs IH]; intros file Hf Hroom.
  { exists file. by rewrite app_nil_r. }
  cbn [concat] in Hroom. rewrite length_app in Hroom.
  destruct (sink_append_ok log file Hf) as (f1 & E1 & Hf1 & Ec1); [unfold capacity in *; lia |].
  destruct (IH f1 Hf1) as (f2 & E2 & Hf2 & Ec2); [rewrite Ec1, length_app; lia |].
  exists f2. cbn [write_all]. rewrite E1. split_and!; [done | done |].
  by rewrite Ec2, Ec1, <- app_assoc.
Qed.

Lemma take_back_ok l : Forall buffer_ok l -> l <> [] ->
  exists b, take_back l = Ret (b, removelast l) /\ fresh b /\ Forall buffer_ok (removelast l) /\
    length l = S (length (removelast l)).
Proof.
  intros Hall Hne. destruct (exists_last Hne) as (l' & b & ->). unfold take_back.
  rewrite last_snoc, removelast_last. exists (StreamBuffer.reset b).
  apply Forall_app in Hall as [Hl Hb]. apply (proj1 (Forall_singleton _ _)) in Hb.
  split; [done |]. split; [by apply reset_fresh |].
  split; [done |]. rewrite length_app. cbn. lia.
Qed.

Lemma refill_ok b l :
  match b with Some b => fresh b | None => l <> [] end -> Forall buffer_ok l ->
  exists b' l', refill b l = Ret (Some b', l') /\ fresh b' /\ Forall buffer_ok l' /\
    (length l <= S (length l'))%nat.
Proof.
  intros Hb Hl. unfold refill. destruct b as [b|].
  - exists b, l. do 3 (split; [done |]). lia.
  - destruct (take_back_ok l Hl Hb) as (b & -> & Hf & Hl' & Hlen). cbn [mbind res_bind].
    exists b, (removelast l). do 3 (split; [done |]). lia.
Qed.

Lemma write_ok at_time s :
  inv s -> at_ s = Writing -> spent s + zlen (concat (batch at_time s)) <= capacity ->
  exists s', write at_time s = Ret s' /\ inv s' /\ at_ s' = Testing /\ accepted s' = accepted s /\
    (zlen (buffer_to_write s) <= 25 -> dropped s' = dropped s) /\
    _buffer_poll s' = _buffer_poll s /\ _current_buffer s' = _current_buffer s.
Proof.
  intros [(b & Eb & Hb) Hn Hp Hl [Hok Hspent] Hlog] Hat Hroom. rewrite decide_True in Hl by done.
  destruct Hl as (E1 & Hne & E2). unfold write.
  destruct (write_all_ok (batch at_time s) (log_file s)) as (f1 & -> & Hf1 & Ec1); [done | lia |].
  cbn [mbind res_bind]. apply Forall_app in Hp as [Hpoll Htw].
  set (l := take 2 (buffer_to_write s)).
  assert (Hl : Forall buffer_ok l) by (by apply Forall_take).
  assert (Hlne : l <> []) by (unfold l; by destruct (buffer_to_write s)).
  destruct (refill_ok (new_buffer_1 s) l) as (b1 & l1 & -> & Hb1 & Hl1 & Hlen1); [by rewrite E1 | done |].
  cbn [mbind res_bind].
  destruct (refill_ok (new_buffer_2 s) l1) as (b2 & l2 & -> & Hb2 & _ & _).
  { destruct (new_buffer_2 s); [done |]. intros ->. unfold l in Hlen1. rewrite length_take in Hlen1.
    change (length []) with 0%nat in Hlen1. lia. }
  { done. }
  cbn [mbind res_bind]. destruct (sink_flush_ok f1 Hf1) as (f2 & -> & Hf2 & Ec2). cbn [mbind res_bind mret res_ret].
  eexists. split; [reflexivity |]. split_and!; try done.
  - constructor; cbn -[text_of]; try done.
    + by eexists.
    + by rewrite app_nil_r.
    + split_and!; [done | by exists b1 | by exists b2].
    + split; [done |]. rewrite Ec2, Ec1, length_app. lia.
    + unfold batch in Ec1. destruct (25 <? zlen (buffer_to_write s)); [done |]. intros Hd.
      rewrite (Hlog Hd), Ec2, Ec1. unfold text_of at 1. by rewrite <- !app_assoc.
  - cbn. intros Hle. by rewrite (proj2 (Z.ltb_ge _ _)) by done.
Qed.

Lemma write_spent at_time s s' : write at_time s = Ret s' -> spent s' = spent s + zlen (concat (batch at_time s)).
Proof.
  unfold write. intros E. apply res_bind_inv in E as (f & _ & E).
  apply res_bind_inv in E as ([b1 l1] & _ & E). apply res_bind_inv in E as ([b2 l2] & _ & E).
  apply res_bind_inv in E as (f2 & _ & E). by injection E as <-.
Qed.

Lemma collect_spent s s' : collect s = Ret s' -> spent s' = spent s.
Proof.
  unfold collect. destruct (_current_buffer s); [| done]. destruct (_next_buffer s); intros E; by injection E as <-.
Qed.

Lemma thread_step_spent s s' : thread_step s s' -> spent s <= spent s'.
Proof.
  destruct 1 as [| |s s' Hat E|s s' Hat E|s s' now Hat E]; try (cbn; lia).
  - unfold lock in E. destruct (_buffer_poll s); [injection E as <-; cbn; lia |]. apply collect_spent in E. lia.
  - apply collect_spent in E. lia.
  - apply write_spent in E. lia.
Qed.
Lemma step_spent s s' : step s s' -> spent s <= spent s'.
Proof.
  destruct 1 as [s s' log E| | |]; try (cbn; lia); [| by apply thread_step_spent].
  unfold append in E. destruct (_current_buffer s); [| done]. destruct (_ <? _); injection E as <-; cbn; lia.
Qed.

(** A batch that was cut off stays so. *)
Lemma collect_dropped s s' : collect s = Ret s' -> dropped s' = dropped s.
Proof.
  unfold collect. destruct (_current_buffer s); [| done]. destruct (_next_buffer s); intros E; by injection E as <-.
Qed.
Lemma thread_step_dropped s s' : thread_step s s' -> (dropped s <= dropped s')%nat.
Proof.
  destruct 1 as [| |s s' Hat E|s s' Hat E|s s' now Hat E]; try done.
  - unfold lock in E. destruct (_buffer_poll s); [by injection E as <- | by rewrite (collect_dropped _ _ E)].
  - by rewrite (collect_dropped _ _ E).
  - unfold write in E. returned. cbn. destruct (25 <? _); lia.
Qed.

Lemma goto_inv s p : inv s -> at_ s <> Writing -> p <> Writing -> inv (goto s p).
Proof.
  intros [] Hat Hp. constructor; try done. cbn. rewrite decide_False in i_local0 by done. by rewrite decide_False.
Qed.

Lemma lock_ok s : inv s -> at_ s = Locking -> exists s', lock s = Ret s' /\ inv s'.
Proof.
  intros Hi Hat. unfold lock. destruct (_buffer_poll s).
  - eexists. split; [reflexivity |]. apply goto_inv; [done | by rewrite Hat | done].
  - destruct (collect_ok s Hi) as (s' & E & Hi' & _); [by rewrite Hat |]. by exists s'.
Qed.

Lemma logger_start_inv s : inv s -> at_ s = NotStarted -> inv (start s).
Proof.
  intros [] Hat. constructor; try done. cbn. rewrite Hat, decide_False in i_local0 by done. by rewrite decide_False.
Qed.

Lemma logging_step_inv s s' : inv s -> thread_step s s' -> spent s' <= capacity -> inv s'.
Proof.
  intros Hi Hstep Hroom. destruct Hstep as [s Hat Hr|s file Hat Hr E|s s' Hat E|s s' Hat E|s s' now Hat E].
  - apply goto_inv; [done | by rewrite Hat | done].
  - destruct Hi as [? ? ? Hl [Hok Hs] Hlog]. destruct (sink_flush_ok _ Hok) as (f & E' & Hf & Ec).
    assert (f = file) as -> by congruence. rewrite Hat in Hl. rewrite decide_False in Hl by done.
    constructor; cbn -[text_of]; try done; [by rewrite Ec | by rewrite Ec].
  - destruct (lock_ok s Hi Hat) as (s1 & E1 & Hi1). congruence.
  - destruct (collect_ok s Hi) as (s1 & E1 & Hi1 & _); [by rewrite Hat |]. congruence.
  - pose proof (write_spent _ _ _ E) as Es. destruct (write_ok now s Hi Hat) as (s1 & E1 & Hi1 & _); [lia |]. congruence.
Qed.

Lemma logger_step_inv s s' : inv s -> step s s' -> spent s' <= capacity -> inv s'.
Proof.
  intros Hi Hstep Hroom. destruct Hstep as [s s' log E|s Hat|s Hat|s s' Hstep].
  - destruct (logger_append_ok log s Hi) as (s1 & E1 & Hi1 & _). congruence.
  - by apply logger_start_inv.
  - by destruct Hi.
  - by apply (logging_step_inv s).
Qed.

Lemma logger_reached_inv file s :
  sink_ok file -> sink_content file = [] -> reached file s -> spent s <= capacity -> inv s.
Proof.
  intros Hf Hc. induction 1 as [s ->|s s' _ IH Hstep]; intros Hroom; [by apply logger_make_inv |].
  eapply logger_step_inv; [apply IH | done | done]. pose proof (step_spent s s' Hstep). lia.
Qed.

(** *** The end of the thread *)

(** The steps that the thread still takes when it is to stop. *)
Definition work s : nat :=
  match at_ s with NotStarted => 5 | Locking => 4 | Waiting => 3 | Writing => 2 | Testing => 1 | Returned => 0 end.
Definition stopped s : Prop := _running s = false /\ at_ s <> NotStarted.

Lemma collect_at s s' : collect s = Ret s' -> _running s' = _running s /\ at_ s' = Writing.
Proof.
  unfold collect. destruct (_current_buffer s); [| done]. by destruct (_next_buffer s); intros E; injection E as <-.
Qed.
Lemma thread_step_stopped s s' : stopped s -> thread_step s s' -> stopped s' /\ (work s' < work s)%nat.
Proof.
  unfold stopped, work. intros [Hr _]. destruct 1 as [s Hat Hr'|s file Hat _ _|s s' Hat E|s s' Hat E|s s' now Hat E]; rewrite Hat.
  - congruence.
  - cbn. split; [done | lia].
  - unfold lock in E. destruct (_buffer_poll s).
    + injection E as <-. cbn. split; [done | lia].
    + apply collect_at in E as [-> ->]. split; [done | lia].
  - apply collect_at in E as [-> ->]. split; [done | lia].
  - unfold write in E. returned. cbn. split; [done | lia].
Qed.
Lemma logger_step_stopped s s' : stopped s -> step s s' -> stopped s' /\ (work s' <= work s)%nat.
Proof.
  intros [Hr Hat]. destruct 1 as [s s' log E|s E|s _|s s' Hstep]; try done.
  - unfold append in E. destruct (_current_buffer s); [| done]. by destruct (_ <? _); injection E as <-.
  - destruct (thread_step_stopped s s' (conj Hr Hat) Hstep). split; [done | lia].
Qed.

Definition has_room s : Prop := forall at_time, spent s + zlen (concat (batch at_time s)) <= capacity.
Lemma thread_step_exists s :
  inv s -> at_ s <> NotStarted -> at_ s <> Returned -> has_room s -> exists s', thread_step s s'.
Proof.
  intros Hi Hns Hnr Hroom. destruct (at_ s) eqn:Hat; try done.
  - destruct (_running s) eqn:Hr; [eexists; by apply step_test |].
    destruct (sink_flush_ok _ (proj1 (i_sink _ Hi))) as (f & E & _). eexists. by apply (step_leave s f).
  - destruct (lock_ok s Hi Hat) as (s' & E & _). exists s'. by apply step_lock.
  - destruct (collect_ok s Hi) as (s' & E & _); [by rewrite Hat |]. exists s'. by apply step_wake.
  - destruct (write_ok [] s Hi Hat (Hroom [])) as (s' & E & _). exists s'. by apply (step_write _ _ []).
Qed.

(** One round of a thread that finds [_running] set. *)
Lemma round_ok (at_time : list byte) s :
  inv s -> at_ s = Testing -> _running s = true -> dropped s = 0%nat -> zlen (accepted s) <= capacity ->
  (length (_buffer_poll s) <= 24)%nat ->
  exists s', rtc thread_step s s' /\ inv s' /\ at_ s' = Testing /\ accepted s' = accepted s /\
    sink_content (log_file s') = accepted s /\
    dropped s' = 0%nat /\ _buffer_poll s' = [] /\ from_option StreamBuffer.written [] (_current_buffer s') = [].
Proof.
  intros Hi Hat Hr Hd Hroom Hlen. set (s1 := goto s Locking).
  assert (Hi1 : inv s1) by (apply goto_inv; [done | by rewrite Hat | done]).
  destruct (collect_ok s1 Hi1) as (s2 & E2 & Hi2 & Hat2 & Hsp2 & Ha2 & Hd2 & Hl2 & Hp2 & Hc2 & _); [done |].
  assert (Hs1 : rtc thread_step s s2).
  { eapply rtc_l; [by apply step_test |]. fold s1. destruct (_buffer_poll s1) eqn:Ep.
    - eapply rtc_l; [apply (step_lock s1 (goto s1 Waiting)); [done | unfold lock; by rewrite Ep] |].
      apply rtc_once. by apply step_wake.
    - apply rtc_once. apply step_lock; [done |]. unfold lock. by rewrite Ep. }
  change (length (_buffer_poll s1)) with (length (_buffer_poll s)) in Hl2.
  change (dropped s1) with (dropped s) in Hd2. change (accepted s1) with (accepted s) in Ha2.
  assert (Hbatch : batch at_time s2 = map StreamBuffer.to_string (buffer_to_write s2)).
  { unfold batch. by rewrite (proj2 (Z.ltb_ge _ _)) by lia. }
  assert (Elog : accepted s = sink_content (log_file s2) ++ text_of (buffer_to_write s2)).
  { rewrite <- Ha2, (i_log _ Hi2), Hp2, Hc2 by congruence. by rewrite !app_nil_r. }
  destruct (write_ok at_time s2 Hi2 Hat2) as (s3 & E3 & Hi3 & Hat3 & Ha3 & Hd3 & Hp3 & Hc3).
  { rewrite Hbatch. rewrite Elog in Hroom. rewrite length_app, Nat2Z.inj_add in Hroom. rewrite <- (proj2 (i_sink _ Hi2)).
    exact Hroom. }
  assert (dropped s3 = 0%nat) as Hd0 by (rewrite Hd3; [congruence | lia]).
  exists s3. split_and!; [| done | done | congruence | | done | congruence | congruence].
  - eapply rtc_r; [exact Hs1 |]. by apply (step_write _ _ at_time).
  - pose proof (i_log _ Hi3) as E. rewrite Hp3, Hc3, Hp2, Hc2 in E.
    pose proof (i_local _ Hi3) as Hloc. rewrite decide_False in Hloc by (by rewrite Hat3).
    destruct Hloc as [Ew _]. rewrite Ew, !app_nil_r in E. rewrite <- E; [congruence | done].
Qed.
End logger.
End AsyncLoggerSpec.

(** ** The properties *)

Module AsyncLoggerProps.
Import AsyncLogger AsyncLoggerSpec.

(** Asynchronous logging keeps the order and never touches a null pointer.
    However the threads that log and the logging thread interleave, the
    next critical section of each returns, and as long as no batch was cut off (more
    than 25 buffers at once) and the log file has room, the bytes accepted are, in
    order, those in the file, those the thread is about to write, those in the full
    buffers and those in the current one. *)
Theorem async_log_in_order {Sink : Type} `{LogSinkLaws Sink} file (s : t Sink)
    (Hfile : sink_ok file) (Hempty : sink_content file = []) (Hs : reached file s)
    (Hroom : spent s <= capacity) :
  (dropped s = 0%nat ->
     accepted s = sink_content (log_file s) ++ text_of (buffer_to_write s) ++ text_of (_buffer_poll s) ++
                  from_option StreamBuffer.written [] (_current_buffer s)) /\
  (forall log, returns (append log s)) /\
  match at_ s with
  | Locking => returns (lock s)
  | Waiting => returns (collect s)
  | Writing => forall at_time, spent s + zlen (concat (batch at_time s)) <= capacity -> returns (write at_time s)
  | _ => returns (sink_flush (log_file s))
  end.
Proof.
  pose proof (logger_reached_inv file s Hfile Hempty Hs Hroom) as Hi. split_and!; [apply Hi | |].
  - intros log. destruct (logger_append_ok log s Hi) as (s' & E & _). by exists s'.
  - destruct (at_ s) eqn:Hat.
    + destruct (sink_flush_ok _ (proj1 (i_sink _ Hi))) as (f & E & _). by exists f.
    + destruct (sink_flush_ok _ (proj1 (i_sink _ Hi))) as (f & E & _). by exists f.
    + destruct (lock_ok s Hi Hat) as (s' & E & _). by exists s'.
    + destruct (collect_ok s Hi) as (s' & E & _); [by rewrite Hat |]. by exists s'.
    + intros now Hr. destruct (write_ok now s Hi Hat Hr) as (s' & E & _). by exists s'.
    + destruct (sink_flush_ok _ (proj1 (i_sink _ Hi))) as (f & E & _). by exists f.
Qed.

(** What was logged is written. When the thread finds the logger running, one
    round of its loop puts everything accepted so far into the file. *)
Theorem async_log_written {Sink : Type} `{LogSinkLaws Sink} file (s : t Sink)
    (Hfile : sink_ok file) (Hempty : sink_content file = []) (Hs : reached file s)
    (Hspent : spent s <= capacity) (Hroom : zlen (accepted s) <= capacity)
    (Hat : at_ s = Testing) (Hr : _running s = true)
    (Hd : dropped s = 0%nat) (Hlen : (length (_buffer_poll s) <= 24)%nat) :
  exists s', rtc thread_step s s' /\ at_ s' = Testing /\ accepted s' = accepted s /\
    sink_content (log_file s') = accepted s.
Proof.
  destruct (round_ok [] s) as (s' & ? & _ & ? & ? & ? & _); try done; [| by exists s'].
  by apply (logger_reached_inv file).
Qed.

(** Messages can be lost at the end. [stop()] may come between a message and
    the thread's next look at [_running]; the thread then leaves without another
    round, and the message never reaches the file. *)
Theorem async_stop_loses {Sink : Type} `{LogSinkLaws Sink} file (log : list byte)
    (Hfile : sink_ok file) (Hempty : sink_content file = []) (Hlog : zlen log < LogStream.MAX_BUFFER_SIZE) :
  exists s : t Sink, reached file s /\ at_ s = Returned /\ dropped s = 0%nat /\
    accepted s = log /\ sink_content (log_file s) = [].
Proof.
  destruct (sink_flush_ok file Hfile) as (f & Ef & _ & Ec). set (s0 := start (make file)).
  assert (Ea : append log s0 = Ret (set_front s0 (Some (StreamBuffer.append log new_buffer)) (Some new_buffer) [] log)).
  { unfold append. cbn [s0 start make _current_buffer _next_buffer _buffer_poll]. unfold stored.
    rewrite (proj2 (Z.ltb_lt _ _)); [done |]. exact Hlog. }
  set (s1 := set_front _ _ _ _ _) in Ea. set (s2 := stop s1).
  eexists. split.
  - eapply reach_step; [eapply reach_step; [eapply reach_step; [eapply reach_step; [by apply reach_init |] |] |] |].
    + by apply step_start.
    + by apply (step_append s0 s1 log).
    + by apply step_stop.
    + by apply step_thread, (step_leave s2 f).
  - cbn. split_and!; try done. by rewrite Ec.
Qed.

(** [stop()] returns. Once it has cleared [_running], whatever other threads still log,
    the thread takes at most four more steps, and as long as the file has room it is
    stuck in none of them; so [join] ends. *)
Theorem async_stop_returns {Sink : Type} `{LogSinkLaws Sink} file (s : t Sink)
    (Hfile : sink_ok file) (Hempty : sink_content file = []) (Hs : reached file s) (Hstop : stopped s)
    (Hspent : spent s <= capacity) (Hroom : has_room s) :
  (work s <= 4)%nat /\
  (forall s', step s s' -> stopped s' /\ (work s' <= work s)%nat) /\
  (forall s', thread_step s s' -> (work s' < work s)%nat) /\
  (at_ s <> Returned -> exists s', thread_step s s').
Proof.
  split_and!.
  - destruct Hstop as [_ Hat]. unfold work. destruct (at_ s); done || lia.
  - intros s'. by apply logger_step_stopped.
  - intros s' Hstep. by apply thread_step_stopped.
  - intros Hnr. apply thread_step_exists; [| apply Hstop | done | done]. by apply (logger_reached_inv file).
Qed.

(** *** Witnesses: logging to a [LogFile] on a disk that never fails *)

#[local] Instance disk_sink : LogSink LogFile.t :=
  @LogFileSpec.log_file_sink LogFileProps.good_disk LogFileProps.seconds_clock LogFileProps.stamp 42.
#[local] Instance disk_laws : LogSinkLaws LogFile.t :=
  @LogFileSpec.log_file_laws LogFileProps.good_disk LogFileProps.good_disk_laws
    LogFileProps.seconds_clock LogFileProps.stamp 42 LogFileProps.seconds_clock_ok (fun _ _ _ => eq_refl).

Definition new_file : res LogFile.t :=
  @LogFile.make LogFileProps.seconds_clock LogFileProps.stamp 42 (bytes "log") 1000 3 1024.
Definition disk_file : LogFile.t :=
  match new_file with Ret f => f | Stop _ => LogFile.mk [] 0 0 0 0 0 0 0 None [] 0 end.

Lemma disk_file_ok : sink_ok disk_file /\ sink_content disk_file = [].
Proof.
  destruct (@LogFileSpec.make_ok LogFileProps.seconds_clock LogFileProps.stamp 42 LogFileProps.seconds_clock_ok
    (bytes "log") 1000 3 1024) as (f & E & Hi & Hc & _); [lia | lia | by vm_compute |].
  unfold disk_file, new_file. rewrite E. split; [exact Hi |].
  change (LogFileSpec.content f = []). unfold LogFileSpec.content. by rewrite Hc.
Qed.

(** One message is in the current buffer. *)
Definition logged : t LogFile.t :=
  match append (bytes "one") (start (make disk_file)) with Ret s => s | Stop _ => make disk_file end.
Lemma logged_reached : reached disk_file logged.
Proof.
  eapply reach_step; [eapply reach_step; [by apply reach_init | by apply step_start] |].
  by apply (step_append _ _ (bytes "one")).
Qed.

Lemma async_log_in_order_witness :
  accepted logged = bytes "one" /\
  accepted logged = sink_content (log_file logged) ++ text_of (buffer_to_write logged) ++
    text_of (_buffer_poll logged) ++ from_option StreamBuffer.written [] (_current_buffer logged).
Proof.
  split; [by vm_compute |].
  refine (proj1 (async_log_in_order disk_file logged (proj1 disk_file_ok) (proj2 disk_file_ok) logged_reached _) _);
    by vm_compute.
Defined.

Lemma async_log_written_witness :
  exists s', rtc thread_step logged s' /\ at_ s' = Testing /\ accepted s' = bytes "one" /\
    sink_content (log_file s') = bytes "one".
Proof.
  apply (async_log_written disk_file logged (proj1 disk_file_ok) (proj2 disk_file_ok) logged_reached);
    first [by vm_compute | by apply Nat.leb_le].
Defined.

(** [stop()] while that message is still in the buffer. *)
Lemma async_stop_returns_witness :
  stopped (stop logged) /\ exists s', thread_step (stop logged) s'.
Proof.
  assert (stopped (stop logged)) as Hstop by (split; by vm_compute). split; [done |].
  refine (proj2 (proj2 (proj2 (async_stop_returns disk_file (stop logged) (proj1 disk_file_ok) (proj2 disk_file_ok) _ Hstop _ _))) _).
  - eapply reach_step; [exact logged_reached | by apply step_stop].
  - by vm_compute.
  - intros at_time. by vm_compute.
  - by vm_compute.
Defined.

Lemma async_stop_loses_witness :
  exists s : t LogFile.t, reached disk_file s /\ at_ s = Returned /\ dropped s = 0%nat /\
    accepted s = bytes "one" /\ sink_content (log_file s) = [].
Proof. apply (async_stop_loses disk_file (bytes "one") (proj1 disk_file_ok) (proj2 disk_file_ok)). by vm_compute. Defined.
End AsyncLoggerProps.
