(* ===== verification/LogPipelines.v ===== *)
(** Logging from end to end, as suduo/base/tests/AsyncLogging_test.cpp sets it up: the
    statements of any threads (LoggerGlobals.v), the asynchronous logger as their output
    function (AsyncLoggers.v), and the files it writes (LogFiles.v). *)

From stdpp Require Import relations.
From S2P Require Import Prelude.
From S2P Require Import Time.
From S2P Require Import LogStreams.
From S2P Require Import LoggerGlobals.
From S2P Require Import LogFiles.
From S2P Require Import AsyncLoggers.

Module LogPipeline.
Import Logger.

Section pipeline.
Context {B : Build} (unspecified : Z -> list byte) (general : Double.t -> list byte) (gmtime_r : Z -> tm).
Context {Sink : Type} `{LogSink Sink}.

(** What the output function changes: [*g_asyncLog]. *)
Definition async : Type := res (AsyncLogger.t Sink).
Definition asyncOutput (msg : list byte) (w : async) : async := s ← w; AsyncLogger.append msg s.

(** The loggers of all threads, and the enabled statements so far. *)
Record t := mk {
  logger : LoggerGlobals.state async;
  said : list LoggerGlobals.statement
}.
(** [log.start()], then [set_output_function]; the flush function stays the one that
    flushes standard output. *)
Definition make (trace_set debug_set : bool) (file : Sink) : t :=
  mk (LoggerGlobals.mk_state
        (LoggerGlobals.set_output_function asyncOutput
           (LoggerGlobals.initial unspecified general gmtime_r (fun _ w => w) (fun w => w) trace_set debug_set))
        ∅ (Ret (AsyncLogger.start (AsyncLogger.make file)))) [].

Definition with_async (s : t) (a : AsyncLogger.t Sink) : t :=
  mk (LoggerGlobals.mk_state (LoggerGlobals.globals (logger s)) (LoggerGlobals.caches (logger s)) (Ret a)) (said s).
Definition says (x : LoggerGlobals.statement) (s : t) : list LoggerGlobals.statement :=
  if enabled (LoggerGlobals.log_level (LoggerGlobals.globals (logger s))) (LoggerGlobals.s_level x) then [x] else [].

Inductive step : t -> t -> Prop :=
  | step_statement s x l :
      LoggerGlobals.step unspecified general (LoggerGlobals.Statement x) (logger s) = Ret (l, false) ->
      step s (mk l (said s ++ says x s))
  | step_level s level l :
      LoggerGlobals.step unspecified general (LoggerGlobals.SetLevel level) (logger s) = Ret (l, false) ->
      step s (mk l (said s))
  | step_stop s a : LoggerGlobals.world (logger s) = Ret a -> step s (with_async s (AsyncLogger.stop a))
  | step_thread s a a' :
      LoggerGlobals.world (logger s) = Ret a -> AsyncLogger.thread_step a a' -> step s (with_async s a').

(** The files together stay below 2^62 bytes. *)
Definition fits (s : t) : Prop :=
  match LoggerGlobals.world (logger s) with Ret a => AsyncLogger.spent a <= AsyncLoggerSpec.capacity | Stop _ => True end.
Definition reached (trace_set debug_set : bool) (file : Sink) : t -> Prop :=
  reachable (fun s => s = make trace_set debug_set file) (fun s s' => step s s' /\ fits s').
End pipeline.
Arguments t Sink : clear implicits.
Arguments async Sink : clear implicits.
End LogPipeline.

(** ** Lines in the buffers of the asynchronous logger *)

Module LogPipelineSpec.
Import LogStream LogStreamSpec Logger LoggerSpec LoggerGlobals LoggerGlobalsSpec AsyncLogger AsyncLoggerSpec LogPipeline.

Section lines.
Context {Sink : Type} `{RollingSink Sink}.
Implicit Types a : AsyncLogger.t Sink.

(** No line is torn: each is in a file, or in a buffer, in order. *)
Definition holds_lines (lines : list (list byte)) a : Prop :=
  exists written waiting full current,
    lines = written ++ concat waiting ++ concat full ++ current /\
    hold written (sink_files (log_file a)) /\
    map StreamBuffer.written (buffer_to_write a) = map (@concat byte) waiting /\
    map StreamBuffer.written (_buffer_poll a) = map (@concat byte) full /\
    from_option StreamBuffer.written [] (_current_buffer a) = concat current.

Lemma concat_one {A} (l : list A) : concat [l] = l.
Proof. apply app_nil_r. Qed.

Lemma append_lines line lines a a' :
  AsyncLoggerSpec.inv a -> zlen line < MAX_BUFFER_SIZE -> append line a = Ret a' ->
  holds_lines lines a -> holds_lines (lines ++ [line]) a'.
Proof.
  intros [(b & Eb & Hb) Hn _ _ _ _] Hline E (written & waiting & full & current & -> & Hw & Hwait & Hfull & Hcur).
  unfold append in E. rewrite Eb in E, Hcur. cbn in Hcur.
  destruct (zlen line <? StreamBuffer.availability b) eqn:Hfit; injection E as <-.
  - exists written, waiting, full, (current ++ [line]). cbn. split_and!; try done; [by rewrite !app_assoc |].
    destruct (append_buffer_ok line b Hb) as [_ ->]. unfold stored. by rewrite Hfit, Hcur, concat_app, concat_one.
  - set (new := default new_buffer (_next_buffer a)).
    assert (fresh new) as [Hnew Enew] by (unfold new; destruct (_next_buffer a); [done | apply new_buffer_fresh]).
    exists written, waiting, (full ++ [current]), [line]. cbn. split_and!; try done.
    + by rewrite concat_app, concat_one, !app_assoc.
    + by rewrite !map_app, Hfull; cbn; rewrite Hcur.
    + destruct (append_buffer_ok line new Hnew) as [_ ->]. rewrite Enew, app_nil_r. unfold stored.
      destruct Hnew as [_ Hsize]. rewrite (proj2 (Z.ltb_lt _ _)); [done |].
      unfold StreamBuffer.availability. by rewrite Enew, Hsize.
Qed.

Lemma collect_lines lines a a' :
  AsyncLoggerSpec.inv a -> at_ a <> Writing -> collect a = Ret a' -> holds_lines lines a -> holds_lines lines a'.
Proof.
  intros [(b & Eb & _) _ _ Hl _ _] Hat E (written & waiting & full & current & -> & Hw & Hwait & Hfull & Hcur).
  rewrite decide_False in Hl by done. destruct Hl as (Ew & (b1 & E1 & [_ Hb1]) & _).
  unfold collect in E. rewrite Eb in E, Hcur. cbn in Hcur. rewrite Ew in *.
  exists written, (full ++ [current]), [], [].
  assert (waiting = []) as -> by by destruct waiting.
  destruct (_next_buffer a); injection E as <-; cbn; rewrite E1; cbn;
    (split_and!; [by rewrite concat_app, concat_one, !app_nil_r | done | by rewrite !map_app, Hfull; cbn; rewrite Hcur | done | done]).
Qed.

Lemma write_all_lines lines chunks file file' :
  sink_ok file -> zlen (sink_content file) + zlen (concat (map (@concat byte) chunks)) <= capacity ->
  write_all (map (@concat byte) chunks) file = Ret file' -> hold lines (sink_files file) ->
  sink_ok file' /\ hold (lines ++ concat chunks) (sink_files file').
Proof.
  revert lines file. induction chunks as [|chunk chunks IH]; intros lines file Hok Hroom E Hl; cbn [map write_all concat] in *.
  - injection E as <-. by rewrite app_nil_r.
  - rewrite length_app in Hroom.
    destruct (sink_append_ok (concat chunk) file Hok) as (f1 & E1 & Hok1 & Ec1); [unfold capacity in *; lia |].
    rewrite E1 in E. cbn [mbind res_bind] in E. rewrite app_assoc. apply (IH _ f1); [done | rewrite Ec1, length_app; lia | done |].
    apply (appended_holds _ _ _ _ Hl). apply (sink_append_files _ _ _ Hok); [unfold capacity in *; lia | done].
Qed.

Lemma write_lines at_time lines a a' :
  AsyncLoggerSpec.inv a -> write at_time a = Ret a' -> spent a' <= capacity -> dropped a' = 0%nat ->
  holds_lines lines a -> holds_lines lines a'.
Proof.
  intros Hi E Hroom Hd (written & waiting & full & current & -> & Hw & Hwait & Hfull & Hcur).
  pose proof (write_spent _ _ _ E) as Es. destruct (i_sink _ Hi) as [Hok Hspent].
  unfold write in E. apply res_bind_inv in E as (f1 & E1 & E).
  apply res_bind_inv in E as ([b1 l1] & _ & E). apply res_bind_inv in E as ([b2 l2] & _ & E).
  apply res_bind_inv in E as (f2 & E2 & E). injection E as <-. cbn in Hd, Es, Hroom.
  unfold batch in E1, Es, Hroom. destruct (25 <? zlen (buffer_to_write a)); [done |].
  change StreamBuffer.to_string with StreamBuffer.written in *. rewrite Hwait in *.
  destruct (write_all_lines written waiting _ _ Hok ltac:(lia) E1 Hw) as [Hok1 Hw1].
  exists (written ++ concat waiting), [], full, current. cbn. split_and!; try done.
  - by rewrite <- app_assoc.
  - by rewrite (sink_flush_files _ _ Hok1 E2).
Qed.

(** A step of the thread moves lines, and drops none unless it drops a batch. *)
Lemma thread_step_lines lines a a' :
  AsyncLoggerSpec.inv a -> thread_step a a' -> spent a' <= capacity -> dropped a' = 0%nat ->
  holds_lines lines a -> holds_lines lines a'.
Proof.
  intros Hi Hstep Hroom Hd. destruct Hstep as [a Hat Hr|a file Hat Hr E|a a' Hat E|a a' Hat E|a a' now Hat E].
  - done.
  - intros (written & waiting & full & current & -> & Hw & Hrest).
    exists written, waiting, full, current. split; [done |]. split; [| done]. cbn.
    by rewrite (sink_flush_files _ _ (proj1 (i_sink _ Hi)) E).
  - unfold lock in E. destruct (_buffer_poll a) eqn:Ep; [by injection E as <- |].
    apply collect_lines; [done | by rewrite Hat | done].
  - apply collect_lines; [done | by rewrite Hat | done].
  - by apply (write_lines now).
Qed.
End lines.

Section pipeline.
Context {B : Build} (unspecified : Z -> list byte) (general : Double.t -> list byte) (gmtime_r : Z -> tm).
Context (Hunspecified : forall n, 0 <= n -> zlen (unspecified n) = n).
Context (Hgmtime : forall s, 0 <= s <= 9223372036 -> fields_ok (gmtime_r s)).
Context {Sink : Type} `{RollingSink Sink}.
#[local] Abbreviation step := (LogPipeline.step unspecified general).
#[local] Abbreviation statement_ok x := (op_ok (W := async Sink) general gmtime_r (Statement x)).
Implicit Types s : LogPipeline.t Sink.

Definition lines_of s : list (list byte) := map (line_of general gmtime_r) (said s).

Record sound s : Prop := mk_sound {
  p_usual : usual unspecified general gmtime_r (logger s);
  p_output : global_output (globals (logger s)) = asyncOutput;
  p_flush : global_flush (globals (logger s)) = (fun w => w);
  p_async : exists a, world (logger s) = Ret a /\ AsyncLoggerSpec.inv a /\ at_ a <> NotStarted /\
    (dropped a = 0%nat -> holds_lines (lines_of s) a)
}.

Lemma line_of_ne x : line_of general gmtime_r x <> [].
Proof.
  unfold line_of, line_text. rewrite !app_assoc. intros E. by apply app_eq_nil in E as [_ E].
Qed.
Lemma lines_of_nil s k : k `suffix_of` lines_of s -> concat k = [] -> k = [].
Proof.
  intros Hk Hc. destruct k as [|line k]; [done |]. exfalso.
  assert (line ∈ lines_of s) as Hin by (destruct Hk as [k' ->]; set_solver).
  apply list_elem_of_fmap in Hin as (x & -> & _). cbn in Hc. apply app_eq_nil in Hc as [Hc _].
  by apply line_of_ne in Hc.
Qed.

(** A statement: an enabled line goes into the buffers, and a FATAL one ends the program. *)
Lemma statement_sound s x :
  sound s -> (enabled (log_level (globals (logger s))) (s_level x) = true -> statement_ok x) ->
  exists l aborts, LoggerGlobals.step unspecified general (Statement x) (logger s) = Ret (l, aborts) /\
    sound (LogPipeline.mk l (said s ++ says x s)) /\
    (aborts = true <-> s_level x = FATAL) /\
    (forall a, world (logger s) = Ret a -> exists a', world l = Ret a' /\ log_file a' = log_file a /\ spent a' = spent a).
Proof.
  intros [Hu Ho Hf (a & Ea & Hi & Hat & Hl)] Hx.
  destruct (LoggerGlobalsSpec.statement_ok unspecified general gmtime_r Hunspecified Hgmtime x (logger s) Hu Hx)
    as (l & aborts & E & Hu' & Eg & Ew).
  exists l, aborts. split; [done |]. unfold says. rewrite Ho, Hf, Ea in Ew.
  destruct (enabled _ (s_level x)) eqn:He.
  - assert (zlen (line_of general gmtime_r x) < MAX_BUFFER_SIZE) as Hfit.
    { destruct (Hx eq_refl) as (_ & _ & _ & Hfit). unfold MAX_BUFFER_SIZE. lia. }
    destruct (logger_append_ok (line_of general gmtime_r x) a Hi) as (a' & Ea' & Hi' & Hat' & Hsp').
    destruct (append_keeps _ _ _ Ea') as (_ & Hlf & Hd & _).
    assert (world l = Ret a' /\ (aborts = true <-> s_level x = FATAL)) as [El Hab].
    { cbn in Ew. rewrite Ea' in Ew. by destruct (decide (s_level x = FATAL)); injection Ew as -> ->. }
    split; [| split; [done |]].
    + constructor; cbn [logger said]; rewrite ?Eg; try done. exists a'. split_and!; try done; [congruence |].
      intros Hd'. unfold lines_of. cbn [said]. rewrite map_app. apply (append_lines _ _ a); [done | done | done |].
      apply Hl. congruence.
    + intros a0 [= <-]%(eq_trans (eq_sym Ea)). by exists a'.
  - injection Ew as Ew ->. split; [| split].
    + constructor; cbn [logger said]; rewrite ?Eg, ?app_nil_r; try done. by exists a.
    + split; [done |]. intros E'. rewrite E' in He. done.
    + intros a0 [= <-]%(eq_trans (eq_sym Ea)). by exists a.
Qed.

Lemma step_said s s' : step s s' -> said s `prefix_of` said s'.
Proof. destruct 1; cbn; try done. by eexists. Qed.

Lemma step_sound s s' :
  sound s -> step s s' -> fits s' -> Forall (fun x => statement_ok x) (said s') -> sound s'.
Proof.
  intros Hs Hstep Hfits Hsaid. destruct Hstep as [s x l E|s level l E|s a E|s a a' E Hstep].
  - destruct (statement_sound s x Hs) as (l' & aborts & E' & Hs' & _); [| congruence].
    intros He. cbn [said] in Hsaid. unfold says in Hsaid. rewrite He in Hsaid.
    apply Forall_app in Hsaid as [_ Hx]. by rewrite Forall_singleton in Hx.
  - injection E as <-. by destruct Hs.
  - destruct Hs as [? ? ? (a0 & Ea & Hi & Hat & Hl)]. assert (a0 = a) as -> by congruence.
    constructor; try done. exists (AsyncLogger.stop a). split_and!; try done. by destruct Hi.
  - destruct Hs as [? ? ? (a0 & Ea & Hi & Hat & Hl)]. assert (a0 = a) as -> by congruence. cbn in Hfits.
    constructor; try done. exists a'. split_and!; [done | by apply (logging_step_inv a) | |].
    + destruct Hstep as [| |? ? Hat' E'|? ? ? E'|? ? ? ? E']; try done.
      * unfold lock in E'. destruct (_buffer_poll _); [by injection E' as <- |]. apply collect_at in E' as [_ ->]. done.
      * by apply collect_at in E' as [_ ->].
      * unfold write in E'. by returned.
    + intros Hd'. apply (thread_step_lines _ a); try done. apply Hl. pose proof (thread_step_dropped _ _ Hstep). lia.
Qed.

Lemma reached_sound trace_set debug_set file s :
  sink_ok file -> sink_content file = [] -> hold [] (sink_files file) ->
  reached unspecified general gmtime_r trace_set debug_set file s ->
  Forall (fun x => statement_ok x) (said s) -> sound s.
Proof.
  intros Hf Hc Hh. induction 1 as [s ->|s s' _ IH [Hstep Hfits]]; intros Hsaid.
  - constructor; cbn; [by split_and!; [| | apply map_Forall_empty] | done | done |]. eexists. split; [reflexivity |].
    split_and!; [apply logger_start_inv; [by apply logger_make_inv | done] | done |]. intros _. by exists [], [], [], [].
  - apply (step_sound s); try done. apply IH. destruct (step_said s s' Hstep) as [k E].
    rewrite E in Hsaid. by apply Forall_app in Hsaid as [? _].
Qed.

Lemma thread_steps_lines lines (a a' : AsyncLogger.t Sink) :
  rtc thread_step a a' -> AsyncLoggerSpec.inv a -> spent a' <= capacity -> dropped a' = 0%nat ->
  holds_lines lines a -> holds_lines lines a'.
Proof.
  induction 1 as [a|a a1 a' Hstep Hsteps IH]; [done |]. intros Hi Hroom Hd Hl.
  assert (spent a1 <= spent a' /\ (dropped a1 <= dropped a')%nat) as [Hs1 Hd1].
  { clear -Hsteps. induction Hsteps as [|a1 a2 a' Hstep _ [IH1 IH2]]; [lia |].
    pose proof (thread_step_spent _ _ Hstep). pose proof (thread_step_dropped _ _ Hstep). lia. }
  apply IH; [eapply logging_step_inv; eauto; lia | done | done |].
  apply (thread_step_lines _ a); done || lia.
Qed.

(** One more round puts every line into a file. *)
Lemma round_lines s a :
  sound s -> world (logger s) = Ret a -> at_ a = Testing -> _running a = true -> dropped a = 0%nat ->
  zlen (accepted a) <= capacity -> (length (_buffer_poll a) <= 24)%nat ->
  exists a', rtc thread_step a a' /\ at_ a' = Testing /\ hold (lines_of s) (sink_files (log_file a')).
Proof.
  intros [_ _ _ (a0 & Ea & Hi & _ & Hl)] Ea' Hat Hr Hd Hroom Hpoll. assert (a0 = a) as -> by congruence.
  destruct (round_ok [] a Hi Hat Hr Hd Hroom Hpoll) as (a' & Hsteps & Hi' & Hat' & _ & Hcont & Hd' & Hp' & Hc').
  exists a'. split_and!; [done | done |].
  destruct (thread_steps_lines (lines_of s) a a' Hsteps Hi) as (written & waiting & full & current & El & Hw & Hwait & Hfull & Hcur).
  { rewrite <- (proj2 (i_sink _ Hi')), Hcont. done. } { done. } { by apply Hl. }
  pose proof (i_local _ Hi') as Hloc. rewrite decide_False in Hloc by (by rewrite Hat').
  destruct Hloc as [Ew _]. rewrite Ew in Hwait. rewrite Hp' in Hfull. rewrite Hc' in Hcur.
  destruct waiting; [| done]. destruct full; [| done]. cbn in El.
  rewrite (lines_of_nil s current) in El; [by rewrite El, app_nil_r | by exists written | done].
Qed.
End pipeline.
End LogPipelineSpec.

(** ** The properties *)

Module LogPipelineProps.
Import LogStreamSpec Logger LoggerSpec LoggerGlobals LoggerGlobalsSpec AsyncLogger AsyncLoggerSpec.
Import LogPipeline LogPipelineSpec.

(** C39: logging from a statement to the disk, as long as every line fits the stream
    and the disk has room. Whatever threads log, whenever the level is changed and
    however the logging thread gets on between: a statement comes to its end without
    touching the files, and ends the program exactly when it is FATAL (its own line
    and all that is still in the buffers is then lost: [fatal_line_not_written]). As
    long as no batch was cut off ([dropped]: the logging thread has never found more
    than 25 buffers to write), the lines of the enabled statements so far are, in order
    and none of them torn, in the files, in the buffers that are being written, in the
    full ones and in the current one; and if then at most 24 buffers are full when the
    logging thread finds the logger running, one round of its loop puts them all into
    the files. *)
Theorem logged_lines_reach_files {B : Build} unspecified general gmtime_r {Sink} `{RollingSink Sink}
    trace_set debug_set file (s : t Sink)
    (Hunspecified : forall n, 0 <= n -> zlen (unspecified n) = n)
    (Hgmtime : forall s, 0 <= s <= 9223372036 -> fields_ok (gmtime_r s))
    (Hfile : sink_ok file) (Hempty : sink_content file = []) (Hnew : hold [] (sink_files file))
    (Hs : reached unspecified general gmtime_r trace_set debug_set file s)
    (Hsaid : Forall (fun x => op_ok (W := async Sink) general gmtime_r (Statement x)) (said s)) :
  exists a, world (logger s) = Ret a /\
    (dropped a = 0%nat -> holds_lines (map (line_of general gmtime_r) (said s)) a) /\
    (forall x, op_ok (W := async Sink) general gmtime_r (Statement x) -> exists l aborts a',
       LoggerGlobals.step unspecified general (Statement x) (logger s) = Ret (l, aborts) /\
       (aborts = true <-> s_level x = FATAL) /\ world l = Ret a' /\ log_file a' = log_file a) /\
    (at_ a = Testing -> _running a = true -> dropped a = 0%nat -> zlen (accepted a) <= capacity ->
     (length (_buffer_poll a) <= 24)%nat ->
     exists a', rtc thread_step a a' /\ at_ a' = Testing /\
       hold (map (line_of general gmtime_r) (said s)) (sink_files (log_file a'))).
Proof.
  pose proof (reached_sound unspecified general gmtime_r Hunspecified Hgmtime _ _ _ s Hfile Hempty Hnew Hs Hsaid) as Hi.
  pose proof Hi as [_ _ _ (a & Ea & Ha & _ & Hl)]. exists a. split_and!; [done | done | |].
  - intros x Hx. destruct (statement_sound unspecified general gmtime_r Hunspecified Hgmtime s x Hi (fun _ => Hx))
      as (l & aborts & E & _ & Hab & Hw). destruct (Hw a Ea) as (a' & Ea' & Elf & _). by exists l, aborts, a'.
  - by apply (round_lines unspecified general gmtime_r).
Qed.

(** A FATAL line is not written. The program ends in the statement, after a flush of
    standard output: the line, and whatever else is in the buffers, is in no file. *)
Theorem fatal_line_not_written {B : Build} unspecified general gmtime_r {Sink} `{RollingSink Sink}
    trace_set debug_set file (s : t Sink) x
    (Hunspecified : forall n, 0 <= n -> zlen (unspecified n) = n)
    (Hgmtime : forall s, 0 <= s <= 9223372036 -> fields_ok (gmtime_r s))
    (Hfile : sink_ok file) (Hempty : sink_content file = []) (Hnew : hold [] (sink_files file))
    (Hs : reached unspecified general gmtime_r trace_set debug_set file s)
    (Hsaid : Forall (fun x => op_ok (W := async Sink) general gmtime_r (Statement x)) (said s))
    (Hx : op_ok (W := async Sink) general gmtime_r (Statement x)) (Hfatal : s_level x = FATAL) :
  exists l a a', LoggerGlobals.step unspecified general (Statement x) (logger s) = Ret (l, true) /\
    world (logger s) = Ret a /\ world l = Ret a' /\ log_file a' = log_file a.
Proof.
  pose proof (reached_sound unspecified general gmtime_r Hunspecified Hgmtime _ _ _ s Hfile Hempty Hnew Hs Hsaid) as Hi.
  pose proof Hi as [_ _ _ (a & Ea & _)].
  destruct (statement_sound unspecified general gmtime_r Hunspecified Hgmtime s x Hi (fun _ => Hx))
    as (l & aborts & E & _ & Hab & Hw). destruct (Hw a Ea) as (a' & Ea' & Elf & _).
  rewrite (proj2 Hab Hfatal) in E. by exists l, a, a'.
Qed.

(** *** Witnesses: two lines of two threads, to files on a disk that never fails. *)
#[local] Existing Instance AsyncLoggerProps.disk_sink.
#[local] Existing Instance AsyncLoggerProps.disk_laws.
#[local] Instance disk_rolls : RollingSink LogFile.t :=
  @LogFileSpec.log_file_rolls LogFileProps.good_disk LogFileProps.good_disk_laws
    LogFileProps.seconds_clock LogFileProps.stamp 42 LogFileProps.seconds_clock_ok (fun _ _ _ => eq_refl).
#[local] Instance debug_build : Build := {| ndebug := false |}.
#[local] Abbreviation disk_file := AsyncLoggerProps.disk_file.

Definition say (level : LogLevel) (tid : Z) (text : String.string) : statement :=
  mk_statement level (bytes "suduo/net/TcpServer.cpp") 7 (bytes "start") [LogStream.String (bytes text)] 1704067200000000000 tid.
Definition quiet : t LogFile.t :=
  make LogStreamProps.zeros LogStreamProps.plain_double LogStreamProps.new_year false false disk_file.
Definition after (x : statement) (s : t LogFile.t) : t LogFile.t :=
  match LoggerGlobals.step LogStreamProps.zeros LogStreamProps.plain_double (Statement x) (logger s) with
  | Ret (l, _) => LogPipeline.mk l (said s ++ says x s)
  | Stop _ => s
  end.
Definition two_lines : t LogFile.t :=
  after (say ERROR 4322 "two") (after (say DEBUG 4321 "nothing") (after (say INFO 4321 "one") quiet)).

Definition went_on (x : statement) (s : t LogFile.t) : bool :=
  match LoggerGlobals.step LogStreamProps.zeros LogStreamProps.plain_double (Statement x) (logger s) with
  | Ret (_, false) => true
  | _ => false
  end.
Lemma after_step x s :
  went_on x s = true -> LogPipeline.step LogStreamProps.zeros LogStreamProps.plain_double s (after x s).
Proof.
  unfold went_on, after. intros Hx.
  destruct (LoggerGlobals.step _ _ (Statement x) (logger s)) as [[l []]|] eqn:E; try discriminate Hx. by apply step_statement.
Qed.
Abbreviation witness_reached :=
  (reached LogStreamProps.zeros LogStreamProps.plain_double LogStreamProps.new_year false false disk_file).
Lemma two_lines_reached : witness_reached two_lines.
Proof.
  unfold two_lines. eapply reach_step; [eapply reach_step; [eapply reach_step; [by apply reach_init |] |] |];
    (split; [apply after_step |]; by vm_compute).
Qed.
Lemma say_ok level tid text : 0 <= tid -> zlen (line_of LogStreamProps.plain_double LogStreamProps.new_year (say level tid text)) < 4000 ->
  op_ok (W := async LogFile.t) LogStreamProps.plain_double LogStreamProps.new_year (Statement (say level tid text)).
Proof.
  intros Htid Hfit. split_and!; [by vm_compute | by vm_compute | done | | done].
  intros Hin%(bool_decide_eq_true_2 (x00 ∈ bytes "start")). by vm_compute in Hin.
Qed.
Lemma two_lines_said :
  Forall (fun x => op_ok (W := async LogFile.t) LogStreamProps.plain_double LogStreamProps.new_year (Statement x)) (said two_lines).
Proof.
  assert (said two_lines = [say INFO 4321 "one"; say ERROR 4322 "two"]) as -> by by vm_compute.
  repeat constructor; try (by vm_compute); by apply say_ok; vm_compute.
Qed.
Lemma disk_file_new : hold [] (sink_files disk_file).
Proof. exists [[]]. by vm_compute. Qed.

Definition the_lines : list (list byte) :=
  [bytes "20240101 00:00:00  4321 INFO  one -TcpServer.cpp:7" ++ [x0a];
   bytes "20240101 00:00:00  4322 ERROR two -TcpServer.cpp:7" ++ [x0a]].

Definition two_lines_async : AsyncLogger.t LogFile.t :=
  match world (logger two_lines) with Ret a => a | Stop _ => AsyncLogger.make disk_file end.
Lemma logged_lines_reach_files_witness :
  world (logger two_lines) = Ret two_lines_async /\ sink_files (log_file two_lines_async) = [[]] /\
  exists a', rtc thread_step two_lines_async a' /\ at_ a' = Testing /\ hold the_lines (sink_files (log_file a')).
Proof.
  destruct (logged_lines_reach_files LogStreamProps.zeros LogStreamProps.plain_double LogStreamProps.new_year false false
    disk_file two_lines LogStreamProps.zeros_length LogStreamProps.new_year_ok (proj1 AsyncLoggerProps.disk_file_ok)
    (proj2 AsyncLoggerProps.disk_file_ok) disk_file_new two_lines_reached two_lines_said) as (a & Ea & _ & _ & Hround).
  assert (a = two_lines_async) as -> by (unfold two_lines_async; by rewrite Ea).
  split; [done |]. split; [by vm_compute |].
  destruct Hround as (a' & Hsteps & Hat & Hh); [by vm_compute | by vm_compute | by vm_compute | by vm_compute | by apply Nat.leb_le |].
  exists a'. split_and!; [done | done |].
  assert (map (line_of LogStreamProps.plain_double LogStreamProps.new_year) (said two_lines) = the_lines) as <- by by vm_compute.
  exact Hh.
Defined.

Lemma fatal_line_not_written_witness :
  exists l a a', LoggerGlobals.step LogStreamProps.zeros LogStreamProps.plain_double (Statement (say FATAL 4321 "three"))
    (logger two_lines) = Ret (l, true) /\
    world (logger two_lines) = Ret a /\ world l = Ret a' /\ log_file a' = log_file a.
Proof.
  refine (fatal_line_not_written LogStreamProps.zeros LogStreamProps.plain_double LogStreamProps.new_year false false
    disk_file two_lines (say FATAL 4321 "three") LogStreamProps.zeros_length LogStreamProps.new_year_ok (proj1 AsyncLoggerProps.disk_file_ok)
    (proj2 AsyncLoggerProps.disk_file_ok) disk_file_new two_lines_reached two_lines_said _ eq_refl).
  by apply say_ok; vm_compute.
Defined.
End LogPipelineProps.
