(* ===== verification/Addresses.v ===== *)
(** Addresses (suduo/net/InetAddress.h/.cpp and the address functions of
    SocketOpt.h/.cpp and Socket.h): IPv4 and IPv6 addresses, their text, and the
    addresses the kernel fills in. *)

From S2P Require Import Prelude.
From S2P Require Import Endianness.

(** <sys/socket.h>, <netinet/in.h>, for Linux *)
Definition AF_INET : Z := 2.
Definition AF_INET6 : Z := 10.
Definition INADDR_ANY : Z := 0.
Definition INADDR_LOOPBACK : Z := 2130706433.
Definition in6addr_any : list byte := replicate 16 x00.
Definition in6addr_loopback : list byte := replicate 15 x00 ++ [x01].

(** Ports and IPv4 addresses as they are stored, in network order. A variable of
    one of these types that nobody has initialised holds whatever its memory held:
    the functions below that declare one take it as an argument. *)
Record sockaddr_in := mk_in {
  sin_family : Z;
  sin_port : Z;
  sin_addr : Z;
  sin_zero : list byte
}.
Record sockaddr_in6 := mk_in6 {
  sin6_family : Z;
  sin6_port : Z;
  sin6_flowinfo : Z;
  sin6_addr : list byte;
  sin6_scope_id : Z
}.
(** What a [sockaddr*] points to: an object of 16 bytes, or of 28. *)
Inductive sockaddr := In4 (a : sockaddr_in) | In6 (a : sockaddr_in6).

(** inet_pton(3), which writes nothing when the text is no address, and inet_ntop(3)
    for both families, with all the room it needs. *)
Class Text := {
  k_pton4 : list byte -> option Z;
  k_pton6 : list byte -> option (list byte);
  k_ntop4 : Z -> list byte;
  k_ntop6 : list byte -> list byte
}.
(** INET_ADDRSTRLEN is 16 and INET6_ADDRSTRLEN 46; only IPv6 texts have colons. *)
Class TextLaws `{Text} : Prop := {
  k_ntop4_text a : 0 <= a < 2 ^ 32 ->
    k_pton4 (k_ntop4 a) = Some a /\ zlen (k_ntop4 a) <= 15 /\ (x3a ∉ k_ntop4 a) /\ (x00 ∉ k_ntop4 a);
  k_ntop6_text a : length a = 16%nat ->
    k_pton6 (k_ntop6 a) = Some a /\ zlen (k_ntop6 a) <= 45 /\ (x3a ∈ k_ntop6 a) /\ (x00 ∉ k_ntop6 a);
  k_pton4_range ip a : k_pton4 ip = Some a -> 0 <= a < 2 ^ 32;
  k_pton6_length ip a : k_pton6 ip = Some a -> length a = 16%nat
}.

(** Arrays of [char]: bytes written at an offset, and what is there read as a C
    string, for which the array has to hold a NUL. *)
Definition put (k : nat) (bs buf : list byte) : res (list byte) :=
  if bool_decide (k + length bs <= length buf)%nat
  then mret (take k buf ++ bs ++ drop (k + length bs) buf) else Stop UndefinedBehaviour.
Definition c_text (buf : list byte) : res (list byte) :=
  if bool_decide (x00 ∈ buf) then mret (c_string buf) else Stop UndefinedBehaviour.

Module sockets.
Section operations.
Context {Ho : Host} `{Text}.

(** [sizeof(sockaddr_in6)] *)
Definition addr_len : Z := 28.

(** The wrappers that end the program when the call fails: [ret] is what it
    returned. *)
Definition or_abort (ret : Z) : res Z := if ret <? 0 then Stop Aborted else mret ret.

Definition family (a : sockaddr) : Z := match a with In4 a => sin_family a | In6 a => sin6_family a end.
Definition port (a : sockaddr) : Z := match a with In4 a => sin_port a | In6 a => sin6_port a end.
(** [sin_addr] lies where a [sockaddr_in6] has its [sin6_flowinfo]. *)
Definition in_addr (a : sockaddr) : Z := match a with In4 a => sin_addr a | In6 a => sin6_flowinfo a end.
(** [sin6_addr] begins in [sin_zero] and goes on behind a [sockaddr_in]. *)
Definition in6_addr (a : sockaddr) : res (list byte) :=
  match a with In4 _ => Stop UndefinedBehaviour | In6 a => mret (sin6_addr a) end.

(** inet_ntop, told that [buf] has [addr_len] bytes: when the text and its NUL do not
    fit in that many it fails, and [buf] stays as it was. Nobody looks at what it
    returns. *)
Definition inet_ntop (text buf : list byte) : res (list byte) :=
  if zlen text <? addr_len then put 0 (text ++ [x00]) buf else mret buf.

(** [buf] is what the array holds; the result is what it holds afterwards. *)
Definition to_Ip (buf : list byte) (a : sockaddr) : res (list byte) :=
  if family a =? AF_INET then inet_ntop (k_ntop4 (in_addr a)) buf
  else if family a =? AF_INET6 then x ← in6_addr a; inet_ntop (k_ntop6 x) buf
  else mret buf.

(** [snprintf(buf + end, size - end, ...)], [end] being [strlen(buf)]. *)
Definition print_behind (text buf : list byte) : res (list byte) :=
  s ← c_text buf;
  put (length s) (snprintf (length buf - length s) text ++ [x00]) buf.

Definition to_Ip_port (buf : list byte) (a : sockaddr) : res (list byte) :=
  if family a =? AF_INET6 then
    buf ← put 0 (bytes "[") buf;
    rest ← to_Ip (drop 1 buf) a;
    print_behind (bytes "]:" ++ decimal (Endian.network_to_host_16 (port a))) (take 1 buf ++ rest)
  else if family a =? AF_INET then
    buf ← to_Ip buf a;
    print_behind (bytes ":" ++ decimal (Endian.network_to_host_16 (port a))) buf
  else mret buf.

(** A text that is no address is reported, and the field of [addr] stays as it was. *)
Definition from_Ip_port_4 (ip : list byte) (port : Z) (addr : sockaddr_in) : sockaddr_in :=
  mk_in AF_INET (Endian.host_to_network_16 port) (default (sin_addr addr) (k_pton4 (c_string ip))) (sin_zero addr).
Definition from_Ip_port_6 (ip : list byte) (port : Z) (addr : sockaddr_in6) : sockaddr_in6 :=
  mk_in6 AF_INET6 (Endian.host_to_network_16 port) (sin6_flowinfo addr)
    (default (sin6_addr addr) (k_pton6 (c_string ip))) (sin6_scope_id addr).

(** What the kernel writes into [addr]; an IPv4 address leaves what lies behind its
    16 bytes as it was. *)
Definition into_in6 (addr : sockaddr_in6) (a : sockaddr) : sockaddr_in6 :=
  match a with
  | In6 a => a
  | In4 a => mk_in6 (sin_family a) (sin_port a) (sin_addr a) (sin_zero a ++ drop 8 (sin6_addr addr)) (sin6_scope_id addr)
  end.

(** getsockname(2) and getpeername(2): the address, or failure. *)
Definition get_addr (answer : option sockaddr_in6) : res sockaddr_in6 :=
  match answer with Some a => mret a | None => Stop Aborted end.

(** [memcmp] is told to compare 28 bytes from [sin6_addr] on, 8 more than there
    are. *)
Definition is_self_connect (local peer : option sockaddr_in6) : res bool :=
  local ← get_addr local;
  peer ← get_addr peer;
  if sin6_family local =? AF_INET
  then mret ((sin6_port local =? sin6_port peer) && (sin6_flowinfo local =? sin6_flowinfo peer))
  else if sin6_family local =? AF_INET6
  then if sin6_port local =? sin6_port peer then Stop UndefinedBehaviour else mret false
  else mret false.
End operations.
End sockets.

Module InetAddress.
Section operations.
Context {Ho : Host} `{Text}.

(** [std::variant<sockaddr_in, sockaddr_in6>] *)
Inductive t := V4 (a : sockaddr_in) | V6 (a : sockaddr_in6).
Definition default : t := V4 (mk_in 0 0 0 (replicate 8 x00)).

(** [addr_4] and [addr_6] are local variables, not initialised. *)
Definition of_port (addr_4 : sockaddr_in) (addr_6 : sockaddr_in6) (port : Z) (loop_back_only ipv6 : bool) : t :=
  if ipv6
  then V6 (mk_in6 AF_INET6 (Endian.host_to_network_16 port) (sin6_flowinfo addr_6)
             (if loop_back_only then in6addr_loopback else in6addr_any) (sin6_scope_id addr_6))
  else V4 (mk_in AF_INET (Endian.host_to_network_16 port)
             (Endian.host_to_network_32 (if loop_back_only then INADDR_LOOPBACK else INADDR_ANY)) (sin_zero addr_4)).

(** [std::strchr(ip.c_str(), ':')] *)
Definition has_colon (ip : list byte) : bool := bool_decide (x3a ∈ c_string ip).
Definition of_ip (addr_4 : sockaddr_in) (addr_6 : sockaddr_in6) (ip : list byte) (port : Z) (ipv6 : bool) : t :=
  if ipv6 || has_colon ip
  then V6 (sockets.from_Ip_port_6 ip port addr_6) else V4 (sockets.from_Ip_port_4 ip port addr_4).

(** [InetAddress(sockets::get_local_addr(fd))] and [get_peer_addr]: the address of a
    connection's end; [addr] is their local variable. *)
Definition of_socket (addr : sockaddr_in6) (answer : option sockaddr) : res t :=
  a ← sockets.get_addr (sockets.into_in6 addr <$> answer); mret (V6 a).
Definition set_sock_addr (a : sockaddr) (self : t) : t := match a with In4 a => V4 a | In6 a => V6 a end.

Definition get_sock_addr (a : t) : sockaddr := match a with V4 a => In4 a | V6 a => In6 a end.
Definition family (a : t) : Z := match a with V4 a => sin_family a | V6 a => sin6_family a end.
Definition is_ipv6 (a : t) : bool := match a with V4 _ => false | V6 _ => true end.
Definition port_net_enddian (a : t) : Z := match a with V4 a => sin_port a | V6 a => sin6_port a end.
Definition port (a : t) : Z := Endian.network_to_host_16 (port_net_enddian a).
(** [buf]: what is in the array of 64 bytes, which is not initialised. *)
Definition to_Ip (buf : list byte) (a : t) : res (list byte) :=
  buf ← sockets.to_Ip buf (get_sock_addr a); c_text buf.
Definition to_Ip_port (buf : list byte) (a : t) : res (list byte) :=
  buf ← sockets.to_Ip_port buf (get_sock_addr a); c_text buf.

(** gethostbyname_r: the first address, in network order. [std::get] throws when
    [result] holds an IPv6 address, and nothing catches it. *)
Definition resolve (answer : option Z) (result : t) : res (bool * t) :=
  match answer with
  | Some x =>
      match result with
      | V4 a => mret (true, V4 (mk_in (sin_family a) (sin_port a) x (sin_zero a)))
      | V6 _ => Stop Aborted
      end
  | None => mret (false, result)
  end.
End operations.
End InetAddress.

Module Socket.
(** [accept(&peer_addr)], with what accept4(2) answers. It is always told that there
    are 28 bytes for the address; [addr] is the local variable it is given for an
    IPv6 one. *)
Definition accept (addr : sockaddr_in6) (answer : option (Z * sockaddr)) (peer_addr : InetAddress.t) : res (Z * InetAddress.t) :=
  match answer with
  | None => Stop Aborted
  | Some (conn_fd, a) =>
      if InetAddress.is_ipv6 peer_addr then
        mret (conn_fd, InetAddress.V6 (sockets.into_in6 addr a))
      else
        match a with
        | In4 a => mret (conn_fd, InetAddress.V4 a)
        | In6 _ => Stop UndefinedBehaviour
        end
  end.
End Socket.

(** ** The properties *)

Module AddressProps.
Import InetAddress.

Section addresses.
Context {Ho : Host} `{TextLaws}.

Lemma port_roundtrip p : 0 <= p < 65536 -> Endian.network_to_host_16 (Endian.host_to_network_16 p) = p.
Proof.
  intros Hp. unfold Endian.network_to_host_16, Endian.host_to_network_16, betoh, htobe.
  destruct little_endian; [| done]. rewrite bswap_involutive. apply Z.mod_small. lia.
Qed.

Lemma port_length p : 0 <= p < 65536 -> (length (decimal p) <= 5)%nat.
Proof. intros. apply (decimal_length p 4). lia. Qed.

(** *** Texts in buffers *)

Lemma c_text_app t rest : x00 ∉ t -> c_text (t ++ x00 :: rest) = Ret t.
Proof.
  intros Ht. unfold c_text. rewrite bool_decide_true by set_solver. f_equal.
  induction t as [|c t IH]; cbn; [done |]. apply not_elem_of_cons in Ht as [Hc Ht].
  rewrite (IH Ht). by destruct c.
Qed.

Lemma put_text pre rest t : (length t < length rest)%nat ->
  put (length pre) (t ++ [x00]) (pre ++ rest) = Ret (pre ++ t ++ x00 :: drop (S (length t)) rest).
Proof.
  intros Hl. unfold put. rewrite !length_app. cbn [length].
  rewrite bool_decide_true by lia. cbn [mret res_ret]. rewrite take_app_length, <- !app_assoc. do 3 f_equal.
  cbn [app]. f_equal. rewrite drop_app_ge by lia. f_equal. lia.
Qed.

Lemma inet_ntop_text ip buf : zlen ip <= 27 -> (28 <= length buf)%nat ->
  sockets.inet_ntop ip buf = Ret (ip ++ x00 :: drop (S (length ip)) buf).
Proof.
  intros Hl Hb. unfold sockets.inet_ntop, sockets.addr_len. rewrite (proj2 (Z.ltb_lt _ _)) by lia.
  apply (put_text [] buf ip). lia.
Qed.

Lemma print_behind_text t text rest : x00 ∉ t -> x00 ∉ text -> (length text <= length rest)%nat ->
  (buf ← sockets.print_behind text (t ++ x00 :: rest); c_text buf) = Ret (t ++ text).
Proof.
  intros Ht Hx Hl. unfold sockets.print_behind. rewrite c_text_app by done. cbn [mbind res_bind].
  rewrite snprintf_fits by (rewrite length_app; cbn; lia). rewrite put_text by (cbn; lia).
  cbn [mbind res_bind]. rewrite app_assoc. apply c_text_app. set_solver.
Qed.

Lemma port_text p : 0 <= p < 65536 -> (x00 ∉ decimal p) /\ (length (decimal p) <= 5)%nat.
Proof.
  intros Hp. split; [| by apply port_length]. apply decimal_not_in; [lia | left; by vm_compute].
Qed.

Lemma host_to_network_32_range a : 0 <= a < 2 ^ 32 -> 0 <= Endian.host_to_network_32 a < 2 ^ 32.
Proof.
  intros Ha. unfold Endian.host_to_network_32, htobe. destruct little_endian; [| done]. apply (bswap_range 4).
Qed.

(** Made from the text of an address. *)
Lemma of_ip_4 a4 a6 a p : 0 <= a < 2 ^ 32 ->
  of_ip a4 a6 (k_ntop4 a) p false = V4 (mk_in AF_INET (Endian.host_to_network_16 p) a (sin_zero a4)).
Proof.
  intros (Hpton & _ & Hcolon & Hnul)%k_ntop4_text. unfold of_ip, has_colon, sockets.from_Ip_port_4.
  rewrite c_string_id by done. rewrite bool_decide_false by done. cbn [orb]. by rewrite Hpton.
Qed.
Lemma of_ip_6 a4 a6 a p b : length a = 16%nat ->
  of_ip a4 a6 (k_ntop6 a) p b =
    V6 (mk_in6 AF_INET6 (Endian.host_to_network_16 p) (sin6_flowinfo a6) a (sin6_scope_id a6)).
Proof.
  intros (Hpton & _ & Hcolon & Hnul)%k_ntop6_text. unfold of_ip, has_colon, sockets.from_Ip_port_6.
  rewrite c_string_id by done. rewrite bool_decide_true by done. rewrite orb_true_r. by rewrite Hpton.
Qed.
End addresses.

(** Addresses and their text, on hosts of either byte order. An address made
    from the text of an IPv4 address prints as that text, and with its port; so
    does one made from an IPv6 text if that has at most 27 characters. From 28 on
    [inet_ntop] refuses to write it, and what the array held before is taken for
    the text. *)
Theorem address_text {Ho : Host} `{TextLaws} a4 a6 p b buf (Hp : 0 <= p < 65536) (Hbuf : length buf = 64%nat) :
  (forall a, 0 <= a < 2 ^ 32 -> let ip := k_ntop4 a in let x := of_ip a4 a6 ip p false in
     is_ipv6 x = false /\ family x = AF_INET /\ port x = p /\
     to_Ip buf x = Ret ip /\ to_Ip_port buf x = Ret (ip ++ bytes ":" ++ decimal p)) /\
  (forall a, length a = 16%nat -> let ip := k_ntop6 a in let x := of_ip a4 a6 ip p b in
     is_ipv6 x = true /\ family x = AF_INET6 /\ port x = p /\
     to_Ip buf x = (if zlen ip <=? 27 then Ret ip else c_text buf) /\
     (zlen ip <= 27 -> to_Ip_port buf x = Ret (bytes "[" ++ ip ++ bytes "]:" ++ decimal p))).
Proof.
  destruct (port_text p Hp) as [Hd Hlen]. split.
  - intros a Ha ip x. destruct (k_ntop4_text a Ha) as (_ & Hl & _ & Hnul). fold ip in Hl, Hnul.
    unfold x, ip. rewrite of_ip_4 by done. fold ip.
    assert (Eip : forall z, sockets.to_Ip buf (In4 (mk_in AF_INET z a (sin_zero a4))) = Ret (ip ++ x00 :: drop (S (length ip)) buf)).
    { intros z. apply inet_ntop_text; lia. }
    split_and!; [done | done | by apply port_roundtrip | |].
    + unfold to_Ip. cbn [get_sock_addr]. rewrite Eip. cbn [mbind res_bind]. by apply c_text_app.
    + unfold to_Ip_port, sockets.to_Ip_port. cbn [get_sock_addr sockets.family sin_family].
      change (AF_INET =? AF_INET6) with false. change (AF_INET =? AF_INET) with true. cbn iota.
      rewrite Eip. cbn [mbind res_bind sockets.port sin_port]. rewrite port_roundtrip by done.
      apply print_behind_text; [done | | rewrite length_drop, length_app; cbn; lia].
      change (bytes ":") with [x3a]. set_solver.
  - intros a Ha ip x. destruct (k_ntop6_text a Ha) as (_ & Hl & _ & Hnul). fold ip in Hl, Hnul.
    unfold x, ip. rewrite of_ip_6 by done. fold ip.
    split_and!; [done | done | by apply port_roundtrip | |].
    + change (to_Ip buf _) with (buf' ← sockets.inet_ntop ip buf; c_text buf').
      destruct (Z.leb_spec (zlen ip) 27).
      * rewrite inet_ntop_text by lia. cbn [mbind res_bind]. by apply c_text_app.
      * unfold sockets.inet_ntop, sockets.addr_len. by rewrite (proj2 (Z.ltb_ge _ _)) by lia.
    + intros H27. unfold to_Ip_port, sockets.to_Ip_port. cbn [get_sock_addr sockets.family sin6_family].
      change (AF_INET6 =? AF_INET6) with true. cbn iota. destruct buf as [|c buf]; [done |].
      assert (E0 : put 0 (bytes "[") (c :: buf) = Ret (x5b :: buf)).
      { unfold put. cbn [length bytes] in *. rewrite bool_decide_true by (cbn; lia). cbn. by rewrite drop_0. }
      rewrite E0. cbn [mbind res_bind drop take app]. rewrite drop_0.
      change (sockets.to_Ip buf _) with (sockets.inet_ntop ip buf). cbn [length] in Hbuf.
      rewrite inet_ntop_text by lia. cbn [mbind res_bind sockets.port sin6_port]. rewrite port_roundtrip by done.
      rewrite take_0. pose proof (print_behind_text (x5b :: ip)) as Hb. cbn [app] in Hb.
      cbn [app]. rewrite Hb; [done | | | rewrite length_drop, length_app; cbn; lia].
      * by apply not_elem_of_cons.
      * change (bytes "]:") with [x5d; x3a]. set_solver.
Qed.

(** The addresses as memory has them: an IPv4 address is 4 bytes, an IPv6 one 16. *)
Definition in_wf (a : sockaddr_in) : Prop := 0 <= sin_addr a < 2 ^ 32 /\ length (sin_zero a) = 8%nat.
Definition in6_wf (a : sockaddr_in6) : Prop :=
  0 <= sin6_flowinfo a < 2 ^ 32 /\ length (sin6_addr a) = 16%nat.

(** What the kernel answers with. *)
Definition kernel_address (a : sockaddr) : Prop :=
  match a with
  | In4 a => sin_family a = AF_INET /\ in_wf a
  | In6 a => sin6_family a = AF_INET6 /\ in6_wf a
  end.

(** The addresses a program can have, whatever its local variables held. *)
Inductive made {Ho : Host} `{Text} : InetAddress.t -> Prop :=
  | made_default : made default
  | made_of_port a4 a6 p loop_back_only ipv6 :
      in_wf a4 -> in6_wf a6 -> made (of_port a4 a6 p loop_back_only ipv6)
  | made_of_ip a4 a6 ip p ipv6 : in_wf a4 -> in6_wf a6 -> made (of_ip a4 a6 ip p ipv6)
  | made_of_socket a6 a x :
      in6_wf a6 -> kernel_address a -> of_socket a6 (Some a) = Ret x -> made x
  | made_set a x : kernel_address a -> made x -> made (set_sock_addr a x)
  | made_resolved answer x ok y :
      (forall a, answer = Some a -> 0 <= a < 2 ^ 32) -> made x -> resolve answer x = Ret (ok, y) -> made y
  | made_accepted a6 fd a x fd' y :
      in6_wf a6 -> kernel_address a -> made x -> Socket.accept a6 (Some (fd, a)) x = Ret (fd', y) -> made y.

Definition typed (x : InetAddress.t) : Prop :=
  match x with
  | V4 a => (sin_family a = AF_INET \/ sin_family a = 0) /\ in_wf a
  | V6 a => (sin6_family a = AF_INET6 \/ sin6_family a = AF_INET) /\ in6_wf a
  end.

Lemma into_in6_typed a6 a : in6_wf a6 -> kernel_address a -> typed (V6 (sockets.into_in6 a6 a)).
Proof.
  intros [_ H6] Ha. destruct a as [a|a]; cbn in *; [| split; [left |]; apply Ha].
  destruct Ha as (? & ? & ?). split; [by right |]. split; [done |]. cbn. rewrite length_app, length_drop. lia.
Qed.

Lemma made_typed {Ho : Host} `{TextLaws} x : made x -> typed x.
Proof.
  induction 1 as [|a4 a6 p l v6 H4 H6|a4 a6 ip p v6 H4 H6|a6 a x H6 Ha E|a x Ha _ _|answer x ok y Hr _ IH E
    |a6 fd a x fd' y H6 Ha _ _ E].
  - split; [by right | split; [cbn; lia | done]].
  - destruct v6; (split; [by left |]).
    + split; [apply H6 | by destruct l].
    + split; [apply host_to_network_32_range; by destruct l | apply H4].
  - unfold of_ip. destruct (_ || _); (split; [by left |]); (split; cbn; [| try apply H4]); try apply H6.
    + destruct (k_pton6 _) eqn:E; cbn; [by eapply k_pton6_length | apply H6].
    + destruct (k_pton4 _) eqn:E; cbn; [by eapply k_pton4_range | apply H4].
  - injection E as <-. by apply into_in6_typed.
  - destruct a as [a|a]; (split; [left |]); apply Ha.
  - unfold resolve in E. destruct answer as [z|]; [| by injection E as <- <-].
    destruct x as [a|a]; [| done]. injection E as <- <-. destruct IH as [? []].
    split; [done |]. split; [by apply Hr | done].
  - unfold Socket.accept in E. destruct (is_ipv6 x).
    + injection E as <- <-. by apply into_in6_typed.
    + destruct a as [a|a]; [| done]. injection E as <- <-. split; [left |]; apply Ha.
Qed.

(** The text of the field that the family in an address's memory names. *)
Definition family_text `{Text} (x : InetAddress.t) : option (list byte) :=
  if family x =? AF_INET then Some (k_ntop4 (sockets.in_addr (get_sock_addr x)))
  else match x with V6 a => Some (k_ntop6 (sin6_addr a)) | V4 _ => None end.

(** C29: the two kinds of address. Whatever an address was made from, and whatever
    the memory held in which it was made, the family in it never claims more than the
    object holds: what is read as a [sockaddr_in6] is one, and printing never leaves
    the object. What is printed is the text of the field that the family names, if
    that has at most 27 characters; otherwise, and for an address without a family,
    it is what was in the array before. Nothing makes sure that the field was ever
    written: made from a text that is no address, an address prints as whatever was
    in memory. And the alternative of the variant says less than the family: an IPv4
    address that the kernel has put into a [sockaddr_in6], as that of each end of a
    connection, counts as IPv6. *)
Theorem address_kinds {Ho : Host} `{TextLaws} x buf (Hx : made x) (Hbuf : length buf = 64%nat) :
  typed x /\
  to_Ip buf x = match family_text x with
                | Some ip => if zlen ip <=? 27 then Ret ip else c_text buf
                | None => c_text buf
                end /\
  (forall a4 a6 ip p, in_wf a4 -> has_colon ip = false -> k_pton4 (c_string ip) = None ->
     to_Ip buf (of_ip a4 a6 ip p false) = Ret (k_ntop4 (sin_addr a4))) /\
  (forall a6 a y, of_socket a6 (Some (In4 a)) = Ret y -> is_ipv6 y = true /\ family y = sin_family a).
Proof.
  apply made_typed in Hx as Ht. split_and!; [done | | | by intros a6 a y [= <-]].
  - assert (Hn : forall ip, x00 ∉ ip -> (buf' ← sockets.inet_ntop ip buf; c_text buf') =
      if zlen ip <=? 27 then Ret ip else c_text buf).
    { intros ip Hip. destruct (Z.leb_spec (zlen ip) 27).
      - rewrite inet_ntop_text by lia. by apply c_text_app.
      - unfold sockets.inet_ntop, sockets.addr_len. by rewrite (proj2 (Z.ltb_ge _ _)) by lia. }
    unfold to_Ip, sockets.to_Ip, family_text.
    replace (sockets.family (get_sock_addr x)) with (family x) by (by destruct x).
    destruct (Z.eqb_spec (family x) AF_INET) as [Ef|Ef].
    + apply Hn, k_ntop4_text. destruct x as [a|a]; apply Ht.
    + destruct x as [a|a]; cbn [family] in *.
      * destruct Ht as [[E|E] _]; [done | by rewrite E].
      * destruct Ht as [[E|E] Hwf]; [| done]. rewrite E. apply Hn, k_ntop6_text, Hwf.
  - intros a4 a6 ip p [Ha _] Hc E. unfold of_ip. rewrite Hc. unfold sockets.from_Ip_port_4. rewrite E.
    cbn [orb default]. destruct (k_ntop4_text _ Ha) as (_ & Hl & _ & Hnul).
    change (to_Ip buf _) with (buf' ← sockets.inet_ntop (k_ntop4 (sin_addr a4)) buf; c_text buf').
    rewrite inet_ntop_text by lia. by apply c_text_app.
Qed.

(** The peer's address of an accepted connection, as Acceptor asks for it: right for
    IPv4; for IPv6 the kernel writes 28 bytes into an object of 16. *)
Theorem accept_peer a6 fd :
  (forall a, Socket.accept a6 (Some (fd, In4 a)) default = Ret (fd, V4 a)) /\
  (forall a, Socket.accept a6 (Some (fd, In6 a)) default = Stop UndefinedBehaviour).
Proof. done. Qed.

(** *** Witness: addresses written as decimal numbers *)

#[local] Instance x86 : Host := {| little_endian := true |}.
#[local] Instance numbers : Text := {|
  k_pton4 ip := let a := decimal_value ip in if (0 <=? a) && (a <? 2 ^ 32) then Some a else None;
  k_pton6 ip := Some (be_bytes 16 (decimal_value (tail ip)));
  k_ntop4 a := decimal a;
  k_ntop6 a := bytes ":" ++ decimal (be_value a)
|}.
#[local] Instance numbers_laws : TextLaws.
Proof.
  split; cbn [numbers k_pton4 k_ntop4 k_pton6 k_ntop6].
  - intros a Ha. rewrite decimal_roundtrip.
    rewrite (proj2 (andb_true_iff _ _)) by (split; [apply Z.leb_le | apply Z.ltb_lt]; lia).
    split_and!; [done | | apply decimal_not_in; [lia | right; by vm_compute] |
      apply decimal_not_in; [lia | left; by vm_compute]].
    pose proof (decimal_length a 9). lia.
  - intros a Ha. assert (Hr : 0 <= be_value a < 2 ^ 128).
    { unfold be_value. pose proof (le_value_range (rev a)) as Hr. rewrite length_rev, Ha in Hr. exact Hr. }
    change (bytes ":" ++ decimal (be_value a)) with (x3a :: decimal (be_value a)). cbn [tail].
    rewrite decimal_roundtrip. split_and!; [| | by left | rewrite not_elem_of_cons; split; [done |
      apply decimal_not_in; [lia | left; by vm_compute]]].
    + pose proof (be_bytes_value a) as E. rewrite Ha in E. by rewrite E.
    + pose proof (decimal_length (be_value a) 38) as Hl. cbn [length]. lia.
  - intros ip a. destruct (Z.leb_spec 0 (decimal_value ip)), (Z.ltb_spec (decimal_value ip) (2 ^ 32)); cbn;
      intros [= <-]; lia.
  - intros ip a [= <-]. done.
Qed.

(** The memory of the local variables, and that of the arrays. *)
Definition old_4 : sockaddr_in := mk_in 77 77 77 (replicate 8 x4d).
Definition old_6 : sockaddr_in6 := mk_in6 77 77 77 (replicate 16 x4d) 77.
Definition old_text : list byte := bytes "old text" ++ replicate 56 x00.

Lemma address_text_witness :
  to_Ip_port old_text (of_ip old_4 old_6 (@k_ntop4 numbers 16909060) 8888 false) = Ret (bytes "16909060:8888") /\
  to_Ip_port old_text (of_ip old_4 old_6 (@k_ntop6 numbers in6addr_loopback) 80 false) = Ret (bytes "[:1]:80") /\
  to_Ip old_text (of_ip old_4 old_6 (@k_ntop6 numbers (replicate 16 xff)) 80 true) = Ret (bytes "old text").
Proof.
  split_and!.
  - refine (proj2 (proj2 (proj2 (proj2 (proj1 (address_text old_4 old_6 8888 false old_text _ eq_refl) 16909060 _))))); lia.
  - refine (proj2 (proj2 (proj2 (proj2 (proj2 (address_text old_4 old_6 80 false old_text _ eq_refl) in6addr_loopback eq_refl)))) _); [lia | by vm_compute].
  - etrans; [refine (proj1 (proj2 (proj2 (proj2 (proj2 (address_text old_4 old_6 80 true old_text _ eq_refl) (replicate 16 xff) eq_refl))))); lia |].
    by vm_compute.
Defined.

(** The peer of an IPv4 connection, and an address made from a text that is none. *)
Lemma address_kinds_witness :
  let peer := V6 (mk_in6 AF_INET (Endian.host_to_network_16 80) 16777343 (replicate 8 x00 ++ replicate 8 x4d) 77) in
  let none := of_ip old_4 old_6 (bytes "4294967296") 80 false in
  to_Ip old_text peer = Ret (k_ntop4 16777343) /\ typed peer /\ to_Ip old_text none = Ret (bytes "77").
Proof.
  intros peer none. assert (Hp : made peer).
  { apply (made_of_socket old_6 (In4 (mk_in AF_INET (Endian.host_to_network_16 80) 16777343 (replicate 8 x00))));
      [split; [cbn; lia | done] | | done]. split; [done |]. split; [cbn; lia | done]. }
  destruct (address_kinds peer old_text Hp eq_refl) as (Ht & E & Hnone & _). split_and!; [| done |].
  - rewrite E. by vm_compute.
  - refine (Hnone old_4 old_6 _ 80 _ _ _); [split; [cbn; lia | done] | by vm_compute | by vm_compute].
Defined.
End AddressProps.
