(* ===== verification/Sockets.v ===== *)
(** Sockets and their options (suduo/net/Socket.h/.cpp), the listening socket of an
    Acceptor (Acceptor.h/.cpp, its constructor and destructor) and TCP_INFO
    (Socket.cpp, TcpConnection::get_tcp_info and get_tcp_info_string).

    The kernel's side of a socket is a record; what a call answers is its argument. *)

From S2P Require Import Prelude.
From S2P Require Import Endianness.
From S2P Require Import Addresses.

(** <sys/socket.h>, <netinet/tcp.h>, for Linux *)
Definition SOL_SOCKET : Z := 1.
Definition IPPROTO_TCP : Z := 6.
Definition TCP_NODELAY : Z := 1.
Definition SO_REUSEADDR : Z := 2.
Definition SO_KEEPALIVE : Z := 9.
Definition SO_REUSEPORT : Z := 15.

(** A socket in the kernel, and the descriptors of the process. *)
Record sock := mk_sock {
  options : gmap (Z * Z) Z;
  bound : option sockaddr;
  listening : bool;
  write_shut : bool
}.
Definition new_sock : sock := mk_sock ∅ None false false.
Record world := mk_world {
  socks : gmap Z sock;
  files : gset Z;              (** descriptors that are no sockets *)
  errors : list (list byte)    (** what LOG_ERROR was given *)
}.

Module SocketObject.
(** A [Socket] is its descriptor, [_sock_fd]. *)
Definition t : Type := Z.
Definition fd (s : t) : Z := s.

Definition update (s : t) (f : sock -> sock) (w : world) : world :=
  mk_world (alter f s (socks w)) (files w) (errors w).

(** Both constructors: socket(2) may fail, which ends the program; a descriptor that
    accept4(2) or a connect has left is taken over. *)
Definition make (answer : option Z) (w : world) : res (t * world) :=
  match answer with
  | Some s => mret (s, mk_world (<[s := new_sock]> (socks w)) (files w) (errors w))
  | None => Stop Aborted
  end.
Definition adopt (sock_fd : Z) : t := sock_fd.

(** close(2) fails on a descriptor that is not open. *)
Definition destroy (s : t) (w : world) : res world :=
  match socks w !! s with
  | Some _ => mret (mk_world (delete s (socks w)) (files w) (errors w))
  | None => Stop Aborted
  end.

Definition bind (ok : bool) (local_addr : InetAddress.t) (s : t) (w : world) : res world :=
  if ok then mret (update s (fun k => mk_sock (options k) (Some (InetAddress.get_sock_addr local_addr)) (listening k) (write_shut k)) w)
  else Stop Aborted.
Definition listen (ok : bool) (s : t) (w : world) : res world :=
  if ok then mret (update s (fun k => mk_sock (options k) (bound k) true (write_shut k)) w) else Stop Aborted.
Definition shutdown_write (ok : bool) (s : t) (w : world) : res world :=
  if ok then mret (update s (fun k => mk_sock (options k) (bound k) (listening k) true) w) else Stop Aborted.

(** setsockopt(2) on an [int]. *)
Definition set_sock_opt (ok : bool) (level opt_name val : Z) (s : t) (w : world) : Z * world :=
  if ok && bool_decide (is_Some (socks w !! s))
  then (0, update s (fun k => mk_sock (<[(level, opt_name) := val]> (options k)) (bound k) (listening k) (write_shut k)) w)
  else (-1, w).
Definition log_error (line : list byte) (w : world) : world := mk_world (socks w) (files w) (errors w ++ [line]).

Definition set_TCP_no_delay (ok on : bool) (s : t) (w : world) : world :=
  let '(ret, w) := set_sock_opt ok IPPROTO_TCP TCP_NODELAY (if on then 1 else 0) s w in
  if negb (ret =? 0) then log_error (bytes "Socket::set_TCP_no_delay()") w else w.
Definition set_reuse_addr (ok on : bool) (s : t) (w : world) : world :=
  let '(ret, w) := set_sock_opt ok SOL_SOCKET SO_REUSEADDR (if on then 1 else 0) s w in
  if negb (ret =? 0) then log_error (bytes "Socket::set_reuse_addr()") w else w.
Definition set_reuse_port (ok on : bool) (s : t) (w : world) : world :=
  let '(ret, w) := set_sock_opt ok SOL_SOCKET SO_REUSEPORT (if on then 1 else 0) s w in
  if negb (ret =? 0) then log_error (bytes "Socket::set_reuse_port()") w else w.
Definition set_keep_alive (ok on : bool) (s : t) (w : world) : world :=
  let '(ret, w) := set_sock_opt ok SOL_SOCKET SO_KEEPALIVE (if on then 1 else 0) s w in
  if negb (ret =? 0) then log_error (bytes "Socket::set_keep_alive()") w else w.

(** *** TCP_INFO *)

(** The fields of [tcp_info] that are printed. *)
Record tcp_info := mk_info {
  tcpi_retransmits : Z; tcpi_rto : Z; tcpi_ato : Z; tcpi_snd_mss : Z; tcpi_rcv_mss : Z;
  tcpi_lost : Z; tcpi_retrans : Z; tcpi_rtt : Z; tcpi_rttvar : Z;
  tcpi_snd_ssthresh : Z; tcpi_snd_cwnd : Z; tcpi_total_retrans : Z
}.
(** A pointer has eight bytes. *)
Definition pointer_size : Z := 8.

(** [getsockopt(fd, SOL_TCP, TCP_INFO, &info, &len)]: [&info] is the address of the
    parameter, and the kernel writes there as many bytes as it has, [answer], or as
    [*info] would hold. [*info] itself, perhaps never written, stays as it is. *)
Definition get_TCP_info (answer : option Z) (info : option tcp_info) (w : world) : res (bool * option tcp_info * world) :=
  match answer with
  | None => mret (false, info, log_error (bytes "Socket::get_TCP_info()") w)
  | Some n => if pointer_size <? n then Stop UndefinedBehaviour else mret (true, info, w)
  end.

Definition info_text (i : tcp_info) : list byte :=
  bytes "unrecovered=" ++ decimal (tcpi_retransmits i) ++ bytes " rto=" ++ decimal (tcpi_rto i) ++
  bytes " ato=" ++ decimal (tcpi_ato i) ++ bytes " snd_mss=" ++ decimal (tcpi_snd_mss i) ++
  bytes " rcv_mss=" ++ decimal (tcpi_rcv_mss i) ++ bytes " lost=" ++ decimal (tcpi_lost i) ++
  bytes " retrans=" ++ decimal (tcpi_retrans i) ++ bytes " rtt=" ++ decimal (tcpi_rtt i) ++
  bytes " rttvar=" ++ decimal (tcpi_rttvar i) ++ bytes " sshthresh=" ++ decimal (tcpi_snd_ssthresh i) ++
  bytes " cwnd=" ++ decimal (tcpi_snd_cwnd i) ++ bytes " total_retrans=" ++ decimal (tcpi_total_retrans i).

(** [buf] has [len] bytes; [info] is a local variable without a value. *)
Definition get_TCP_info_string (answer : option Z) (len : nat) (buf : list byte) (w : world)
    : res (bool * list byte * world) :=
  '(ok, info, w) ← get_TCP_info answer None w;
  if (ok : bool) then
    match info with Some i => mret (true, snprintf len (info_text i), w) | None => Stop UndefinedBehaviour end
  else mret (false, buf, w).
(** [TcpConnection::get_tcp_info_string]. *)
Definition get_tcp_info_string (answer : option Z) (w : world) : res (list byte * world) :=
  '(_, buf, w) ← get_TCP_info_string answer 1024 [] w; mret (buf, w).
End SocketObject.

(** The socket and the spare descriptor of an Acceptor. *)
Module AcceptorSocket.
Import SocketObject.
Record t := mk { _accept_socket : SocketObject.t; _idle_fd : Z }.

(** What the system calls of the constructor answer: socket(2), open(2), setsockopt(2)
    twice, bind(2). *)
Record answers := mk_answers {
  a_socket : option Z; a_open : Z; a_reuse_addr : bool; a_reuse_port : bool; a_bind : bool
}.
Definition construct (a : answers) (listen_addr : InetAddress.t) (reuse_port : bool) (w : world) : res (t * world) :=
  '(s, w) ← SocketObject.make (a_socket a) w;
  let w := mk_world (socks w) (if a_open a <? 0 then files w else files w ∪ {[ a_open a ]}) (errors w) in
  let w := set_reuse_addr (a_reuse_addr a) true s w in
  let w := set_reuse_port (a_reuse_port a) reuse_port s w in
  w ← bind (a_bind a) listen_addr s w;
  mret (mk s (a_open a), w).
Definition listen (ok : bool) (self : t) (w : world) : res world := SocketObject.listen ok (_accept_socket self) w.
Definition destroy (self : t) (w : world) : res world := SocketObject.destroy (_accept_socket self) w.
End AcceptorSocket.

(** ** Lemmas *)

Module SocketSpec.
Import SocketObject.

(** What a setter may do: switch its option, or say that it could not. *)
Definition sets (level opt_name val : Z) (line : list byte) (ok : bool) (s : t) (w w' : world) : Prop :=
  files w' = files w /\
  match socks w !! s with
  | Some k =>
      if ok
      then errors w' = errors w /\
           socks w' = <[s := mk_sock (<[(level, opt_name) := val]> (options k)) (bound k) (listening k) (write_shut k)]> (socks w)
      else errors w' = errors w ++ [line] /\ socks w' = socks w
  | None => errors w' = errors w ++ [line] /\ socks w' = socks w
  end.

Lemma alter_is_insert {A} (f : A -> A) (i : Z) (x : A) (m : gmap Z A) : m !! i = Some x -> alter f i m = <[i := f x]> m.
Proof. intros Hi. rewrite <- (insert_id m i x) at 1 by done. by rewrite alter_insert_eq. Qed.

Lemma setter_sets level opt_name val line ok s w :
  sets level opt_name val line ok s w
    (let '(ret, w1) := set_sock_opt ok level opt_name val s w in
     if negb (ret =? 0) then log_error line w1 else w1).
Proof.
  unfold sets, set_sock_opt. destruct (socks w !! s) as [k|] eqn:E.
  - rewrite bool_decide_true by by eexists. destruct ok; cbn; [| done].
    split_and!; [done | done |]. by rewrite (alter_is_insert _ s k (socks w) E).
  - rewrite bool_decide_false by by intros []. by rewrite andb_false_r.
Qed.

(** The text of the statistics fits: it has at most 220 bytes. *)
Definition u32_fields (i : tcp_info) : Prop :=
  Forall (fun z => 0 <= z < 4294967296)
    [tcpi_retransmits i; tcpi_rto i; tcpi_ato i; tcpi_snd_mss i; tcpi_rcv_mss i; tcpi_lost i; tcpi_retrans i;
     tcpi_rtt i; tcpi_rttvar i; tcpi_snd_ssthresh i; tcpi_snd_cwnd i; tcpi_total_retrans i].
Lemma info_text_fits i : u32_fields i -> (length (info_text i) <= 220)%nat.
Proof.
  intros Hi. unfold u32_fields in Hi. rewrite !Forall_cons in Hi. destruct_and! Hi.
  assert (forall z, 0 <= z < 4294967296 -> (length (decimal z) <= 10)%nat) as Hd.
  { intros z Hz. apply (decimal_length z 9). cbn. lia. }
  unfold info_text. rewrite !length_app.
  repeat match goal with |- context [length (bytes ?s)] => let n := eval vm_compute in (length (bytes s)) in change (length (bytes s)) with n end.
  repeat match goal with H1 : 0 <= ?z, H2 : ?z < 4294967296 |- _ =>
    pose proof (Hd z (conj H1 H2)); clear H1 H2 end. lia.
Qed.
End SocketSpec.

(** ** The properties *)

Module SocketProps.
Import SocketObject SocketSpec.

(** The four setters: each switches its own option of its own socket, or, when the
    kernel refuses, changes nothing and says so. *)
Theorem socket_options_set ok on s w :
  let val := if on : bool then 1 else 0 in
  sets IPPROTO_TCP TCP_NODELAY val (bytes "Socket::set_TCP_no_delay()") ok s w (set_TCP_no_delay ok on s w) /\
  sets SOL_SOCKET SO_REUSEADDR val (bytes "Socket::set_reuse_addr()") ok s w (set_reuse_addr ok on s w) /\
  sets SOL_SOCKET SO_REUSEPORT val (bytes "Socket::set_reuse_port()") ok s w (set_reuse_port ok on s w) /\
  sets SOL_SOCKET SO_KEEPALIVE val (bytes "Socket::set_keep_alive()") ok s w (set_keep_alive ok on s w).
Proof. intros val. split_and!; apply setter_sets. Qed.

(** TCP_INFO never arrives. [get_TCP_info] gives the kernel the address of its own
    parameter: an answer longer than a pointer is written over the stack, and
    [*info] is never filled in, so that the statistics cannot be printed; all that
    [get_tcp_info_string] can return is the empty string of a failure. *)
Theorem tcp_info_never_read answer w :
  (forall info b info' w', get_TCP_info answer info w = Ret (b, info', w') -> info' = info) /\
  (forall text w', get_tcp_info_string answer w = Ret (text, w') -> answer = None /\ text = []) /\
  (forall n, answer = Some n -> 8 < n -> forall info, get_TCP_info answer info w = Stop UndefinedBehaviour).
Proof.
  split_and!.
  - intros info b info' w'. unfold get_TCP_info. destruct answer as [n|]; [destruct (_ <? _) |]; by intros [= _ <- _].
  - intros text w'. unfold get_tcp_info_string, get_TCP_info_string, get_TCP_info.
    destruct answer as [n|]; [destruct (_ <? _) |]; cbn; [done | done |]. by intros [= <- _].
  - intros n -> Hn info. unfold get_TCP_info, pointer_size. by rewrite (proj2 (Z.ltb_lt _ _)).
Qed.

(** An Acceptor's socket can be used again at once, is bound to its address, and is
    closed with the acceptor; the spare descriptor is not. *)
Theorem acceptor_leaks_idle_fd a listen_addr reuse_port w s
    (Hs : AcceptorSocket.a_socket a = Some s) (Hfresh : socks w !! s = None)
    (Ho : 0 <= AcceptorSocket.a_open a)
    (Hok : AcceptorSocket.a_reuse_addr a = true /\ AcceptorSocket.a_reuse_port a = true /\ AcceptorSocket.a_bind a = true) :
  exists self w1 w2 w3 k,
    AcceptorSocket.construct a listen_addr reuse_port w = Ret (self, w1) /\
    AcceptorSocket.listen true self w1 = Ret w2 /\ socks w2 !! s = Some k /\
    options k !! (SOL_SOCKET, SO_REUSEADDR) = Some 1 /\
    bound k = Some (InetAddress.get_sock_addr listen_addr) /\ listening k = true /\
    AcceptorSocket.destroy self w2 = Ret w3 /\
    socks w3 = socks w /\ files w3 = files w ∪ {[ AcceptorSocket.a_open a ]} /\ errors w3 = errors w.
Proof.
  destruct a as [sk idle ra rp bd]. cbn in Hs, Ho, Hok. destruct Hok as (-> & -> & ->). subst sk.
  assert (Hset : forall level opt_name val m k l, socks m = <[s := k]> l ->
            set_sock_opt true level opt_name val s m
            = (0, mk_world (<[s := mk_sock (<[(level, opt_name) := val]> (options k)) (bound k) (listening k) (write_shut k)]> l)
                    (files m) (errors m))).
  { intros level opt_name val m k l E. unfold set_sock_opt.
    rewrite bool_decide_true by (rewrite E, lookup_insert_eq; by eexists). cbn. unfold update.
    by rewrite E, stdpp.fin_maps.alter_insert_eq. }
  unfold AcceptorSocket.construct, set_reuse_addr, set_reuse_port.
  cbn [AcceptorSocket.a_socket AcceptorSocket.a_open AcceptorSocket.a_reuse_addr AcceptorSocket.a_reuse_port
    AcceptorSocket.a_bind make mbind res_bind mret res_ret].
  rewrite (proj2 (Z.ltb_ge _ _)) by done.
  rewrite (Hset SOL_SOCKET SO_REUSEADDR _ _ new_sock (socks w)) by reflexivity. cbn [Z.eqb negb].
  erewrite (Hset SOL_SOCKET SO_REUSEPORT _ _ _ (socks w)) by (cbn [socks]; reflexivity). cbn [Z.eqb negb].
  eexists _, _, _, _, _. split_and!; [reflexivity | reflexivity | | | | | | | |].
  - cbn. rewrite !stdpp.fin_maps.alter_insert_eq, lookup_insert_eq. reflexivity.
  - cbn. rewrite lookup_insert_ne by (unfold SO_REUSEPORT, SO_REUSEADDR; congruence). by rewrite lookup_insert_eq.
  - done.
  - done.
  - unfold AcceptorSocket.destroy, destroy. cbn. rewrite !stdpp.fin_maps.alter_insert_eq, lookup_insert_eq. reflexivity.
  - cbn. rewrite delete_insert_eq. by apply delete_id.
  - done.
  - done.
Qed.
End SocketProps.
